(** * Fancy Tiles: the layout tree and its editing operations

    A shallow embedding of [node_tree.js] (class [LayoutNode] and the five
    [LayoutOperation] subclasses) and of the integrity gate of
    [io-utils.js].

    Modelling choices.
    - JavaScript numbers are exact rationals extended with [+Infinity],
      [-Infinity] and [NaN]; the rounding error of IEEE doubles and the sign
      of zero are not modelled.
    - Objects live in a store (a list of object records); a reference is an
      index into it.  Methods that mutate [this] or other objects take the
      store and return the new one; object identity ([indexOf], parent
      back-references, the array shared by [revert]) is identity of
      references.
    - Recursive methods descend through [children].  They are written with a
      depth budget; a method called on a store [s] gets the budget
      [S (length s)], which a descent that never meets the same object twice
      cannot exhaust.  [None] stands for a call that does not return
      (unbounded recursion through a cyclic [children] graph).
    - A layout file is a parsed JSON value ([JsonValue]).  [Json] is the
      part of it that [fromJSON] reads when the file is an object of the
      layout's form, and [fromJSON_any] reads any parsed value, with the
      TypeError the loader catches.  The fields [percentage] and [margin]
      hold a number, [null] or [undefined]: for a file that has another
      value there [fromJSON_any] is [None].
    - Where a statement depends on sums and differences being exact, it is
      made for whole numbers that doubles represent exactly. *)

From Stdlib Require Import ZArith QArith Qround Qabs Qminmax Bool List String Lia Lqa.
From stdpp Require Import base option list.

Set Default Proof Using "Type".

(** ** JavaScript numbers *)

Inductive num : Type :=
  | NaN
  | NegInf
  | Fin (q : Q)
  | PosInf.

Module Num.

Definition ofZ (z : Z) : num := Fin (inject_Z z).

Definition Qltb (a b : Q) : bool :=
  match Qcompare a b with Lt => true | _ => false end.

Definition neg (a : num) : num :=
  match a with
  | NaN => NaN
  | NegInf => PosInf
  | Fin q => Fin (Qopp q)
  | PosInf => NegInf
  end.

Definition add (a b : num) : num :=
  match a, b with
  | NaN, _ | _, NaN => NaN
  | PosInf, NegInf | NegInf, PosInf => NaN
  | PosInf, _ | _, PosInf => PosInf
  | NegInf, _ | _, NegInf => NegInf
  | Fin p, Fin q => Fin (Qplus p q)
  end.

Definition sub (a b : num) : num := add a (neg b).

(** Sign of a number as the factor an infinity is multiplied with:
    [Some true] positive, [Some false] negative, [None] zero or NaN. *)
Definition sign (a : num) : option bool :=
  match a with
  | NaN => None
  | NegInf => Some false
  | PosInf => Some true
  | Fin q => match Qcompare q 0 with
             | Gt => Some true
             | Lt => Some false
             | Eq => None
             end
  end.

Definition inf (positive : bool) : num :=
  if positive then PosInf else NegInf.

Definition mul (a b : num) : num :=
  match a, b with
  | Fin p, Fin q => Fin (Qmult p q)
  | NaN, _ | _, NaN => NaN
  | _, _ => match sign a, sign b with
            | Some sa, Some sb => inf (Bool.eqb sa sb)
            | _, _ => NaN
            end
  end.

Definition div (a b : num) : num :=
  match a, b with
  | NaN, _ | _, NaN => NaN
  | Fin p, Fin q =>
      if Qeq_bool q 0
      then match sign a with Some sa => inf sa | None => NaN end
      else Fin (Qdiv p q)
  | Fin _, _ => Fin 0
  | _, Fin q =>
      match sign a with
      | Some sa => inf (if Qltb q 0 then negb sa else sa)
      | None => NaN
      end
  | _, _ => NaN
  end.

Definition abs (a : num) : num :=
  match a with
  | NaN => NaN
  | NegInf | PosInf => PosInf
  | Fin q => Fin (Qabs q)
  end.

(** [Math.round]: the nearest integer, a tie going up. *)
Definition round (a : num) : num :=
  match a with
  | Fin q => Fin (inject_Z (Qfloor (Qplus q (1 # 2))))
  | _ => a
  end.

Definition ltb (a b : num) : bool :=
  match a, b with
  | NaN, _ | _, NaN => false
  | _, NegInf => false
  | NegInf, _ => true
  | PosInf, _ => false
  | _, PosInf => true
  | Fin p, Fin q => Qltb p q
  end.

Definition leb (a b : num) : bool :=
  match a, b with
  | NaN, _ | _, NaN => false
  | NegInf, _ => true
  | _, NegInf => false
  | _, PosInf => true
  | PosInf, _ => false
  | Fin p, Fin q => Qle_bool p q
  end.

Definition gtb (a b : num) : bool := ltb b a.
Definition geb (a b : num) : bool := leb b a.

(** [===] on numbers. *)
Definition eqb (a b : num) : bool :=
  match a, b with
  | NegInf, NegInf | PosInf, PosInf => true
  | Fin p, Fin q => Qeq_bool p q
  | _, _ => false
  end.

Definition max (a b : num) : num :=
  match a, b with
  | NaN, _ | _, NaN => NaN
  | _, _ => if ltb a b then b else a
  end.

Definition min (a b : num) : num :=
  match a, b with
  | NaN, _ | _, NaN => NaN
  | _, _ => if ltb b a then b else a
  end.

Definition isFinite (a : num) : bool :=
  match a with Fin _ => true | _ => false end.

End Num.

(** A property that holds a number, [undefined] or [null]
    ([percentage] before it is assigned, or as read from a JSON object). *)
Inductive jsval : Type :=
  | JUndefined
  | JNull
  | JNum (n : num).

(** [ToNumber] on such a value. *)
Definition toNumber (v : jsval) : num :=
  match v with
  | JUndefined => NaN
  | JNull => Fin 0
  | JNum n => n
  end.

(** [===] between a property value and a number. *)
Definition strictEqNum (v : jsval) (n : num) : bool :=
  match v with
  | JNum m => Num.eqb m n
  | _ => false
  end.

(** ** Rectangles, objects and the store *)

Module Rect.
Record t : Type := mk { x : num; y : num; width : num; height : num }.
End Rect.

(** The sentinel values for last row and last column. *)
Inductive Axis : Type := AxisX | AxisY.

Definition LastNodeXPercentage : num := PosInf.
Definition LastNodeYPercentage : num := NegInf.
Definition LastNodePercentages (a : Axis) : num :=
  match a with AxisX => LastNodeXPercentage | AxisY => LastNodeYPercentage end.

Definition LastNodeXPercentageJson : num := Num.ofZ 99999.
Definition LastNodeYPercentageJson : num := Num.ofZ (-99999).

(** References to [LayoutNode] objects and to arrays of them. *)
Abbreviation ref := nat (only parsing).
Abbreviation aref := nat (only parsing).

(** The fields of a [LayoutNode] object.  [children] holds a reference to
    an array: two objects can hold the same array. *)
Record obj : Type := mkObj {
  percentage : jsval;
  parent : option ref;
  children : aref;
  rect : Rect.t;
  isResizing : bool;
  isPreview : bool;
  isHighlighted : bool;
  originalRect : option Rect.t;
  isSnappingDestination : bool;
  margin : num
}.

Definition set_percentage (v : jsval) (o : obj) : obj :=
  mkObj v (parent o) (children o) (rect o) (isResizing o) (isPreview o)
        (isHighlighted o) (originalRect o) (isSnappingDestination o) (margin o).
Definition set_parent (v : option ref) (o : obj) : obj :=
  mkObj (percentage o) v (children o) (rect o) (isResizing o) (isPreview o)
        (isHighlighted o) (originalRect o) (isSnappingDestination o) (margin o).
Definition set_children (v : aref) (o : obj) : obj :=
  mkObj (percentage o) (parent o) v (rect o) (isResizing o) (isPreview o)
        (isHighlighted o) (originalRect o) (isSnappingDestination o) (margin o).
Definition set_rect (v : Rect.t) (o : obj) : obj :=
  mkObj (percentage o) (parent o) (children o) v (isResizing o) (isPreview o)
        (isHighlighted o) (originalRect o) (isSnappingDestination o) (margin o).
Definition set_isResizing (v : bool) (o : obj) : obj :=
  mkObj (percentage o) (parent o) (children o) (rect o) v (isPreview o)
        (isHighlighted o) (originalRect o) (isSnappingDestination o) (margin o).
Definition set_isPreview (v : bool) (o : obj) : obj :=
  mkObj (percentage o) (parent o) (children o) (rect o) (isResizing o) v
        (isHighlighted o) (originalRect o) (isSnappingDestination o) (margin o).
Definition set_isHighlighted (v : bool) (o : obj) : obj :=
  mkObj (percentage o) (parent o) (children o) (rect o) (isResizing o)
        (isPreview o) v (originalRect o) (isSnappingDestination o) (margin o).
Definition set_originalRect (v : option Rect.t) (o : obj) : obj :=
  mkObj (percentage o) (parent o) (children o) (rect o) (isResizing o)
        (isPreview o) (isHighlighted o) v (isSnappingDestination o) (margin o).
Definition set_isSnappingDestination (v : bool) (o : obj) : obj :=
  mkObj (percentage o) (parent o) (children o) (rect o) (isResizing o)
        (isPreview o) (isHighlighted o) (originalRect o) v (margin o).
Definition set_margin (v : num) (o : obj) : obj :=
  mkObj (percentage o) (parent o) (children o) (rect o) (isResizing o)
        (isPreview o) (isHighlighted o) (originalRect o)
        (isSnappingDestination o) v.

Record store : Type := mkStore {
  objs : list obj;
  arrs : list (list ref)
}.

Definition emptyStore : store := mkStore [] [].

(** Field assignment [r.f = v], as a function on the object [r]. *)
Definition updObj (f : obj -> obj) (r : ref) (s : store) : store :=
  mkStore (alter f r (objs s)) (arrs s).

(** Replacing the contents of the array [a] (an in-place [splice]). *)
Definition setArr (a : aref) (l : list ref) (s : store) : store :=
  mkStore (objs s) (<[a := l]> (arrs s)).

(** An array literal or the result of [map]: a new array. *)
Definition allocArr (l : list ref) (s : store) : store * aref :=
  (mkStore (objs s) (arrs s ++ [l]), length (arrs s)).

Definition allocObj (o : obj) (s : store) : store * ref :=
  (mkStore (objs s ++ [o]) (arrs s), length (objs s)).

(** The elements of [r.children]. *)
Definition kids (s : store) (r : ref) : option (list ref) :=
  o ← objs s !! r; arrs s !! children o.

(** The depth budget of a recursive method called on [s]. *)
Definition budget (s : store) : nat := S (length (objs s)).

(** [l.reduce((acc, e) => f(acc, e), a)] where [f] may fail to return. *)
Definition foldlM {A B : Type} (f : A -> B -> option A)
  : A -> list B -> option A :=
  fix go (a : A) (l : list B) : option A :=
    match l with
    | [] => Some a
    | b :: l => a' ← f a b; go a' l
    end.

(** [l.reduce((found, e) => found || f(e), null)] *)
Definition reduceOr {A B : Type} (f : B -> option (option A)) (l : list B)
  : option (option A) :=
  foldlM (fun found e => match found with
                         | Some _ => Some found
                         | None => f e
                         end) None l.

(** [l.findIndex(p)], [None] for [-1]. *)
Fixpoint findIndex {A : Type} (p : A -> bool) (l : list A) : option nat :=
  match l with
  | [] => None
  | a :: l => if p a then Some 0 else S <$> findIndex p l
  end.

(** [l.indexOf(r)] for an array of references. *)
Definition indexOf (r : ref) (l : list ref) : option nat :=
  findIndex (Nat.eqb r) l.

(** [l.splice(i, 0, e)], where [i] is the result of [findIndex]: [-1]
    counts from the end, so the element goes before the last one. *)
Definition spliceIn {A : Type} (i : option nat) (e : A) (l : list A) : list A :=
  let start := match i with Some i => i | None => length l - 1 end in
  take start l ++ e :: drop start l.

(** [l.splice(i, 1)] *)
Definition spliceOut {A : Type} (i : nat) (l : list A) : list A :=
  take i l ++ drop (S i) l.

(** The persisted layout: [children], [percentage] and [margin] of an
    object read from a file or written by [toJSON]; [None] and
    [JUndefined] are a key that is absent (reading it gives [undefined]). *)
Unset Elimination Schemes.
Inductive Json : Type :=
  | JObj (jchildren : option (list Json)) (jpercentage : jsval)
         (jmargin : option num).
Set Elimination Schemes.

(** A parsed JSON text, as [JSON.parse] returns it.  The members of an
    object are in the order of the text. *)
Unset Elimination Schemes.
Inductive JsonValue : Type :=
  | VNull
  | VBool (b : bool)
  | VNumber (n : num)
  | VString (str : string)
  | VArray (elements : list JsonValue)
  | VObject (members : list (string * JsonValue)).
Set Elimination Schemes.

(** [json[key]] for a parsed value other than [null] and a [key] that no
    prototype defines: the last member of that name, [None] for
    [undefined]. *)
Definition getMember (key : string) (json : JsonValue) : option JsonValue :=
  match json with
  | VObject members =>
      snd <$> List.find (fun m => String.eqb (fst m) key) (rev members)
  | _ => None
  end.

(** A method that returns, or throws with the store as it is then. *)
Inductive Completion (A : Type) : Type :=
  | Normal (a : A)
  | Throw (s : store).
Arguments Normal {A} a.
Arguments Throw {A} s.

(** The value [JSON.parse] reads from the text [JSON.stringify] writes for
    a number: a number that is not finite is written as [null]. *)
Definition writtenNumber (n : num) : JsonValue :=
  if Num.isFinite n then VNumber n else VNull.

(** [JSON.parse(JSON.stringify(j))] for an object [j] built by [toJSON]:
    the keys in the order [toJSON] assigns them, a key that holds
    [undefined] left out. *)
Fixpoint written (j : Json) : JsonValue :=
  match j with
  | JObj jchildren jpercentage jmargin =>
      VObject
        (match jchildren with
         | Some l => [("children"%string, VArray (written <$> l))]
         | None => []
         end
         ++ match jpercentage with
            | JUndefined => []
            | JNull => [("percentage"%string, VNull)]
            | JNum n => [("percentage"%string, writtenNumber n)]
            end
         ++ match jmargin with
            | Some m => [("margin"%string, writtenNumber m)]
            | None => []
            end)
  end.

(** The parsed file that has exactly the keys and values of [j]. *)
Fixpoint valueOf (j : Json) : JsonValue :=
  match j with
  | JObj jchildren jpercentage jmargin =>
      VObject
        (match jchildren with
         | Some l => [("children"%string, VArray (valueOf <$> l))]
         | None => []
         end
         ++ match jpercentage with
            | JUndefined => []
            | JNull => [("percentage"%string, VNull)]
            | JNum n => [("percentage"%string, VNumber n)]
            end
         ++ match jmargin with
            | Some m => [("margin"%string, VNumber m)]
            | None => []
            end)
  end.

(** Every number in [j] is finite: the text written for [j] is read back
    as [j]. *)
Fixpoint textExact (j : Json) : bool :=
  match j with
  | JObj jchildren jpercentage jmargin =>
      match jchildren with
      | Some l => forallb textExact l
      | None => true
      end
      && match jpercentage with
         | JNum n => Num.isFinite n
         | _ => true
         end
      && match jmargin with
         | Some m => Num.isFinite m
         | None => true
         end
  end.

(** How deep arrays and objects are nested in a parsed value. *)
Fixpoint nesting (json : JsonValue) : nat :=
  match json with
  | VArray elements =>
      S (foldr (fun v n => Nat.max (nesting v) n) 0 elements)
  | VObject members =>
      S (foldr (fun m n => Nat.max (nesting (snd m)) n) 0 members)
  | _ => 0
  end.

(** ** class LayoutNode *)

Module LayoutNode.

Definition zeroRect : Rect.t :=
  Rect.mk (Num.ofZ 0) (Num.ofZ 0) (Num.ofZ 0) (Num.ofZ 0).

(** The field initialisers of the class, with [percentage] and
    [children] as the constructor assigns them. *)
Definition fresh (percentage : jsval) (children : aref) : obj :=
  mkObj percentage None children zeroRect false false false None false
        (Num.ofZ 0).

Definition isColumn (o : obj) : bool :=
  Num.geb (toNumber (percentage o)) (Num.ofZ 0).

Definition isRow (o : obj) : bool :=
  Num.leb (toNumber (percentage o)) (Num.ofZ 0).

Definition isRoot (o : obj) : bool :=
  match parent o with None => true | Some _ => false end.

(** the axis along which the leading edge (right or bottom edge) of the
    node is positioned *)
Definition axis (o : obj) : Axis :=
  if isColumn o then AxisX else AxisY.

Definition isAxisX (a : Axis) : bool :=
  match a with AxisX => true | AxisY => false end.

Definition snapRect (o : obj) : Rect.t :=
  Rect.mk (Num.add (Rect.x (rect o)) (margin o))
          (Num.add (Rect.y (rect o)) (margin o))
          (Num.sub (Rect.width (rect o)) (Num.mul (margin o) (Num.ofZ 2)))
          (Num.sub (Rect.height (rect o)) (Num.mul (margin o) (Num.ofZ 2))).

(** [for (let child of children) child.parent = this] *)
Definition setParents (this : ref) (cs : list ref) (s : store) : store :=
  foldl (fun s child => updObj (set_parent (Some this)) child s) s cs.

(** [new LayoutNode(percentage, children)]; [children = None] is the
    default parameter, a new empty array. *)
Definition new (percentage : jsval) (children : option aref) (s : store)
  : option (store * ref) :=
  let '(s, children) :=
    match children with
    | Some a => (s, a)
    | None => allocArr [] s
    end in
  let '(s, this) := allocObj (fresh percentage children) s in
  cs ← arrs s !! children;
  let s := setParents this cs s in
  (* ensure that last child is always the expanding node *)
  if 2 <=? length cs then
    first ← head cs;
    fo ← objs s !! first;
    lastChild ← last cs;
    let fillerPercentage :=
      if isAxisX (axis fo) then LastNodeXPercentage else LastNodeYPercentage in
    Some (updObj (set_percentage (JNum fillerPercentage)) lastChild s, this)
  else Some (s, this).

Fixpoint clone_ (fuel : nat) (this : ref) (s : store) : option (store * ref) :=
  match fuel with
  | 0 => None
  | S fuel =>
      o ← objs s !! this;
      cs ← arrs s !! children o;
      '(s, clones) ← foldlM (fun '(s, acc) child =>
                               '(s, c) ← clone_ fuel child s;
                               Some (s, acc ++ [c])) (s, []) cs;
      let '(s, arr) := allocArr clones s in
      '(s, clone) ← new (percentage o) (Some arr) s;
      o ← objs s !! this;
      Some (updObj (fun c => set_margin (margin o)
                              (set_isPreview (isPreview o)
                                (set_isResizing (isResizing o)
                                  (set_rect (rect o) c)))) clone s, clone)
  end.

Definition clone (this : ref) (s : store) : option (store * ref) :=
  clone_ (budget s) this s.

Definition revert (this snapshotRootNode : ref) (s : store) : option store :=
  _ ← objs s !! this;
  o ← objs s !! snapshotRootNode;
  Some (updObj (fun t => set_children (children o)
                          (set_margin (margin o)
                            (set_isPreview (isPreview o)
                              (set_isResizing (isResizing o)
                                (set_rect (rect o)
                                  (set_percentage (percentage o) t))))))
               this s).

Definition isLeaf (s : store) (o : obj) : option bool :=
  cs ← arrs s !! children o; Some (length cs =? 0).

Definition isNull (v : jsval) : bool :=
  match v with JNull => true | _ => false end.

Definition badPercentage (c : obj) : bool :=
  isNull (percentage c)
  || Num.ltb (toNumber (percentage c)) (Num.ofZ (-1))
  || Num.gtb (toNumber (percentage c)) (Num.ofZ 1).

(** [[Number.POSITIVE_INFINITY, Number.NEGATIVE_INFINITY].includes(v)] *)
Definition isLastNodePercentage (v : jsval) : bool :=
  match v with
  | JNum PosInf | JNum NegInf => true
  | _ => false
  end.

Fixpoint getIntegrityError_ (fuel : nat) (this : ref) (s : store)
  : option (option string) :=
  match fuel with
  | 0 => None
  | S fuel =>
      cs ← kids s this;
      os ← mapM (fun c => objs s !! c) cs;
      if length cs =? 1 then
        Some (Some "broken invariant: children has 1 element"%string)
      else if existsb badPercentage (take (length os - 1) os) then
        Some (Some "broken invariant: percentage not in [-1,1]"%string)
      else if existsb (fun c => negb (isLastNodePercentage (percentage c)))
                      (drop (length os - 1) os) then
        Some (Some "broken invariant: last child invalid percentage"%string)
      else reduceOr (fun child => getIntegrityError_ fuel child s) cs
  end.

Definition getIntegrityError (this : ref) (s : store) : option (option string) :=
  getIntegrityError_ (budget s) this s.

(** [displayOnAxis[axis] + Math.round(Math.abs(screenLength[axis] *
    percentage) / 10) * 10] *)
Definition posOnAxis (display : Rect.t) (a : Axis) (p : jsval) : num :=
  let displayOnAxis :=
    match a with AxisX => Rect.x display | AxisY => Rect.y display end in
  let screenLength :=
    match a with AxisX => Rect.width display | AxisY => Rect.height display end in
  Num.add displayOnAxis
    (Num.mul (Num.round (Num.div (Num.abs (Num.mul screenLength (toNumber p)))
                                 (Num.ofZ 10)))
             (Num.ofZ 10)).

(** One turn of the loop over the children except the last one, and the
    step for the last child.  [calc] is the recursive call, [r] the
    rectangle of [this]; the state is the store with
    [previousPosOnAxis[AxisX]] and [previousPosOnAxis[AxisY]]. *)
Definition placeChild
  (calc : ref -> option Rect.t -> option Rect.t -> store -> option store)
  (display r : Rect.t) (st : store * num * num) (child : ref)
  : option (store * num * num) :=
  let '(s, prevX, prevY) := st in
  c ← objs s !! child;
  (* calculate the position of the edge along the axis *)
  let pos := posOnAxis display (axis c) (percentage c) in
  match axis c with
  | AxisX =>
      (* child is a column node *)
      s ← calc child
            (Some (Rect.mk prevX (Rect.y r) (Num.sub pos prevX) (Rect.height r)))
            (Some display) s;
      Some (s, pos, prevY)
  | AxisY =>
      (* child is a row node *)
      s ← calc child
            (Some (Rect.mk (Rect.x r) prevY (Rect.width r) (Num.sub pos prevY)))
            (Some display) s;
      Some (s, prevX, pos)
  end.

Definition placeLast
  (calc : ref -> option Rect.t -> option Rect.t -> store -> option store)
  (display r : Rect.t) (st : store * num * num) (lastChild : ref)
  : option store :=
  let '(s, prevX, prevY) := st in
  c ← objs s !! lastChild;
  match axis c with
  | AxisX =>
      calc lastChild
        (Some (Rect.mk prevX (Rect.y r)
                       (Num.sub (Num.add (Rect.x r) (Rect.width r)) prevX)
                       (Rect.height r)))
        (Some display) s
  | AxisY =>
      calc lastChild
        (Some (Rect.mk (Rect.x r) prevY (Rect.width r)
                       (Num.sub (Num.add (Rect.y r) (Rect.height r)) prevY)))
        (Some display) s
  end.

(** [args = None] is the call without arguments ([x === undefined]);
    [display = None] is the call of the caller, who does not pass it.
    The method assigns [rect] and nothing else, so [this.children], which
    the loop reads again at each turn, is read once. *)
Fixpoint calculateRects_ (fuel : nat) (this : ref) (args display : option Rect.t)
  (s : store) : option store :=
  match fuel with
  | 0 => None
  | S fuel =>
      o ← objs s !! this;
      let r := default (rect o) args in
      let s := updObj (set_rect r) this s in
      cs ← arrs s !! children o;
      if length cs =? 0 then Some s else
      (* calculate the sizes of children for internal nodes *)
      let display := default r display in
      (* Calculate rectangles for all children except the last one *)
      st ← foldlM (placeChild (calculateRects_ fuel) display r)
                  (s, Rect.x r, Rect.y r) (take (length cs - 1) cs);
      (* Calculate rectangle for the last child *)
      lastChild ← last cs;
      placeLast (calculateRects_ fuel) display r st lastChild
  end.

Definition calculateRects (this : ref) (args : option Rect.t) (s : store)
  : option store :=
  calculateRects_ (budget s) this args None s.

Fixpoint validateRects_ (fuel : nat) (this : ref) (s : store) : option bool :=
  match fuel with
  | 0 => None
  | S fuel =>
      o ← objs s !! this;
      cs ← arrs s !! children o;
      if Num.leb (Rect.width (rect o)) (Num.ofZ 100)
         || Num.leb (Rect.height (rect o)) (Num.ofZ 100)
      then Some false
      else foldlM (fun ok child =>
                     if ok : bool then validateRects_ fuel child s
                     else Some false) true cs
  end.

Definition validateRects (this : ref) (s : store) : option bool :=
  validateRects_ (budget s) this s.

(** [func] is the assignment the callback makes to the node it is given. *)
Fixpoint forSelfAndDescendants_ (fuel : nat) (func : obj -> obj) (this : ref)
  (s : store) : option store :=
  match fuel with
  | 0 => None
  | S fuel =>
      _ ← objs s !! this;
      let s := updObj func this s in
      cs ← kids s this;
      foldlM (fun s c => forSelfAndDescendants_ fuel func c s) s cs
  end.

Definition forSelfAndDescendants (func : obj -> obj) (this : ref) (s : store)
  : option store :=
  forSelfAndDescendants_ (budget s) func this s.

Definition forDescendants (func : obj -> obj) (this : ref) (s : store)
  : option store :=
  cs ← kids s this;
  foldlM (fun s c => forSelfAndDescendants_ (budget s) func c s) s cs.

(** insert a child node into the tree, takes into account the ordering
    based on the percentage *)
Definition insertChild (this child : ref) (s : store) : option store :=
  o ← objs s !! this;
  cs ← arrs s !! children o;
  c ← objs s !! child;
  if bool_decide (indexOf child cs <> None) then
    Some s (* 'Child already in children collection' *)
  else if strictEqNum (percentage c) LastNodeXPercentage
          || strictEqNum (percentage c) LastNodeYPercentage then
    Some s (* 'Child has invalid percentage' *)
  else
    let s := updObj (set_parent (Some this)) child s in
    os ← mapM (fun c => objs s !! c) cs;
    Some (setArr (children o)
            (spliceIn
               (findIndex (fun c' => Num.gtb (Num.abs (toNumber (percentage c')))
                                             (Num.abs (toNumber (percentage c))))
                          os)
               child cs) s).

Fixpoint findNode_ (fuel : nat) (predicate : obj -> bool) (this : ref)
  (s : store) : option (option ref) :=
  match fuel with
  | 0 => None
  | S fuel =>
      o ← objs s !! this;
      cs ← arrs s !! children o;
      if predicate o then Some (Some this)
      else reduceOr (fun child => findNode_ fuel predicate child s) cs
  end.

Definition findNode (predicate : obj -> bool) (this : ref) (s : store)
  : option (option ref) :=
  findNode_ (budget s) predicate this s.

(** delete the given node in the tree if found *)
Fixpoint delete_ (fuel : nat) (this node : ref) (s : store)
  : option (bool * store) :=
  match fuel with
  | 0 => None
  | S fuel =>
      o ← objs s !! this;
      cs ← arrs s !! children o;
      match indexOf node cs with
      | Some index =>
          if length cs =? 2 then
            (* this becomes a leaf node after deletion *)
            let '(s, arr) := allocArr [] s in
            Some (true, updObj (set_children arr) this s)
          else
            Some (true, setArr (children o) (spliceOut index cs) s)
      | None =>
          foldlM (fun '(deleted, s) child =>
                    if deleted : bool then Some (deleted, s)
                    else delete_ fuel child node s) (false, s) cs
      end
  end.

Definition delete (this node : ref) (s : store) : option (bool * store) :=
  delete_ (budget s) this node s.

Definition inRect (x y : num) (r : Rect.t) : bool :=
  Num.geb x (Rect.x r)
  && Num.leb x (Num.add (Rect.x r) (Rect.width r))
  && Num.geb y (Rect.y r)
  && Num.leb y (Num.add (Rect.y r) (Rect.height r)).

(** find the leaf node in the tree that contains the given coordinates *)
Fixpoint findNodeAtPosition_ (fuel : nat) (x y : num) (this : ref) (s : store)
  : option (option ref) :=
  match fuel with
  | 0 => None
  | S fuel =>
      o ← objs s !! this;
      cs ← arrs s !! children o;
      if inRect x y (rect o) && (length cs =? 0) then Some (Some this)
      else reduceOr (fun child => findNodeAtPosition_ fuel x y child s) cs
  end.

Definition findNodeAtPosition (x y : num) (this : ref) (s : store)
  : option (option ref) :=
  findNodeAtPosition_ (budget s) x y this s.

(** get the rectangle of the divider for this node.  [axis()] returns
    [AxisX] or [AxisY], so the third arm of the source, the rectangle
    [{x: -1, y: -1, width: 0, height: 0}] of a root, is never taken. *)
Definition getDividerRect (dividerWidth : num) (o : obj) : Rect.t :=
  let dividerWidth :=
    Num.max dividerWidth (Num.mul (Num.ofZ 2) (margin o)) in
  match axis o with
  | AxisX =>
      (* right edge is leading edge (divider edge) *)
      Rect.mk (Num.sub (Num.add (Rect.x (rect o)) (Rect.width (rect o)))
                       (Num.div dividerWidth (Num.ofZ 2)))
              (Rect.y (rect o))
              dividerWidth
              (Rect.height (rect o))
  | AxisY =>
      (* bottom edge is leading edge (divider edge) *)
      Rect.mk (Rect.x (rect o))
              (Num.sub (Num.add (Rect.y (rect o)) (Rect.height (rect o)))
                       (Num.div dividerWidth (Num.ofZ 2)))
              (Rect.width (rect o))
              dividerWidth
  end.

(** find the node with its leading edge (divider) at the given position *)
Fixpoint findDividerAtPosition_ (fuel : nat) (x y dividerWidth : num)
  (this : ref) (s : store) : option (option ref) :=
  match fuel with
  | 0 => None
  | S fuel =>
      o ← objs s !! this;
      cs ← arrs s !! children o;
      if inRect x y (getDividerRect dividerWidth o) then Some (Some this)
      else reduceOr
             (fun child => findDividerAtPosition_ fuel x y dividerWidth child s)
             cs
  end.

Definition findDividerAtPosition (x y dividerWidth : num) (this : ref)
  (s : store) : option (option ref) :=
  findDividerAtPosition_ (budget s) x y dividerWidth this s.

(** The [percentage] and [margin] keys [toJSON] writes. *)
Definition jsonOfPercentage (v : jsval) : jsval :=
  if negb (isNull v) then
    if strictEqNum v LastNodeXPercentage then JNum LastNodeXPercentageJson
    else if strictEqNum v LastNodeYPercentage then JNum LastNodeYPercentageJson
    else v
  else JUndefined.

(** Add margin to JSON if it's non-zero *)
Definition jsonOfMargin (m : num) : option num :=
  if negb (Num.eqb m (Num.ofZ 0)) then Some m else None.

(** convert the node to a JSON object for saving *)
Fixpoint toJSON_ (fuel : nat) (this : ref) (s : store) : option Json :=
  match fuel with
  | 0 => None
  | S fuel =>
      o ← objs s !! this;
      cs ← arrs s !! children o;
      jchildren ← (if 0 <? length cs
                   then Some <$> mapM (fun child => toJSON_ fuel child s) cs
                   else Some None);
      Some (JObj jchildren (jsonOfPercentage (percentage o))
                 (jsonOfMargin (margin o)))
  end.

Definition toJSON (this : ref) (s : store) : option Json :=
  toJSON_ (budget s) this s.

(** The percentage [fromJSON] stores for the one read from the file. *)
Definition percentageOfJson (v : jsval) : jsval :=
  if strictEqNum v LastNodeXPercentageJson then JNum LastNodeXPercentage
  else if strictEqNum v LastNodeYPercentageJson then JNum LastNodeYPercentage
  else v.

(** The callback of [json.children.map]: a new node with [this] as its
    parent is loaded from [childJson]; [load] is the recursive call and
    the state is the store with the elements of the new array so far. *)
Definition loadChild (load : Json -> ref -> store -> option store)
  (this : ref) (st : store * list ref) (childJson : Json)
  : option (store * list ref) :=
  let '(s, acc) := st in
  '(s, child) ← new JUndefined None s;
  let s := updObj (set_parent (Some this)) child s in
  s ← load childJson child s;
  Some (s, acc ++ [child]).

(** load the node from a JSON object *)
Fixpoint fromJSON (json : Json) (this : ref) (s : store) : option store :=
  match json with
  | JObj jchildren jpercentage jmargin =>
      let s := updObj (set_percentage (percentageOfJson jpercentage)) this s in
      (* Load margin if present in JSON *)
      let s := match jmargin with
               | Some m => updObj (set_margin m) this s
               | None => s
               end in
      match jchildren with
      | Some ((_ :: _) as l) =>
          '(s, cs) ← foldlM (loadChild fromJSON this) (s, []) l;
          let '(s, arr) := allocArr cs s in
          Some (updObj (set_children arr) this s)
      | _ => Some s
      end
  end.

(** [fromJSON] on any parsed value.  A number, [null] or a key that is
    absent is what the fields [percentage] and [margin] can hold here:
    the result is [None] for a file that has another value there. *)
Definition percentageRead (v : option JsonValue) : option jsval :=
  match v with
  | None => Some JUndefined
  | Some VNull => Some JNull
  | Some (VNumber n) => Some (JNum n)
  | Some _ => None
  end.

Definition marginRead (v : option JsonValue) : option (option num) :=
  match v with
  | None => Some None
  | Some (VNumber n) => Some (Some n)
  | Some _ => None
  end.

(** [json.children && json.children.length > 0] and what
    [json.children.map] is called on. *)
Inductive ChildrenRead : Type :=
  | NoChildren
  | Elements (l : list JsonValue)
  | MapIsNotAFunction.

(** [undefined], [null], [false], [0] and [''] are falsy; [true] and the
    other numbers have no [length]; a string that is not empty has a
    positive [length] and no [map]; of an object the member [length] is
    compared with 0, and no member is a function.  [None]: the [length] of
    an object is a string or an array, whose conversion to a number is
    not modelled. *)
Definition childrenRead (v : option JsonValue) : option ChildrenRead :=
  match v with
  | None | Some VNull | Some (VBool _) | Some (VNumber _) => Some NoChildren
  | Some (VString str) =>
      Some (if 0 <? String.length str then MapIsNotAFunction else NoChildren)
  | Some (VArray []) => Some NoChildren
  | Some (VArray l) => Some (Elements l)
  | Some (VObject members) =>
      match getMember "length" (VObject members) with
      | None | Some VNull | Some (VObject _) => Some NoChildren
      | Some (VBool b) => Some (if b then MapIsNotAFunction else NoChildren)
      | Some (VNumber n) =>
          Some (if Num.gtb n (Num.ofZ 0) then MapIsNotAFunction
                else NoChildren)
      | Some (VString _) | Some (VArray _) => None
      end
  end.

(** The callback of [json.children.map]; once a call has thrown the
    remaining elements are not visited. *)
Definition loadChild_any
  (load : JsonValue -> ref -> store -> option (Completion store))
  (this : ref) (st : Completion (store * list ref)) (childJson : JsonValue)
  : option (Completion (store * list ref)) :=
  match st with
  | Throw s => Some (Throw s)
  | Normal (s, acc) =>
      '(s, child) ← new JUndefined None s;
      let s := updObj (set_parent (Some this)) child s in
      c ← load childJson child s;
      match c with
      | Normal s => Some (Normal (s, acc ++ [child]))
      | Throw s => Some (Throw s)
      end
  end.

Fixpoint fromJSON_any_ (fuel : nat) (json : JsonValue) (this : ref)
  (s : store) : option (Completion store) :=
  match fuel with
  | 0 => None
  | S fuel =>
      match json with
      | VNull =>
          (* json.percentage: TypeError, json is null *)
          Some (Throw s)
      | _ =>
          jpercentage ← percentageRead (getMember "percentage" json);
          let s :=
            updObj (set_percentage (percentageOfJson jpercentage)) this s in
          (* Load margin if present in JSON *)
          jmargin ← marginRead (getMember "margin" json);
          let s := match jmargin with
                   | Some m => updObj (set_margin m) this s
                   | None => s
                   end in
          jchildren ← childrenRead (getMember "children" json);
          match jchildren with
          | NoChildren => Some (Normal s)
          | MapIsNotAFunction => Some (Throw s)
          | Elements l =>
              st ← foldlM (loadChild_any (fromJSON_any_ fuel) this)
                     (Normal (s, [])) l;
              match st with
              | Normal (s, cs) =>
                  let '(s, arr) := allocArr cs s in
                  Some (Normal (updObj (set_children arr) this s))
              | Throw s => Some (Throw s)
              end
          end
      end
  end.

(** The descent is as deep as the value is nested. *)
Definition fromJSON_any (json : JsonValue) (this : ref) (s : store)
  : option (Completion store) :=
  fromJSON_any_ (S (nesting json)) json this s.

End LayoutNode.

(** ** The integrity gate of [LayoutIO]

    [contents] is the parsed contents of the layout file, [None] when the
    file is missing, when [load_contents] fails or when [JSON.parse]
    throws.  The result is the layout, or [None] for [null]. *)
Module LayoutIO.

(** [#loadLayoutFromFile] on any parsed value; an exception of [fromJSON]
    is caught and the answer is [null]. *)
Definition loadLayoutFromFile_any (contents : option JsonValue) (s : store)
  : option (store * option ref) :=
  match contents with
  | None => Some (s, None)
  | Some jsonData =>
      '(s, layout) ← LayoutNode.new JUndefined None s;
      c ← LayoutNode.fromJSON_any jsonData layout s;
      match c with
      | Throw s => Some (s, None)
      | Normal s =>
          integrityError ← LayoutNode.getIntegrityError layout s;
          match integrityError with
          | Some _ => Some (s, None)
          | None => Some (s, Some layout)
          end
      end
  end.

(** [#loadLayoutFromFile] on a parsed value that is an object of the
    layout's form ([Json]: [children] absent or an array of such objects,
    [percentage] absent, [null] or a number, [margin] absent or a number),
    on which [fromJSON] does not throw. *)
Definition loadLayoutFromFile (contents : option Json) (s : store)
  : option (store * option ref) :=
  match contents with
  | None => Some (s, None)
  | Some jsonData =>
      '(s, layout) ← LayoutNode.new JUndefined None s;
      s ← LayoutNode.fromJSON jsonData layout s;
      integrityError ← LayoutNode.getIntegrityError layout s;
      match integrityError with
      | Some _ => Some (s, None)
      | None => Some (s, Some layout)
      end
  end.

(** [saveLayoutForDisplay] and [saveLayoutForPreset]: the object
    [layout.toJSON()] that [#saveToFile] hands to [JSON.stringify], [None]
    when the layout is refused. *)
Definition saveLayout (layout : ref) (s : store) : option (option Json) :=
  integrityError ← LayoutNode.getIntegrityError layout s;
  match integrityError with
  | Some _ => Some None
  | None => Some <$> LayoutNode.toJSON layout s
  end.

(** [#saveToFile] when [replace_contents] succeeds: the file it leaves,
    as the value [JSON.parse] reads from it. *)
Definition saveToFile (layout : ref) (s : store) : option JsonValue :=
  written <$> LayoutNode.toJSON layout s.

(** [saveLayoutForDisplay] and [saveLayoutForPreset]: the file written,
    [None] when the layout is refused and no file is written. *)
Definition saveLayoutForDisplay (layout : ref) (s : store)
  : option (option JsonValue) :=
  integrityError ← LayoutNode.getIntegrityError layout s;
  match integrityError with
  | Some _ => Some None
  | None => Some <$> saveToFile layout s
  end.

End LayoutIO.

(** ** Operations

    The constants of the Clutter library the handlers compare with. *)
Module Clutter.
Definition BUTTON_PRIMARY : Z := 1.
Definition BUTTON_SECONDARY : Z := 3.
Definition SHIFT_MASK : Z := 1.
Definition CONTROL_MASK : Z := 4.
Definition KEY_1 : Z := 49.
Definition KEY_2 : Z := 50.
Definition KEY_3 : Z := 51.
Definition KEY_4 : Z := 52.
Definition KEY_5 : Z := 53.
Definition KEY_6 : Z := 54.
Definition KEY_7 : Z := 55.
Definition KEY_8 : Z := 56.
Definition KEY_Page_Up : Z := 65365.
Definition KEY_Page_Down : Z := 65366.
End Clutter.

(** the result of an operation, either handled or not, and indicates
    whether the layout should be redrawn; [None] is [null], not handled *)
Module OperationResult.
Record t : Type := mk { handled : bool; shouldRedraw : bool }.
Definition handled_ : option t := Some (mk true false).
Definition handledAndRedraw : option t := Some (mk true true).
Definition notHandled : option t := None.
End OperationResult.

(** The input events every operation is offered:
    [(x, y, modifierBitmask, button?, key?)]. *)
Inductive Event : Type :=
  | ButtonPress (x y : num) (state button : Z)
  | ButtonRelease (x y : num) (state button : Z)
  | Motion (x y : num) (state : Z)
  | KeyPress (x y : num) (state key : Z)
  | KeyRelease (x y : num) (state : Z).

(** the user can drag the divider of a node to resize it *)
Module ResizeOperation.
Import LayoutNode.

Record t : Type := mk { tree : ref; dividerWidth : num }.

Definition new (tree : ref) : t := mk tree (Num.ofZ 20).

Definition rectDiffers (a b : Rect.t) : bool :=
  negb (Num.eqb (Rect.x a) (Rect.x b))
  || negb (Num.eqb (Rect.y a) (Rect.y b))
  || negb (Num.eqb (Rect.width a) (Rect.width b))
  || negb (Num.eqb (Rect.height a) (Rect.height b)).

Definition _startResizing (this : t) (nodeToResize : ref) (s : store)
  : option store :=
  let s := updObj (set_isResizing true) nodeToResize s in
  (* 'wiggle' the resizing node a bit and test which nodes are affected *)
  o ← objs s !! nodeToResize;
  let originalPercentage := percentage o in
  s ← forSelfAndDescendants (fun n => set_originalRect (Some (rect n)) n)
        (tree this) s;
  (* resize a little bit *)
  o ← objs s !! nodeToResize;
  let s := updObj (set_percentage
                     (JNum (Num.mul (toNumber (percentage o)) (Fin (95 # 100)))))
                  nodeToResize s in
  s ← calculateRects (tree this) None s;
  (* highlight all nodes that are affected by resizing; every node was
     given an [originalRect] above *)
  s ← forSelfAndDescendants
        (fun n => set_isHighlighted
                    (match originalRect n with
                     | Some r => rectDiffers r (rect n)
                     | None => false
                     end) n)
        (tree this) s;
  (* revert to the original layout *)
  let s := updObj (set_percentage originalPercentage) nodeToResize s in
  calculateRects (tree this) None s.

Definition _stopResizing (this : t) (s : store) : option store :=
  forSelfAndDescendants
    (fun n => set_isHighlighted false (set_originalRect None (set_isResizing false n)))
    (tree this) s.

(** calculate new position of divider as a percentage of screen size *)
Definition pointerPercentage (column : bool) (x y : num) (root : Rect.t) : num :=
  if column then Num.div (Num.sub x (Rect.x root)) (Rect.width root)
  else Num.neg (Num.div (Num.sub y (Rect.y root)) (Rect.height root)).

Definition _handleResizing (this : t) (x y : num) (s : store)
  : option (option OperationResult.t * store) :=
  resizingNode ← findNode isResizing (tree this) s;
  match resizingNode with
  | None => Some (OperationResult.notHandled, s)
  | Some resizingNode =>
      o ← objs s !! resizingNode;
      root ← objs s !! tree this;
      let newPercentage := pointerPercentage (isColumn o) x y (rect root) in
      (* update the percentage for the node with this divider *)
      let oldPercentage := percentage o in
      let s := updObj (set_percentage (JNum newPercentage)) resizingNode s in
      s ← calculateRects (tree this) None s;
      (* Validate and revert if invalid *)
      valid ← validateRects (tree this) s;
      if valid : bool then Some (OperationResult.handledAndRedraw, s)
      else
        let s := updObj (set_percentage oldPercentage) resizingNode s in
        s ← calculateRects (tree this) None s;
        Some (OperationResult.handledAndRedraw, s)
  end.

Definition onButtonPress (this : t) (x y : num) (state button : Z) (s : store)
  : option (option OperationResult.t * store) :=
  resizeNode ← findNode isResizing (tree this) s;
  let rest :=
    match resizeNode with
    | Some _ =>
        if (button =? Clutter.BUTTON_PRIMARY)%Z
           || (button =? Clutter.BUTTON_SECONDARY)%Z then
          s ← _stopResizing this s;
          Some (OperationResult.handledAndRedraw, s)
        else Some (OperationResult.notHandled, s)
    | None =>
        if (button =? Clutter.BUTTON_PRIMARY)%Z then
          (* Check if clicking on a divider to start resizing *)
          nodeToResize ← findDividerAtPosition x y (dividerWidth this)
                           (tree this) s;
          match nodeToResize with
          | Some nodeToResize =>
              s ← _startResizing this nodeToResize s;
              Some (OperationResult.handledAndRedraw, s)
          | None => Some (OperationResult.notHandled, s)
          end
        else Some (OperationResult.notHandled, s)
    end in
  match resizeNode with
  | None =>
      if (button =? Clutter.BUTTON_SECONDARY)%Z then
        nodeWithDivider ← findDividerAtPosition x y (dividerWidth this)
                            (tree this) s;
        match nodeWithDivider with
        | Some nodeWithDivider =>
            (* delete the node with the selected divider *)
            '(_, s) ← delete (tree this) nodeWithDivider s;
            s ← calculateRects (tree this) None s;
            Some (OperationResult.handledAndRedraw, s)
        | None => rest
        end
      else rest
  | Some _ => rest
  end.

Definition onButtonRelease (this : t) (x y : num) (state button : Z) (s : store)
  : option (option OperationResult.t * store) :=
  if (button =? Clutter.BUTTON_PRIMARY)%Z then
    resizing ← findNode isResizing (tree this) s;
    match resizing with
    | Some _ =>
        s ← _stopResizing this s;
        Some (OperationResult.handledAndRedraw, s)
    | None => Some (OperationResult.notHandled, s)
    end
  else Some (OperationResult.notHandled, s).

Definition onMotion (this : t) (x y : num) (state : Z) (s : store)
  : option (option OperationResult.t * store) :=
  _handleResizing this x y s.

(** Inherited from [LayoutOperation]. *)
Definition onKeyPress (this : t) (x y : num) (state key : Z) (s : store)
  : option (option OperationResult.t * store) :=
  Some (OperationResult.notHandled, s).

Definition onKeyRelease (this : t) (x y : num) (state : Z) (s : store)
  : option (option OperationResult.t * store) :=
  Some (OperationResult.notHandled, s).

Definition cancel (this : t) (s : store)
  : option (option OperationResult.t * store) :=
  Some (OperationResult.notHandled, s).

Definition handle (this : t) (e : Event) (s : store)
  : option (option OperationResult.t * store) :=
  match e with
  | ButtonPress x y state button => onButtonPress this x y state button s
  | ButtonRelease x y state button => onButtonRelease this x y state button s
  | Motion x y state => onMotion this x y state s
  | KeyPress x y state key => onKeyPress this x y state key s
  | KeyRelease x y state => onKeyRelease this x y state s
  end.

End ResizeOperation.

(** the user can preview a split in the layout *)
Module PreviewSplitOperation.
Import LayoutNode.

Record t : Type := mk { tree : ref; prePreviewSnapshot : option ref }.

Definition new (tree : ref) : t := mk tree None.

Definition ctrlPressed (state : Z) : bool :=
  negb (Z.land state Clutter.CONTROL_MASK =? 0)%Z.
Definition shiftPressed (state : Z) : bool :=
  negb (Z.land state Clutter.SHIFT_MASK =? 0)%Z.

Definition _cancel (this : t) (s : store) : option (t * store) :=
  match prePreviewSnapshot this with
  | Some snapshot =>
      s ← revert (tree this) snapshot s;
      Some (mk (tree this) None, s)
  | None => Some (this, s)
  end.

(** Split a leaf node into two nodes, with the given percentage as
    starting point *)
Definition _startPreview (splittingNode : ref) (percentage : num) (s : store)
  : option (store * ref) :=
  '(s, previewNode) ← LayoutNode.new (JNum percentage) None s;
  sn ← objs s !! splittingNode;
  let s := updObj (fun n => set_margin (margin sn)
                             (set_isHighlighted true (set_isPreview true n)))
                  previewNode s in
  pn ← objs s !! previewNode;
  match axis pn, axis sn, parent sn with
  | AxisX, AxisX, Some p | AxisY, AxisY, Some p =>
      (* request the parent to insert a new node *)
      s ← insertChild p previewNode s;
      Some (updObj (set_isHighlighted true) splittingNode s, previewNode)
  | _, _, _ =>
      (* moving from column to row or vice versa:
         make this an internal node and add two children *)
      '(s, lastChild) ← LayoutNode.new (JNum (LastNodePercentages (axis pn)))
                          None s;
      let s := updObj (fun n => set_margin (margin sn)
                                 (set_parent (Some splittingNode)
                                   (set_isHighlighted true n)))
                      lastChild s in
      let s := updObj (set_parent (Some splittingNode)) previewNode s in
      let '(s, arr) := allocArr [previewNode; lastChild] s in
      Some (updObj (set_children arr) splittingNode s, previewNode)
  end.

Definition _finalizePreview (this : t) (s : store) : option (t * store) :=
  valid ← validateRects (tree this) s;
  if valid : bool then
    s ← forSelfAndDescendants
          (fun n => set_originalRect None (set_isPreview false n))
          (tree this) s;
    Some (mk (tree this) None, s)
  else Some (this, s).

(** The three steps of [_handlePreview]; each takes and returns the
    local variables [previewNode] and [result] with the operation and
    the store. *)
Definition cancelOutOfBounds (x y : num) (state : Z) (node : option ref)
  (acc : t * option ref * option OperationResult.t * store)
  : option (t * option ref * option OperationResult.t * store) :=
  let '(this, previewNode, result, s) := acc in
  let previewModeEnabled := ctrlPressed state || shiftPressed state in
  match previewNode with
  | Some pn =>
      po ← objs s !! pn;
      movedOut ← match node with
                 | Some n =>
                     o ← objs s !! n;
                     Some (negb (bool_decide (parent o = parent po)))
                 | None => Some false
                 end;
      if movedOut || negb previewModeEnabled then
        (* restore the preview snapshot *)
        '(this, s) ← _cancel this s;
        s ← calculateRects (tree this) None s;
        Some (this, None, OperationResult.handledAndRedraw, s)
      else Some acc
  | None => Some acc
  end.

Definition startNewPreview (x y : num) (state : Z) (node : option ref)
  (acc : t * option ref * option OperationResult.t * store)
  : option (t * option ref * option OperationResult.t * store) :=
  let '(this, previewNode, result, s) := acc in
  let previewModeEnabled := ctrlPressed state || shiftPressed state in
  match previewNode, node with
  | None, Some n =>
      o ← objs s !! n;
      leaf ← isLeaf s o;
      if leaf && previewModeEnabled then
        (* create a snapshot of the current layout tree to revert to *)
        '(s, snapshot) ← clone (tree this) s;
        let this := mk (tree this) (Some snapshot) in
        root ← objs s !! tree this;
        let percentage :=
          ResizeOperation.pointerPercentage (ctrlPressed state) x y (rect root) in
        '(s, pn) ← _startPreview n percentage s;
        (* check whether the initial split is valid at all, if not revert *)
        s ← calculateRects (tree this) None s;
        valid ← validateRects (tree this) s;
        '(this, s) ← (if valid : bool then Some (this, s) else _cancel this s);
        Some (this, Some pn, OperationResult.handledAndRedraw, s)
      else Some acc
  | _, _ => Some acc
  end.

Definition movePreview (x y : num) (state : Z)
  (acc : t * option ref * option OperationResult.t * store)
  : option (t * option ref * option OperationResult.t * store) :=
  let '(this, previewNode, result, s) := acc in
  match previewNode with
  | Some pn =>
      po ← objs s !! pn;
      root ← objs s !! tree this;
      let oldPercentage := percentage po in
      let percentage :=
        ResizeOperation.pointerPercentage (isColumn po) x y (rect root) in
      let s := updObj (set_percentage (JNum percentage)) pn s in
      s ← calculateRects (tree this) None s;
      valid ← validateRects (tree this) s;
      s ← (if valid : bool then Some s
           else calculateRects (tree this) None
                  (updObj (set_percentage oldPercentage) pn s));
      Some (this, Some pn, OperationResult.handledAndRedraw, s)
  | None => Some acc
  end.

Definition _handlePreview (this : t) (x y : num) (state : Z) (s : store)
  : option (option OperationResult.t * t * store) :=
  node ← findNodeAtPosition x y (tree this) s;
  previewNode ← findNode isPreview (tree this) s;
  acc ← cancelOutOfBounds x y state node
          (this, previewNode, OperationResult.notHandled, s);
  acc ← startNewPreview x y state node acc;
  '(this, _, result, s) ← movePreview x y state acc;
  Some (result, this, s).

Definition onMotion (this : t) (x y : num) (state : Z) (s : store)
  : option (option OperationResult.t * t * store) :=
  _handlePreview this x y state s.

Definition onKeyPress (this : t) (x y : num) (state key : Z) (s : store)
  : option (option OperationResult.t * t * store) :=
  _handlePreview this x y state s.

Definition onKeyRelease (this : t) (x y : num) (state : Z) (s : store)
  : option (option OperationResult.t * t * store) :=
  if ctrlPressed state || shiftPressed state then
    (* cancel any preview *)
    '(this, s) ← _cancel this s;
    Some (OperationResult.handledAndRedraw, this, s)
  else Some (OperationResult.notHandled, this, s).

Definition onButtonPress (this : t) (x y : num) (state button : Z) (s : store)
  : option (option OperationResult.t * t * store) :=
  previewNode ← findNode isPreview (tree this) s;
  match previewNode with
  | Some _ =>
      if (button =? Clutter.BUTTON_PRIMARY)%Z then
        (* finalize the preview and redraw *)
        '(this, s) ← _finalizePreview this s;
        Some (OperationResult.handledAndRedraw, this, s)
      else _handlePreview this x y state s
  | None => _handlePreview this x y state s
  end.

(** Inherited from [LayoutOperation]. *)
Definition onButtonRelease (this : t) (x y : num) (state button : Z)
  (s : store) : option (option OperationResult.t * t * store) :=
  Some (OperationResult.notHandled, this, s).

Definition cancel (this : t) (s : store)
  : option (option OperationResult.t * t * store) :=
  Some (OperationResult.notHandled, this, s).

Definition handle (this : t) (e : Event) (s : store)
  : option (option OperationResult.t * t * store) :=
  match e with
  | ButtonPress x y state button => onButtonPress this x y state button s
  | ButtonRelease x y state button => onButtonRelease this x y state button s
  | Motion x y state => onMotion this x y state s
  | KeyPress x y state key => onKeyPress this x y state key s
  | KeyRelease x y state => onKeyRelease this x y state s
  end.

End PreviewSplitOperation.

(** [ToInt32]: the operands of a bitwise operator are taken modulo 2^32
    into the range from -2^31 to 2^31 - 1. *)
Definition toInt32 (z : Z) : Z :=
  let int32bit := (z mod 2 ^ 32)%Z in
  if (int32bit <? 2 ^ 31)%Z then int32bit else (int32bit - 2 ^ 32)%Z.

(** [a & b] *)
Definition bitAnd (a b : Z) : Z := Z.land (toInt32 a) (toInt32 b).

(** the user can drag and snap a window into place *)
Module SnappingOperation.
Import LayoutNode.

Record t : Type := mk {
  tree : ref;
  showRegions : bool;
  enableSnappingModifiers : list Z
}.

Definition new (tree : ref) (enableSnappingModifiers : list Z) : t :=
  mk tree false enableSnappingModifiers.

Definition clearDestination (n : obj) : obj :=
  set_isHighlighted false (set_isSnappingDestination false n).

Definition cancel (this : t) (s : store)
  : option (option OperationResult.t * t * store) :=
  if showRegions this then
    s ← forSelfAndDescendants clearDestination (tree this) s;
    Some (OperationResult.handledAndRedraw,
          mk (tree this) false (enableSnappingModifiers this), s)
  else Some (OperationResult.notHandled, this, s).

Definition onMotion (this : t) (x y : num) (state : Z) (s : store)
  : option (option OperationResult.t * t * store) :=
  let snappingEnabled :=
    (length (enableSnappingModifiers this) =? 0)
    || existsb (fun e => negb (bitAnd state e =? 0)%Z)
               (enableSnappingModifiers this) in
  if negb snappingEnabled then cancel this s
  else
    (* Find node at mouse position *)
    node ← findNodeAtPosition x y (tree this) s;
    match node with
    | None => cancel this s
    | Some node =>
        (* activate the region to snap into *)
        let this := mk (tree this) true (enableSnappingModifiers this) in
        s ← forSelfAndDescendants clearDestination (tree this) s;
        Some (OperationResult.handledAndRedraw, this,
              updObj (fun n => set_isHighlighted true
                                 (set_isSnappingDestination true n)) node s)
    end.

Definition currentSnapToRect (this : t) (s : store) : option (option Rect.t) :=
  snapToNode ← findNode isSnappingDestination (tree this) s;
  match snapToNode with
  | None => Some None
  | Some n => o ← objs s !! n; Some (Some (snapRect o))
  end.

(** Inherited from [LayoutOperation]. *)
Definition onButtonPress (this : t) (x y : num) (state button : Z) (s : store)
  : option (option OperationResult.t * t * store) :=
  Some (OperationResult.notHandled, this, s).

Definition onButtonRelease (this : t) (x y : num) (state button : Z)
  (s : store) : option (option OperationResult.t * t * store) :=
  Some (OperationResult.notHandled, this, s).

Definition onKeyPress (this : t) (x y : num) (state key : Z) (s : store)
  : option (option OperationResult.t * t * store) :=
  Some (OperationResult.notHandled, this, s).

Definition onKeyRelease (this : t) (x y : num) (state : Z) (s : store)
  : option (option OperationResult.t * t * store) :=
  Some (OperationResult.notHandled, this, s).

Definition handle (this : t) (e : Event) (s : store)
  : option (option OperationResult.t * t * store) :=
  match e with
  | ButtonPress x y state button => onButtonPress this x y state button s
  | ButtonRelease x y state button => onButtonRelease this x y state button s
  | Motion x y state => onMotion this x y state s
  | KeyPress x y state key => onKeyPress this x y state key s
  | KeyRelease x y state => onKeyRelease this x y state s
  end.

End SnappingOperation.

(** the user can increase the spacings between the layout regions *)
Module MarginsOperation.
Import LayoutNode.

Record t : Type := mk { tree : ref; _marginMin : num; _marginMax : num }.

Definition new (tree : ref) : t := mk tree (Num.ofZ 0) (Num.ofZ 20).

Definition step (this : t) (d : Z) (n : obj) : obj :=
  set_margin (Num.max (Num.min (Num.add (margin n) (Num.ofZ d))
                               (_marginMax this))
                      (_marginMin this)) n.

Definition onKeyPress (this : t) (x y : num) (state key : Z) (s : store)
  : option (option OperationResult.t * store) :=
  if (key =? Clutter.KEY_Page_Up)%Z then
    s ← forDescendants (step this 1) (tree this) s;
    s ← calculateRects (tree this) None s;
    Some (OperationResult.handledAndRedraw, s)
  else if (key =? Clutter.KEY_Page_Down)%Z then
    s ← forDescendants (step this (-1)) (tree this) s;
    s ← calculateRects (tree this) None s;
    Some (OperationResult.handledAndRedraw, s)
  else Some (OperationResult.notHandled, s).

(** Inherited from [LayoutOperation]. *)
Definition inherited (this : t) (s : store)
  : option (option OperationResult.t * store) :=
  Some (OperationResult.notHandled, s).

Definition handle (this : t) (e : Event) (s : store)
  : option (option OperationResult.t * store) :=
  match e with
  | KeyPress x y state key => onKeyPress this x y state key s
  | _ => inherited this s
  end.

End MarginsOperation.

(** the user can press a preset number to quickly apply a layout.

    [onUsePreset] is the callback of the caller; what it does is a function
    on the caller's world [W], of which the layout tree is a part.
    [presets !! i] is [this.#presets[i]], [None] when the slot holds
    nothing. *)
Module PresetShortcutOperation.

Section Handler.
Context {Preset W : Type}.

Record t : Type := mk {
  tree : ref;
  presets : list Preset;
  onUsePreset : option Preset -> W -> W
}.

Definition onKeyPress (this : t) (x y : num) (state key : Z) (w : W)
  : option OperationResult.t * W :=
  if (key =? Clutter.KEY_1)%Z then
    (OperationResult.handledAndRedraw, onUsePreset this (presets this !! 0) w)
  else if (key =? Clutter.KEY_2)%Z then
    (OperationResult.handledAndRedraw, onUsePreset this (presets this !! 1) w)
  else if (key =? Clutter.KEY_3)%Z then
    (OperationResult.handledAndRedraw, onUsePreset this (presets this !! 2) w)
  else if (key =? Clutter.KEY_4)%Z then
    (OperationResult.handledAndRedraw, onUsePreset this (presets this !! 3) w)
  else if (key =? Clutter.KEY_5)%Z then
    (OperationResult.handledAndRedraw, onUsePreset this (presets this !! 4) w)
  else if (key =? Clutter.KEY_6)%Z then
    (OperationResult.handledAndRedraw, onUsePreset this (presets this !! 5) w)
  else if (key =? Clutter.KEY_7)%Z then
    (OperationResult.handledAndRedraw, onUsePreset this (presets this !! 6) w)
  else if (key =? Clutter.KEY_8)%Z then
    (OperationResult.handledAndRedraw, onUsePreset this (presets this !! 7) w)
  else (OperationResult.notHandled, w).

(** Inherited from [LayoutOperation]. *)
Definition inherited (this : t) (w : W) : option OperationResult.t * W :=
  (OperationResult.notHandled, w).

Definition handle (this : t) (e : Event) (w : W)
  : option OperationResult.t * W :=
  match e with
  | KeyPress x y state key => onKeyPress this x y state key w
  | _ => inherited this w
  end.

End Handler.

Arguments t : clear implicits.

End PresetShortcutOperation.

(** ** Layouts written as nested constructor calls

    [L p [k1; ..; kn]] is the expression
    [new LayoutNode(p, [k1, .., kn])], and [L p []] is [new LayoutNode(p)];
    the arguments are evaluated first, left to right. *)
Unset Elimination Schemes.
Inductive Literal : Type :=
  | L (p : Q) (args : list Literal).
Set Elimination Schemes.

Fixpoint construct (e : Literal) (s : store) : option (store * ref) :=
  match e with
  | L p args =>
      '(s, cs) ← foldlM (fun '(s, acc) a =>
                           '(s, c) ← construct a s;
                           Some (s, acc ++ [c])) (s, []) args;
      let '(s, arr) := allocArr cs s in
      LayoutNode.new (JNum (Fin p)) (Some arr) s
  end.

(** a hardcoded layout for 2x2 layout as default *)
Definition LayoutOf2x2 : Literal :=
  L 0 [ L (1 # 2) [ L (-1 # 2) []; L 0 [] ];
        L 0 [ L (-1 # 2) []; L 0 [] ] ].

Definition LayoutOf3x3 : Literal :=
  L 0 [ L (1 # 3) [ L (-1 # 3) []; L (-2 # 3) []; L 0 [] ];
        L (2 # 3) [ L (-1 # 3) []; L (-2 # 3) []; L 0 [] ];
        L 0 [ L (-1 # 3) []; L (-2 # 3) []; L 0 [] ] ].

(** ** Definitions used by the statements *)

(** The preset slot a key stands for. *)
Definition presetIndex (key : Z) : option nat :=
  if (key =? Clutter.KEY_1)%Z then Some 0
  else if (key =? Clutter.KEY_2)%Z then Some 1
  else if (key =? Clutter.KEY_3)%Z then Some 2
  else if (key =? Clutter.KEY_4)%Z then Some 3
  else if (key =? Clutter.KEY_5)%Z then Some 4
  else if (key =? Clutter.KEY_6)%Z then Some 5
  else if (key =? Clutter.KEY_7)%Z then Some 6
  else if (key =? Clutter.KEY_8)%Z then Some 7
  else None.

(** A caller whose callback records the argument of each call. *)
Definition recordingOperation (presets : list ref)
  : PresetShortcutOperation.t ref (list (option ref)) :=
  PresetShortcutOperation.mk 0 presets (fun preset calls => calls ++ [preset]).

(** The first column of the default layout, alone in a store: object [2]
    with the children [0] and [1]; [3] is a copy of [2] made by hand that
    holds the same array. *)
Definition smallStore : store :=
  mkStore
    [ LayoutNode.fresh (JNum (Fin (-1 # 2))) 0;
      LayoutNode.fresh (JNum NegInf) 1;
      LayoutNode.fresh (JNum (Fin (1 # 2))) 2;
      set_margin (Num.ofZ 5) (LayoutNode.fresh (JNum (Fin 0)) 2) ]
    [ []; []; [0; 1] ].

(** A root with two children, the first with the percentage [NaN]
    (what a division of zero by a zero width gives). *)
Definition nanStore : store :=
  mkStore
    [ LayoutNode.fresh (JNum NaN) 0;
      LayoutNode.fresh (JNum PosInf) 1;
      LayoutNode.fresh (JNum (Fin 0)) 2 ]
    [ []; []; [0; 1] ].


(** [layout.calculateRects(x, y, width, height)] on a layout written as
    constructor calls, in an empty store. *)
Definition seeded (e : Literal) (x y width height : Z) : option (store * ref) :=
  '(s, root) ← construct e emptyStore;
  s ← LayoutNode.calculateRects root
        (Some (Rect.mk (Num.ofZ x) (Num.ofZ y) (Num.ofZ width) (Num.ofZ height))) s;
  Some (s, root).


(** ** The order of children *)

Definition absPercentage (o : obj) : num := Num.abs (toNumber (percentage o)).

(** Ascending, each element compared with the next by [<=]. *)
Fixpoint ascending (l : list num) : bool :=
  match l with
  | a :: (b :: _) as l' => Num.leb a b && ascending l'
  | _ => true
  end.

(** The objects an array of references refers to. *)
Definition objects (s : store) (cs : list ref) : option (list obj) :=
  mapM (fun c => objs s !! c) cs.

(** The children of [this] are ordered ascending by [abs(percentage)] and
    the last one carries a sentinel. *)
Definition sortedChildren (s : store) (this : ref) : Prop :=
  exists cs os lastChild,
    kids s this = Some cs
    /\ objects s cs = Some os
    /\ ascending (absPercentage <$> os) = true
    /\ last os = Some lastChild
    /\ LayoutNode.isLastNodePercentage (percentage lastChild) = true.

(** An object whose percentage is a number of [[-1, 1]]. *)
Definition insertable (s : store) (c : ref) : Prop :=
  exists o q,
    objs s !! c = Some o /\ percentage o = JNum (Fin q)
    /\ (-1 <= q)%Q /\ (q <= 1)%Q.

(** A sequence of [insertChild] calls on one receiver. *)
Definition insertAll (this : ref) (news : list ref) (s : store) : option store :=
  foldlM (fun s c => LayoutNode.insertChild this c s) s news.


(** ** Layout trees in the store

    A [Shape] is the skeleton of a layout tree: the reference of the node
    and the skeletons of its children.  [shaped s t] says that the store
    holds [t]: the [children] array of each node of [t] lists the roots of
    its sub-skeletons.  With [NoDup (nodes t)] no object occurs twice, and
    [t] is a tree. *)
Unset Elimination Schemes.
Inductive Shape : Type :=
  | Sh (r : ref) (subs : list Shape).
Set Elimination Schemes.

Definition root (t : Shape) : ref := match t with Sh r _ => r end.
Definition subs (t : Shape) : list Shape := match t with Sh _ l => l end.

(** The nodes in pre-order. *)
Fixpoint nodes (t : Shape) : list ref :=
  match t with
  | Sh r l => r :: (l ≫= nodes)
  end.

Fixpoint height (t : Shape) : nat :=
  match t with
  | Sh _ l => S (max_list (height <$> l))
  end.

Unset Elimination Schemes.
Inductive shaped (s : store) : Shape -> Prop :=
  | shaped_node (r : ref) (l : list Shape) :
      kids s r = Some (root <$> l) ->
      Forall (shaped s) l ->
      shaped s (Sh r l).
Set Elimination Schemes.

(** The proper sub-skeletons and the skeleton itself. *)
Fixpoint subtrees (t : Shape) : list Shape :=
  match t with
  | Sh r l => Sh r l :: (l ≫= subtrees)
  end.


(** The object a reference refers to satisfies [p]. *)
Definition holds (s : store) (p : obj -> bool) (r : ref) : bool :=
  match objs s !! r with
  | Some o => p o
  | None => false
  end.


(** ** Geometry of the children of a node *)

(** [axis()] as a function of the percentage. *)
Definition axisOf (p : jsval) : Axis :=
  if Num.geb (toNumber p) (Num.ofZ 0) then AxisX else AxisY.

(** The loop of [calculateRects] over the children except the last,
    replayed on their percentages: the rectangles it hands to the
    children and the two positions it ends with. *)
Fixpoint placeAll (display r : Rect.t) (prevX prevY : num) (ps : list jsval)
  : list Rect.t * num * num :=
  match ps with
  | [] => ([], prevX, prevY)
  | p :: ps =>
      let pos := LayoutNode.posOnAxis display (axisOf p) p in
      match axisOf p with
      | AxisX =>
          let '(rs, x, y) := placeAll display r pos prevY ps in
          (Rect.mk prevX (Rect.y r) (Num.sub pos prevX) (Rect.height r) :: rs,
           x, y)
      | AxisY =>
          let '(rs, x, y) := placeAll display r prevX pos ps in
          (Rect.mk (Rect.x r) prevY (Rect.width r) (Num.sub pos prevY) :: rs,
           x, y)
      end
  end.

(** The rectangle of the last child. *)
Definition lastRect (r : Rect.t) (prevX prevY : num) (p : jsval) : Rect.t :=
  match axisOf p with
  | AxisX =>
      Rect.mk prevX (Rect.y r)
              (Num.sub (Num.add (Rect.x r) (Rect.width r)) prevX) (Rect.height r)
  | AxisY =>
      Rect.mk (Rect.x r) prevY (Rect.width r)
              (Num.sub (Num.add (Rect.y r) (Rect.height r)) prevY)
  end.

(** The rectangles [calculateRects] hands to the children of a node with
    the rectangle [r], from the children's percentages. *)
Definition layoutChildren (display r : Rect.t) (ps : list jsval) : list Rect.t :=
  match last ps with
  | None => []
  | Some p =>
      let '(rs, prevX, prevY) :=
        placeAll display r (Rect.x r) (Rect.y r) (take (length ps - 1) ps) in
      rs ++ [lastRect r prevX prevY p]
  end.

(** Every node of the tree has handed its children these rectangles. *)
Unset Elimination Schemes.
Inductive laidOut (s : store) (display : Rect.t) : Shape -> Prop :=
  | laidOut_node (r : ref) (l : list Shape) (o : obj) (os : list obj) :
      objs s !! r = Some o ->
      objects s (root <$> l) = Some os ->
      rect <$> os = layoutChildren display (rect o) (percentage <$> os) ->
      Forall (laidOut s display) l ->
      laidOut s display (Sh r l).
Set Elimination Schemes.

(** [o'] is [o] with another [rect]. *)
Definition sameButRect (o o' : obj) : Prop := o' = set_rect (rect o') o.

(** [s'] differs from [s] in the [rect] of objects of [ns] only. *)
Definition rectsOnly (ns : list ref) (s s' : store) : Prop :=
  arrs s' = arrs s
  /\ Forall2 sameButRect (objs s) (objs s')
  /\ forall n, n ∉ ns -> objs s' !! n = objs s !! n.

(** Position and extent of a rectangle along an axis. *)
Definition lo (a : Axis) (r : Rect.t) : num :=
  match a with AxisX => Rect.x r | AxisY => Rect.y r end.
Definition extent (a : Axis) (r : Rect.t) : num :=
  match a with AxisX => Rect.width r | AxisY => Rect.height r end.
Definition other (a : Axis) : Axis :=
  match a with AxisX => AxisY | AxisY => AxisX end.

(** The spans of [rs] along [a] follow each other from [from] to [to]:
    each starts where the one before it ends. *)
Fixpoint abut (a : Axis) (from : num) (rs : list Rect.t) (to : num) : bool :=
  match rs with
  | [] => Num.eqb from to
  | r :: rs =>
      Num.eqb (lo a r) from && abut a (Num.add (lo a r) (extent a r)) rs to
  end.

(** The rectangles [rs] tile [r] along [a]: their spans along [a] follow
    each other from the near edge of [r] to its far edge, and across [a]
    each has the position and the extent of [r]. *)
Definition tiles (a : Axis) (r : Rect.t) (rs : list Rect.t) : bool :=
  abut a (lo a r) rs (Num.add (lo a r) (extent a r))
  && forallb (fun c => Num.eqb (lo (other a) c) (lo (other a) r)
                       && Num.eqb (extent (other a) c) (extent (other a) r)) rs.

Definition finiteRect (r : Rect.t) : bool :=
  Num.isFinite (Rect.x r) && Num.isFinite (Rect.y r)
  && Num.isFinite (Rect.width r) && Num.isFinite (Rect.height r).

(** A rectangle of whole numbers of magnitude at most 2^31.  On whole
    numbers of this size the sums and differences of [calculateRects]
    are exact in double precision: an edge is the display's origin plus
    ten times a whole number. *)
Definition wholeRect (r : Rect.t) : Prop :=
  exists x y w h : Z,
    r = Rect.mk (Num.ofZ x) (Num.ofZ y) (Num.ofZ w) (Num.ofZ h)
    /\ (Z.abs x <= 2 ^ 31)%Z /\ (Z.abs y <= 2 ^ 31)%Z
    /\ (Z.abs w <= 2 ^ 31)%Z /\ (Z.abs h <= 2 ^ 31)%Z.

(** ** The structural invariants

    The invariants of the data model, on a tree of the store:
    [children.length != 1]; every child except the last has a percentage
    in [[-1, 1]]; the last child's percentage is a sentinel; and so for
    every child. *)
Definition inUnitRange (p : jsval) : Prop :=
  exists q, p = JNum (Fin q) /\ (-1 <= q)%Q /\ (q <= 1)%Q.

Unset Elimination Schemes.
Inductive invariants (s : store) : Shape -> Prop :=
  | invariants_node (r : ref) (l : list Shape) (os : list obj) :
      length l <> 1 ->
      objects s (root <$> l) = Some os ->
      Forall (fun o => inUnitRange (percentage o)) (take (length os - 1) os) ->
      (forall o, last os = Some o ->
                 LayoutNode.isLastNodePercentage (percentage o) = true) ->
      Forall (invariants s) l ->
      invariants s (Sh r l).
Set Elimination Schemes.


(** What a call of [calculateRects] on a tree of the store does: it
    returns, it changes nothing but the [rect] of nodes of the tree, the
    root gets the rectangle given and every node has handed its children
    the rectangles of [layoutChildren]. *)
Definition calculatesRects (t : Shape) : Prop :=
  forall (fuel : nat) (s : store) (R : Rect.t) (display : option Rect.t),
    shaped s t -> NoDup (nodes t) -> height t <= fuel ->
    exists s',
      LayoutNode.calculateRects_ fuel (root t) (Some R) display s = Some s'
      /\ rectsOnly (nodes t) s s'
      /\ rect <$> objs s' !! root t = Some R
      /\ laidOut s' (default R display) t.


(** A percentage that is a finite number. *)
Definition finitePct (p : jsval) : Prop := exists q, p = JNum (Fin q).


(** A layout file whose two children lie on different axes:
    [{"children": [{"percentage": 0.5}, {"percentage": -99999}]}]. *)
Definition mixedAxesJson : Json :=
  JObj (Some [ JObj None (JNum (Fin (1 # 2))) None;
               JObj None (JNum (Num.ofZ (-99999))) None ])
       JUndefined None.

(** A layout whose first column holds a column edge at 0.8 of the display,
    beyond the column's own right edge at 0.5. *)
Definition edgeBeyondParent : Literal :=
  L 0 [ L (1 # 2) [ L (8 # 10) []; L 0 [] ]; L 0 [] ].

Definition workArea : Rect.t :=
  Rect.mk (Num.ofZ 0) (Num.ofZ 0) (Num.ofZ 1000) (Num.ofZ 800).


(** ** The structure of a layout: shape, percentages and margins *)

Unset Elimination Schemes.
Inductive View : Type :=
  | V (p : jsval) (m : num) (vs : list View).
Set Elimination Schemes.

(** [hasView lo s r v]: the object [r] and its descendants carry the
    percentages and margins of [v] in the shape of [v], and the descendants
    are objects allocated at or after [lo]. *)
Unset Elimination Schemes.
Inductive hasView (lo : nat) (s : store) : ref -> View -> Prop :=
  | hasView_node (r : ref) (o : obj) (cs : list ref) (vs : list View) :
      objs s !! r = Some o ->
      arrs s !! children o = Some cs ->
      Forall (fun c => lo <= c) cs ->
      Forall2 (hasView lo s) cs vs ->
      hasView lo s r (V (percentage o) (margin o) vs).
Set Elimination Schemes.

(** What [toJSON] writes for a structure and what [fromJSON] builds from a
    file. *)
Fixpoint encode (v : View) : Json :=
  match v with
  | V p m vs =>
      JObj (match vs with [] => None | _ => Some (encode <$> vs) end)
           (LayoutNode.jsonOfPercentage p) (LayoutNode.jsonOfMargin m)
  end.

Fixpoint decode (j : Json) : View :=
  match j with
  | JObj jchildren jpercentage jmargin =>
      V (LayoutNode.percentageOfJson jpercentage)
        (default (Num.ofZ 0) jmargin)
        (match jchildren with
         | Some l => decode <$> l
         | None => []
         end)
  end.

(** A percentage that comes back from the file as it went: not [null],
    and not one of the two numbers that stand for the sentinels. *)
Definition wireSafe (p : jsval) : Prop :=
  LayoutNode.percentageOfJson (LayoutNode.jsonOfPercentage p) = p.

(** The same number: identical, or equal as numbers. *)
Definition sameNum (a b : num) : Prop := a = b \/ Num.eqb a b = true.

(** The same structure: the same shape, identical percentages and the
    same margins. *)
Unset Elimination Schemes.
Inductive sameView : View -> View -> Prop :=
  | sameView_node (p : jsval) (m m' : num) (vs vs' : list View) :
      sameNum m m' ->
      Forall2 sameView vs vs' ->
      sameView (V p m vs) (V p m' vs').
Set Elimination Schemes.

Definition viewPercentage (v : View) : jsval := match v with V p _ _ => p end.

(** Every proper descendant has a percentage that comes back from the
    file as it went. *)
Unset Elimination Schemes.
Inductive safeBelow : View -> Prop :=
  | safeBelow_node (p : jsval) (m : num) (vs : list View) :
      Forall (fun c => wireSafe (viewPercentage c)) vs ->
      Forall safeBelow vs ->
      safeBelow (V p m vs).
Set Elimination Schemes.

Fixpoint vheight (v : View) : nat :=
  match v with
  | V _ _ vs => S (max_list (vheight <$> vs))
  end.

(** [s'] keeps what [s] holds, but for the object [n]: objects and arrays
    are only added. *)
Definition extends (n : ref) (s s' : store) : Prop :=
  length (objs s) <= length (objs s')
  /\ length (arrs s) <= length (arrs s')
  /\ (forall r, r < length (objs s) -> r <> n -> objs s' !! r = objs s !! r)
  /\ (forall a, a < length (arrs s) -> arrs s' !! a = arrs s !! a).

(** What [fromJSON] does on a node that has just been constructed. *)
Definition loadsJson (j : Json) : Prop :=
  forall (s : store) (n : ref) (o : obj),
    objs s !! n = Some o ->
    arrs s !! children o = Some [] ->
    margin o = Num.ofZ 0 ->
    exists s',
      LayoutNode.fromJSON j n s = Some s'
      /\ hasView (length (objs s)) s' n (decode j)
      /\ extends n s s'.

Definition jmargin (j : Json) : option num :=
  match j with JObj _ _ m => m end.

Definition keepsChildren (func : obj -> obj) : Prop :=
  forall o, children (func o) = children o.

Definition applied (func : obj -> obj) (ns : list ref) (s s' : store) : Prop :=
  arrs s' = arrs s
  /\ forall r, objs s' !! r =
               if bool_decide (r ∈ ns) then func <$> objs s !! r
               else objs s !! r.


(** The test [validateRects] makes on one node: wider and higher than
    100 pixels. *)
Definition bigEnough (o : obj) : bool :=
  negb (Num.leb (Rect.width (rect o)) (Num.ofZ 100)
        || Num.leb (Rect.height (rect o)) (Num.ofZ 100)).

(** The test [findNodeAtPosition] makes on one node: a leaf whose
    rectangle holds the point. *)
Definition leafAt (s : store) (x y : num) (n : ref) : bool :=
  match objs s !! n with
  | Some o =>
      match arrs s !! children o with
      | Some cs => LayoutNode.inRect x y (rect o) && (length cs =? 0)
      | None => false
      end
  | None => false
  end.

(** The objects [n] of two stores differ in their [rect] at most. *)
Definition agreeButRect (s1 s2 : store) (n : ref) : Prop :=
  exists o1 o2,
    objs s1 !! n = Some o1 /\ objs s2 !! n = Some o2 /\ sameButRect o1 o2.

(** [node] is an element of [p.children]. *)
Definition hasChild (s : store) (node p : ref) : bool :=
  match kids s p with
  | Some cs => bool_decide (node ∈ cs)
  | None => false
  end.

(** What [delete] does at the node [p] that holds [node]: a new empty
    array when [p] has two children, a [splice] of [p]'s array
    otherwise. *)
Definition detach (p node : ref) (s : store) : option store :=
  o ← objs s !! p;
  cs ← arrs s !! children o;
  index ← indexOf node cs;
  if length cs =? 2 then
    let '(s, arr) := allocArr [] s in
    Some (updObj (set_children arr) p s)
  else Some (setArr (children o) (spliceOut index cs) s).

(** ** The integrity check on a structure

    The test of [getIntegrityError] on the percentage of a child that is
    not the last one. *)
Definition badPct (p : jsval) : bool :=
  LayoutNode.isNull p
  || Num.ltb (toNumber p) (Num.ofZ (-1))
  || Num.gtb (toNumber p) (Num.ofZ 1).

(** What [getIntegrityError] answers on a structure: the first error in
    pre-order, [None] for [null]. *)
Fixpoint viewError (v : View) : option string :=
  match v with
  | V _ _ vs =>
      let ps := viewPercentage <$> vs in
      if length vs =? 1 then
        Some "broken invariant: children has 1 element"%string
      else if existsb badPct (take (length ps - 1) ps) then
        Some "broken invariant: percentage not in [-1,1]"%string
      else if existsb (fun p => negb (LayoutNode.isLastNodePercentage p))
                      (drop (length ps - 1) ps) then
        Some "broken invariant: last child invalid percentage"%string
      else (fix first (l : list View) : option string :=
              match l with
              | [] => None
              | v :: l => match viewError v with
                          | Some e => Some e
                          | None => first l
                          end
              end) vs
  end.

(** The first error among the children, in order. *)
Definition firstError : list View -> option string :=
  fix first (l : list View) : option string :=
    match l with
    | [] => None
    | v :: l => match viewError v with
                | Some e => Some e
                | None => first l
                end
    end.

(** The structures the check lets pass: no node has exactly one child;
    a child that is not the last one has a percentage that is not [null]
    and neither below -1 nor above 1; a last child has a sentinel. *)
Unset Elimination Schemes.
Inductive accepted : View -> Prop :=
  | accepted_node (p : jsval) (m : num) (vs : list View) :
      length vs <> 1 ->
      Forall (fun c => badPct (viewPercentage c) = false)
             (take (length vs - 1) vs) ->
      (forall c, last vs = Some c ->
                 LayoutNode.isLastNodePercentage (viewPercentage c) = true) ->
      Forall accepted vs ->
      accepted (V p m vs).
Set Elimination Schemes.

(** [fromJSON] allocates an object for every node of the file below the
    root: the store grows by at least the height of the structure. *)
Definition growsByHeight (j : Json) : Prop :=
  forall (s s' : store) (n : ref),
    LayoutNode.fromJSON j n s = Some s' ->
    vheight (decode j) + length (objs s) <= S (length (objs s')).

(** ** Clones

    The structure of a clone.  [clone] builds every node with the
    constructor, and the constructor gives the last of two or more
    children the sentinel of the first child's axis. *)
Definition setViewPercentage (p : jsval) (v : View) : View :=
  match v with V _ m vs => V p m vs end.

Definition withFiller (vs : list View) : list View :=
  match head vs with
  | Some first =>
      if 2 <=? length vs then
        alter (setViewPercentage
                 (JNum (LastNodePercentages (axisOf (viewPercentage first)))))
              (length vs - 1) vs
      else vs
  | None => vs
  end.

Fixpoint cloneView (v : View) : View :=
  match v with
  | V p m vs => V p m (withFiller (cloneView <$> vs))
  end.

(** [snapshot lo la s r v]: the object [r] and its descendants carry the
    structure [v]; the descendants of a node are objects allocated at or
    after [lo] and before the node, and the arrays are allocated at or
    after [la]. *)
Unset Elimination Schemes.
Inductive snapshot (lo la : nat) (s : store) : ref -> View -> Prop :=
  | snapshot_node (r : ref) (o : obj) (cs : list ref) (vs : list View) :
      objs s !! r = Some o ->
      arrs s !! children o = Some cs ->
      la <= children o ->
      Forall (fun c => lo <= c /\ c < r) cs ->
      Forall2 (snapshot lo la s) cs vs ->
      snapshot lo la s r (V (percentage o) (margin o) vs).
Set Elimination Schemes.

(** The fields of an object that make the structure. *)
Definition viewFields (o : obj) : jsval * num * aref :=
  (percentage o, margin o, children o).

(** Every node with two or more children has, as its last child's
    percentage, the sentinel of its first child's axis. *)
Unset Elimination Schemes.
Inductive fillersMatch : View -> Prop :=
  | fillersMatch_node (p : jsval) (m : num) (vs : list View) :
      (forall first lastChild,
          2 <= length vs -> head vs = Some first -> last vs = Some lastChild ->
          viewPercentage lastChild
          = JNum (LastNodePercentages (axisOf (viewPercentage first)))) ->
      Forall fillersMatch vs ->
      fillersMatch (V p m vs).
Set Elimination Schemes.

(** What [clone] does on a node that carries the structure [v]: it
    returns a new object, the last one allocated, that carries the
    structure [cloneView v] on new objects and new arrays and has the
    [rect], [isResizing], [isPreview] and [margin] of the original, no
    parent and the other fields as the class initialises them; the
    objects and arrays of the store it is given are left as they are. *)
Definition clones (v : View) : Prop :=
  forall (fuel : nat) (s : store) (r : ref),
    hasView 0 s r v -> vheight v <= fuel ->
    exists s' c o o',
      LayoutNode.clone_ fuel r s = Some (s', c)
      /\ objs s !! r = Some o /\ objs s' !! c = Some o'
      /\ length (objs s) <= c /\ S c = length (objs s')
      /\ length (arrs s) <= length (arrs s')
      /\ (forall x, x < length (objs s) -> objs s' !! x = objs s !! x)
      /\ (forall a, a < length (arrs s) -> arrs s' !! a = arrs s !! a)
      /\ snapshot (length (objs s)) (length (arrs s)) s' c (cloneView v)
      /\ o' = mkObj (percentage o) None (children o') (rect o) (isResizing o)
                    (isPreview o) false None false (margin o).

(** The last element of a list of references is the last object
    allocated. *)
Definition lastIsNewest (s : store) (l : list ref) : Prop :=
  forall c, last l = Some c -> S c = length (objs s).

(** The tree of [smallStore] below the object [2], and its structure. *)
Definition smallTree : Shape := Sh 2 [Sh 0 []; Sh 1 []].

Definition smallView : View :=
  V (JNum (Fin (1 # 2))) (Num.ofZ 0)
    [ V (JNum (Fin (-1 # 2))) (Num.ofZ 0) [];
      V (JNum NegInf) (Num.ofZ 0) [] ].

(** [smallStore] with the divider of the object [0] being dragged. *)
Definition resizingStore : store := updObj (set_isResizing true) 0 smallStore.


(** What [_stopResizing] assigns to a node. *)
Definition stopped (n : obj) : obj :=
  set_isHighlighted false (set_originalRect None (set_isResizing false n)).


(** [smallStore] with the parent link of the object [0]. *)
Definition linkedStore : store := updObj (set_parent (Some 2)) 0 smallStore.

(** What [_finalizePreview] assigns to a node. *)
Definition finalized (n : obj) : obj :=
  set_originalRect None (set_isPreview false n).

(** [smallStore] with the object [0] as a preview. *)
Definition previewStore : store := updObj (set_isPreview true) 0 smallStore.
(** What [clone] does to the shape: the clone is the root of a tree of
    new objects, no object occurring twice in it. *)
Definition clonesShape (t : Shape) : Prop :=
  forall (fuel : nat) (s : store),
    shaped s t -> height t <= fuel ->
    exists s' c tc,
      LayoutNode.clone_ fuel (root t) s = Some (s', c)
      /\ root tc = c /\ shaped s' tc /\ NoDup (nodes tc)
      /\ Forall (fun n => length (objs s) <= n /\ n < length (objs s')) (nodes tc)
      /\ length (arrs s) <= length (arrs s')
      /\ (forall x, x < length (objs s) -> objs s' !! x = objs s !! x)
      /\ (forall a, a < length (arrs s) -> arrs s' !! a = arrs s !! a).

(** The structure [v] with [m] as the margin of every node. *)
Fixpoint withMargin (m : num) (v : View) : View :=
  match v with
  | V p _ vs => V p m (withMargin m <$> vs)
  end.

(** * GridEditor

    The fields of the class that the handlers read and assign.  Of the
    actors the editor keeps what the handlers do to them: whether each of
    the two dialogs is shown, and how many [queue_repaint()] calls the
    drawing area and each of the preset areas have received; a preset
    area carries its [tree].  [x], [y] and [state] are what
    [global.get_pointer()] answers, [button] and [key] what the event
    answers. *)
Module GridEditor.
Import LayoutNode.

(** [Clutter.EVENT_STOP], [Clutter.EVENT_PROPAGATE] and the key symbols
    of the dialogs. *)
Definition EVENT_STOP : bool := true.
Definition EVENT_PROPAGATE : bool := false.
Definition KEY_space : Z := 32.
Definition KEY_Alt_L : Z := 65513.
Definition KEY_Alt_R : Z := 65514.

Record t : Type := mk {
  workArea : Rect.t;
  layoutTree : ref;
  presets : list ref;
  previewOperation : PreviewSplitOperation.t;
  loadPresetDialog : bool;
  savePresetDialog : bool;
  drawingArea : nat;
  presetAreas : list (ref * nat)
}.

Definition set_previewOperation (op : PreviewSplitOperation.t) (this : t) : t :=
  mk (workArea this) (layoutTree this) (presets this) op
     (loadPresetDialog this) (savePresetDialog this) (drawingArea this)
     (presetAreas this).

Definition set_dialogs (load save : bool) (this : t) : t :=
  mk (workArea this) (layoutTree this) (presets this) (previewOperation this)
     load save (drawingArea this) (presetAreas this).

Definition set_presetAreas (areas : list (ref * nat)) (this : t) : t :=
  mk (workArea this) (layoutTree this) (presets this) (previewOperation this)
     (loadPresetDialog this) (savePresetDialog this) (drawingArea this) areas.

(** [this.#drawingArea.queue_repaint()] *)
Definition queue_repaint (this : t) : t :=
  mk (workArea this) (layoutTree this) (presets this) (previewOperation this)
     (loadPresetDialog this) (savePresetDialog this) (S (drawingArea this))
     (presetAreas this).

(** [for (...) this.#presetAreas[i].queue_repaint()] *)
Definition repaintPresetAreas (this : t) : t :=
  set_presetAreas ((fun '(tree, n) => (tree, S n)) <$> presetAreas this) this.

Definition resizeOperation (this : t) : ResizeOperation.t :=
  ResizeOperation.new (layoutTree this).

Definition marginsOperation (this : t) : MarginsOperation.t :=
  MarginsOperation.new (layoutTree this).

(** [layout] is [None] for [undefined], on which [layout.clone()]
    throws. *)
Definition usePreset (this : t) (layout : option ref) (s : store)
  : option (t * store) :=
  (* clone the preset and 'revert' the layout to this clone *)
  o ← objs s !! layoutTree this;
  leaf ← isLeaf s o;
  currentMargin ←
    (if leaf : bool then Some (Num.ofZ 0)
     else cs ← arrs s !! children o;
          first ← head cs;
          fo ← objs s !! first;
          Some (margin fo));
  layout ← layout;
  '(s, snapshot) ← clone layout s;
  s ← revert (layoutTree this) snapshot s;
  s ← forSelfAndDescendants (set_margin currentMargin) (layoutTree this) s;
  s ← calculateRects (layoutTree this) (Some (workArea this)) s;
  Some (queue_repaint this, s).

(** The callback handed to [PresetShortcutOperation] is
    [this.#usePreset.bind(this)]; its world is the editor and the store,
    [None] once it has thrown. *)
Definition presetShortcutOperation (this : t)
  : PresetShortcutOperation.t ref (option (t * store)) :=
  PresetShortcutOperation.mk (layoutTree this) (presets this)
    (fun layout w => '(this, s) ← w; usePreset this layout s).

(** The ['button-press-event'] handler of the [i]-th preset area when it
    is an area of the save dialog. *)
Definition onSavePresetPress (this : t) (i : nat) (s : store)
  : option (t * store) :=
  '(tree, n) ← presetAreas this !! i;
  (* clone the preset and 'revert' the layout to this clone *)
  ao ← objs s !! tree;
  let currentRect := rect ao in
  '(s, snapshot) ← clone (layoutTree this) s;
  s ← revert tree snapshot s;
  s ← forSelfAndDescendants (set_margin (Num.ofZ 0)) tree s;
  s ← calculateRects tree (Some currentRect) s;
  Some (set_presetAreas (<[i := (tree, S n)]> (presetAreas this)) this, s).

(** The ['button-press-event'] handler of the [i]-th preset area when it
    is an area of the load dialog. *)
Definition onLoadPresetPress (this : t) (i : nat) (s : store)
  : option (t * store) :=
  '(tree, _) ← presetAreas this !! i;
  usePreset this (Some tree) s.

Definition handleOperationResult (this : t) (result : option OperationResult.t)
  : bool * t :=
  match result with
  | Some r =>
      (EVENT_STOP,
       if OperationResult.shouldRedraw r then queue_repaint this else this)
  | None => (EVENT_PROPAGATE, this)
  end.

Definition onMotion (this : t) (x y : num) (state : Z) (s : store)
  : option (bool * t * store) :=
  '(result, op, s) ←
    PreviewSplitOperation.onMotion (previewOperation this) x y state s;
  let this := set_previewOperation op this in
  '(result, s) ←
    match result with
    | Some _ => Some (result, s)
    | None => ResizeOperation.onMotion (resizeOperation this) x y state s
    end;
  Some (handleOperationResult this result, s).

Definition onButtonPress (this : t) (x y : num) (state button : Z) (s : store)
  : option (bool * t * store) :=
  '(result, op, s) ←
    PreviewSplitOperation.onButtonPress (previewOperation this) x y state button s;
  let this := set_previewOperation op this in
  '(result, s) ←
    match result with
    | Some _ => Some (result, s)
    | None =>
        ResizeOperation.onButtonPress (resizeOperation this) x y state button s
    end;
  Some (handleOperationResult this result, s).

Definition onButtonRelease (this : t) (x y : num) (state button : Z) (s : store)
  : option (bool * t * store) :=
  '(result, op, s) ←
    PreviewSplitOperation.onButtonRelease (previewOperation this) x y state
      button s;
  let this := set_previewOperation op this in
  '(result, s) ←
    match result with
    | Some _ => Some (result, s)
    | None =>
        ResizeOperation.onButtonRelease (resizeOperation this) x y state button s
    end;
  Some (handleOperationResult this result, s).

Definition onKeyRelease (this : t) (x y : num) (state key : Z) (s : store)
  : option (bool * t * store) :=
  let this :=
    if (key =? KEY_space)%Z || (key =? KEY_Alt_L)%Z || (key =? KEY_Alt_R)%Z
    then set_dialogs false false this
    else this in
  '(result, op, s) ←
    PreviewSplitOperation.onKeyRelease (previewOperation this) x y state s;
  let this := set_previewOperation op this in
  '(result, s) ←
    match result with
    | Some _ => Some (result, s)
    | None => ResizeOperation.onKeyRelease (resizeOperation this) x y state s
    end;
  Some (handleOperationResult this result, s).

Definition onKeyPress (this : t) (x y : num) (state key : Z) (s : store)
  : option (bool * t * store) :=
  let this :=
    if (key =? KEY_space)%Z
    then repaintPresetAreas (set_dialogs true false this)
    else this in
  let this :=
    if (key =? KEY_Alt_L)%Z || (key =? KEY_Alt_R)%Z
    then repaintPresetAreas (set_dialogs false true this)
    else this in
  '(result, op, s) ←
    PreviewSplitOperation.onKeyPress (previewOperation this) x y state key s;
  let this := set_previewOperation op this in
  match result with
  | Some _ => Some (handleOperationResult this result, s)
  | None =>
      '(result, s) ← ResizeOperation.onKeyPress (resizeOperation this) x y state key s;
      match result with
      | Some _ => Some (handleOperationResult this result, s)
      | None =>
          '(result, s) ←
            MarginsOperation.onKeyPress (marginsOperation this) x y state key s;
          match result with
          | Some _ => Some (handleOperationResult this result, s)
          | None =>
              let '(result, w) :=
                PresetShortcutOperation.onKeyPress (presetShortcutOperation this)
                  x y state key (Some (this, s)) in
              '(this, s) ← w;
              Some (handleOperationResult this result, s)
          end
      end
  end.

End GridEditor.

(** An editor on [smallStore]: the object [3] is the layout, the tree
    below the object [2] is the only preset and the tree of the only
    preset area. *)
Definition smallEditor : GridEditor.t :=
  GridEditor.mk workArea 3 [2] (PreviewSplitOperation.new 3) false false 0
                [(2, 0)].

(** * window-utils.js *)

(** A panel as [getUsableScreenArea] reads it: [isHideable()],
    [panelPosition] and [height]. *)
Module Panel.
Inductive PanelLoc : Type := top | bottom | left | right.
Record t : Type := mk {
  isHideable : bool;
  panelPosition : PanelLoc;
  height : num
}.
End Panel.

(** [===] on panel positions. *)
Definition sameLoc (a b : Panel.PanelLoc) : bool :=
  match a, b with
  | Panel.top, Panel.top | Panel.bottom, Panel.bottom
  | Panel.left, Panel.left | Panel.right, Panel.right => true
  | _, _ => false
  end.

Module WindowUtils.

(** One turn of the loop over the panels of the display; the state is
    [top], [bottom], [left] and [right]. *)
Definition addPanel (acc : num * num * num * num) (panel : Panel.t)
  : num * num * num * num :=
  let '(top, bottom, left', right') := acc in
  if negb (Panel.isHideable panel) then
    match Panel.panelPosition panel with
    | Panel.top => (Num.add top (Panel.height panel), bottom, left', right')
    | Panel.bottom => (top, Num.sub bottom (Panel.height panel), left', right')
    | Panel.left => (top, bottom, Num.add left' (Panel.height panel), right')
    | Panel.right => (top, bottom, left', Num.sub right' (Panel.height panel))
    end
  else acc.

(** get the screen area excluding the panels.  [get_monitor_geometry] is
    [global.display.get_monitor_geometry] and [getPanelsInMonitor] is
    [Main.panelManager.getPanelsInMonitor]; [None] is the [null] returned
    for a [displayIdx] that is not a number. *)
Definition getUsableScreenArea (get_monitor_geometry : num -> Rect.t)
  (getPanelsInMonitor : num -> list Panel.t) (displayIdx : jsval)
  : option Rect.t :=
  match displayIdx with
  | JNum idx =>
      let display := get_monitor_geometry idx in
      let top := Rect.y display in
      let bottom := Num.add (Rect.y display) (Rect.height display) in
      let left' := Rect.x display in
      let right' := Num.add (Rect.x display) (Rect.width display) in
      (* Get panels for this display *)
      let '(top, bottom, left', right') :=
        foldl addPanel (top, bottom, left', right') (getPanelsInMonitor idx) in
      let width := Num.max (Num.ofZ 0) (Num.sub right' left') in
      let height := Num.max (Num.ofZ 0) (Num.sub bottom top) in
      Some (Rect.mk left' top width height)
  | _ => None
  end.

End WindowUtils.

(** The total [height] of the panels at [loc] that cannot hide. *)
Definition thickness (loc : Panel.PanelLoc) (panels : list Panel.t) : Q :=
  foldr (fun panel acc =>
           if negb (Panel.isHideable panel)
              && sameLoc (Panel.panelPosition panel) loc
           then match Panel.height panel with
                | Fin h => h + acc
                | _ => acc
                end
           else acc)%Q 0%Q panels.

(** A panel whose [height] is a number that is not negative. *)
Definition solidPanel (panel : Panel.t) : Prop :=
  exists h, Panel.height panel = Fin h /\ (0 <= h)%Q.

(** * drawing.js

    The Cairo context is kept as the list of the calls made on it, the
    latest last.  An angle is a whole number of quarter turns: the
    source writes them as [-TAU / 4], [0], [TAU / 4], [TAU / 2] and
    [TAU * 3 / 4]. *)
Module Drawing.
Import LayoutNode.

Record Color : Type := rgba { r : num; g : num; b : num; a : num }.

Record Colors : Type := mkColors {
  background : Color;
  highlight : Color;
  border : Color
}.

Inductive Cairo : Type :=
  | newPath
  | moveTo (x y : num)
  | lineTo (x y : num)
  | arc (xc yc radius : num) (angle1 angle2 : Z)
  | closePath
  | fill
  | stroke
  | setSourceRGBA (r g b a : num).

(** blueish default / fallback colors *)
Definition DefaultColors : Colors :=
  mkColors
    (rgba (Fin (12 # 255)) (Fin (117 # 255)) (Fin (222 # 255)) (Fin (3 # 10)))
    (rgba (Fin (12 # 255)) (Fin (117 # 255)) (Fin (222 # 255)) (Fin (6 # 10)))
    (rgba (Fin (0 # 255)) (Fin (255 # 255)) (Fin (0 # 255)) (Fin 1)).

Definition setSource (c : Color) : Cairo := setSourceRGBA (r c) (g c) (b c) (a c).

Definition drawPath (rect : Rect.t) (radius : num) : list Cairo :=
  let x := Rect.x rect in
  let y := Rect.y rect in
  let width := Rect.width rect in
  let height := Rect.height rect in
  [ (* Start a new path for the rounded rectangle *)
    newPath;
    (* Move to starting point *)
    moveTo (Num.add x radius) y;
    (* Top edge and top-right corner *)
    lineTo (Num.sub (Num.add x width) radius) y;
    arc (Num.sub (Num.add x width) radius) (Num.add y radius) radius (-1) 0;
    (* Right edge and bottom-right corner *)
    lineTo (Num.add x width) (Num.sub (Num.add y height) radius);
    arc (Num.sub (Num.add x width) radius) (Num.sub (Num.add y height) radius)
        radius 0 1;
    (* Bottom edge and bottom-left corner *)
    lineTo (Num.add x radius) (Num.add y height);
    arc (Num.add x radius) (Num.sub (Num.add y height) radius) radius 1 2;
    (* Left edge and top-left corner *)
    lineTo x (Num.add y radius);
    arc (Num.add x radius) (Num.add y radius) radius 2 3;
    closePath ].

Definition drawRoundedRect (cr : list Cairo) (rect : Rect.t) (radius : num)
  (fillColor strokeColor : Color) : list Cairo :=
  (* fill the region *)
  let cr := cr ++ [setSource fillColor] in
  let cr := cr ++ drawPath rect radius in
  let cr := cr ++ [fill] in
  (* draw the border *)
  let cr := cr ++ [setSource strokeColor] in
  let cr := cr ++ drawPath rect radius in
  cr ++ [stroke].

Definition addMargins (rect : Rect.t) (margin : num) : Rect.t :=
  Rect.mk (Num.add (Rect.x rect) margin)
          (Num.add (Rect.y rect) margin)
          (Num.sub (Rect.width rect) (Num.mul margin (Num.ofZ 2)))
          (Num.sub (Rect.height rect) (Num.mul margin (Num.ofZ 2))).

(** [node = None] is [null]; [colors] and [cornerRadius] are [None] when
    the caller leaves them out. *)
Fixpoint drawLayout_ (fuel : nat) (cr : list Cairo) (node : option ref)
  (displayRect : Rect.t) (colors : option Colors) (cornerRadius : option num)
  (s : store) : option (list Cairo) :=
  match fuel with
  | 0 => None
  | S fuel =>
      match node with
      | None => Some cr
      | Some node =>
          let colors' := default DefaultColors colors in
          let cornerRadius' := default (Num.ofZ 10) cornerRadius in
          o ← objs s !! node;
          (* Draw current node *)
          let rect := rect o in
          (* Offset by monitor displayRect *)
          let x := Num.sub (Rect.x rect) (Rect.x displayRect) in
          let y := Num.sub (Rect.y rect) (Rect.y displayRect) in
          let width := Rect.width rect in
          let height := Rect.height rect in
          (* draw the region of a leaf node *)
          leaf ← isLeaf s o;
          let cr :=
            if leaf : bool then
              let c :=
                (* highlighted regions have a more active color *)
                if isHighlighted o then highlight colors'
                else background colors' in
              let cr := cr ++ [setSource c] in
              let regionRect := addMargins (Rect.mk x y width height) (margin o) in
              drawRoundedRect cr regionRect cornerRadius' c (border colors')
            else cr in
          cs ← arrs s !! children o;
          foldlM (fun cr child =>
                    drawLayout_ fuel cr (Some child) displayRect (Some colors')
                                (Some cornerRadius') s) cr cs
      end
  end.

Definition drawLayout (cr : list Cairo) (node : option ref)
  (displayRect : Rect.t) (colors : option Colors) (cornerRadius : option num)
  (s : store) : option (list Cairo) :=
  drawLayout_ (budget s) cr node displayRect colors cornerRadius s.

End Drawing.

(** A node of the store without children. *)
Definition leafNode (s : store) (n : ref) : bool :=
  match kids s n with
  | Some [] => true
  | _ => false
  end.

(** What [drawLayout] draws for the leaf [n]: a rounded rectangle at the
    node's rectangle, moved by the display's origin and shrunk by the
    node's margin, filled with the highlight colour when the node is
    highlighted and with the background colour otherwise. *)
Definition paintLeaf (displayRect : Rect.t) (colors : Drawing.Colors)
  (cornerRadius : num) (s : store) (n : ref) : list Drawing.Cairo :=
  match objs s !! n with
  | Some o =>
      let c := if isHighlighted o then Drawing.highlight colors
               else Drawing.background colors in
      let region :=
        Drawing.addMargins
          (Rect.mk (Num.sub (Rect.x (rect o)) (Rect.x displayRect))
                   (Num.sub (Rect.y (rect o)) (Rect.y displayRect))
                   (Rect.width (rect o)) (Rect.height (rect o)))
          (margin o) in
      Drawing.setSource c
      :: Drawing.drawRoundedRect [] region cornerRadius c (Drawing.border colors)
  | None => []
  end.

(** * PresetShortcutOperation *)

(** C5 as stated fails: with an empty preset list the key [1] indexes an
    absent slot, and the callback is called all the same, with
    [undefined]. *)
Lemma preset_absent_slot_still_invoked :
  presetIndex Clutter.KEY_1 = Some 0
  /\ PresetShortcutOperation.presets (recordingOperation []) !! 0 = None
  /\ PresetShortcutOperation.onKeyPress (recordingOperation [])
       (Num.ofZ 0) (Num.ofZ 0) 0 Clutter.KEY_1 []
     = (OperationResult.handledAndRedraw, [None]).
Proof. repeat split. Qed.

(** C5 (amended): each of the eight designated keys calls the callback
    once with the entry of the preset list at the key's index, which is
    [undefined] ([None]) when the slot is absent, and reports handled and
    redraw; any other key is reported not handled and the callback is not
    called. *)
Theorem preset_onKeyPress_spec {Preset W : Type}
  (this : PresetShortcutOperation.t Preset W) (x y : num) (state key : Z) (w : W) :
  PresetShortcutOperation.onKeyPress this x y state key w =
  match presetIndex key with
  | Some i =>
      (OperationResult.handledAndRedraw,
       PresetShortcutOperation.onUsePreset this
         (PresetShortcutOperation.presets this !! i) w)
  | None => (OperationResult.notHandled, w)
  end.
Proof.
  unfold PresetShortcutOperation.onKeyPress, presetIndex.
  repeat (case_match; [reflexivity|]).
  reflexivity.
Qed.

(** * Store lemmas *)

Lemma updObj_lookup (f : obj -> obj) (r r' : ref) (s : store) :
  objs (updObj f r s) !! r' =
  if decide (r = r') then f <$> objs s !! r' else objs s !! r'.
Proof.
  unfold updObj; simpl. destruct (decide (r = r')) as [->|Hne].
  - apply list_lookup_alter_eq.
  - by apply list_lookup_alter_ne.
Qed.

Lemma updObj_lookup_eq (f : obj -> obj) (r : ref) (s : store) :
  objs (updObj f r s) !! r = f <$> objs s !! r.
Proof. rewrite updObj_lookup. by rewrite decide_True. Qed.

Lemma updObj_lookup_ne (f : obj -> obj) (r r' : ref) (s : store) :
  r <> r' -> objs (updObj f r s) !! r' = objs s !! r'.
Proof. intros. rewrite updObj_lookup. by rewrite decide_False. Qed.

Lemma updObj_arrs (f : obj -> obj) (r : ref) (s : store) :
  arrs (updObj f r s) = arrs s.
Proof. reflexivity. Qed.

Lemma setArr_objs (a : aref) (l : list ref) (s : store) :
  objs (setArr a l s) = objs s.
Proof. reflexivity. Qed.

Lemma updObj_length (f : obj -> obj) (r : ref) (s : store) :
  length (objs (updObj f r s)) = length (objs s).
Proof. apply length_alter. Qed.

(** * revert *)

(** C10: [revert] assigns to [this] the snapshot's percentage, rect,
    isResizing, isPreview, margin and children array (the same array, not
    a copy), leaves the other fields of [this] and every other object as
    they were, and so leaves the [parent] field of every object, the
    elements of the adopted array among them, as it was. *)
Theorem revert_keeps_parents (s : store) (this snapshot : ref) (t o : obj)
  (Hthis : objs s !! this = Some t) (Hsnap : objs s !! snapshot = Some o) :
  exists s',
    LayoutNode.revert this snapshot s = Some s'
    /\ objs s' !! this =
         Some (mkObj (percentage o) (parent t) (children o) (rect o)
                     (isResizing o) (isPreview o) (isHighlighted t)
                     (originalRect t) (isSnappingDestination t) (margin o))
    /\ (forall r, r <> this -> objs s' !! r = objs s !! r)
    /\ arrs s' = arrs s
    /\ kids s' this = kids s snapshot
    /\ (forall c, parent <$> objs s' !! c = parent <$> objs s !! c).
Proof.
  unfold LayoutNode.revert. rewrite Hthis, Hsnap. simpl.
  eexists; split; [reflexivity|].
  split; [by rewrite updObj_lookup_eq, Hthis|].
  split; [intros r Hr; by apply updObj_lookup_ne|].
  split; [reflexivity|].
  split.
  - unfold kids. rewrite updObj_lookup_eq, Hthis, Hsnap. reflexivity.
  - intros c. rewrite updObj_lookup. case_decide; [subst c|done].
    by rewrite Hthis.
Qed.

Lemma revert_keeps_parents_witness :
  exists s',
    LayoutNode.revert 3 2 smallStore = Some s'
    /\ objs s' !! 3 =
         Some (LayoutNode.fresh (JNum (Fin (1 # 2))) 2)
    /\ (forall r, r <> 3 -> objs s' !! r = objs smallStore !! r)
    /\ arrs s' = arrs smallStore
    /\ kids s' 3 = kids smallStore 2
    /\ (forall c, parent <$> objs s' !! c = parent <$> objs smallStore !! c).
Proof.
  exact (revert_keeps_parents smallStore 3 2 _ _ eq_refl eq_refl).
Defined.

(** * The constructor *)

Lemma setParents_arrs (this : ref) (cs : list ref) (s : store) :
  arrs (LayoutNode.setParents this cs s) = arrs s.
Proof.
  revert s. induction cs as [|c cs IH]; intros s; [done|].
  unfold LayoutNode.setParents in *. simpl. by rewrite IH.
Qed.

Lemma setParents_lookup (this : ref) (cs : list ref) (s : store) (r : ref) :
  objs (LayoutNode.setParents this cs s) !! r =
  (if bool_decide (r ∈ cs) then set_parent (Some this) else id) <$> objs s !! r.
Proof.
  revert s. induction cs as [|c cs IH]; intros s.
  - simpl. by destruct (objs s !! r).
  - unfold LayoutNode.setParents in *. simpl. rewrite IH, updObj_lookup.
    destruct (decide (c = r)) as [->|Hne].
    + rewrite (bool_decide_eq_true_2 (r ∈ r :: cs)) by apply list_elem_of_here.
      destruct (objs s !! r); [|done]. by case_bool_decide.
    + destruct (decide (r ∈ cs)) as [Hin|Hnin].
      * rewrite !bool_decide_eq_true_2; [done| |done]. by apply list_elem_of_further.
      * rewrite !bool_decide_eq_false_2; [done| |done].
        intros [->|?]%elem_of_cons; done.
Qed.

Lemma setParents_percentage (this : ref) (cs : list ref) (s : store) (r : ref) :
  percentage <$> objs (LayoutNode.setParents this cs s) !! r = percentage <$> objs s !! r.
Proof.
  rewrite setParents_lookup. destruct (objs s !! r); [|done].
  by case_bool_decide.
Qed.

(** C9: a constructor call with a child list of length at least 2 returns
    the new object and leaves the last child with the sentinel of the
    first child's axis as its percentage, whatever percentage it had:
    [+Infinity] when the first child is a column node, [-Infinity] when it
    is a row node.  The new node's children are the list given, so it
    satisfies the last-child-sentinel invariant. *)
Theorem constructor_last_child_sentinel (s : store) (p : jsval) (arr : aref)
  (cs : list ref) (first lastChild : ref) (fo lo : obj)
  (Harr : arrs s !! arr = Some cs)
  (Hlen : 2 <= length cs)
  (Hfirst : head cs = Some first)
  (Hlast : last cs = Some lastChild)
  (Hfo : objs s !! first = Some fo)
  (Hlo : objs s !! lastChild = Some lo) :
  exists s',
    LayoutNode.new p (Some arr) s = Some (s', length (objs s))
    /\ kids s' (length (objs s)) = Some cs
    /\ percentage <$> objs s' !! lastChild =
         Some (JNum (match LayoutNode.axis fo with
                     | AxisX => PosInf
                     | AxisY => NegInf
                     end))
    /\ (LayoutNode.isLastNodePercentage <$> (percentage <$> objs s' !! lastChild))
         = Some true.
Proof.
  unfold LayoutNode.new, allocObj. cbn -[Nat.leb LayoutNode.setParents].
  rewrite Harr. cbn -[Nat.leb LayoutNode.setParents].
  set (s1 := LayoutNode.setParents _ _ _).
  assert (Hl : (2 <=? length cs) = true) by by apply Nat.leb_le.
  rewrite Hl, Hfirst, Hlast. cbn -[LayoutNode.setParents].
  assert (Hf1 : objs s1 !! first
                = Some ((if bool_decide (first ∈ cs)
                         then set_parent (Some (length (objs s))) else id) fo)).
  { unfold s1. rewrite setParents_lookup. simpl.
    by rewrite (lookup_app_l_Some _ _ _ _ Hfo). }
  rewrite Hf1. cbn -[LayoutNode.setParents].
  assert (Hax : LayoutNode.axis
                  ((if bool_decide (first ∈ cs)
                    then set_parent (Some (length (objs s))) else id) fo)
                = LayoutNode.axis fo) by by case_bool_decide.
  rewrite Hax.
  eexists; split; [reflexivity|].
  assert (Hp : percentage <$>
               objs (updObj
                 (set_percentage
                    (JNum (if LayoutNode.isAxisX (LayoutNode.axis fo)
                           then LastNodeXPercentage else LastNodeYPercentage)))
                 lastChild s1) !! lastChild
               = Some (JNum (match LayoutNode.axis fo with
                             | AxisX => PosInf
                             | AxisY => NegInf
                             end))).
  { rewrite updObj_lookup_eq. unfold s1. rewrite setParents_lookup. simpl.
    rewrite (lookup_app_l_Some _ _ _ _ Hlo). simpl.
    by destruct (LayoutNode.axis fo). }
  split; [|split; [exact Hp|]].
  - unfold kids. rewrite updObj_lookup, updObj_arrs.
    assert (Hne : lastChild <> length (objs s)).
    { apply lookup_lt_Some in Hlo. lia. }
    rewrite decide_False by done.
    unfold s1. rewrite setParents_lookup, setParents_arrs. simpl.
    rewrite list_lookup_middle by done. simpl.
    destruct (bool_decide (length (objs s) ∈ cs)); exact Harr.
  - rewrite Hp. simpl. by destruct (LayoutNode.axis fo).
Qed.

Lemma constructor_last_child_sentinel_witness :
  exists s',
    LayoutNode.new (JNum (Fin 0)) (Some 2) smallStore = Some (s', 4)
    /\ kids s' 4 = Some [0; 1]
    /\ percentage <$> objs s' !! 1 = Some (JNum NegInf)
    /\ (LayoutNode.isLastNodePercentage <$> (percentage <$> objs s' !! 1))
         = Some true.
Proof.
  exact (constructor_last_child_sentinel smallStore (JNum (Fin 0)) 2 [0; 1] 0 1
           _ _ eq_refl (le_n 2) eq_refl eq_refl eq_refl eq_refl).
Defined.

(** * Scenarios of ResizeOperation *)

(** C6: on the default 2x2 layout seeded with
    [calculateRects(0, 0, 1000, 800)], a primary-button press on the divider
    of the root's first child (percentage 0.5) starts resizing that child
    and leaves every rectangle as seeded.  A motion to [x = 50] asks for the
    percentage [50 / 1000 = 0.05]; with it the first child and its leaves
    are 50 wide and [validateRects] answers false; the handler reports
    handled and redraw and leaves the store, percentage 0.5 and every
    rectangle included, exactly as it was before the motion. *)
Theorem resize_below_minimum_rejected :
  exists (s0 s1 candidate : store) (root firstChild : ref),
    seeded LayoutOf2x2 0 0 1000 800 = Some (s0, root)
    /\ head <$> kids s0 root = Some (Some firstChild)
    /\ percentage <$> objs s0 !! firstChild = Some (JNum (Fin (1 # 2)))
    /\ ResizeOperation.onButtonPress (ResizeOperation.new root)
         (Num.ofZ 500) (Num.ofZ 200) 0 Clutter.BUTTON_PRIMARY s0
       = Some (OperationResult.handledAndRedraw, s1)
    /\ LayoutNode.findNode isResizing root s1 = Some (Some firstChild)
    /\ map rect (objs s1) = map rect (objs s0)
    /\ Num.eqb (ResizeOperation.pointerPercentage true (Num.ofZ 50) (Num.ofZ 200)
                  (Rect.mk (Num.ofZ 0) (Num.ofZ 0) (Num.ofZ 1000) (Num.ofZ 800)))
               (Fin (5 # 100)) = true
    /\ LayoutNode.calculateRects root None
         (updObj (set_percentage (JNum (Fin (50 # 1000)))) firstChild s1)
       = Some candidate
    /\ (Rect.width ∘ rect <$> objs candidate) !! firstChild = Some (Num.ofZ 50)
    /\ LayoutNode.validateRects root candidate = Some false
    /\ ResizeOperation.onMotion (ResizeOperation.new root)
         (Num.ofZ 50) (Num.ofZ 200) 0 s1
       = Some (OperationResult.handledAndRedraw, s1)
    /\ percentage <$> objs s1 !! firstChild = Some (JNum (Fin (1 # 2))).
Proof.
  do 5 eexists.
  split; [vm_compute; reflexivity|].
  split; [vm_compute; reflexivity|].
  split; [vm_compute; reflexivity|].
  split; [vm_compute; reflexivity|].
  split; [vm_compute; reflexivity|].
  split; [vm_compute; reflexivity|].
  split; [vm_compute; reflexivity|].
  split; [vm_compute; reflexivity|].
  split; [vm_compute; reflexivity|].
  split; [vm_compute; reflexivity|].
  split; vm_compute; reflexivity.
Qed.

(** C1 fails on the code.  On the 3x3 preset seeded with
    [calculateRects(0, 0, 1200, 900)], whose integrity error is [null], a
    secondary-button press at (100, 895) lies on the divider of the last
    (sentinel) row of the first column.  The handler deletes that node from
    a parent with three children by [splice]; the parent's last child is
    then the row with percentage -2/3, [getIntegrityError] answers
    'broken invariant: last child invalid percentage', and the layout is
    refused by the save gate. *)
Theorem delete_sentinel_divider_breaks_integrity :
  exists (s0 s1 : store) (root : ref),
    seeded LayoutOf3x3 0 0 1200 900 = Some (s0, root)
    /\ LayoutNode.getIntegrityError root s0 = Some None
    /\ ResizeOperation.onButtonPress (ResizeOperation.new root)
         (Num.ofZ 100) (Num.ofZ 895) 0 Clutter.BUTTON_SECONDARY s0
       = Some (OperationResult.handledAndRedraw, s1)
    /\ LayoutNode.getIntegrityError root s1
       = Some (Some "broken invariant: last child invalid percentage"%string)
    /\ LayoutIO.saveLayout root s1 = Some None.
Proof.
  do 3 eexists.
  split; [vm_compute; reflexivity|].
  split; [vm_compute; reflexivity|].
  split; [vm_compute; reflexivity|].
  split; vm_compute; reflexivity.
Qed.

(** * Not handled means not touched *)

(** Case analysis on a run of a handler that returned: every call it made
    returned, and every test went one way. *)
Ltac run_cases H :=
  repeat first
    [ discriminate H
    | match type of H with
      | (mbind _ ?x) = Some _ =>
          let E := fresh "E" in
          destruct x eqn:E; simpl in H; [|discriminate H]
      | (match ?x with _ => _ end) = Some _ =>
          let E := fresh "E" in destruct x eqn:E; simpl in H
      | (if ?x then _ else _) = Some _ =>
          let E := fresh "E" in destruct x eqn:E; simpl in H
      | (let '(_, _) := ?x in _) = Some _ => destruct x; simpl in H
      end ].

Lemma resize_not_handled (this : ResizeOperation.t) (e : Event) (s s' : store) :
  ResizeOperation.handle this e s = Some (OperationResult.notHandled, s') ->
  s' = s.
Proof.
  unfold OperationResult.notHandled.
  destruct e; simpl;
    unfold ResizeOperation.onButtonPress, ResizeOperation.onButtonRelease,
      ResizeOperation.onMotion, ResizeOperation._handleResizing,
      ResizeOperation.onKeyPress, ResizeOperation.onKeyRelease,
      OperationResult.handledAndRedraw, OperationResult.notHandled;
    intros H; run_cases H; by simplify_eq.
Qed.

Lemma margins_not_handled (this : MarginsOperation.t) (e : Event) (s s' : store) :
  MarginsOperation.handle this e s = Some (OperationResult.notHandled, s') ->
  s' = s.
Proof.
  unfold OperationResult.notHandled.
  destruct e; simpl;
    unfold MarginsOperation.onKeyPress, MarginsOperation.inherited,
      OperationResult.handledAndRedraw, OperationResult.notHandled;
    intros H; run_cases H; by simplify_eq.
Qed.

Lemma snapping_not_handled (this this' : SnappingOperation.t) (e : Event)
  (s s' : store) :
  SnappingOperation.handle this e s
  = Some (OperationResult.notHandled, this', s') ->
  s' = s /\ this' = this.
Proof.
  unfold OperationResult.notHandled.
  destruct e; simpl;
    unfold SnappingOperation.onMotion, SnappingOperation.cancel,
      SnappingOperation.onButtonPress, SnappingOperation.onButtonRelease,
      SnappingOperation.onKeyPress, SnappingOperation.onKeyRelease,
      OperationResult.handledAndRedraw, OperationResult.notHandled;
    intros H; run_cases H; by simplify_eq.
Qed.

Lemma preset_not_handled {Preset W : Type}
  (this : PresetShortcutOperation.t Preset W) (e : Event) (w w' : W) :
  PresetShortcutOperation.handle this e w = (OperationResult.notHandled, w') ->
  w' = w.
Proof.
  unfold OperationResult.notHandled.
  destruct e; simpl;
    unfold PresetShortcutOperation.onKeyPress, PresetShortcutOperation.inherited,
      OperationResult.handledAndRedraw, OperationResult.notHandled;
    intros H; repeat case_match; by simplify_eq.
Qed.

(** The three steps of [_handlePreview] either set [result] or change
    nothing. *)
Lemma cancelOutOfBounds_not_handled x y state node acc this' pn' s' :
  PreviewSplitOperation.cancelOutOfBounds x y state node acc
  = Some (this', pn', None, s') ->
  acc = (this', pn', None, s').
Proof.
  destruct acc as [[[this pn] result] s].
  unfold PreviewSplitOperation.cancelOutOfBounds,
    OperationResult.handledAndRedraw.
  intros H; run_cases H; by simplify_eq.
Qed.

Lemma startNewPreview_not_handled x y state node acc this' pn' s' :
  PreviewSplitOperation.startNewPreview x y state node acc
  = Some (this', pn', None, s') ->
  acc = (this', pn', None, s').
Proof.
  destruct acc as [[[this pn] result] s].
  unfold PreviewSplitOperation.startNewPreview,
    OperationResult.handledAndRedraw.
  intros H; run_cases H; by simplify_eq.
Qed.

Lemma movePreview_not_handled x y state acc this' pn' s' :
  PreviewSplitOperation.movePreview x y state acc
  = Some (this', pn', None, s') ->
  acc = (this', pn', None, s').
Proof.
  destruct acc as [[[this pn] result] s].
  unfold PreviewSplitOperation.movePreview,
    OperationResult.handledAndRedraw.
  intros H; run_cases H; by simplify_eq.
Qed.

Lemma handlePreview_not_handled (this this' : PreviewSplitOperation.t)
  (x y : num) (state : Z) (s s' : store) :
  PreviewSplitOperation._handlePreview this x y state s
  = Some (OperationResult.notHandled, this', s') ->
  s' = s /\ this' = this.
Proof.
  unfold PreviewSplitOperation._handlePreview, OperationResult.notHandled.
  intros H.
  apply bind_Some in H as (node & _ & H).
  apply bind_Some in H as (pn & _ & H).
  apply bind_Some in H as (acc1 & E1 & H).
  apply bind_Some in H as (acc2 & E2 & H).
  apply bind_Some in H as ([[[this3 pn3] r3] s3] & E3 & H).
  simplify_eq.
  apply movePreview_not_handled in E3 as ->.
  apply startNewPreview_not_handled in E2 as ->.
  apply cancelOutOfBounds_not_handled in E1.
  by simplify_eq.
Qed.

Lemma preview_not_handled (this this' : PreviewSplitOperation.t) (e : Event)
  (s s' : store) :
  PreviewSplitOperation.handle this e s
  = Some (OperationResult.notHandled, this', s') ->
  s' = s /\ this' = this.
Proof.
  destruct e; simpl;
    unfold PreviewSplitOperation.onButtonPress,
      PreviewSplitOperation.onButtonRelease, PreviewSplitOperation.onMotion,
      PreviewSplitOperation.onKeyPress, PreviewSplitOperation.onKeyRelease;
    intros H;
    try (by apply handlePreview_not_handled in H).
  - unfold OperationResult.notHandled, OperationResult.handledAndRedraw in H.
    apply bind_Some in H as ([pn|] & _ & H).
    + destruct (button =? Clutter.BUTTON_PRIMARY)%Z.
      * run_cases H.
      * by apply handlePreview_not_handled in H.
    + by apply handlePreview_not_handled in H.
  - unfold OperationResult.notHandled in H. by simplify_eq.
  - unfold OperationResult.notHandled, OperationResult.handledAndRedraw in H.
    run_cases H; by simplify_eq.
Qed.

(** C8: for each of the five operations and every input event, when the
    handler returns [null] (not handled) the store it leaves is the store it
    was given: every field of every node of the layout tree, and of every
    other object, is what it was before the call. *)
Theorem not_handled_leaves_tree_unchanged :
  (forall (this : ResizeOperation.t) (e : Event) (s s' : store),
      ResizeOperation.handle this e s = Some (None, s') -> s' = s)
  /\ (forall (this this' : PreviewSplitOperation.t) (e : Event) (s s' : store),
      PreviewSplitOperation.handle this e s = Some (None, this', s') -> s' = s)
  /\ (forall (this : MarginsOperation.t) (e : Event) (s s' : store),
      MarginsOperation.handle this e s = Some (None, s') -> s' = s)
  /\ (forall (Preset W : Type) (this : PresetShortcutOperation.t Preset W)
        (e : Event) (w w' : W),
      PresetShortcutOperation.handle this e w = (None, w') -> w' = w)
  /\ (forall (this this' : SnappingOperation.t) (e : Event) (s s' : store),
      SnappingOperation.handle this e s = Some (None, this', s') -> s' = s).
Proof.
  split; [exact resize_not_handled|].
  split; [intros; by eapply preview_not_handled|].
  split; [exact margins_not_handled|].
  split; [intros ? ?; exact preset_not_handled|].
  intros; by eapply snapping_not_handled.
Qed.

Lemma not_handled_leaves_tree_unchanged_witness :
  ResizeOperation.handle (ResizeOperation.new 2)
    (Motion (Num.ofZ 0) (Num.ofZ 0) 0) smallStore
  = Some (None, smallStore)
  /\ smallStore = smallStore.
Proof.
  split; [reflexivity|].
  exact (proj1 not_handled_leaves_tree_unchanged (ResizeOperation.new 2)
           (Motion (Num.ofZ 0) (Num.ofZ 0) 0) smallStore smallStore eq_refl).
Defined.

(** * Comparisons of numbers *)

Lemma Qltb_true (p q : Q) : Num.Qltb p q = true <-> (p < q)%Q.
Proof.
  unfold Num.Qltb. rewrite Qlt_alt. destruct (p ?= q)%Q; split; congruence.
Qed.

Lemma Qltb_false (p q : Q) : Num.Qltb p q = false <-> (q <= p)%Q.
Proof.
  unfold Num.Qltb. destruct (p ?= q)%Q eqn:E.
  - apply Qeq_alt in E. split; [intros _|done]. rewrite E. apply Qle_refl.
  - split; [done|]. apply Qlt_alt in E. intros H. exfalso.
    exact (Qlt_not_le _ _ E H).
  - apply Qgt_alt in E. split; [intros _|done]. by apply Qlt_le_weak.
Qed.

Lemma leb_Fin (p q : Q) : Num.leb (Fin p) (Fin q) = true <-> (p <= q)%Q.
Proof. simpl. apply Qle_bool_iff. Qed.

Lemma ltb_Fin (p q : Q) : Num.ltb (Fin p) (Fin q) = true <-> (p < q)%Q.
Proof. simpl. apply Qltb_true. Qed.

Lemma ltb_leb (a b : num) : Num.ltb a b = true -> Num.leb a b = true.
Proof.
  destruct a, b; simpl; try done.
  rewrite Qltb_true, Qle_bool_iff. apply Qlt_le_weak.
Qed.

(** A number that is below some number and not above a finite one is at
    most that one. *)
Lemma leb_of_not_gtb (a b : num) (v : Q) :
  Num.leb a b = true -> Num.gtb a (Fin v) = false -> Num.leb a (Fin v) = true.
Proof.
  unfold Num.gtb. destruct a, b; simpl; try done.
  all: intros _; rewrite Qltb_false, Qle_bool_iff; done.
Qed.

(** * insertChild *)

Local Arguments Num.gtb : simpl never.
Local Arguments Num.leb : simpl never.

Lemma findIndex_Some {A : Type} (p : A -> bool) (l : list A) (i : nat) :
  findIndex p l = Some i ->
  exists a, l !! i = Some a /\ p a = true
            /\ forall j b, j < i -> l !! j = Some b -> p b = false.
Proof.
  revert i. induction l as [|a l IH]; intros i; simpl; [done|].
  destruct (p a) eqn:Ea.
  - intros [= <-]. exists a. repeat split; [done|]. intros; lia.
  - destruct (findIndex p l) as [k|]; simpl; [|done].
    intros [= <-]. destruct (IH k eq_refl) as (b & Hb & Hpb & Hlt).
    exists b. repeat split; [done..|].
    intros [|j] c Hj; simpl; [by intros [= <-]|].
    apply Hlt. lia.
Qed.

Lemma findIndex_is_Some {A : Type} (p : A -> bool) (l : list A) (a : A) :
  a ∈ l -> p a = true -> is_Some (findIndex p l).
Proof.
  induction 1 as [a l|a b l Hin IH]; intros Hp; simpl.
  - by rewrite Hp.
  - destruct (p b); [done|]. destruct (IH Hp) as [i ->]. done.
Qed.

Lemma indexOf_elem_of (r : nat) (l : list nat) :
  indexOf r l <> None <-> r ∈ l.
Proof.
  unfold indexOf. split.
  - intros H. destruct (findIndex _ l) as [i|] eqn:E; [|done].
    apply findIndex_Some in E as (a & Ha & Heq & _).
    apply Nat.eqb_eq in Heq as ->. by eapply list_elem_of_lookup_2.
  - intros Hin. eapply findIndex_is_Some in Hin as [i Hi];
      [by rewrite Hi|]. by apply Nat.eqb_eq.
Qed.

Lemma spliceIn_cons {A : Type} (i : nat) (e a : A) (l : list A) :
  spliceIn (Some (S i)) e (a :: l) = a :: spliceIn (Some i) e l.
Proof. reflexivity. Qed.

Lemma ascending_cons (a : num) (l : list num) :
  ascending (a :: l) = true ->
  ascending l = true.
Proof. destruct l as [|b l]; simpl; [done|]. by intros [_ ?]%andb_prop. Qed.

(** Splicing a finite number in front of the first greater element keeps
    an ascending list ascending, and keeps its last element. *)
Lemma spliceIn_ascending (v : Q) (l : list num) (i : nat) :
  ascending l = true ->
  findIndex (fun a => Num.gtb a (Fin v)) l = Some i ->
  ascending (spliceIn (Some i) (Fin v) l) = true
  /\ last (spliceIn (Some i) (Fin v) l) = last l.
Proof.
  revert i. induction l as [|a l IH]; intros i Hasc; simpl; [done|].
  destruct (Num.gtb a (Fin v)) eqn:Ea.
  - intros [= <-]. unfold spliceIn. simpl. split; [|done].
    apply andb_true_intro. split; [|done]. by apply ltb_leb.
  - destruct (findIndex _ l) as [k|] eqn:Ek; simpl; [|done].
    intros [= <-]. rewrite spliceIn_cons.
    destruct (IH k (ascending_cons _ _ Hasc) eq_refl) as [IHa IHl].
    split.
    + destruct l as [|b l]; [done|].
      simpl in Hasc. apply andb_prop in Hasc as [Hab Hasc].
      destruct k as [|k].
      * unfold spliceIn in *. simpl in *.
        apply andb_true_intro. split; [|done].
        by eapply leb_of_not_gtb.
      * rewrite spliceIn_cons in *.
        change (ascending (a :: b :: spliceIn (Some k) (Fin v) l))
          with (Num.leb a b && ascending (b :: spliceIn (Some k) (Fin v) l)).
        by rewrite Hab.
    + destruct l as [|b l]; [done|].
      destruct (spliceIn (Some k) (Fin v) (b :: l)) as [|c l'] eqn:Es.
      { destruct k; discriminate Es. }
      by rewrite !last_cons_cons.
Qed.

Lemma spliceIn_last {A : Type} (i : nat) (e : A) (l : list A) :
  i < length l -> last (spliceIn (Some i) e l) = last l.
Proof.
  intros Hi. unfold spliceIn.
  rewrite <- (take_drop i l) at 3.
  destruct (drop i l) as [|b l'] eqn:Ed.
  { apply (f_equal length) in Ed. rewrite length_drop in Ed. simpl in Ed. lia. }
  by rewrite !last_app_cons, last_cons_cons.
Qed.

Lemma spliceIn_fmap {A B : Type} (f : A -> B) (i : nat) (e : A) (l : list A) :
  f <$> spliceIn (Some i) e l = spliceIn (Some i) (f e) (f <$> l).
Proof. unfold spliceIn. by rewrite fmap_app, fmap_cons, fmap_take, fmap_drop. Qed.

Lemma spliceIn_elem_of {A : Type} (i : nat) (e x : A) (l : list A) :
  x ∈ spliceIn (Some i) e l <-> x = e \/ x ∈ l.
Proof.
  unfold spliceIn. rewrite elem_of_app, elem_of_cons.
  rewrite <- (take_drop i l) at 3. rewrite elem_of_app. tauto.
Qed.

Lemma findIndex_fmap {A B : Type} (f : A -> B) (p : B -> bool) (l : list A) :
  findIndex (fun a => p (f a)) l = findIndex p (f <$> l).
Proof. induction l as [|a l IH]; simpl; [done|]. by rewrite IH. Qed.

Lemma objects_Forall2 (s : store) (cs : list nat) (os : list obj) :
  objects s cs = Some os <-> Forall2 (fun c o => objs s !! c = Some o) cs os.
Proof. apply mapM_Some. Qed.

(** Assigning [parent] of one object changes no percentage. *)
Lemma objects_set_parent (s : store) (p : option nat) (c : nat)
  (cs : list nat) (os : list obj) :
  objects s cs = Some os ->
  exists os',
    objects (updObj (set_parent p) c s) cs = Some os'
    /\ percentage <$> os' = percentage <$> os.
Proof.
  rewrite objects_Forall2. induction 1 as [|r o cs os Hr _ (os' & Hos' & Hp)].
  - by exists [].
  - exists ((if decide (c = r) then set_parent p o else o) :: os').
    split.
    + apply objects_Forall2. constructor; [|by apply objects_Forall2].
      rewrite updObj_lookup, Hr. by case_decide.
    + rewrite !fmap_cons, Hp. by case_decide.
Qed.

Lemma absPercentage_fmap (os : list obj) :
  absPercentage <$> os = (fun p => Num.abs (toNumber p)) <$> (percentage <$> os).
Proof. by rewrite <- list_fmap_compose. Qed.

Lemma kids_Some (s : store) (this : nat) (cs : list nat) :
  kids s this = Some cs <->
  exists o, objs s !! this = Some o /\ arrs s !! children o = Some cs.
Proof.
  unfold kids. split.
  - intros H. apply bind_Some in H as (o & Ho & Hcs). by exists o.
  - intros (o & -> & Hcs). done.
Qed.

(** One [insertChild] of an object that is not yet a child and carries a
    finite percentage. *)
Lemma insertChild_inserts (s : store) (this child : nat) (cs : list nat)
  (co : obj) (q : Q) :
  sortedChildren s this ->
  kids s this = Some cs ->
  objs s !! child = Some co ->
  percentage co = JNum (Fin q) ->
  child ∉ cs ->
  exists s' i,
    LayoutNode.insertChild this child s = Some s'
    /\ kids s' this = Some (spliceIn (Some i) child cs)
    /\ sortedChildren s' this
    /\ (forall r, objs s' !! r =
                  if decide (child = r) then Some (set_parent (Some this) co)
                  else objs s !! r).
Proof.
  intros (cs' & os & lc & Hk & Hos & Hasc & Hlast & Hsent) Hk' Hco Hq Hnin.
  rewrite Hk in Hk'. injection Hk' as ->.
  apply kids_Some in Hk as (o & Ho & Hcs).
  set (s1 := updObj (set_parent (Some this)) child s).
  destruct (objects_set_parent s (Some this) child cs os Hos)
    as (os1 & Hos1 & Hp1).
  fold s1 in Hos1.
  assert (Habs : absPercentage <$> os1 = absPercentage <$> os)
    by by rewrite !absPercentage_fmap, Hp1.
  (* the sentinel at the end is greater than the new percentage *)
  assert (Hidx : is_Some (findIndex (fun a => Num.gtb a (Fin (Qabs q)))
                                    (absPercentage <$> os))).
  { apply (findIndex_is_Some _ _ (absPercentage lc)).
    - apply list_elem_of_fmap_2. by eapply last_Some_elem_of.
    - unfold absPercentage. destruct (percentage lc) as [| |[]]; done. }
  destruct Hidx as [i Hi].
  destruct (spliceIn_ascending _ _ _ Hasc Hi) as [Hasc' _].
  assert (Hilen : i < length os).
  { apply findIndex_Some in Hi as (a & Ha & _).
    apply lookup_lt_Some in Ha. by rewrite length_fmap in Ha. }
  assert (Hlen : length cs = length os).
  { apply objects_Forall2 in Hos. by eapply Forall2_length. }
  assert (Hlen1 : length os1 = length os).
  { apply (f_equal length) in Hp1. by rewrite !length_fmap in Hp1. }
  exists (setArr (children o) (spliceIn (Some i) child cs) s1), i.
  assert (Hobjs : forall r,
             objs (setArr (children o) (spliceIn (Some i) child cs) s1) !! r =
             if decide (child = r) then Some (set_parent (Some this) co)
             else objs s !! r).
  { intros r. rewrite setArr_objs. unfold s1. rewrite updObj_lookup.
    case_decide; [subst r; by rewrite Hco|done]. }
  assert (Hkids : kids (setArr (children o) (spliceIn (Some i) child cs) s1) this
                  = Some (spliceIn (Some i) child cs)).
  { apply kids_Some.
    exists (if decide (child = this) then set_parent (Some this) o else o).
    split.
    - rewrite Hobjs. case_decide; [subst; rewrite Hco in Ho|]; congruence.
    - assert (children (if decide (child = this)
                        then set_parent (Some this) o else o) = children o)
        as -> by by case_decide.
      simpl. apply list_lookup_insert_eq. by eapply lookup_lt_Some. }
  split; [|split; [exact Hkids|split; [|exact Hobjs]]].
  - unfold LayoutNode.insertChild. rewrite Ho. simpl. rewrite Hcs. simpl.
    rewrite Hco. simpl.
    rewrite bool_decide_eq_false_2
      by (intros H; by apply indexOf_elem_of in H).
    rewrite Hq. simpl. fold s1.
    change (mapM _ cs) with (objects s1 cs). rewrite Hos1. simpl.
    assert (findIndex
              (fun c' => Num.gtb (Num.abs (toNumber (percentage c')))
                                 (Fin (Qabs q))) os1 = Some i) as ->; [|done].
    etransitivity;
      [apply (findIndex_fmap absPercentage
                (fun a => Num.gtb a (Fin (Qabs q))))|].
    by rewrite Habs.
  - assert (Hl1 : exists lc1, last os1 = Some lc1
                              /\ percentage lc1 = percentage lc).
    { assert (H := f_equal last Hp1). rewrite !fmap_last, Hlast in H.
      destruct (last os1) as [lc1|]; [|done]. injection H as H. by exists lc1. }
    destruct Hl1 as (lc1 & Hl1 & Hpl).
    exists (spliceIn (Some i) child cs),
           (spliceIn (Some i) (set_parent (Some this) co) os1), lc1.
    split; [exact Hkids|].
    split; [|split; [|split]].
    + apply objects_Forall2. unfold spliceIn.
      apply objects_Forall2 in Hos1.
      apply Forall2_app; [by apply Forall2_take|].
      constructor; [|by apply Forall2_drop].
      rewrite setArr_objs. unfold s1. by rewrite updObj_lookup_eq, Hco.
    + rewrite spliceIn_fmap, Habs.
      assert (absPercentage (set_parent (Some this) co) = Fin (Qabs q)) as ->
        by (unfold absPercentage; simpl; by rewrite Hq).
      exact Hasc'.
    + rewrite spliceIn_last by lia. exact Hl1.
    + by rewrite Hpl.
Qed.

(** [insertChild] of a present child, or of one with a sentinel
    percentage, changes nothing. *)
Lemma insertChild_noop (s : store) (this child : nat) (cs : list nat) (co : obj) :
  kids s this = Some cs ->
  objs s !! child = Some co ->
  child ∈ cs \/ LayoutNode.isLastNodePercentage (percentage co) = true ->
  LayoutNode.insertChild this child s = Some s.
Proof.
  intros (o & Ho & Hcs)%kids_Some Hco Hor.
  unfold LayoutNode.insertChild. rewrite Ho. simpl. rewrite Hcs. simpl.
  rewrite Hco. simpl.
  destruct (decide (child ∈ cs)) as [Hin|Hnin].
  - rewrite bool_decide_eq_true_2; [done|]. by apply indexOf_elem_of.
  - destruct Hor as [?|Hs]; [done|].
    case_bool_decide; [done|].
    by destruct (percentage co) as [| |[]].
Qed.

Lemma insertable_preserved (s s' : store) (c : nat) :
  (forall r, percentage <$> objs s' !! r = percentage <$> objs s !! r) ->
  insertable s c -> insertable s' c.
Proof.
  intros Hp (o & q & Ho & Hq & Hb). specialize (Hp c). rewrite Ho in Hp.
  destruct (objs s' !! c) as [o'|] eqn:Ho'; [|done]. injection Hp as Hp.
  exists o', q. by rewrite Hp.
Qed.

Lemma insertAll_spec (this : nat) (news : list nat) :
  forall (s : store) (cs0 : list nat),
    sortedChildren s this ->
    kids s this = Some cs0 ->
    Forall (insertable s) news ->
    exists s' cs',
      insertAll this news s = Some s'
      /\ kids s' this = Some cs'
      /\ sortedChildren s' this
      /\ (forall r, percentage <$> objs s' !! r = percentage <$> objs s !! r)
      /\ (forall r, r ∈ cs0 ->
                    r ∈ cs' /\ parent <$> objs s' !! r = parent <$> objs s !! r)
      /\ (forall c, c ∈ news ->
                    c ∈ cs'
                    /\ (c ∉ cs0 -> parent <$> objs s' !! c = Some (Some this))).
Proof.
  induction news as [|c news IH]; intros s cs0 Hsorted Hk Hnews.
  - exists s, cs0. repeat split; try done; by apply elem_of_nil in H.
  - apply Forall_cons in Hnews as [Hc Hnews].
    destruct Hc as (co & q & Hco & Hq & Hb).
    destruct (decide (c ∈ cs0)) as [Hin|Hnin].
    + (* already a child: nothing happens *)
      destruct (IH s cs0 Hsorted Hk Hnews) as (s' & cs' & Hrun & IHrest).
      exists s', cs'. split.
      { unfold insertAll in *. simpl.
        rewrite (insertChild_noop s this c cs0 co) by auto. exact Hrun. }
      destruct IHrest as (Hk' & Hs' & Hp & Hold & Hnew).
      repeat split; try done; try (by apply Hold).
      * apply elem_of_cons in H as [->|H]; [by apply Hold|by apply Hnew].
      * apply elem_of_cons in H as [->|H]; [done|by apply Hnew].
    + destruct (insertChild_inserts s this c cs0 co q Hsorted Hk Hco Hq Hnin)
        as (s1 & i & Hins & Hk1 & Hs1 & Hobjs).
      assert (Hp1 : forall r, percentage <$> objs s1 !! r
                              = percentage <$> objs s !! r).
      { intros r. rewrite Hobjs. case_decide; [subst r; by rewrite Hco|done]. }
      assert (Hnews1 : Forall (insertable s1) news).
      { eapply Forall_impl; [exact Hnews|]. intros r.
        by apply insertable_preserved. }
      destruct (IH s1 _ Hs1 Hk1 Hnews1)
        as (s' & cs' & Hrun & Hk' & Hs' & Hp & Hold & Hnew).
      exists s', cs'. split.
      { unfold insertAll in *. simpl. rewrite Hins. exact Hrun. }
      split; [exact Hk'|]. split; [exact Hs'|].
      split; [intros r; by rewrite Hp, Hp1|].
      assert (Hc1 : c ∈ spliceIn (Some i) c cs0)
        by (apply spliceIn_elem_of; by left).
      assert (Hpc : parent <$> objs s1 !! c = Some (Some this)).
      { rewrite Hobjs. by rewrite decide_True. }
      split.
      * intros r Hr.
        assert (Hr1 : r ∈ spliceIn (Some i) c cs0)
          by (apply spliceIn_elem_of; by right).
        destruct (Hold r Hr1) as [Hr' Hpar]. split; [done|].
        rewrite Hpar, Hobjs. rewrite decide_False; [done|].
        intros ->. done.
      * intros r [Heq|Hr]%elem_of_cons.
        -- subst r. destruct (Hold c Hc1) as [Hr' Hpar]. split; [done|].
           intros _. by rewrite Hpar.
        -- destruct (Hnew r Hr) as [Hr' Hpar]. split; [done|].
           intros Hr0. destruct (decide (r = c)) as [->|Hne].
           ++ destruct (Hold c Hc1) as [_ Hpar']. by rewrite Hpar'.
           ++ apply Hpar. intros [?|?]%spliceIn_elem_of; done.
Qed.

(** C7: on a node whose children are ordered ascending by
    [abs(percentage)] and end with a sentinel, every sequence of
    [insertChild] calls with objects whose percentage is a number of
    [[-1, 1]] returns; afterwards the children are still ordered ascending
    and end with a sentinel, every object of the sequence is a child, every
    one that was not a child before has the receiver as its [parent], and
    the former children are all still children with their [parent]
    unchanged.  A call with an object that is already a child, or whose
    percentage is a sentinel, leaves the whole store unchanged. *)
Theorem insertChild_keeps_order (this : ref) (news : list ref) (s : store)
  (cs0 : list ref)
  (Hsorted : sortedChildren s this)
  (Hkids : kids s this = Some cs0)
  (Hnews : Forall (insertable s) news) :
  (exists s' cs',
      insertAll this news s = Some s'
      /\ kids s' this = Some cs'
      /\ sortedChildren s' this
      /\ (forall c, c ∈ news ->
                    c ∈ cs'
                    /\ (c ∉ cs0 -> parent <$> objs s' !! c = Some (Some this)))
      /\ (forall r, r ∈ cs0 ->
                    r ∈ cs' /\ parent <$> objs s' !! r = parent <$> objs s !! r))
  /\ (forall (child : ref) (co : obj),
        objs s !! child = Some co ->
        child ∈ cs0 \/ LayoutNode.isLastNodePercentage (percentage co) = true ->
        LayoutNode.insertChild this child s = Some s).
Proof.
  split.
  - destruct (insertAll_spec this news s cs0 Hsorted Hkids Hnews)
      as (s' & cs' & Hrun & Hk' & Hs' & _ & Hold & Hnew).
    by exists s', cs'.
  - intros child co Hco Hor. by eapply insertChild_noop.
Qed.

Lemma insertChild_keeps_order_witness :
  sortedChildren smallStore 2
  /\ kids smallStore 2 = Some [0; 1]
  /\ Forall (insertable smallStore) [3]
  /\ exists s' cs',
       insertAll 2 [3] smallStore = Some s'
       /\ kids s' 2 = Some cs'
       /\ sortedChildren s' 2
       /\ 3 ∈ cs'.
Proof.
  assert (Hs : sortedChildren smallStore 2).
  { eexists [0; 1], _, _. repeat split; reflexivity. }
  assert (Hn : Forall (insertable smallStore) [3]).
  { constructor; [|constructor].
    eexists _, 0%Q. repeat split; try reflexivity; discriminate. }
  split; [exact Hs|]. split; [reflexivity|]. split; [exact Hn|].
  destruct (insertChild_keeps_order 2 [3] smallStore [0; 1] Hs eq_refl Hn)
    as [(s' & cs' & Hrun & Hk & Hs' & Hnew & _) _].
  exists s', cs'. repeat split; try done.
  apply Hnew. by left.
Defined.

(** * Layout trees in the store *)

Lemma Shape_induction (P : Shape -> Prop)
  (H : forall (r : ref) (l : list Shape), Forall P l -> P (Sh r l)) :
  forall t : Shape, P t.
Proof.
  fix IH 1. intros [r l]. apply H.
  induction l as [|t l IHl]; constructor; [apply IH|exact IHl].
Qed.

Lemma shaped_inv (s : store) (r : ref) (l : list Shape) :
  shaped s (Sh r l) -> kids s r = Some (root <$> l) /\ Forall (shaped s) l.
Proof. by inversion 1. Qed.

Lemma nodes_root (t : Shape) : root t ∈ nodes t.
Proof. destruct t. simpl. by left. Qed.

Lemma nodes_sub (t : Shape) (l : list Shape) (r n : ref) :
  t ∈ l -> n ∈ nodes t -> n ∈ nodes (Sh r l).
Proof.
  intros Ht Hn. simpl. right. apply list_elem_of_bind. by exists t.
Qed.

Lemma shaped_valid (s : store) (t : Shape) (n : ref) :
  shaped s t -> n ∈ nodes t -> n < length (objs s).
Proof.
  revert n. induction t as [r l IH] using Shape_induction; intros n Hs Hn.
  apply shaped_inv in Hs as [Hk Hl].
  simpl in Hn. apply elem_of_cons in Hn as [->|Hn].
  - apply kids_Some in Hk as (o & Ho & _). by eapply lookup_lt_Some.
  - apply list_elem_of_bind in Hn as (t & Hn & Ht).
    rewrite Forall_forall in IH, Hl. by eapply IH; [|apply Hl|].
Qed.

Lemma height_le_nodes (t : Shape) : height t <= length (nodes t).
Proof.
  induction t as [r l IH] using Shape_induction. simpl. apply le_n_S.
  induction IH as [|t l Ht _ IHl]; [done|].
  change (max_list (height <$> t :: l))
    with (height t `max` max_list (height <$> l)).
  change ((t :: l) ≫= nodes) with (nodes t ++ (l ≫= nodes)).
  rewrite length_app. lia.
Qed.

(** The depth budget of a method suffices on every tree of the store. *)
Lemma height_budget (s : store) (t : Shape) :
  shaped s t -> NoDup (nodes t) -> height t <= budget s.
Proof.
  intros Hs Hnd. unfold budget.
  pose proof (height_le_nodes t) as Hh.
  assert (Hsub : nodes t ⊆+ seq 0 (length (objs s))).
  { apply NoDup_submseteq; [done|]. intros n Hn.
    apply elem_of_seq. split; [lia|]. simpl. by eapply shaped_valid. }
  apply submseteq_length in Hsub. rewrite length_seq in Hsub. lia.
Qed.

(** * Searches: findNode and findDividerAtPosition *)



Lemma reduceOr_found {A B : Type} (f : B -> option (option A)) (a : A)
  (l : list B) :
  foldlM (fun found e => match found with
                         | Some _ => Some found
                         | None => f e
                         end) (Some a) l = Some (Some a).
Proof. induction l as [|b l IH]; simpl; done. Qed.

Lemma reduceOr_cons {A B : Type} (f : B -> option (option A)) (b : B)
  (l : list B) :
  reduceOr f (b :: l) =
  match f b with
  | None => None
  | Some (Some a) => Some (Some a)
  | Some None => reduceOr f l
  end.
Proof.
  unfold reduceOr. simpl. destruct (f b) as [[a|]|]; simpl; [|done..].
  apply reduceOr_found.
Qed.

Lemma reduceOr_Some {A B : Type} (f : B -> option (option A)) (a : A)
  (l : list B) :
  reduceOr f l = Some (Some a) -> exists b, b ∈ l /\ f b = Some (Some a).
Proof.
  induction l as [|b l IH]; [done|]. rewrite reduceOr_cons.
  destruct (f b) as [[a'|]|] eqn:E; [| |done].
  - intros [= ->]. exists b. split; [by left|done].
  - intros (b' & Hb' & Hf)%IH. exists b'. split; [by right|done].
Qed.


(** A node that a search returns satisfies the predicate. *)
Lemma findNode_sound (fuel : nat) (p : obj -> bool) (this n : ref) (s : store) :
  LayoutNode.findNode_ fuel p this s = Some (Some n) ->
  exists o, objs s !! n = Some o /\ p o = true.
Proof.
  revert this. induction fuel as [|fuel IH]; intros this; simpl; [done|].
  destruct (objs s !! this) as [o|] eqn:Ho; simpl; [|done].
  destruct (arrs s !! children o) as [cs|]; simpl; [|done].
  destruct (p o) eqn:Hp.
  - intros [= <-]. by exists o.
  - intros (c & _ & Hc)%reduceOr_Some. by eapply IH.
Qed.

Lemma find_app' {A : Type} (p : A -> bool) (l1 l2 : list A) :
  find p (l1 ++ l2) =
  match find p l1 with Some a => Some a | None => find p l2 end.
Proof.
  induction l1 as [|a l1 IH]; simpl; [done|]. by destruct (p a).
Qed.

(** On a tree a search returns the first node in pre-order that
    satisfies the predicate. *)
Lemma findNode_shaped (s : store) (p : obj -> bool) (t : Shape) :
  shaped s t ->
  forall fuel, height t <= fuel ->
    LayoutNode.findNode_ fuel p (root t) s = Some (find (holds s p) (nodes t)).
Proof.
  induction t as [r l IH] using Shape_induction.
  intros [Hk Hl]%shaped_inv [|fuel] Hfuel; [simpl in Hfuel; lia|].
  apply kids_Some in Hk as (o & Ho & Hcs).
  cbn [LayoutNode.findNode_ root nodes find]. unfold holds at 1.
  rewrite Ho. simpl. rewrite Hcs. simpl.
  destruct (p o); [done|].
  simpl in Hfuel. apply le_S_n in Hfuel.
  clear Ho Hcs. induction l as [|t l IHl]; [done|].
  apply Forall_cons in IH as [IHt IH]. apply Forall_cons in Hl as [Ht Hl].
  change (max_list (height <$> t :: l))
    with (height t `max` max_list (height <$> l)) in Hfuel.
  change ((t :: l) ≫= nodes) with (nodes t ++ (l ≫= nodes)).
  rewrite fmap_cons, reduceOr_cons, find_app'.
  rewrite (IHt Ht fuel) by lia.
  destruct (find (holds s p) (nodes t)); [done|].
  apply IHl; [done..|lia].
Qed.

Lemma find_holds_None (s : store) (p : obj -> bool) (l : list ref) :
  find (holds s p) l = None <->
  forall n o, n ∈ l -> objs s !! n = Some o -> p o = false.
Proof.
  split.
  - intros H n o Hn Ho. apply list_elem_of_In in Hn.
    pose proof (find_none _ _ H n Hn) as Hh. unfold holds in Hh.
    by rewrite Ho in Hh.
  - intros H. destruct (find (holds s p) l) as [n|] eqn:E; [|done].
    apply find_some in E as [Hn Hh]. apply list_elem_of_In in Hn.
    unfold holds in Hh. destruct (objs s !! n) as [o|] eqn:Ho; [|done].
    by rewrite (H n o Hn Ho) in Hh.
Qed.

Lemma max_Fin (a b : Q) :
  exists D, Num.max (Fin a) (Fin b) = Fin D /\ (D == Qmax a b)%Q.
Proof.
  unfold Num.max, Num.ltb, Num.Qltb.
  destruct (a ?= b)%Q eqn:E.
  - exists a. split; [done|]. apply Qeq_alt in E.
    symmetry. apply Q.max_l. rewrite E. apply Qle_refl.
  - exists b. split; [done|]. apply Qlt_alt in E.
    symmetry. apply Q.max_r. by apply Qlt_le_weak.
  - exists a. split; [done|]. apply Qgt_alt in E.
    symmetry. apply Q.max_l. by apply Qlt_le_weak.
Qed.

(** The band of a divider reaches [dividerWidth / 2] to each side of the
    edge.  On the default 2x2 layout seeded with
    [calculateRects(0, 0, 1000, 800)] the first child of the root is a
    column node with the rectangle [{0, 0, 500, 800}]; the point
    (520, 200) is within [dividerWidth = 20] of its right edge and within
    its height, and [findDividerAtPosition] matches no node there. *)
Lemma divider_band_reaches_half_width :
  exists (s : store) (root firstChild : ref) (o : obj),
    seeded LayoutOf2x2 0 0 1000 800 = Some (s, root)
    /\ head <$> kids s root = Some (Some firstChild)
    /\ objs s !! firstChild = Some o
    /\ LayoutNode.isColumn o = true
    /\ rect o = Rect.mk (Fin 0) (Fin 0) (Fin 500) (Fin 800)
    /\ margin o = Fin 0
    /\ LayoutNode.findDividerAtPosition (Fin 520) (Fin 200) (Fin 20) root s
       = Some None
    /\ LayoutNode.findDividerAtPosition (Fin 510) (Fin 200) (Fin 20) root s
       = Some (Some firstChild).
Proof.
  do 4 eexists.
  split; [vm_compute; reflexivity|].
  split; [vm_compute; reflexivity|].
  split; [vm_compute; reflexivity|].
  split; [vm_compute; reflexivity|].
  split; [vm_compute; reflexivity|].
  split; [vm_compute; reflexivity|].
  split; vm_compute; reflexivity.
Qed.

(** C4: the root has a divider and is returned.  The percentage 0 of a
    root makes [axis()] answer [AxisX], so that [getDividerRect] gives
    the root the band on its right edge and never reaches its arm
    ['root node has no divider'].  On the default 2x2 layout seeded with
    [calculateRects(0, 0, 1000, 800)], [findDividerAtPosition(995, 400,
    20)] returns the root, which is tested before its children; a press
    of the primary button there starts the resizing of the root, and a
    motion to (700, 400) is taken as a valid resize and gives the root
    the percentage 0.7 in place of 0, which [toJSON] then writes. *)
Lemma findDividerAtPosition_returns_root :
  exists (s : store) (root : ref) (s1 s2 : store) (j j2 : Json),
    seeded LayoutOf2x2 0 0 1000 800 = Some (s, root)
    /\ (LayoutNode.isRoot <$> objs s !! root) = Some true
    /\ percentage <$> objs s !! root = Some (JNum (Fin 0))
    /\ LayoutNode.findDividerAtPosition (Fin 995) (Fin 400) (Fin 20) root s
       = Some (Some root)
    /\ ResizeOperation.onButtonPress (ResizeOperation.new root)
         (Fin 995) (Fin 400) 0 Clutter.BUTTON_PRIMARY s
       = Some (OperationResult.handledAndRedraw, s1)
    /\ isResizing <$> objs s1 !! root = Some true
    /\ ResizeOperation.onMotion (ResizeOperation.new root)
         (Fin 700) (Fin 400) 0 s1
       = Some (OperationResult.handledAndRedraw, s2)
    /\ percentage <$> objs s2 !! root = Some (JNum (Fin (700 # 1000)))
    /\ LayoutNode.toJSON root s = Some j
    /\ LayoutNode.toJSON root s2 = Some j2
    /\ j <> j2.
Proof.
  do 6 eexists.
  split; [vm_compute; reflexivity|].
  split; [vm_compute; reflexivity|].
  split; [vm_compute; reflexivity|].
  split; [vm_compute; reflexivity|].
  split; [vm_compute; reflexivity|].
  split; [vm_compute; reflexivity|].
  split; [vm_compute; reflexivity|].
  split; [vm_compute; reflexivity|].
  split; [vm_compute; reflexivity|].
  split; [vm_compute; reflexivity|].
  vm_compute. discriminate.
Qed.

(** * calculateRects: what it writes *)

Lemma sameButRect_refl (o : obj) : sameButRect o o.
Proof. by destruct o. Qed.

Lemma sameButRect_trans (o1 o2 o3 : obj) :
  sameButRect o1 o2 -> sameButRect o2 o3 -> sameButRect o1 o3.
Proof. unfold sameButRect. intros -> ->. by destruct o1. Qed.

Lemma sameButRect_set_rect (r : Rect.t) (o : obj) : sameButRect o (set_rect r o).
Proof. by destruct o. Qed.

Lemma sameButRect_fields (o o' : obj) :
  sameButRect o o' ->
  percentage o' = percentage o /\ children o' = children o
  /\ margin o' = margin o /\ parent o' = parent o.
Proof. unfold sameButRect. intros ->. by destruct o. Qed.

Lemma rectsOnly_refl (ns : list nat) (s : store) : rectsOnly ns s s.
Proof.
  split; [done|]. split; [|done].
  apply Forall2_same_length_lookup. split; [done|].
  intros i o o' Ho Ho'. rewrite Ho in Ho'. injection Ho' as <-.
  apply sameButRect_refl.
Qed.

Lemma rectsOnly_trans (ns1 ns2 ns : list nat) (s s1 s2 : store) :
  rectsOnly ns1 s s1 -> rectsOnly ns2 s1 s2 ->
  (forall n, n ∈ ns1 \/ n ∈ ns2 -> n ∈ ns) ->
  rectsOnly ns s s2.
Proof.
  intros (Ha1 & Hf1 & Hn1) (Ha2 & Hf2 & Hn2) Hsub.
  split; [congruence|]. split.
  - eapply Forall2_trans; [|exact Hf1|exact Hf2].
    apply sameButRect_trans.
  - intros n Hn. rewrite Hn2, Hn1; [done|..]; intros ?; apply Hn, Hsub; auto.
Qed.

Lemma rectsOnly_set_rect (s : store) (r : nat) (R : Rect.t) :
  rectsOnly [r] s (updObj (set_rect R) r s).
Proof.
  split; [done|]. split.
  - apply Forall2_same_length_lookup. split; [by rewrite updObj_length|].
    intros i o o' Ho Ho'. rewrite updObj_lookup, Ho in Ho'.
    case_decide; simpl in Ho'; injection Ho' as <-.
    + apply sameButRect_set_rect.
    + apply sameButRect_refl.
  - intros n Hn. apply updObj_lookup_ne. intros ->. apply Hn. by left.
Qed.

Lemma rectsOnly_lookup (ns : list nat) (s s' : store) (n : nat) (o : obj) :
  rectsOnly ns s s' -> objs s !! n = Some o ->
  exists o', objs s' !! n = Some o' /\ sameButRect o o'.
Proof.
  intros (_ & Hf & _) Ho.
  destruct (Forall2_lookup_l _ _ _ _ _ Hf Ho) as (o' & Ho' & Hs). by exists o'.
Qed.

Lemma rectsOnly_kids (ns : list nat) (s s' : store) (n : nat) (cs : list nat) :
  rectsOnly ns s s' -> kids s n = Some cs -> kids s' n = Some cs.
Proof.
  intros Hr (o & Ho & Hcs)%kids_Some. apply kids_Some.
  destruct (rectsOnly_lookup _ _ _ _ _ Hr Ho) as (o' & Ho' & Hs).
  exists o'. split; [done|].
  apply sameButRect_fields in Hs as (_ & -> & _).
  destruct Hr as (-> & _). done.
Qed.

Lemma shaped_rectsOnly (ns : list nat) (s s' : store) (t : Shape) :
  rectsOnly ns s s' -> shaped s t -> shaped s' t.
Proof.
  intros Hr. induction t as [r l IH] using Shape_induction.
  intros [Hk Hl]%shaped_inv. constructor; [by eapply rectsOnly_kids|].
  rewrite Forall_forall in IH, Hl |- *. intros t Ht. by apply IH, Hl.
Qed.

Lemma objects_ext (s s' : store) (cs : list nat) :
  (forall c, c ∈ cs -> objs s' !! c = objs s !! c) ->
  objects s' cs = objects s cs.
Proof.
  intros H. unfold objects. induction cs as [|c cs IH]; [done|].
  cbn [mapM]. rewrite (H c) by by left.
  rewrite IH; [done|]. intros c' Hc'. apply H. by right.
Qed.

Lemma objects_app (s : store) (cs1 cs2 : list nat) (os1 os2 : list obj) :
  objects s cs1 = Some os1 -> objects s cs2 = Some os2 ->
  objects s (cs1 ++ cs2) = Some (os1 ++ os2).
Proof.
  rewrite !objects_Forall2. apply Forall2_app.
Qed.

Lemma objects_cons (s : store) (c : nat) (cs : list nat) (o : obj)
  (os : list obj) :
  objs s !! c = Some o -> objects s cs = Some os ->
  objects s (c :: cs) = Some (o :: os).
Proof. rewrite !objects_Forall2. by constructor. Qed.

Lemma laidOut_inv (s : store) (D : Rect.t) (r : nat) (l : list Shape) :
  laidOut s D (Sh r l) ->
  exists o os,
    objs s !! r = Some o /\ objects s (root <$> l) = Some os
    /\ rect <$> os = layoutChildren D (rect o) (percentage <$> os)
    /\ Forall (laidOut s D) l.
Proof. inversion 1; subst. by eexists _, _. Qed.

Lemma laidOut_frame (s s' : store) (D : Rect.t) (t : Shape) :
  (forall n, n ∈ nodes t -> objs s' !! n = objs s !! n) ->
  laidOut s D t -> laidOut s' D t.
Proof.
  induction t as [r l IH] using Shape_induction.
  intros Hf (o & os & Ho & Hos & Hrs & Hl)%laidOut_inv.
  apply (laidOut_node s' D r l o os); [| |done|].
  - rewrite Hf; [done|]. apply (nodes_root (Sh r l)).
  - rewrite <- Hos. apply objects_ext. intros c Hc. apply Hf.
    apply list_elem_of_fmap in Hc as (t & -> & Ht).
    eapply nodes_sub; [done|apply nodes_root].
  - rewrite Forall_forall in IH, Hl |- *. intros t Ht.
    apply IH; [done| |by apply Hl].
    intros n Hn. apply Hf. by eapply nodes_sub.
Qed.

Lemma axis_axisOf (o : obj) : LayoutNode.axis o = axisOf (percentage o).
Proof. reflexivity. Qed.

Lemma shaped_root (s : store) (t : Shape) :
  shaped s t -> exists o, objs s !! root t = Some o.
Proof.
  destruct t as [r l]. intros [Hk _]%shaped_inv.
  apply kids_Some in Hk as (o & Ho & _). by exists o.
Qed.

Lemma bind_cons_nodes (t : Shape) (l : list Shape) :
  (t :: l) ≫= nodes = nodes t ++ (l ≫= nodes).
Proof. reflexivity. Qed.

(** The loop over the children except the last one. *)
Lemma placeChildren_spec (fuel : nat) (D R : Rect.t) (l : list Shape) :
  Forall calculatesRects l ->
  forall (s : store) (pX pY : num),
    Forall (shaped s) l -> NoDup (l ≫= nodes) ->
    Forall (fun t => height t <= fuel) l ->
    exists s' os pX' pY',
      foldlM (LayoutNode.placeChild (LayoutNode.calculateRects_ fuel) D R)
             (s, pX, pY) (root <$> l) = Some (s', pX', pY')
      /\ rectsOnly (l ≫= nodes) s s'
      /\ objects s' (root <$> l) = Some os
      /\ placeAll D R pX pY (percentage <$> os) = (rect <$> os, pX', pY')
      /\ Forall (laidOut s' D) l.
Proof.
  induction 1 as [|t l Ht _ IH]; intros s pX pY Hsh Hnd Hh.
  { exists s, [], pX, pY. split; [done|]. split; [apply rectsOnly_refl|].
    by repeat split. }
  apply Forall_cons in Hsh as [Hst Hsl]. apply Forall_cons in Hh as [Hht Hhl].
  rewrite bind_cons_nodes in Hnd.
  apply NoDup_app in Hnd as (Hndt & Hdisj & Hndl).
  destruct (shaped_root s t Hst) as [c Hc].
  rewrite fmap_cons. cbn [foldlM]. unfold LayoutNode.placeChild at 2.
  rewrite Hc. cbn [mbind option_bind].
  assert (Hstep : forall R1 pX1 pY1,
    placeAll D R pX pY (percentage c :: []) = ([R1], pX1, pY1) ->
    (exists s1,
       LayoutNode.calculateRects_ fuel (root t) (Some R1) (Some D) s = Some s1
       /\ rectsOnly (nodes t) s s1
       /\ rect <$> objs s1 !! root t = Some R1
       /\ laidOut s1 D t) ->
    exists s1 s' os pX' pY',
      LayoutNode.calculateRects_ fuel (root t) (Some R1) (Some D) s = Some s1
      /\ foldlM (LayoutNode.placeChild (LayoutNode.calculateRects_ fuel) D R)
                (s1, pX1, pY1) (root <$> l) = Some (s', pX', pY')
      /\ rectsOnly ((t :: l) ≫= nodes) s s'
      /\ objects s' (root <$> t :: l) = Some os
      /\ placeAll D R pX pY (percentage <$> os) = (rect <$> os, pX', pY')
      /\ Forall (laidOut s' D) (t :: l)).
  { intros R1 pX1 pY1 Hone (s1 & Hrun & Hro1 & Hrect1 & Hlaid1).
    assert (Hsl1 : Forall (shaped s1) l).
    { eapply Forall_impl; [exact Hsl|]. intros t'.
      by apply (shaped_rectsOnly _ _ _ _ Hro1). }
    destruct (IH s1 pX1 pY1 Hsl1 Hndl Hhl)
      as (s' & os & pX' & pY' & Hfold & Hro & Hos & Hpl & Hlaid).
    destruct (rectsOnly_lookup _ _ _ _ _ Hro1 Hc) as (c1 & Hc1 & Hsame).
    assert (Hframe : forall n, n ∈ nodes t -> objs s' !! n = objs s1 !! n).
    { intros n Hn. destruct Hro as (_ & _ & Hout). apply Hout.
      intros Hn'. by apply (Hdisj n). }
    assert (Hc' : objs s' !! root t = Some c1).
    { rewrite Hframe; [done|apply nodes_root]. }
    rewrite Hc1 in Hrect1. injection Hrect1 as Hrect1.
    apply sameButRect_fields in Hsame as (Hp & _).
    exists s1, s', (c1 :: os), pX', pY'.
    split; [done|]. split; [done|]. split.
    { eapply rectsOnly_trans; [exact Hro1|exact Hro|].
      intros n Hn. rewrite bind_cons_nodes. apply elem_of_app. tauto. }
    split; [by apply objects_cons|]. split.
    { rewrite !fmap_cons, Hp, Hrect1. clear -Hone Hpl.
      cbn [placeAll] in Hone |- *.
      destruct (axisOf (percentage c)); injection Hone as <- <- <-;
        by rewrite Hpl. }
    constructor; [by eapply laidOut_frame|done]. }
  rewrite axis_axisOf in *.
  destruct (axisOf (percentage c)) eqn:Hax.
  - edestruct Hstep as (s1 & s' & os & pX' & pY' & Hrun & Hfold & Hrest).
    { cbn [placeAll]. rewrite Hax. reflexivity. }
    { by apply Ht. }
    rewrite Hrun. cbn [mbind option_bind]. rewrite Hfold.
    by exists s', os, pX', pY'.
  - edestruct Hstep as (s1 & s' & os & pX' & pY' & Hrun & Hfold & Hrest).
    { cbn [placeAll]. rewrite Hax. reflexivity. }
    { by apply Ht. }
    rewrite Hrun. cbn [mbind option_bind]. rewrite Hfold.
    by exists s', os, pX', pY'.
Qed.

Lemma layoutChildren_snoc (D R : Rect.t) (ps : list jsval) (p : jsval)
  (rs : list Rect.t) (pX pY : num) :
  placeAll D R (Rect.x R) (Rect.y R) ps = (rs, pX, pY) ->
  layoutChildren D R (ps ++ [p]) = rs ++ [lastRect R pX pY p].
Proof.
  intros H. unfold layoutChildren. rewrite last_snoc, length_app. simpl.
  replace (length ps + 1 - 1) with (length ps) by lia.
  by rewrite take_app_length, H.
Qed.

(** [calculateRects] on a tree of the store. *)
Lemma calculateRects_laysOut (t : Shape) : calculatesRects t.
Proof.
  induction t as [r l IH] using Shape_induction.
  intros [|fuel] s R display Hs Hnd Hh; [simpl in Hh; lia|].
  pose proof Hs as [Hk Hsl]%shaped_inv.
  apply kids_Some in Hk as (o & Ho & Hcs).
  cbn [LayoutNode.calculateRects_ root]. rewrite Ho.
  cbn [mbind option_bind default]. change (id R) with R.
  rewrite updObj_arrs, Hcs.
  cbn [mbind option_bind]. rewrite length_fmap.
  set (s1 := updObj (set_rect R) r s).
  set (D := default R display).
  assert (Hro1 : rectsOnly [r] s s1) by apply rectsOnly_set_rect.
  assert (Hr1 : objs s1 !! r = Some (set_rect R o)).
  { unfold s1. by rewrite updObj_lookup_eq, Ho. }
  destruct l as [|t0 l0] using rev_ind.
  { (* a leaf *)
    exists s1. split; [done|]. split; [done|]. split; [by rewrite Hr1|].
    by apply (laidOut_node s1 D r [] (set_rect R o) []). }
  clear IHl0. rename l0 into l1, t0 into tl.
  rewrite length_app. simpl length.
  replace (length l1 + 1 =? 0) with false by (symmetry; apply Nat.eqb_neq; lia).
  replace (length l1 + 1 - 1) with (length l1) by lia.
  rewrite fmap_app. change (root <$> [tl]) with [root tl].
  rewrite (take_app_length' _ _ (length l1)) by by rewrite length_fmap.
  rewrite last_snoc.
  (* the pieces of the hypotheses *)
  apply Forall_app in IH as [IH1 IHtl]. rewrite Forall_singleton in IHtl.
  apply Forall_app in Hsl as [Hsl1 Hstl]. rewrite Forall_singleton in Hstl.
  simpl in Hh. apply le_S_n in Hh.
  assert (Hhall : Forall (fun t => height t <= fuel) (l1 ++ [tl])).
  { apply Forall_forall. intros t Ht.
    pose proof (max_list_elem_of_le (height t) (height <$> l1 ++ [tl])
                  (list_elem_of_fmap_2 _ _ _ Ht)). lia. }
  apply Forall_app in Hhall as [Hh1 Hhtl]. rewrite Forall_singleton in Hhtl.
  simpl in Hnd. rewrite bind_app in Hnd. simpl in Hnd.
  rewrite app_nil_r in Hnd.
  apply NoDup_cons in Hnd as [Hr Hnd].
  apply NoDup_app in Hnd as (Hnd1 & Hdisj & Hndtl).
  rewrite elem_of_app in Hr.
  (* the loop *)
  destruct (placeChildren_spec fuel D R l1 IH1 s1 (Rect.x R) (Rect.y R))
    as (s2 & os & pX & pY & Hfold & Hro2 & Hos & Hpl & Hlaid1); [|done..|].
  { eapply Forall_impl; [exact Hsl1|]. intros t'.
    by apply (shaped_rectsOnly _ _ _ _ Hro1). }
  rewrite Hfold. cbn [mbind option_bind].
  (* the last child *)
  assert (Hstl2 : shaped s2 tl).
  { apply (shaped_rectsOnly _ _ _ _ Hro2), (shaped_rectsOnly _ _ _ _ Hro1), Hstl. }
  destruct (shaped_root s2 tl Hstl2) as [c Hc].
  unfold LayoutNode.placeLast. rewrite Hc. cbn [mbind option_bind].
  assert (Hlast : exists s3,
             LayoutNode.calculateRects_ fuel (root tl)
               (Some (lastRect R pX pY (percentage c))) (Some D) s2 = Some s3
             /\ rectsOnly (nodes tl) s2 s3
             /\ rect <$> objs s3 !! root tl = Some (lastRect R pX pY (percentage c))
             /\ laidOut s3 D tl).
  { by apply IHtl. }
  destruct Hlast as (s3 & Hrun & Hro3 & Hrect3 & Hlaid3).
  exists s3. split.
  { rewrite axis_axisOf. unfold lastRect in Hrun.
    by destruct (axisOf (percentage c)). }
  assert (Hro : rectsOnly (nodes (Sh r (l1 ++ [tl]))) s s3).
  { apply (rectsOnly_trans (r :: (l1 ≫= nodes)) (nodes tl) _ s s2 s3);
      [|exact Hro3|].
    - apply (rectsOnly_trans [r] (l1 ≫= nodes) _ s s1 s2); [done..|].
      intros n Hn. rewrite elem_of_cons.
      rewrite list_elem_of_singleton in Hn. tauto.
    - intros n Hn. simpl. rewrite bind_app. simpl. rewrite app_nil_r.
      rewrite elem_of_cons, elem_of_app. rewrite elem_of_cons in Hn. tauto. }
  split; [exact Hro|].
  assert (Hr3 : objs s3 !! r = Some (set_rect R o)).
  { destruct Hro3 as (_ & _ & Hout3). destruct Hro2 as (_ & _ & Hout2).
    rewrite Hout3, Hout2; [done|tauto..]. }
  split; [by rewrite Hr3|].
  destruct (rectsOnly_lookup _ _ _ _ _ Hro3 Hc) as (c3 & Hc3 & Hsame).
  rewrite Hc3 in Hrect3. injection Hrect3 as Hrect3.
  apply sameButRect_fields in Hsame as (Hp & _).
  assert (Hframe : forall n, n ∈ l1 ≫= nodes -> objs s3 !! n = objs s2 !! n).
  { intros n Hn. destruct Hro3 as (_ & _ & Hout3). apply Hout3.
    intros Hn'. by apply (Hdisj n). }
  apply (laidOut_node s3 D r (l1 ++ [tl]) (set_rect R o) (os ++ [c3])).
  - exact Hr3.
  - rewrite fmap_app. apply objects_app.
    + rewrite <- Hos. apply objects_ext. intros n Hn. apply Hframe.
      apply list_elem_of_fmap in Hn as (t & -> & Ht).
      apply list_elem_of_bind. exists t. split; [apply nodes_root|done].
    + by apply objects_cons.
  - rewrite !fmap_app. simpl. rewrite Hrect3, Hp.
    symmetry. apply layoutChildren_snoc.
    by destruct o.
  - apply Forall_app. split; [|by apply Forall_singleton].
    rewrite Forall_forall in Hlaid1 |- *. intros t Ht.
    apply (laidOut_frame s2); [|by apply Hlaid1].
    intros n Hn. apply Hframe. apply list_elem_of_bind. by exists t.
Qed.

(** * calculateRects: the rectangles of the children *)

Lemma finiteRect_inv (r : Rect.t) :
  finiteRect r = true ->
  exists x y w h, r = Rect.mk (Fin x) (Fin y) (Fin w) (Fin h).
Proof.
  destruct r as [[] [] [] []]; try discriminate. intros _. by eexists _, _, _, _.
Qed.

Lemma eqb_Fin (p q : Q) : Num.eqb (Fin p) (Fin q) = true <-> (p == q)%Q.
Proof. apply Qeq_bool_iff. Qed.

Lemma eqb_Fin_refl (p : Q) : Num.eqb (Fin p) (Fin p) = true.
Proof. by apply eqb_Fin. Qed.

Lemma posOnAxis_finite (D : Rect.t) (a : Axis) (q : Q) :
  finiteRect D = true ->
  exists v, LayoutNode.posOnAxis D a (JNum (Fin q)) = Fin v.
Proof.
  intros (x & y & w & h & ->)%finiteRect_inv.
  unfold LayoutNode.posOnAxis. destruct a; by eexists.
Qed.

(** With finite percentages the loop hands out finite rectangles. *)
Lemma placeAll_finite (D R : Rect.t) (ps : list jsval) :
  finiteRect D = true -> finiteRect R = true ->
  Forall finitePct ps ->
  forall pX pY rs pX' pY',
    Num.isFinite pX = true -> Num.isFinite pY = true ->
    placeAll D R pX pY ps = (rs, pX', pY') ->
    Forall (fun r => finiteRect r = true) rs
    /\ Num.isFinite pX' = true /\ Num.isFinite pY' = true.
Proof.
  intros HD HR. induction 1 as [|p ps [q ->] _ IH];
    intros pX pY rs pX' pY' HpX HpY Hpl.
  { injection Hpl as <- <- <-. by repeat split. }
  cbn [placeAll] in Hpl.
  destruct (posOnAxis_finite D (axisOf (JNum (Fin q))) q HD) as [v Hv].
  rewrite Hv in Hpl.
  destruct (finiteRect_inv R HR) as (x & y & w & h & ->).
  destruct pX as [| |px|]; try discriminate.
  destruct pY as [| |py|]; try discriminate.
  destruct (axisOf (JNum (Fin q))).
  - destruct (placeAll _ _ (Fin v) (Fin py) ps) as [[rs1 x1] y1] eqn:E.
    injection Hpl as <- <- <-.
    destruct (IH (Fin v) (Fin py) _ _ _ eq_refl eq_refl E) as (Hrs & Hx & Hy).
    split; [|done]. by constructor.
  - destruct (placeAll _ _ (Fin px) (Fin v) ps) as [[rs1 x1] y1] eqn:E.
    injection Hpl as <- <- <-.
    destruct (IH (Fin px) (Fin v) _ _ _ eq_refl eq_refl E) as (Hrs & Hx & Hy).
    split; [|done]. by constructor.
Qed.

Lemma layoutChildren_finite (D R : Rect.t) (ps : list jsval) :
  finiteRect D = true -> finiteRect R = true ->
  Forall finitePct (take (length ps - 1) ps) ->
  Forall (fun r => finiteRect r = true) (layoutChildren D R ps).
Proof.
  intros HD HR Hps. unfold layoutChildren.
  destruct (last ps) as [p|]; [|done].
  destruct (finiteRect_inv R HR) as (x & y & w & h & ->).
  cbn [Rect.x Rect.y].
  destruct (placeAll _ _ _ _ _) as [[rs pX] pY] eqn:E.
  destruct (placeAll_finite _ _ _ HD HR Hps (Fin x) (Fin y) _ _ _
              eq_refl eq_refl E) as (Hrs & Hx & Hy).
  apply Forall_app. split; [done|]. apply Forall_singleton.
  destruct pX as [| |px|]; try discriminate.
  destruct pY as [| |py|]; try discriminate.
  unfold lastRect. by destruct (axisOf p).
Qed.

Lemma eqb_sym (a b : num) : Num.eqb a b = Num.eqb b a.
Proof.
  destruct a, b; try done. simpl.
  destruct (Qeq_bool q q0) eqn:E1, (Qeq_bool q0 q) eqn:E2; try done.
  - apply Qeq_bool_iff in E1. symmetry in E1. apply Qeq_bool_iff in E1.
    congruence.
  - apply Qeq_bool_iff in E2. symmetry in E2. apply Qeq_bool_iff in E2.
    congruence.
Qed.

Lemma eqb_trans (a b c : num) :
  Num.eqb a b = true -> Num.eqb b c = true -> Num.eqb a c = true.
Proof.
  destruct a, b, c; try done. simpl. rewrite !Qeq_bool_iff.
  intros H1 H2. by rewrite H1.
Qed.

Lemma eqb_congr (a f f' : num) :
  Num.eqb f f' = true -> Num.eqb a f = Num.eqb a f'.
Proof.
  intros H. destruct (Num.eqb a f) eqn:E1, (Num.eqb a f') eqn:E2; try done.
  - by rewrite (eqb_trans a f f') in E2.
  - rewrite eqb_sym in H. by rewrite (eqb_trans a f' f) in E1.
Qed.

Lemma abut_eqb (a : Axis) (f f' : num) (rs : list Rect.t) (to : num) :
  Num.eqb f f' = true -> abut a f rs to = abut a f' rs to.
Proof.
  intros H. destruct rs as [|r rs]; simpl.
  - rewrite (eqb_sym f), (eqb_sym f'). by apply eqb_congr.
  - by rewrite (eqb_congr _ f f').
Qed.

(** The rectangles the loop hands to children that all lie on the axis
    [a] follow each other along [a], and across [a] each has the position
    and the extent of the parent. *)
Lemma placeAll_abut (D R : Rect.t) (a : Axis) (ps : list jsval) :
  finiteRect D = true -> finiteRect R = true ->
  Forall (fun p => axisOf p = a /\ finitePct p) ps ->
  forall pX pY rs pX' pY' tail to,
    Num.isFinite pX = true -> Num.isFinite pY = true ->
    placeAll D R pX pY ps = (rs, pX', pY') ->
    abut a (match a with AxisX => pX | AxisY => pY end) (rs ++ tail) to
    = abut a (match a with AxisX => pX' | AxisY => pY' end) tail to
    /\ forallb (fun c => Num.eqb (lo (other a) c) (lo (other a) R)
                         && Num.eqb (extent (other a) c) (extent (other a) R))
               rs = true.
Proof.
  intros HD HR. induction 1 as [|p ps [Hax [q ->]] _ IH];
    intros pX pY rs pX' pY' tail to HpX HpY Hpl.
  { injection Hpl as <- <- <-. done. }
  cbn [placeAll] in Hpl. rewrite Hax in Hpl.
  destruct (posOnAxis_finite D a q HD) as [v Hv]. rewrite Hv in Hpl.
  destruct (finiteRect_inv R HR) as (x & y & w & h & ->).
  destruct pX as [| |px|]; try discriminate.
  destruct pY as [| |py|]; try discriminate.
  destruct a.
  - destruct (placeAll _ _ (Fin v) (Fin py) ps) as [[rs1 x1] y1] eqn:E.
    injection Hpl as <- <- <-.
    destruct (IH (Fin v) (Fin py) _ _ _ tail to eq_refl eq_refl E) as [Ha Hf].
    split.
    + cbn [app abut lo extent Rect.x Rect.width].
      rewrite eqb_Fin_refl, <- Ha. cbn [andb]. apply abut_eqb.
      apply eqb_Fin. ring.
    + cbn [forallb]. rewrite Hf. cbn [other lo extent Rect.y Rect.height].
      by rewrite !eqb_Fin_refl.
  - destruct (placeAll _ _ (Fin px) (Fin v) ps) as [[rs1 x1] y1] eqn:E.
    injection Hpl as <- <- <-.
    destruct (IH (Fin px) (Fin v) _ _ _ tail to eq_refl eq_refl E) as [Ha Hf].
    split.
    + cbn [app abut lo extent Rect.y Rect.height].
      rewrite eqb_Fin_refl, <- Ha. cbn [andb]. apply abut_eqb.
      apply eqb_Fin. ring.
    + cbn [forallb]. rewrite Hf. cbn [other lo extent Rect.x Rect.width].
      by rewrite !eqb_Fin_refl.
Qed.

(** The rectangles of children that all lie on one axis tile the
    rectangle of the parent along that axis. *)
Lemma layoutChildren_tiles (D R : Rect.t) (a : Axis) (ps : list jsval) :
  finiteRect D = true -> finiteRect R = true ->
  ps <> [] ->
  Forall (fun p => axisOf p = a) ps ->
  Forall finitePct (take (length ps - 1) ps) ->
  tiles a R (layoutChildren D R ps) = true.
Proof.
  intros HD HR Hne Hax Hfin. unfold layoutChildren, tiles.
  destruct (last ps) as [p|] eqn:Hlast; [|by apply last_None in Hlast].
  assert (Hp : axisOf p = a).
  { rewrite Forall_forall in Hax. apply Hax. by eapply last_Some_elem_of. }
  assert (Hps : Forall (fun p => axisOf p = a /\ finitePct p)
                       (take (length ps - 1) ps)).
  { apply Forall_and. split; [by apply Forall_take|done]. }
  destruct (finiteRect_inv R HR) as (x & y & w & h & ->).
  cbn [Rect.x Rect.y].
  destruct (placeAll _ _ _ _ _) as [[rs pX] pY] eqn:E.
  destruct (placeAll_finite _ _ _ HD HR Hfin
              (Fin x) (Fin y) _ _ _ eq_refl eq_refl E) as (_ & HpX & HpY).
  destruct (placeAll_abut _ _ a _ HD HR Hps (Fin x) (Fin y) _ _ _
              [lastRect (Rect.mk (Fin x) (Fin y) (Fin w) (Fin h)) pX pY p]
              (Num.add (lo a (Rect.mk (Fin x) (Fin y) (Fin w) (Fin h)))
                       (extent a (Rect.mk (Fin x) (Fin y) (Fin w) (Fin h))))
              eq_refl eq_refl E) as [Ha Hf].
  rewrite forallb_app, Hf.
  destruct pX as [| |px|]; try discriminate.
  destruct pY as [| |py|]; try discriminate.
  destruct a.
  - cbn [lo Rect.x] in Ha |- *. rewrite Ha. unfold lastRect. rewrite Hp.
    cbn [abut lo extent other forallb Rect.x Rect.y Rect.width Rect.height].
    rewrite !eqb_Fin_refl. cbn [andb]. rewrite andb_true_r.
    apply eqb_Fin. ring.
  - cbn [lo Rect.y] in Ha |- *. rewrite Ha. unfold lastRect. rewrite Hp.
    cbn [abut lo extent other forallb Rect.x Rect.y Rect.width Rect.height].
    rewrite !eqb_Fin_refl. cbn [andb]. rewrite andb_true_r.
    apply eqb_Fin. ring.
Qed.

Lemma invariants_inv (s : store) (r : nat) (l : list Shape) :
  invariants s (Sh r l) ->
  exists os,
    length l <> 1
    /\ objects s (root <$> l) = Some os
    /\ Forall (fun o => inUnitRange (percentage o)) (take (length os - 1) os)
    /\ (forall o, last os = Some o ->
                  LayoutNode.isLastNodePercentage (percentage o) = true)
    /\ Forall (invariants s) l.
Proof. inversion 1; subst. by eexists. Qed.

Lemma objects_rectsOnly (ns : list nat) (s s' : store) (cs : list nat)
  (os : list obj) :
  rectsOnly ns s s' -> objects s cs = Some os ->
  exists os', objects s' cs = Some os'
              /\ percentage <$> os' = percentage <$> os.
Proof.
  intros Hro. rewrite objects_Forall2.
  induction 1 as [|c o cs os Hc _ (os' & Hos' & Hp)].
  - by exists [].
  - destruct (rectsOnly_lookup _ _ _ _ _ Hro Hc) as (o' & Ho' & Hsame).
    apply sameButRect_fields in Hsame as (Hpo & _).
    exists (o' :: os'). split; [by apply objects_cons|].
    by rewrite !fmap_cons, Hp, Hpo.
Qed.

Lemma invariants_rectsOnly (ns : list nat) (s s' : store) (t : Shape) :
  rectsOnly ns s s' -> invariants s t -> invariants s' t.
Proof.
  intros Hro. induction t as [r l IH] using Shape_induction.
  intros (os & Hlen & Hos & Hunit & Hsent & Hl)%invariants_inv.
  destruct (objects_rectsOnly _ _ _ _ _ Hro Hos) as (os' & Hos' & Hp).
  assert (Hlen' : length os' = length os).
  { apply (f_equal length) in Hp. by rewrite !length_fmap in Hp. }
  apply (invariants_node s' r l os'); [done..| | |].
  - apply (Forall_fmap percentage inUnitRange). rewrite fmap_take, Hp, Hlen'.
    rewrite <- fmap_take. by apply Forall_fmap.
  - intros o' Ho'.
    assert (H := f_equal last Hp). rewrite !fmap_last, Ho' in H.
    destruct (last os) as [o|] eqn:Hlast; [|done]. injection H as H.
    rewrite H. by apply Hsent.
  - rewrite Forall_forall in IH, Hl |- *. intros t Ht. by apply IH, Hl.
Qed.

Lemma inUnitRange_finite (p : jsval) : inUnitRange p -> finitePct p.
Proof. intros (q & -> & _). by exists q. Qed.

(** On a tree that satisfies the invariants and has been laid out from a
    finite rectangle, the children of every internal node on one axis tile
    the node's rectangle. *)
Lemma laidOut_tiles (s : store) (D : Rect.t) (t : Shape) :
  finiteRect D = true ->
  laidOut s D t -> invariants s t ->
  (exists o, objs s !! root t = Some o /\ finiteRect (rect o) = true) ->
  forall r l, Sh r l ∈ subtrees t -> l <> [] ->
    exists o os,
      objs s !! r = Some o
      /\ objects s (root <$> l) = Some os
      /\ forall a, Forall (fun c => LayoutNode.axis c = a) os ->
                   tiles a (rect o) (rect <$> os) = true.
Proof.
  intros HD. induction t as [r0 l0 IH] using Shape_induction.
  intros (o0 & os0 & Ho0 & Hos0 & Hrs & Hl)%laidOut_inv
         (os0' & Hlen & Hos0' & Hunit & _ & Hinv)%invariants_inv
         (o0' & Ho0' & Hfin) r l Hin Hne.
  simpl in Ho0'. rewrite Ho0 in Ho0'. injection Ho0' as <-.
  rewrite Hos0 in Hos0'. injection Hos0' as <-.
  assert (Hfinp : Forall finitePct
                    (take (length (percentage <$> os0) - 1) (percentage <$> os0))).
  { rewrite length_fmap, <- fmap_take. apply Forall_fmap.
    eapply Forall_impl; [exact Hunit|]. intros o. apply inUnitRange_finite. }
  cbn [subtrees] in Hin. apply elem_of_cons in Hin as [Heq|Hin].
  - injection Heq as -> ->. exists o0, os0. split; [done|]. split; [done|].
    intros a Hax. rewrite Hrs. apply layoutChildren_tiles; try done.
    + intros Hnil. apply fmap_nil_inv in Hnil. subst os0.
      apply objects_Forall2, Forall2_length in Hos0.
      rewrite length_fmap in Hos0. by destruct l0.
    + apply Forall_fmap. eapply Forall_impl; [exact Hax|]. done.
  - apply list_elem_of_bind in Hin as (t' & Hin & Ht').
    rewrite Forall_forall in IH, Hl, Hinv.
    apply (IH t' Ht'); [by apply Hl|by apply Hinv| |done..].
    (* the rectangle of the child is one of those handed out *)
    pose proof (layoutChildren_finite D (rect o0) _ HD Hfin Hfinp) as Hall.
    rewrite <- Hrs in Hall.
    apply list_elem_of_lookup in Ht' as [i Hi].
    apply objects_Forall2 in Hos0.
    assert (Hri : (root <$> l0) !! i = Some (root t'))
      by by rewrite list_lookup_fmap, Hi.
    destruct (Forall2_lookup_l _ _ _ _ _ Hos0 Hri) as (c & Hc & Hoc).
    exists c. split; [done|].
    rewrite Forall_forall in Hall. apply Hall.
    apply list_elem_of_fmap. exists c. split; [done|].
    by eapply list_elem_of_lookup_2.
Qed.

(** C2 (amended): on a tree of the store that satisfies the structural
    invariants, [calculateRects(x, y, width, height)] with whole numbers
    of magnitude at most 2^31 returns and gives the root that rectangle;
    afterwards, for every internal node whose children all lie on one
    axis, the children's rectangles tile the node's rectangle along that
    axis: the first child's span starts at the node's near edge, each next
    span starts where the one before it ends, the last span ends at the
    node's far edge, and across the axis every child has the position and
    the extent of the node. *)
Theorem calculateRects_tiles (s : store) (t : Shape) (R : Rect.t)
  (Hshaped : shaped s t) (Hnodup : NoDup (nodes t))
  (Hinv : invariants s t) (Hwhole : wholeRect R) :
  exists s',
    LayoutNode.calculateRects (root t) (Some R) s = Some s'
    /\ rect <$> objs s' !! root t = Some R
    /\ forall r l, Sh r l ∈ subtrees t -> l <> [] ->
         exists o os,
           objs s' !! r = Some o
           /\ objects s' (root <$> l) = Some os
           /\ forall a, Forall (fun c => LayoutNode.axis c = a) os ->
                        tiles a (rect o) (rect <$> os) = true.
Proof.
  assert (Hfinite : finiteRect R = true).
  { destruct Hwhole as (x & y & w & h & -> & _). reflexivity. }
  destruct (calculateRects_laysOut t (budget s) s R None Hshaped Hnodup
              (height_budget s t Hshaped Hnodup))
    as (s' & Hrun & Hro & Hrect & Hlaid).
  exists s'. split; [exact Hrun|]. split; [exact Hrect|].
  apply (laidOut_tiles s' R t Hfinite Hlaid).
  - by eapply invariants_rectsOnly.
  - destruct (objs s' !! root t) as [o|]; [|done]. injection Hrect as <-.
    by exists o.
Qed.

Lemma calculateRects_tiles_witness :
  shaped smallStore (Sh 2 [Sh 0 []; Sh 1 []])
  /\ NoDup (nodes (Sh 2 [Sh 0 []; Sh 1 []]))
  /\ invariants smallStore (Sh 2 [Sh 0 []; Sh 1 []])
  /\ wholeRect workArea
  /\ exists s',
       LayoutNode.calculateRects 2 (Some workArea) smallStore = Some s'
       /\ rect <$> objs s' !! 2 = Some workArea.
Proof.
  assert (Hs : shaped smallStore (Sh 2 [Sh 0 []; Sh 1 []])).
  { repeat constructor. }
  assert (Hnd : NoDup (nodes (Sh 2 [Sh 0 []; Sh 1 []]))).
  { apply (bool_decide_unpack _). vm_compute. exact I. }
  assert (Hinv : invariants smallStore (Sh 2 [Sh 0 []; Sh 1 []])).
  { eapply invariants_node; [simpl; lia|reflexivity| | |].
    - constructor; [|constructor]. exists (-1 # 2)%Q.
      repeat split; discriminate.
    - by intros o [= <-].
    - repeat constructor; eapply invariants_node;
        first [reflexivity|simpl; lia|constructor|done]. }
  assert (Hwhole : wholeRect workArea).
  { exists 0%Z, 0%Z, 1000%Z, 800%Z. split; [reflexivity|]. simpl. lia. }
  split; [exact Hs|]. split; [exact Hnd|]. split; [exact Hinv|].
  split; [exact Hwhole|].
  destruct (calculateRects_tiles smallStore _ workArea Hs Hnd Hinv Hwhole)
    as (s' & Hrun & Hrect & _).
  by exists s'.
Defined.

(** C2 as stated fails.  The layout file
    [{"children": [{"percentage": 0.5}, {"percentage": -99999}]}] is
    accepted by the integrity check and satisfies the structural
    invariants, and its two children lie on different axes: after
    [calculateRects(0, 0, 1000, 800)] the first child has the rectangle
    [{0, 0, 500, 800}] and the last child the whole rectangle
    [{0, 0, 1000, 800}], which tile the root along neither axis.  And in a
    layout whose children all lie on one axis an edge can lie beyond the
    parent's far edge: the last child then has a negative extent. *)
Lemma calculateRects_mixed_axes_overlap :
  (exists (s0 s1 : store) (o : obj) (os : list obj),
      LayoutIO.loadLayoutFromFile (Some mixedAxesJson) emptyStore
      = Some (s0, Some 0)
      /\ shaped s0 (Sh 0 [Sh 1 []; Sh 2 []])
      /\ NoDup (nodes (Sh 0 [Sh 1 []; Sh 2 []]))
      /\ invariants s0 (Sh 0 [Sh 1 []; Sh 2 []])
      /\ LayoutNode.calculateRects 0 (Some workArea) s0 = Some s1
      /\ objs s1 !! 0 = Some o
      /\ objects s1 [1; 2] = Some os
      /\ rect <$> os
         = [ Rect.mk (Fin 0) (Fin 0) (Fin 500) (Fin 800);
             Rect.mk (Fin 0) (Fin 0) (Fin 1000) (Fin 800) ]
      /\ tiles AxisX (rect o) (rect <$> os) = false
      /\ tiles AxisY (rect o) (rect <$> os) = false)
  /\ (exists (s : store) (root : ref),
        seeded edgeBeyondParent 0 0 1000 800 = Some (s, root)
        /\ LayoutNode.getIntegrityError root s = Some None
        /\ (rect <$> objs s) !! 1
           = Some (Rect.mk (Fin 800) (Fin 0) (Fin (-300)) (Fin 800))).
Proof.
  split.
  - do 4 eexists.
    split; [vm_compute; reflexivity|].
    split; [repeat constructor|].
    split; [apply (bool_decide_unpack _); vm_compute; exact I|].
    split.
    { eapply invariants_node; [simpl; lia|vm_compute; reflexivity| | |].
      - constructor; [|constructor]. exists (1 # 2)%Q.
        repeat split; discriminate.
      - by intros o [= <-].
      - repeat constructor; eapply invariants_node;
          first [reflexivity|simpl; lia|constructor|done]. }
    split; [vm_compute; reflexivity|].
    split; [vm_compute; reflexivity|].
    split; [vm_compute; reflexivity|].
    split; [vm_compute; reflexivity|].
    split; vm_compute; reflexivity.
  - do 2 eexists.
    split; [vm_compute; reflexivity|].
    split; vm_compute; reflexivity.
Qed.

(** * toJSON and fromJSON *)

Lemma View_induction (P : View -> Prop)
  (H : forall p m vs, Forall P vs -> P (V p m vs)) :
  forall v, P v.
Proof.
  fix IH 1. intros [p m vs]. apply H.
  induction vs as [|v vs IHvs]; constructor; [apply IH|exact IHvs].
Qed.

Lemma Json_induction (P : Json -> Prop)
  (H : forall jc jp jm,
      match jc with Some l => Forall P l | None => True end ->
      P (JObj jc jp jm)) :
  forall j, P j.
Proof.
  fix IH 1. intros [[l|] jp jm]; apply H; [|exact I].
  induction l as [|j l IHl]; constructor; [apply IH|exact IHl].
Qed.

Lemma safeBelow_inv (p : jsval) (m : num) (vs : list View) :
  safeBelow (V p m vs) ->
  Forall (fun c => wireSafe (viewPercentage c)) vs /\ Forall safeBelow vs.
Proof. by inversion 1. Qed.

Lemma sameNum_margin (m : num) :
  sameNum m (default (Num.ofZ 0) (LayoutNode.jsonOfMargin m)).
Proof.
  unfold LayoutNode.jsonOfMargin, sameNum.
  destruct (Num.eqb m (Num.ofZ 0)) eqn:E; simpl; auto.
Qed.

(** What [fromJSON] builds from what [toJSON] wrote has the same
    structure. *)
Lemma decode_encode (v : View) :
  wireSafe (viewPercentage v) -> safeBelow v -> sameView v (decode (encode v)).
Proof.
  induction v as [p m vs IH] using View_induction.
  intros Hp [Hps Hvs]%safeBelow_inv. simpl in Hp. cbn [encode decode].
  rewrite Hp.
  assert (Hkids : match match vs with
                        | [] => None
                        | _ :: _ => Some (encode <$> vs)
                        end with
                  | Some l => decode <$> l
                  | None => []
                  end = decode <$> (encode <$> vs)) by by destruct vs.
  rewrite Hkids. constructor; [apply sameNum_margin|].
  clear Hkids. induction vs as [|c vs IHvs]; [constructor|].
  apply Forall_cons in IH as [IHc IH]. apply Forall_cons in Hps as [Hpc Hps].
  apply Forall_cons in Hvs as [Hvc Hvs].
  rewrite !fmap_cons. constructor; [by apply IHc|by apply IHvs].
Qed.

Lemma hasView_inv (lo : nat) (s : store) (r : nat) (p : jsval) (m : num)
  (vs : list View) :
  hasView lo s r (V p m vs) ->
  exists o cs,
    objs s !! r = Some o /\ arrs s !! children o = Some cs
    /\ Forall (fun c => lo <= c) cs
    /\ Forall2 (hasView lo s) cs vs
    /\ p = percentage o /\ m = margin o.
Proof. inversion 1; subst. by eexists _, _. Qed.

(** [toJSON] writes the encoding of the structure. *)
Lemma toJSON_view (lo : nat) (s : store) (v : View) :
  forall r, hasView lo s r v ->
  forall fuel, vheight v <= fuel ->
    LayoutNode.toJSON_ fuel r s = Some (encode v).
Proof.
  induction v as [p m vs IH] using View_induction.
  intros r (o & cs & Ho & Hcs & _ & Hvs & -> & ->)%hasView_inv [|fuel] Hfuel;
    [simpl in Hfuel; lia|].
  cbn [LayoutNode.toJSON_ encode]. rewrite Ho. cbn [mbind option_bind].
  rewrite Hcs. cbn [mbind option_bind].
  assert (Hmap : mapM (fun child => LayoutNode.toJSON_ fuel child s) cs
                 = Some (encode <$> vs)).
  { apply mapM_Some, Forall2_fmap_r.
    simpl in Hfuel. apply le_S_n in Hfuel.
    clear Hcs. induction Hvs as [|c v cs vs Hc _ IHvs]; [constructor|].
    apply Forall_cons in IH as [IHv IH].
    change (max_list (vheight <$> v :: vs))
      with (vheight v `max` max_list (vheight <$> vs)) in Hfuel.
    constructor; [apply IHv; [done|lia]|apply IHvs; [done|lia]]. }
  rewrite Hmap. apply Forall2_length in Hvs.
  destruct vs as [|v vs]; destruct cs as [|c cs]; try discriminate; done.
Qed.

(** A tree of the store has a structure, as high as the tree. *)
Lemma shaped_hasView (s : store) (t : Shape) :
  shaped s t -> exists v, hasView 0 s (root t) v /\ vheight v = height t.
Proof.
  induction t as [r l IH] using Shape_induction.
  intros [Hk Hl]%shaped_inv. apply kids_Some in Hk as (o & Ho & Hcs).
  assert (Hvs : exists vs, Forall2 (hasView 0 s) (root <$> l) vs
                           /\ vheight <$> vs = height <$> l).
  { clear Hcs. induction l as [|t l IHl]; [by exists []|].
    apply Forall_cons in IH as [IHt IH]. apply Forall_cons in Hl as [Ht Hl].
    destruct (IHt Ht) as (v & Hv & Hh).
    destruct (IHl IH Hl) as (vs & Hvs & Hhs).
    exists (v :: vs). split; [by constructor|]. by rewrite !fmap_cons, Hh, Hhs. }
  destruct Hvs as (vs & Hvs & Hhs).
  exists (V (percentage o) (margin o) vs). split.
  - apply (hasView_node 0 s r o (root <$> l) vs); try done.
    apply Forall_forall. intros; lia.
  - simpl. by rewrite Hhs.
Qed.

Lemma wireSafe_unit (p : jsval) : inUnitRange p -> wireSafe p.
Proof.
  intros (q & -> & Hlo & Hhi).
  unfold wireSafe, LayoutNode.jsonOfPercentage, LayoutNode.percentageOfJson.
  cbn [LayoutNode.isNull negb strictEqNum Num.eqb LastNodeXPercentage
       LastNodeYPercentage LastNodeXPercentageJson LastNodeYPercentageJson
       Num.ofZ].
  destruct (Qeq_bool q (inject_Z 99999)) eqn:E1.
  { apply Qeq_bool_iff in E1. rewrite E1 in Hhi. by vm_compute in Hhi. }
  destruct (Qeq_bool q (inject_Z (-99999))) eqn:E2; [|done].
  apply Qeq_bool_iff in E2. rewrite E2 in Hlo. by vm_compute in Hlo.
Qed.

Lemma wireSafe_sentinel (p : jsval) :
  LayoutNode.isLastNodePercentage p = true -> wireSafe p.
Proof. by destruct p as [| |[]]. Qed.

Lemma Forall_take_last {A : Type} (P : A -> Prop) (l : list A) :
  Forall P (take (length l - 1) l) ->
  (forall a, last l = Some a -> P a) ->
  Forall P l.
Proof.
  destruct l as [|a l] using rev_ind; [done|]. clear IHl.
  rewrite length_app. simpl.
  replace (length l + 1 - 1) with (length l) by lia.
  rewrite take_app_length, last_snoc. intros Hl Ha.
  apply Forall_app. split; [done|]. apply Forall_singleton. by apply Ha.
Qed.

Lemma hasView_percentages (lo : nat) (s : store) (cs : list nat)
  (vs : list View) (os : list obj) :
  Forall2 (hasView lo s) cs vs -> objects s cs = Some os ->
  viewPercentage <$> vs = percentage <$> os.
Proof.
  rewrite objects_Forall2. intros H. revert os.
  induction H as [|c v cs vs Hc _ IH]; intros os Hos.
  - by apply Forall2_nil_inv_l in Hos as ->.
  - apply Forall2_cons_inv_l in Hos as (o & os' & Ho & Hos' & ->).
    destruct v as [p m vs0].
    apply hasView_inv in Hc as (o' & _ & Ho' & _ & _ & _ & -> & _).
    rewrite Ho in Ho'. injection Ho' as <-.
    by rewrite !fmap_cons, (IH os').
Qed.

(** Under the invariants every percentage below the root comes back from
    the file as it went. *)
Lemma invariants_safeBelow (s : store) (t : Shape) :
  shaped s t -> invariants s t ->
  forall v, hasView 0 s (root t) v -> safeBelow v.
Proof.
  induction t as [r l IH] using Shape_induction.
  intros [Hk Hl]%shaped_inv
         (os & _ & Hos & Hunit & Hsent & Hinv)%invariants_inv [p m vs]
         (o & cs & Ho & Hcs & _ & Hvs & _ & _)%hasView_inv.
  apply kids_Some in Hk as (o' & Ho' & Hcs').
  simpl in Ho. rewrite Ho in Ho'. injection Ho' as <-.
  rewrite Hcs in Hcs'. injection Hcs' as ->.
  constructor.
  - apply (Forall_fmap viewPercentage wireSafe).
    rewrite (hasView_percentages _ _ _ _ _ Hvs Hos).
    apply Forall_fmap. apply Forall_take_last.
    + eapply Forall_impl; [exact Hunit|]. intros c. apply wireSafe_unit.
    + intros c Hc. by apply wireSafe_sentinel, Hsent.
  - clear Hos Hcs. revert vs Hvs.
    induction l as [|t l IHl]; intros vs Hvs.
    { apply Forall2_nil_inv_l in Hvs as ->. constructor. }
    apply Forall2_cons_inv_l in Hvs as (v & vs' & Hv & Hvs' & ->).
    apply Forall_cons in IH as [IHt IH]. apply Forall_cons in Hl as [Ht Hl].
    apply Forall_cons in Hinv as [Hit Hinv].
    constructor; [by apply IHt|by apply IHl].
Qed.

Lemma new_leaf (p : jsval) (s : store) :
  LayoutNode.new p None s
  = Some (mkStore (objs s ++ [LayoutNode.fresh p (length (arrs s))])
                  (arrs s ++ [[]]),
          length (objs s)).
Proof.
  unfold LayoutNode.new, allocArr, allocObj. cbn [objs arrs].
  by rewrite list_lookup_middle.
Qed.

Lemma hasView_mono (lo lo' : nat) (s : store) (v : View) :
  lo' <= lo -> forall r, hasView lo s r v -> hasView lo' s r v.
Proof.
  intros Hle. induction v as [p m vs IH] using View_induction.
  intros r (o & cs & Ho & Hcs & Hlo & Hvs & -> & ->)%hasView_inv.
  apply (hasView_node lo' s r o cs vs); [done..| |].
  - eapply Forall_impl; [exact Hlo|]. intros c Hc. simpl in Hc. lia.
  - clear Hcs Hlo. induction Hvs as [|c v cs vs Hc _ IHvs]; [constructor|].
    apply Forall_cons in IH as [IHv IH]. constructor; [by apply IHv|by apply IHvs].
Qed.

(** A structure made of objects at or after [lo] is kept by a store that
    keeps those objects and the arrays. *)
Lemma hasView_frame (lo : nat) (s s' : store) (v : View) :
  (forall r, lo <= r -> r < length (objs s) -> objs s' !! r = objs s !! r) ->
  (forall a, a < length (arrs s) -> arrs s' !! a = arrs s !! a) ->
  forall r, lo <= r -> hasView lo s r v -> hasView lo s' r v.
Proof.
  intros Hobjs Harrs. induction v as [p m vs IH] using View_induction.
  intros r Hr (o & cs & Ho & Hcs & Hlo & Hvs & -> & ->)%hasView_inv.
  apply (hasView_node lo s' r o cs vs); [| |done|].
  - rewrite Hobjs; [done..|]. by eapply lookup_lt_Some.
  - rewrite Harrs; [done|]. by eapply lookup_lt_Some.
  - clear Hcs. induction Hvs as [|c v cs vs Hc _ IHvs]; [constructor|].
    apply Forall_cons in IH as [IHv IH]. apply Forall_cons in Hlo as [Hc0 Hlo].
    constructor; [by apply IHv|by apply IHvs].
Qed.

Lemma hasView_frame_all (lo : nat) (s s' : store) (cs : list nat)
  (vs : list View) :
  (forall r, lo <= r -> r < length (objs s) -> objs s' !! r = objs s !! r) ->
  (forall a, a < length (arrs s) -> arrs s' !! a = arrs s !! a) ->
  Forall (fun c => lo <= c) cs ->
  Forall2 (hasView lo s) cs vs -> Forall2 (hasView lo s') cs vs.
Proof.
  intros Hobjs Harrs Hlo Hvs.
  induction Hvs as [|c v cs vs Hc _ IHvs]; [constructor|].
  apply Forall_cons in Hlo as [Hc0 Hlo].
  constructor; [by apply (hasView_frame lo s s')|by apply IHvs].
Qed.

(** The loop of [fromJSON] over the children of the file. *)
Lemma loadChildren_spec (L0 n : nat) (l : list Json) :
  Forall loadsJson l ->
  forall (s : store) (acc : list nat) (vs : list View),
    L0 <= length (objs s) ->
    Forall (fun c => L0 <= c /\ c < length (objs s)) acc ->
    Forall2 (hasView L0 s) acc vs ->
    exists s' cs,
      foldlM (LayoutNode.loadChild LayoutNode.fromJSON n) (s, acc) l
      = Some (s', cs)
      /\ Forall (fun c => L0 <= c /\ c < length (objs s')) cs
      /\ Forall2 (hasView L0 s') cs (vs ++ (decode <$> l))
      /\ length (objs s) <= length (objs s')
      /\ length (arrs s) <= length (arrs s')
      /\ (forall r, r < length (objs s) -> objs s' !! r = objs s !! r)
      /\ (forall a, a < length (arrs s) -> arrs s' !! a = arrs s !! a).
Proof.
  induction 1 as [|j l Hj _ IH]; intros s acc vs HL Hacc Hvs.
  { exists s, acc. rewrite app_nil_r. by repeat split. }
  cbn [foldlM]. unfold LayoutNode.loadChild at 2.
  rewrite new_leaf. cbn [mbind option_bind].
  set (child := length (objs s)).
  set (s1 := mkStore (objs s ++ [LayoutNode.fresh JUndefined (length (arrs s))])
                     (arrs s ++ [[]])).
  set (s2 := updObj (set_parent (Some n)) child s1).
  assert (Hc2 : objs s2 !! child
                = Some (set_parent (Some n)
                          (LayoutNode.fresh JUndefined (length (arrs s))))).
  { unfold s2. rewrite updObj_lookup_eq. unfold s1, child. cbn [objs].
    by rewrite list_lookup_middle. }
  assert (Hlen2 : length (objs s2) = S (length (objs s))).
  { unfold s2. rewrite updObj_length. unfold s1. cbn [objs].
    rewrite length_app. simpl. lia. }
  destruct (Hj s2 child _ Hc2) as (s3 & Hrun & Hview & Hl3 & Ha3 & Ho3 & Har3).
  { unfold s2. rewrite updObj_arrs. unfold s1. cbn.
    by rewrite list_lookup_middle. }
  { reflexivity. }
  rewrite Hrun. cbn [mbind option_bind].
  assert (Hobjs3 : forall r, r < length (objs s) -> objs s3 !! r = objs s !! r).
  { intros r Hr. rewrite Ho3 by (unfold child; lia).
    unfold s2. rewrite updObj_lookup_ne by (unfold child; lia).
    unfold s1. cbn [objs]. by rewrite lookup_app_l. }
  assert (Harrs3 : forall a, a < length (arrs s) -> arrs s3 !! a = arrs s !! a).
  { intros a Ha. rewrite Har3.
    - unfold s2. rewrite updObj_arrs. unfold s1. cbn [arrs].
      by rewrite lookup_app_l.
    - unfold s2. rewrite updObj_arrs. unfold s1. cbn [arrs].
      rewrite length_app. simpl. lia. }
  assert (Hla2 : length (arrs s2) = S (length (arrs s))).
  { unfold s2. rewrite updObj_arrs. unfold s1. cbn [arrs].
    rewrite length_app. simpl. lia. }
  destruct (IH s3 (acc ++ [child]) (vs ++ [decode j]))
    as (s' & cs & Hfold & Hcs & Hviews & Hl' & Ha' & Ho' & Har').
  { lia. }
  { apply Forall_app. split.
    - eapply Forall_impl; [exact Hacc|]. intros c [? ?]. simpl. lia.
    - apply Forall_singleton. unfold child. lia. }
  { apply Forall2_app.
    - eapply Forall2_impl; [|intros c v Hcv; exact Hcv].
      clear -Hvs Hacc Hobjs3 Harrs3.
      induction Hvs as [|c v cs vs Hc _ IHvs]; [constructor|].
      apply Forall_cons in Hacc as [[Hc1 Hc2] Hacc].
      constructor; [|by apply IHvs].
      apply (hasView_frame L0 s s3); try done.
      intros r _ Hr. by apply Hobjs3.
    - constructor; [|constructor].
      apply (hasView_mono (length (objs s2))); [lia|done]. }
  exists s', cs. split; [exact Hfold|]. split; [exact Hcs|].
  split; [by rewrite <- app_assoc in Hviews|].
  split; [lia|]. split; [lia|]. split.
  - intros r Hr. rewrite Ho' by lia. by apply Hobjs3.
  - intros a Ha. rewrite Har' by lia. by apply Harrs3.
Qed.

(** [fromJSON] on a node that has just been constructed builds the
    structure the file describes, of new objects. *)
Lemma fromJSON_loads (j : Json) : loadsJson j.
Proof.
  induction j as [jc jp jm IH] using Json_induction.
  intros s n o Ho Harr Hm.
  cbn [LayoutNode.fromJSON decode].
  set (sa := updObj (set_percentage (LayoutNode.percentageOfJson jp)) n s).
  set (sb := match jm with
             | Some m => updObj (set_margin m) n sa
             | None => sa
             end).
  set (ob := mkObj (LayoutNode.percentageOfJson jp) (parent o) (children o)
                   (rect o) (isResizing o) (isPreview o) (isHighlighted o)
                   (originalRect o) (isSnappingDestination o)
                   (default (Num.ofZ 0) jm)).
  assert (Hob : objs sb !! n = Some ob).
  { unfold sb, ob. destruct jm as [m|]; cbn [default from_option id].
    - unfold sa. by rewrite !updObj_lookup_eq, Ho.
    - unfold sa. rewrite updObj_lookup_eq, Ho. cbn [fmap option_fmap option_map].
      unfold set_percentage. by rewrite Hm. }
  assert (Hlen : length (objs sb) = length (objs s)).
  { unfold sb, sa. destruct jm; by rewrite !updObj_length. }
  assert (Harrs : arrs sb = arrs s) by (unfold sb, sa; by destruct jm).
  assert (Hother : forall r, r <> n -> objs sb !! r = objs s !! r).
  { intros r Hr. unfold sb, sa. destruct jm;
      by rewrite !updObj_lookup_ne by done. }
  assert (Hleaf : hasView (length (objs s)) sb n
                    (V (LayoutNode.percentageOfJson jp)
                       (default (Num.ofZ 0) jm) [])
                  /\ extends n s sb).
  { split.
    - apply (hasView_node _ sb n ob [] []); try done. by rewrite Harrs.
    - unfold extends. rewrite Hlen, Harrs. repeat split; try done.
      intros r _ Hr. by apply Hother. }
  destruct jc as [[|j1 l]|].
  { exists sb. by destruct Hleaf. }
  2: { exists sb. by destruct Hleaf. }
  clear Hleaf.
  destruct (loadChildren_spec (length (objs s)) n (j1 :: l) IH sb [] [])
    as (s' & cs & Hfold & Hcs & Hviews & Hl' & Ha' & Ho' & Har');
    [lia|constructor|constructor|].
  rewrite Hfold. cbn [mbind option_bind allocArr].
  set (s4 := mkStore (objs s') (arrs s' ++ [cs])).
  assert (Hn : n < length (objs s)) by by eapply lookup_lt_Some.
  eexists. split; [reflexivity|]. split.
  - apply (hasView_node _ _ n (set_children (length (arrs s')) ob) cs
             (decode <$> j1 :: l)).
    + rewrite updObj_lookup_eq. cbn [objs s4].
      rewrite Ho' by lia. by rewrite Hob.
    + rewrite updObj_arrs. cbn [arrs s4 children set_children].
      by rewrite list_lookup_middle.
    + eapply Forall_impl; [exact Hcs|]. by intros c [? ?].
    + cbn [app] in Hviews.
      apply (hasView_frame_all (length (objs s)) s'); try done.
      * intros r Hr _. rewrite updObj_lookup_ne by lia. done.
      * intros a Ha. rewrite updObj_arrs. cbn [arrs s4].
        by rewrite lookup_app_l.
      * eapply Forall_impl; [exact Hcs|]. by intros c [? ?].
  - unfold extends. rewrite updObj_length, updObj_arrs. cbn [objs arrs s4].
    rewrite length_app. simpl. rewrite Hlen in Hl'. rewrite Harrs in Ha'.
    split; [lia|]. split; [lia|]. split.
    + intros r Hr Hne. rewrite list_lookup_alter_ne by done.
      rewrite Ho' by lia. by apply Hother.
    + intros a Ha. rewrite lookup_app_l by lia.
      rewrite Har' by (rewrite Harrs; lia). by rewrite Harrs.
Qed.

(** Replacing a margin that equals 0 by the initial margin changes nothing
    in what [toJSON] writes. *)
Lemma toJSON_zero_margin (fuel : nat) (this : ref) (s : store) (o : obj) :
  objs s !! this = Some o ->
  Num.eqb (margin o) (Num.ofZ 0) = true ->
  forall r,
    LayoutNode.toJSON_ fuel r (updObj (set_margin (Num.ofZ 0)) this s)
    = LayoutNode.toJSON_ fuel r s.
Proof.
  intros Ho Hm. induction fuel as [|fuel IH]; intros r; [done|].
  cbn [LayoutNode.toJSON_]. rewrite updObj_lookup, updObj_arrs.
  case_decide as Hr.
  - subst r. rewrite Ho. cbn [fmap option_fmap option_map mbind option_bind].
    cbn [children percentage margin set_margin].
    destruct (arrs s !! children o) as [cs|]; [|done]. cbn [mbind option_bind].
    rewrite (mapM_ext _ (fun child => LayoutNode.toJSON_ fuel child s))
      by (intros c; apply IH).
    unfold LayoutNode.jsonOfMargin. by rewrite Hm.
  - destruct (objs s !! r) as [o'|]; [|done]. cbn [mbind option_bind].
    destruct (arrs s !! children o') as [cs|]; [|done]. cbn [mbind option_bind].
    by rewrite (mapM_ext _ (fun child => LayoutNode.toJSON_ fuel child s))
      by (intros c; apply IH).
Qed.

(** C3 (amended): on a tree of the store that satisfies the structural
    invariants and whose root percentage comes back from the file as it
    went (it is not [null] and not one of the numbers 99999 and -99999),
    [toJSON] returns, [fromJSON] on a new node returns, and the node it
    fills has the structure of the tree: the same shape, at every node the
    identical percentage (the sentinels included) and the same margin.
    And a node whose margin equals 0 is written without the margin key, as
    it is with the initial margin. *)
Theorem toJSON_fromJSON_roundtrip (s : store) (t : Shape) (o : obj)
  (Hshaped : shaped s t) (Hnodup : NoDup (nodes t))
  (Hinv : invariants s t)
  (Hroot : objs s !! root t = Some o)
  (Hsafe : wireSafe (percentage o)) :
  (exists (j : Json) (s1 s2 : store) (n : ref) (v v' : View),
      LayoutNode.toJSON (root t) s = Some j
      /\ LayoutNode.new JUndefined None s = Some (s1, n)
      /\ LayoutNode.fromJSON j n s1 = Some s2
      /\ hasView 0 s (root t) v
      /\ hasView 0 s2 n v'
      /\ sameView v v')
  /\ (forall (this : ref) (s : store) (o : obj) (j : Json),
        objs s !! this = Some o ->
        Num.eqb (margin o) (Num.ofZ 0) = true ->
        LayoutNode.toJSON this s = Some j ->
        jmargin j = None
        /\ LayoutNode.toJSON this (updObj (set_margin (Num.ofZ 0)) this s)
           = Some j).
Proof.
  split.
  - destruct (shaped_hasView s t Hshaped) as (v & Hv & Hh).
    pose proof (invariants_safeBelow s t Hshaped Hinv v Hv) as Hbelow.
    assert (Hp : viewPercentage v = percentage o).
    { destruct v as [p m vs].
      apply hasView_inv in Hv as (o' & _ & Ho' & _ & _ & _ & -> & _).
      rewrite Hroot in Ho'. by injection Ho' as <-. }
    assert (Hjson : LayoutNode.toJSON (root t) s = Some (encode v)).
    { apply (toJSON_view 0 s v _ Hv). rewrite Hh. by apply height_budget. }
    pose proof (new_leaf JUndefined s) as Hnew.
    set (s1 := mkStore _ _) in Hnew.
    destruct (fromJSON_loads (encode v) s1 (length (objs s))
                (LayoutNode.fresh JUndefined (length (arrs s))))
      as (s2 & Hload & Hview & _).
    { unfold s1. cbn [objs]. by rewrite list_lookup_middle. }
    { unfold s1. cbn. by rewrite list_lookup_middle. }
    { reflexivity. }
    exists (encode v), s1, s2, (length (objs s)), v, (decode (encode v)).
    split; [done|]. split; [done|]. split; [done|]. split; [done|].
    split; [apply (hasView_mono _ 0) in Hview; [done|lia]|].
    apply decode_encode; [by rewrite Hp|done].
  - clear. intros this s o j Ho Hm Hj. split.
    + unfold LayoutNode.toJSON, budget in Hj. cbn [LayoutNode.toJSON_] in Hj.
      rewrite Ho in Hj. cbn [mbind option_bind] in Hj.
      destruct (arrs s !! children o) as [cs|]; [|done].
      cbn [mbind option_bind] in Hj.
      destruct (if 0 <? length cs then _ else _) as [jc|]; [|done].
      injection Hj as <-. unfold LayoutNode.jsonOfMargin. cbn. by rewrite Hm.
    + unfold LayoutNode.toJSON, budget in *. rewrite updObj_length.
      by rewrite (toJSON_zero_margin _ this s o).
Qed.

Lemma toJSON_fromJSON_roundtrip_witness :
  shaped smallStore (Sh 2 [Sh 0 []; Sh 1 []])
  /\ NoDup (nodes (Sh 2 [Sh 0 []; Sh 1 []]))
  /\ invariants smallStore (Sh 2 [Sh 0 []; Sh 1 []])
  /\ wireSafe (JNum (Fin (1 # 2)))
  /\ exists (j : Json) (s1 s2 : store) (n : ref) (v v' : View),
       LayoutNode.toJSON 2 smallStore = Some j
       /\ LayoutNode.new JUndefined None smallStore = Some (s1, n)
       /\ LayoutNode.fromJSON j n s1 = Some s2
       /\ hasView 0 smallStore 2 v
       /\ hasView 0 s2 n v'
       /\ sameView v v'.
Proof.
  assert (Hs : shaped smallStore (Sh 2 [Sh 0 []; Sh 1 []])).
  { repeat constructor. }
  assert (Hnd : NoDup (nodes (Sh 2 [Sh 0 []; Sh 1 []]))).
  { apply (bool_decide_unpack _). vm_compute. exact I. }
  assert (Hinv : invariants smallStore (Sh 2 [Sh 0 []; Sh 1 []])).
  { eapply invariants_node; [simpl; lia|reflexivity| | |].
    - constructor; [|constructor]. exists (-1 # 2)%Q.
      repeat split; discriminate.
    - by intros o [= <-].
    - repeat constructor; eapply invariants_node;
        first [reflexivity|simpl; lia|constructor|done]. }
  split; [exact Hs|]. split; [exact Hnd|]. split; [exact Hinv|].
  split; [reflexivity|].
  exact (proj1 (toJSON_fromJSON_roundtrip smallStore _ _ Hs Hnd Hinv
                  eq_refl eq_refl)).
Defined.

(** C3 as stated fails.  A single node with the percentage 99999 is a
    layout that satisfies the structural invariants (it has no children,
    and its integrity error is [null]); [toJSON] writes 99999 for it and
    [fromJSON] reads that as the sentinel: the node built has the
    percentage [+Infinity]. *)
Lemma roundtrip_wire_number_at_root :
  exists (s s1 s2 : store) (root n : ref) (j : Json),
    LayoutNode.new (JNum (Num.ofZ 99999)) None emptyStore = Some (s, root)
    /\ shaped s (Sh root [])
    /\ invariants s (Sh root [])
    /\ LayoutNode.getIntegrityError root s = Some None
    /\ LayoutNode.toJSON root s = Some j
    /\ LayoutNode.new JUndefined None s = Some (s1, n)
    /\ LayoutNode.fromJSON j n s1 = Some s2
    /\ percentage <$> objs s !! root = Some (JNum (Num.ofZ 99999))
    /\ percentage <$> objs s2 !! n = Some (JNum PosInf).
Proof.
  do 6 eexists.
  split; [vm_compute; reflexivity|].
  split; [by repeat constructor|].
  split; [by eapply invariants_node; first [reflexivity|constructor|done]|].
  split; [vm_compute; reflexivity|].
  split; [vm_compute; reflexivity|].
  split; [vm_compute; reflexivity|].
  split; [vm_compute; reflexivity|].
  split; vm_compute; reflexivity.
Qed.

Lemma applied_kids (func : obj -> obj) (ns : list ref) (s s' : store) (r : ref) :
  keepsChildren func -> applied func ns s s' -> kids s' r = kids s r.
Proof.
  intros Hk [Ha Ho]. unfold kids. rewrite Ho, Ha.
  case_bool_decide; [|done]. destruct (objs s !! r) as [o|]; [|done].
  simpl. by rewrite Hk.
Qed.

Lemma shaped_kids_ext (s s' : store) (t : Shape) :
  (forall r, r ∈ nodes t -> kids s' r = kids s r) -> shaped s t -> shaped s' t.
Proof.
  induction t as [r l IH] using Shape_induction.
  intros Hk [Hr Hl]%shaped_inv. constructor.
  - rewrite Hk; [done|]. apply list_elem_of_here.
  - rewrite Forall_forall in IH, Hl |- *. intros t Ht.
    apply IH; [done| |by apply Hl].
    intros n Hn. apply Hk. by eapply nodes_sub.
Qed.

Lemma applied_nil (func : obj -> obj) (s : store) : applied func [] s s.
Proof. split; [done|]. intros r. rewrite bool_decide_eq_false_2; [done|]. apply not_elem_of_nil. Qed.

Lemma applied_app (func : obj -> obj) (ns1 ns2 : list ref) (s s1 s2 : store) :
  applied func ns1 s s1 -> applied func ns2 s1 s2 ->
  (forall n, n ∈ ns1 -> n ∈ ns2 -> False) ->
  applied func (ns1 ++ ns2) s s2.
Proof.
  intros [Ha1 Ho1] [Ha2 Ho2] Hd. split; [congruence|].
  intros r. rewrite Ho2, Ho1.
  destruct (decide (r ∈ ns1)) as [H1|H1], (decide (r ∈ ns2)) as [H2|H2].
  - destruct (Hd r H1 H2).
  - rewrite (bool_decide_eq_false_2 _ H2), (bool_decide_eq_true_2 _ H1).
    rewrite bool_decide_eq_true_2; [done|]. apply elem_of_app; tauto.
  - rewrite (bool_decide_eq_true_2 _ H2), (bool_decide_eq_false_2 _ H1).
    rewrite bool_decide_eq_true_2; [done|]. apply elem_of_app; tauto.
  - rewrite (bool_decide_eq_false_2 _ H2), (bool_decide_eq_false_2 _ H1).
    rewrite bool_decide_eq_false_2; [done|]. rewrite elem_of_app; tauto.
Qed.

Lemma applied_one (func : obj -> obj) (r : ref) (s : store) :
  applied func [r] s (updObj func r s).
Proof.
  split; [done|]. intros n. rewrite updObj_lookup.
  destruct (decide (r = n)) as [->|Hne].
  - rewrite bool_decide_eq_true_2; [done|]. by apply list_elem_of_singleton.
  - rewrite bool_decide_eq_false_2; [done|]. by rewrite list_elem_of_singleton.
Qed.

Lemma Forall_height (l : list Shape) (fuel : nat) :
  max_list (height <$> l) <= fuel -> Forall (fun t => height t <= fuel) l.
Proof.
  intros H. apply Forall_forall. intros t Ht.
  pose proof (max_list_elem_of_le (height t) (height <$> l)
                (list_elem_of_fmap_2 _ _ _ Ht)). lia.
Qed.

Lemma NoDup_bind_cons (t : Shape) (l : list Shape) :
  NoDup ((t :: l) ≫= nodes) ->
  NoDup (nodes t) /\ NoDup (l ≫= nodes)
  /\ forall n, n ∈ nodes t -> n ∈ l ≫= nodes -> False.
Proof.
  rewrite bind_cons_nodes. intros (H1 & H2 & H3)%NoDup_app. eauto.
Qed.

Lemma applied_length (func : obj -> obj) (ns : list ref) (s s' : store) :
  applied func ns s s' -> length (objs s') = length (objs s).
Proof.
  intros [_ Ho]. apply Nat.le_antisymm.
  - apply lookup_ge_None. rewrite Ho.
    rewrite (lookup_ge_None_2 (objs s)) by lia. by case_bool_decide.
  - apply lookup_ge_None.
    pose proof (Ho (length (objs s'))) as H.
    rewrite (lookup_ge_None_2 (objs s')) in H by lia.
    destruct (objs s !! length (objs s')); [|done].
    by case_bool_decide.
Qed.

(** The loop over the children; [fu] is the budget of the call on a
    child, which [forDescendants] takes from the store. *)
Lemma forSelfAndDescendants_children (func : obj -> obj) (fu : store -> nat)
  (N : nat) (l : list Shape) :
  keepsChildren func ->
  (forall s t, t ∈ l -> length (objs s) = N -> height t <= fu s) ->
  Forall (fun t => forall fuel s, shaped s t -> NoDup (nodes t) ->
            height t <= fuel ->
            exists s', LayoutNode.forSelfAndDescendants_ fuel func (root t) s = Some s'
                       /\ applied func (nodes t) s s') l ->
  forall s, length (objs s) = N -> Forall (shaped s) l -> NoDup (l ≫= nodes) ->
    exists s',
      foldlM (fun s c => LayoutNode.forSelfAndDescendants_ (fu s) func c s) s
             (root <$> l) = Some s'
      /\ applied func (l ≫= nodes) s s'.
Proof.
  intros Hk. induction l as [|t l IHl]; intros Hfu IH s HN Hs Hnd.
  { exists s. split; [done|apply applied_nil]. }
  apply Forall_cons in IH as [IHt IH]. apply Forall_cons in Hs as [Hst Hs].
  apply NoDup_bind_cons in Hnd as (Hndt & Hndl & Hdisj).
  destruct (IHt (fu s) s Hst Hndt) as (s1 & Hrun1 & Hap1).
  { apply Hfu; [apply list_elem_of_here|done]. }
  destruct (IHl) with (s := s1) as (s2 & Hrun2 & Hap2); try done.
  { intros s0 t0 Ht0. apply Hfu. by apply list_elem_of_further. }
  { by rewrite (applied_length _ _ _ _ Hap1). }
  { eapply Forall_impl; [exact Hs|]. intros t'. apply shaped_kids_ext.
    intros r _. by eapply applied_kids. }
  exists s2. split.
  - rewrite fmap_cons. simpl. rewrite Hrun1. exact Hrun2.
  - rewrite bind_cons_nodes. by eapply applied_app.
Qed.

Lemma forSelfAndDescendants_applies (func : obj -> obj) (t : Shape) :
  keepsChildren func ->
  forall fuel s, shaped s t -> NoDup (nodes t) -> height t <= fuel ->
    exists s',
      LayoutNode.forSelfAndDescendants_ fuel func (root t) s = Some s'
      /\ applied func (nodes t) s s'.
Proof.
  intros Hk. induction t as [r l IH] using Shape_induction.
  intros [|fuel] s Hs Hnd Hh; [simpl in Hh; lia|].
  pose proof Hs as [Hkids Hsl]%shaped_inv.
  pose proof (shaped_root s _ Hs) as [o Ho]. simpl in Ho.
  simpl in Hh. apply le_S_n in Hh.
  simpl in Hnd. apply NoDup_cons in Hnd as [Hr Hnd].
  cbn [LayoutNode.forSelfAndDescendants_ root]. rewrite Ho.
  cbn [mbind option_bind].
  pose proof (applied_one func r s) as Hap0.
  rewrite (applied_kids func [r] s _ r Hk Hap0), Hkids.
  cbn [mbind option_bind].
  destruct (forSelfAndDescendants_children func (fun _ => fuel)
              (length (objs s)) l Hk) with (s := updObj func r s)
    as (s2 & Hrun & Hap); try done.
  { intros s0 t Ht _.
    pose proof (max_list_elem_of_le (height t) (height <$> l)
                  (list_elem_of_fmap_2 _ _ _ Ht)). lia. }
  { apply updObj_length. }
  { eapply Forall_impl; [exact Hsl|]. intros t'. apply shaped_kids_ext.
    intros n _. by eapply applied_kids. }
  exists s2. split; [exact Hrun|].
  change (nodes (Sh r l)) with ([r] ++ (l ≫= nodes)).
  eapply applied_app; [exact Hap0|exact Hap|].
  intros n ->%list_elem_of_singleton. exact Hr.
Qed.

Lemma height_sub (t : Shape) (l : list Shape) (r : ref) :
  t ∈ l -> S (height t) <= height (Sh r l).
Proof.
  intros Ht. simpl.
  pose proof (max_list_elem_of_le (height t) (height <$> l)
                (list_elem_of_fmap_2 _ _ _ Ht)). lia.
Qed.

Lemma forDescendants_applies (func : obj -> obj) (s : store) (r : ref)
  (l : list Shape) :
  keepsChildren func -> shaped s (Sh r l) -> NoDup (nodes (Sh r l)) ->
  exists s',
    LayoutNode.forDescendants func r s = Some s'
    /\ applied func (l ≫= nodes) s s'.
Proof.
  intros Hk Hs Hnd. pose proof Hs as [Hkids Hsl]%shaped_inv.
  unfold LayoutNode.forDescendants. rewrite Hkids. cbn [mbind option_bind].
  pose proof (height_budget s _ Hs Hnd) as Hb.
  simpl in Hnd. apply NoDup_cons in Hnd as [_ Hnd].
  apply (forSelfAndDescendants_children func budget (length (objs s)) l Hk);
    try done.
  - intros s0 t Ht Hlen. unfold budget in *. rewrite Hlen.
    pose proof (height_sub t l r Ht). lia.
  - apply Forall_forall. intros t _ fuel s0.
    by apply forSelfAndDescendants_applies.
Qed.

(** * calculateRects without arguments *)

Lemma calculateRects_own_rect (fuel : nat) (this : ref) (display : option Rect.t)
  (s : store) (o : obj) :
  objs s !! this = Some o ->
  LayoutNode.calculateRects_ fuel this None display s
  = LayoutNode.calculateRects_ fuel this (Some (rect o)) display s.
Proof. intros Ho. destruct fuel; [done|]. simpl. by rewrite Ho. Qed.

Lemma calculateRects_again (s : store) (t : Shape) (o : obj) :
  shaped s t -> NoDup (nodes t) -> objs s !! root t = Some o ->
  exists s',
    LayoutNode.calculateRects (root t) None s = Some s'
    /\ rectsOnly (nodes t) s s'
    /\ objs s' !! root t = Some o
    /\ laidOut s' (rect o) t.
Proof.
  intros Hs Hnd Ho.
  destruct (calculateRects_laysOut t (budget s) s (rect o) None Hs Hnd
              (height_budget s t Hs Hnd)) as (s' & Hrun & Hro & Hrect & Hlaid).
  exists s'. unfold LayoutNode.calculateRects.
  rewrite (calculateRects_own_rect _ _ _ _ _ Ho).
  split; [exact Hrun|]. split; [exact Hro|]. split; [|exact Hlaid].
  destruct (rectsOnly_lookup _ _ _ _ _ Hro Ho) as (o' & Ho' & Hsame).
  rewrite Ho' in Hrect |- *. injection Hrect as Hrect.
  unfold sameButRect in Hsame. rewrite Hsame, Hrect. by destruct o.
Qed.

Lemma objects_fmap_ext {A : Type} (f : obj -> A) (s1 s2 : store) (cs : list ref) :
  forall os1 os2,
    objects s1 cs = Some os1 -> objects s2 cs = Some os2 ->
    (forall c, c ∈ cs -> f <$> objs s1 !! c = f <$> objs s2 !! c) ->
    f <$> os1 = f <$> os2.
Proof.
  induction cs as [|c cs IH]; intros os1 os2 H1%objects_Forall2 H2%objects_Forall2 Hf.
  { by inversion H1; inversion H2. }
  inversion H1 as [|? o1 ? os1' Ho1 H1']; subst.
  inversion H2 as [|? o2 ? os2' Ho2 H2']; subst.
  rewrite !fmap_cons. f_equal.
  - pose proof (Hf c (list_elem_of_here _ _)) as Hc.
    rewrite Ho1, Ho2 in Hc. by injection Hc.
  - apply IH; [by apply objects_Forall2..|].
    intros c' Hc'. apply Hf. by apply list_elem_of_further.
Qed.

Lemma sameButRect_eq (o1 o2 : obj) :
  sameButRect o1 o2 -> rect o1 = rect o2 -> o1 = o2.
Proof.
  unfold sameButRect. intros H Hr. rewrite H, <- Hr. by destruct o1.
Qed.

(** The rectangles of a laid out tree are determined by the root's
    rectangle, the display and the percentages. *)
Lemma laidOut_unique (D : Rect.t) (t : Shape) :
  forall s1 s2,
    laidOut s1 D t -> laidOut s2 D t ->
    (forall n, n ∈ nodes t -> agreeButRect s1 s2 n) ->
    rect <$> objs s1 !! root t = rect <$> objs s2 !! root t ->
    forall n, n ∈ nodes t -> objs s1 !! n = objs s2 !! n.
Proof.
  induction t as [r l IH] using Shape_induction.
  intros s1 s2 (o1 & os1 & Ho1 & Hos1 & Hr1 & Hl1)%laidOut_inv
    (o2 & os2 & Ho2 & Hos2 & Hr2 & Hl2)%laidOut_inv Hag Hrect.
  cbn [root] in Hrect.
  assert (Hroot : o1 = o2).
  { destruct (Hag r (list_elem_of_here _ _)) as (o1' & o2' & H1 & H2 & Hsame).
    rewrite Ho1 in H1. rewrite Ho2 in H2. injection H1 as <-. injection H2 as <-.
    apply sameButRect_eq; [done|]. rewrite Ho1, Ho2 in Hrect. by injection Hrect. }
  subst o2.
  assert (Hps : percentage <$> os1 = percentage <$> os2).
  { apply (objects_fmap_ext percentage s1 s2 (root <$> l)); [done..|].
    intros c Hc. apply list_elem_of_fmap in Hc as (t & -> & Ht).
    destruct (Hag (root t)) as (c1 & c2 & H1 & H2 & Hsame).
    { eapply nodes_sub; [done|apply nodes_root]. }
    rewrite H1, H2. simpl. f_equal.
    by apply sameButRect_fields in Hsame as (-> & _). }
  assert (Hrs : rect <$> os1 = rect <$> os2) by congruence.
  intros n Hn. simpl in Hn. apply elem_of_cons in Hn as [->|Hn]; [congruence|].
  apply list_elem_of_bind in Hn as (t & Hn & Ht).
  rewrite Forall_forall in IH, Hl1, Hl2.
  apply (IH t Ht s1 s2); [by apply Hl1|by apply Hl2| | |done].
  - intros m Hm. apply Hag. by eapply nodes_sub.
  - apply list_elem_of_lookup in Ht as [i Hi].
    apply objects_Forall2 in Hos1, Hos2.
    assert (Hci : (root <$> l) !! i = Some (root t)) by by rewrite list_lookup_fmap, Hi.
    destruct (Forall2_lookup_l _ _ _ _ _ Hos1 Hci) as (c1 & Hc1 & Hoc1).
    destruct (Forall2_lookup_l _ _ _ _ _ Hos2 Hci) as (c2 & Hc2 & Hoc2).
    rewrite Hoc1, Hoc2. simpl. f_equal.
    assert (H : (rect <$> os1) !! i = (rect <$> os2) !! i) by by rewrite Hrs.
    rewrite !list_lookup_fmap, Hc1, Hc2 in H. by injection H.
Qed.

Lemma store_eq (s1 s2 : store) :
  arrs s1 = arrs s2 -> (forall n, objs s1 !! n = objs s2 !! n) -> s1 = s2.
Proof.
  destruct s1, s2. simpl. intros -> H. f_equal. by apply list_eq.
Qed.

Lemma rectsOnly_agree (ns : list ref) (s s' : store) (n : ref) (o : obj) :
  rectsOnly ns s s' -> objs s !! n = Some o -> agreeButRect s s' n.
Proof.
  intros Hro Ho. destruct (rectsOnly_lookup _ _ _ _ _ Hro Ho) as (o' & Ho' & Hs).
  by exists o, o'.
Qed.

(** Two laid out stores that come from the same store by changes of
    [rect] in the tree, with the same rectangle at the root, are equal. *)
Lemma laidOut_determined (s s1 s2 : store) (t : Shape) (D : Rect.t) :
  shaped s t ->
  rectsOnly (nodes t) s s1 -> rectsOnly (nodes t) s s2 ->
  laidOut s1 D t -> laidOut s2 D t ->
  rect <$> objs s1 !! root t = rect <$> objs s2 !! root t ->
  s1 = s2.
Proof.
  intros Hs Hro1 Hro2 Hl1 Hl2 Hrect.
  apply store_eq.
  { destruct Hro1 as [-> _], Hro2 as [-> _]. done. }
  intros n. destruct (decide (n ∈ nodes t)) as [Hn|Hn].
  - apply (laidOut_unique D t s1 s2); try done.
    intros m Hm. pose proof (shaped_valid s t m Hs Hm) as Hlt.
    apply lookup_lt_is_Some_2 in Hlt as [o Ho].
    destruct (rectsOnly_lookup _ _ _ _ _ Hro1 Ho) as (o1 & Ho1 & Hs1).
    destruct (rectsOnly_lookup _ _ _ _ _ Hro2 Ho) as (o2 & Ho2 & Hs2).
    exists o1, o2. repeat split; [done..|].
    unfold sameButRect in *. rewrite Hs2. rewrite Hs1. by destruct o.
  - destruct Hro1 as (_ & _ & H1), Hro2 as (_ & _ & H2).
    by rewrite H1, H2.
Qed.

(** * validateRects *)

Lemma validateRects_children (fuel : nat) (s : store) (l : list Shape) :
  Forall (fun t => LayoutNode.validateRects_ fuel (root t) s
                   = Some (forallb (holds s bigEnough) (nodes t))) l ->
  forall b : bool,
    foldlM (fun ok child => if ok : bool then LayoutNode.validateRects_ fuel child s
                            else Some false) b (root <$> l)
    = Some (b && forallb (holds s bigEnough) (l ≫= nodes)).
Proof.
  induction l as [|t l IHl]; intros IH b.
  { simpl. by rewrite andb_true_r. }
  apply Forall_cons in IH as [IHt IH].
  rewrite fmap_cons, bind_cons_nodes, forallb_app. cbn [foldlM].
  destruct b.
  - rewrite IHt. cbn [mbind option_bind]. by rewrite IHl.
  - cbn [mbind option_bind]. by rewrite IHl.
Qed.

Lemma validateRects_spec (s : store) (t : Shape) :
  shaped s t ->
  forall fuel, height t <= fuel ->
    LayoutNode.validateRects_ fuel (root t) s
    = Some (forallb (holds s bigEnough) (nodes t)).
Proof.
  induction t as [r l IH] using Shape_induction.
  intros Hs [|fuel] Hh; [simpl in Hh; lia|].
  pose proof Hs as [Hk Hsl]%shaped_inv.
  apply kids_Some in Hk as (o & Ho & Hcs).
  simpl in Hh. apply le_S_n in Hh.
  cbn [LayoutNode.validateRects_ root nodes forallb]. rewrite Ho.
  cbn [mbind option_bind]. rewrite Hcs. cbn [mbind option_bind].
  unfold holds at 1. rewrite Ho. unfold bigEnough at 1.
  destruct (Num.leb (Rect.width (rect o)) (Num.ofZ 100)
            || Num.leb (Rect.height (rect o)) (Num.ofZ 100)); [done|].
  rewrite validateRects_children; [done|].
  rewrite Forall_forall in IH, Hsl |- *. intros t Ht.
  apply IH; [done|by apply Hsl|].
  pose proof (max_list_elem_of_le (height t) (height <$> l)
                (list_elem_of_fmap_2 _ _ _ Ht)). lia.
Qed.

(** * findNodeAtPosition *)

Lemma findNodeAtPosition_spec (s : store) (x y : num) (t : Shape) :
  shaped s t ->
  forall fuel, height t <= fuel ->
    LayoutNode.findNodeAtPosition_ fuel x y (root t) s
    = Some (find (leafAt s x y) (nodes t)).
Proof.
  induction t as [r l IH] using Shape_induction.
  intros Hs [|fuel] Hh; [simpl in Hh; lia|].
  pose proof Hs as [Hk Hsl]%shaped_inv.
  apply kids_Some in Hk as (o & Ho & Hcs).
  simpl in Hh. apply le_S_n in Hh.
  cbn [LayoutNode.findNodeAtPosition_ root nodes find]. rewrite Ho.
  cbn [mbind option_bind]. rewrite Hcs. cbn [mbind option_bind].
  unfold leafAt at 1. rewrite Ho, Hcs.
  destruct (LayoutNode.inRect x y (rect o) && (length (root <$> l) =? 0)); [done|].
  clear Hcs Ho Hs.
  induction l as [|t l IHl]; [done|].
  apply Forall_cons in IH as [IHt IH]. apply Forall_cons in Hsl as [Hst Hsl].
  change (max_list (height <$> t :: l))
    with (height t `max` max_list (height <$> l)) in Hh.
  rewrite fmap_cons, reduceOr_cons, bind_cons_nodes, find_app'.
  rewrite IHt by (done || lia).
  destruct (find (leafAt s x y) (nodes t)); [done|].
  apply IHl; [done|lia|done].
Qed.

(** * delete *)

Lemma delete_found (fuel : nat) (node : ref) (s' : store) (cs : list ref) :
  foldlM (fun '(deleted, s) child =>
            if deleted : bool then Some (deleted, s)
            else LayoutNode.delete_ fuel child node s) (true, s') cs
  = Some (true, s').
Proof. induction cs as [|c cs IH]; [done|]. simpl. exact IH. Qed.

Lemma delete_spec (s : store) (node : ref) (t : Shape) :
  shaped s t ->
  forall fuel, height t <= fuel ->
    LayoutNode.delete_ fuel (root t) node s
    = match find (hasChild s node) (nodes t) with
      | Some p => pair true <$> detach p node s
      | None => Some (false, s)
      end.
Proof.
  induction t as [r l IH] using Shape_induction.
  intros Hs [|fuel] Hh; [simpl in Hh; lia|].
  pose proof Hs as [Hk Hsl]%shaped_inv.
  pose proof Hk as (o & Ho & Hcs)%kids_Some.
  simpl in Hh. apply le_S_n in Hh.
  cbn [LayoutNode.delete_ root nodes find]. rewrite Ho.
  cbn [mbind option_bind]. rewrite Hcs. cbn [mbind option_bind].
  unfold hasChild at 1. rewrite Hk.
  destruct (indexOf node (root <$> l)) as [i|] eqn:Hi.
  { rewrite bool_decide_eq_true_2.
    2:{ apply indexOf_elem_of. by rewrite Hi. }
    unfold detach. rewrite Ho. cbn [mbind option_bind]. rewrite Hcs.
    cbn [mbind option_bind]. rewrite Hi. cbn [mbind option_bind].
    by destruct (length (root <$> l) =? 2). }
  rewrite bool_decide_eq_false_2.
  2:{ intros Hin%indexOf_elem_of. done. }
  clear Hcs Ho Hs Hk Hi.
  induction l as [|t l IHl]; [done|].
  apply Forall_cons in IH as [IHt IH]. apply Forall_cons in Hsl as [Hst Hsl].
  change (max_list (height <$> t :: l))
    with (height t `max` max_list (height <$> l)) in Hh.
  rewrite fmap_cons, bind_cons_nodes, find_app'. cbn [foldlM].
  rewrite IHt by (done || lia).
  destruct (find (hasChild s node) (nodes t)) as [p|].
  - destruct (detach p node s) as [s'|]; [|done].
    cbn [fmap option_fmap option_map mbind option_bind]. apply delete_found.
  - cbn [mbind option_bind]. apply IHl; [done|lia|done].
Qed.

(** * getIntegrityError *)

Lemma drop_last {A : Type} (l : list A) :
  drop (length l - 1) l = match last l with Some a => [a] | None => [] end.
Proof.
  destruct l as [|a l] using rev_ind; [done|].
  rewrite last_snoc, length_app. simpl.
  replace (length l + 1 - 1) with (length l) by lia.
  by rewrite drop_app_length.
Qed.

Lemma existsb_fmap {A B : Type} (f : A -> B) (p : B -> bool) (l : list A) :
  existsb p (f <$> l) = existsb (fun a => p (f a)) l.
Proof. induction l as [|a l IH]; [done|]. rewrite fmap_cons. simpl. by rewrite IH. Qed.

Lemma hasView_objects (lo : nat) (s : store) (cs : list ref) (vs : list View) :
  Forall2 (hasView lo s) cs vs -> exists os, objects s cs = Some os.
Proof.
  induction 1 as [|c v cs vs Hc _ [os Hos]]; [by exists []|].
  destruct v as [p m ws].
  apply hasView_inv in Hc as (o & _ & Ho & _).
  exists (o :: os). by apply objects_cons.
Qed.

Lemma getIntegrityError_view (lo : nat) (s : store) (v : View) :
  forall r, hasView lo s r v ->
  forall fuel, vheight v <= fuel ->
    LayoutNode.getIntegrityError_ fuel r s = Some (viewError v).
Proof.
  induction v as [p m vs IH] using View_induction.
  intros r (o & cs & Ho & Hcs & _ & Hvs & -> & ->)%hasView_inv [|fuel] Hfuel;
    [simpl in Hfuel; lia|].
  simpl in Hfuel. apply le_S_n in Hfuel.
  destruct (hasView_objects _ _ _ _ Hvs) as [os Hos].
  pose proof (hasView_percentages _ _ _ _ _ Hvs Hos) as Hps.
  pose proof (Forall2_length _ _ _ Hvs) as Hlen.
  assert (Hlos : length os = length cs).
  { apply objects_Forall2, Forall2_length in Hos. done. }
  cbn [LayoutNode.getIntegrityError_ viewError].
  unfold kids. rewrite Ho. cbn [mbind option_bind]. rewrite Hcs.
  cbn [mbind option_bind]. unfold objects in Hos. rewrite Hos.
  cbn [mbind option_bind].
  rewrite Hps, length_fmap, <- !fmap_take, <- !fmap_drop, !existsb_fmap.
  rewrite <- Hlen, Hlos.
  destruct (length cs =? 1); [done|].
  change (fun a => badPct (percentage a)) with LayoutNode.badPercentage.
  destruct (existsb LayoutNode.badPercentage (take (length cs - 1) os)); [done|].
  destruct (existsb _ (drop (length cs - 1) os)); [done|].
  clear Hcs Ho Hos Hps Hlen Hlos.
  induction Hvs as [|c v cs vs Hc _ IHvs]; [done|].
  apply Forall_cons in IH as [IHv IH].
  change (max_list (vheight <$> v :: vs))
    with (vheight v `max` max_list (vheight <$> vs)) in Hfuel.
  rewrite reduceOr_cons, (IHv c Hc fuel) by lia.
  destruct (viewError v); [done|]. apply IHvs; [done|lia].
Qed.

Lemma existsb_false {A : Type} (p : A -> bool) (l : list A) :
  existsb p l = false <-> Forall (fun a => p a = false) l.
Proof.
  induction l as [|a l IH]; simpl.
  - split; [constructor|done].
  - rewrite orb_false_iff, IH, Forall_cons. done.
Qed.

Lemma viewError_accepted (v : View) : viewError v = None <-> accepted v.
Proof.
  induction v as [p m vs IH] using View_induction.
  cbn [viewError]. fold firstError.
  rewrite length_fmap, <- fmap_take, <- fmap_drop, !existsb_fmap.
  assert (Hfirst : firstError vs = None <-> Forall accepted vs).
  { induction vs as [|v vs IHvs]; [by split; [constructor|]|].
    apply Forall_cons in IH as [IHv IH]. simpl.
    rewrite Forall_cons, <- IHv, <- (IHvs IH).
    destruct (viewError v); split; try done; by intros []. }
  split.
  - intros H.
    destruct (length vs =? 1) eqn:E1; [done|].
    destruct (existsb _ (take _ _)) eqn:E2; [done|].
    destruct (existsb _ (drop _ _)) eqn:E3; [done|].
    constructor.
    + by apply Nat.eqb_neq.
    + by apply existsb_false in E2.
    + intros c Hc. rewrite drop_last, Hc in E3. simpl in E3.
      rewrite orb_false_r in E3. by apply negb_false_iff.
    + by apply Hfirst.
  - inversion 1 as [? ? ? H1 H2 H3 H4]; subst.
    apply Nat.eqb_neq in H1. rewrite H1.
    apply existsb_false in H2. rewrite H2.
    replace (existsb _ (drop _ _)) with false; [by apply Hfirst|].
    symmetry. rewrite drop_last. destruct (last vs) as [c|]; [|done].
    simpl. by rewrite (H3 c eq_refl).
Qed.

(** * Loading a file *)

Lemma loadChildren_height (n : ref) (l : list Json) :
  Forall growsByHeight l ->
  forall (s s' : store) (acc cs : list ref),
    foldlM (LayoutNode.loadChild LayoutNode.fromJSON n) (s, acc) l = Some (s', cs) ->
    length (objs s) <= length (objs s')
    /\ max_list (vheight <$> (decode <$> l)) + length (objs s) <= length (objs s').
Proof.
  induction 1 as [|j l Hj _ IH]; intros s s' acc cs Hrun.
  { injection Hrun as <- <-. simpl. lia. }
  cbn [foldlM] in Hrun. unfold LayoutNode.loadChild at 2 in Hrun.
  rewrite new_leaf in Hrun. cbn [mbind option_bind] in Hrun.
  match type of Hrun with
  | context [LayoutNode.fromJSON j ?c ?s2] =>
      destruct (LayoutNode.fromJSON j c s2) as [s3|] eqn:Hload;
      [|discriminate Hrun]
  end.
  cbn [mbind option_bind] in Hrun.
  apply Hj in Hload. rewrite updObj_length in Hload. cbn [objs] in Hload.
  rewrite length_app in Hload. simpl in Hload.
  apply IH in Hrun as [H1 H2].
  rewrite !fmap_cons.
  change (max_list (?a :: ?l)) with (a `max` max_list l). lia.
Qed.

Lemma fromJSON_height (j : Json) : growsByHeight j.
Proof.
  induction j as [jc jp jm IH] using Json_induction.
  intros s s' n Hrun. cbn [LayoutNode.fromJSON decode vheight] in *.
  set (sb := match jm with
             | Some m => updObj (set_margin m) n
                           (updObj (set_percentage (LayoutNode.percentageOfJson jp)) n s)
             | None => updObj (set_percentage (LayoutNode.percentageOfJson jp)) n s
             end) in *.
  assert (Hlen : length (objs sb) = length (objs s)).
  { unfold sb. destruct jm; by rewrite !updObj_length. }
  destruct jc as [[|j1 l]|].
  { injection Hrun as <-. simpl. lia. }
  2: { injection Hrun as <-. simpl. lia. }
  destruct (foldlM _ _ _) as [[s1 cs]|] eqn:Hfold; [|discriminate Hrun].
  cbn [mbind option_bind allocArr] in Hrun. injection Hrun as <-.
  apply (loadChildren_height n (j1 :: l) IH) in Hfold as [_ H].
  rewrite updObj_length. cbn [objs]. lia.
Qed.

Lemma loadLayoutFromFile_spec (j : Json) (s : store) :
  exists s',
    LayoutIO.loadLayoutFromFile (Some j) s
    = Some (s', match viewError (decode j) with
                | None => Some (length (objs s))
                | Some _ => None
                end)
    /\ hasView (S (length (objs s))) s' (length (objs s)) (decode j)
    /\ (forall r, r < length (objs s) -> objs s' !! r = objs s !! r)
    /\ (forall a, a < length (arrs s) -> arrs s' !! a = arrs s !! a)
    /\ vheight (decode j) <= budget s'.
Proof.
  unfold LayoutIO.loadLayoutFromFile. rewrite new_leaf.
  cbn [mbind option_bind].
  set (n := length (objs s)).
  set (s1 := mkStore (objs s ++ [LayoutNode.fresh JUndefined (length (arrs s))])
                     (arrs s ++ [[]])).
  assert (Hn : objs s1 !! n = Some (LayoutNode.fresh JUndefined (length (arrs s)))).
  { unfold s1, n. cbn [objs]. by rewrite list_lookup_middle. }
  assert (Hlen1 : length (objs s1) = S n).
  { unfold s1, n. cbn [objs]. rewrite length_app. simpl. lia. }
  destruct (fromJSON_loads j s1 n _ Hn) as (s2 & Hrun & Hview & Hl & Ha & Ho & Har).
  { unfold s1. cbn. by rewrite list_lookup_middle. }
  { reflexivity. }
  rewrite Hrun. cbn [mbind option_bind].
  pose proof (fromJSON_height j s1 s2 n Hrun) as Hh.
  assert (Hb : vheight (decode j) <= budget s2) by (unfold budget; lia).
  unfold LayoutNode.getIntegrityError.
  rewrite (getIntegrityError_view _ _ _ _ Hview _ Hb).
  cbn [mbind option_bind].
  exists s2. split; [by destruct (viewError (decode j))|].
  rewrite Hlen1 in Hview. split; [exact Hview|].
  split; [|split; [|exact Hb]].
  - intros r Hr. rewrite Ho by (unfold n in *; lia).
    unfold s1. cbn [objs]. by rewrite lookup_app_l.
  - intros a Hlt. rewrite Har.
    + unfold s1. cbn [arrs]. by rewrite lookup_app_l.
    + unfold s1. cbn [arrs]. rewrite length_app. simpl. lia.
Qed.

Lemma decode_encode_eq (p : jsval) (m : num) (vs : list View) :
  decode (encode (V p m vs))
  = V (LayoutNode.percentageOfJson (LayoutNode.jsonOfPercentage p))
      (default (Num.ofZ 0) (LayoutNode.jsonOfMargin m))
      ((fun v => decode (encode v)) <$> vs).
Proof.
  cbn [encode decode]. f_equal. destruct vs as [|v vs]; [done|].
  by rewrite <- list_fmap_compose.
Qed.

Lemma badPct_cases (p : jsval) :
  badPct p = false <->
  p = JUndefined \/ p = JNum NaN
  \/ exists q, p = JNum (Fin q) /\ (-1 <= q)%Q /\ (q <= 1)%Q.
Proof.
  unfold badPct. destruct p as [| |[| |q|]]; cbn; split;
    try (intros; discriminate); try (intros [|[|(q' & ? & _)]]; discriminate);
    try tauto.
  - intros H. apply orb_false_iff in H as [H1 H2].
    right. right. exists q. split; [done|].
    apply Qltb_false in H1, H2. done.
  - intros [|[|(q' & [= <-] & H1 & H2)]]; try discriminate.
    apply orb_false_iff. unfold Num.gtb. cbn. by rewrite !Qltb_false.
Qed.

Lemma badPct_wireSafe (p : jsval) : badPct p = false -> wireSafe p.
Proof.
  intros [->|[->|(q & -> & H1 & H2)]]%badPct_cases; [done|done|].
  apply wireSafe_unit. by exists q.
Qed.

Lemma accepted_inv (p : jsval) (m : num) (vs : list View) :
  accepted (V p m vs) ->
  length vs <> 1
  /\ Forall (fun c => badPct (viewPercentage c) = false) (take (length vs - 1) vs)
  /\ (forall c, last vs = Some c ->
                LayoutNode.isLastNodePercentage (viewPercentage c) = true)
  /\ Forall accepted vs.
Proof. by inversion 1. Qed.

Lemma viewPercentage_decode_encode (v : View) :
  viewPercentage (decode (encode v))
  = LayoutNode.percentageOfJson (LayoutNode.jsonOfPercentage (viewPercentage v)).
Proof. destruct v as [p m vs]. by rewrite decode_encode_eq. Qed.

(** What the check lets pass, it lets pass after a round trip through
    the file. *)
Lemma accepted_decode_encode (v : View) :
  accepted v -> accepted (decode (encode v)).
Proof.
  induction v as [p m vs IH] using View_induction.
  intros (Hlen & Hbad & Hlast & Hall)%accepted_inv.
  rewrite decode_encode_eq. constructor.
  - by rewrite length_fmap.
  - rewrite length_fmap, <- fmap_take. apply Forall_fmap.
    eapply Forall_impl; [exact Hbad|]. intros c Hc. simpl.
    rewrite viewPercentage_decode_encode.
    by rewrite (badPct_wireSafe _ Hc).
  - intros c Hc. rewrite fmap_last in Hc.
    destruct (last vs) as [c0|]; [|done]. injection Hc as <-.
    rewrite viewPercentage_decode_encode.
    pose proof (Hlast c0 eq_refl) as Hl.
    by rewrite (wireSafe_sentinel _ Hl).
  - apply Forall_fmap. rewrite Forall_forall in IH, Hall |- *.
    intros c Hc. apply IH; [done|by apply Hall].
Qed.

Lemma jsonOfPercentage_stable (p : jsval) :
  let P := LayoutNode.percentageOfJson p in
  LayoutNode.jsonOfPercentage
    (LayoutNode.percentageOfJson (LayoutNode.jsonOfPercentage P))
  = LayoutNode.jsonOfPercentage P.
Proof.
  cbn zeta. unfold LayoutNode.percentageOfJson at 2 3.
  destruct (strictEqNum p LastNodeXPercentageJson) eqn:E1; [reflexivity|].
  destruct (strictEqNum p LastNodeYPercentageJson) eqn:E2; [reflexivity|].
  destruct p as [| |[| |q|]]; try reflexivity.
  unfold LayoutNode.jsonOfPercentage. cbn.
  unfold LayoutNode.percentageOfJson. by rewrite E1, E2.
Qed.

Lemma jsonOfMargin_stable (m : num) :
  LayoutNode.jsonOfMargin (default (Num.ofZ 0) (LayoutNode.jsonOfMargin m))
  = LayoutNode.jsonOfMargin m.
Proof.
  unfold LayoutNode.jsonOfMargin.
  destruct (negb (Num.eqb m (Num.ofZ 0))) eqn:E; simpl; [by rewrite E|done].
Qed.

(** A file that is loaded and written again is written the same way
    when that is done once more. *)
Lemma encode_decode_stable (j : Json) :
  encode (decode (encode (decode j))) = encode (decode j).
Proof.
  induction j as [jc jp jm IH] using Json_induction.
  cbn [decode]. rewrite decode_encode_eq. cbn [encode].
  rewrite jsonOfPercentage_stable, jsonOfMargin_stable. f_equal.
  destruct jc as [l|]; [|done].
  induction l as [|j l IHl]; [done|].
  apply Forall_cons in IH as [IHj IH]. specialize (IHl IH).
  rewrite !fmap_cons. rewrite IHj. f_equal.
  destruct l as [|j' l]; [done|].
  rewrite !fmap_cons in IHl |- *. by injection IHl as -> ->.
Qed.

(** * clone *)

Lemma snapshot_inv (lo la : nat) (s : store) (r : ref) (p : jsval) (m : num)
  (vs : list View) :
  snapshot lo la s r (V p m vs) ->
  exists o cs,
    objs s !! r = Some o /\ arrs s !! children o = Some cs
    /\ la <= children o
    /\ Forall (fun c => lo <= c /\ c < r) cs
    /\ Forall2 (snapshot lo la s) cs vs
    /\ p = percentage o /\ m = margin o.
Proof. inversion 1; subst. by eexists _, _. Qed.

Lemma snapshot_hasView (lo la : nat) (s : store) (v : View) :
  forall r, snapshot lo la s r v -> hasView lo s r v.
Proof.
  induction v as [p m vs IH] using View_induction.
  intros r (o & cs & Ho & Hcs & _ & Hb & Hvs & -> & ->)%snapshot_inv.
  apply (hasView_node lo s r o cs vs); try done.
  - eapply Forall_impl; [exact Hb|]. by intros c [? _].
  - clear Hcs Hb. induction Hvs as [|c v cs vs Hc _ IHvs]; [constructor|].
    apply Forall_cons in IH as [IHv IH]. constructor; [by apply IHv|by apply IHvs].
Qed.

Lemma snapshot_ext (lo la : nat) (s s' : store) (v : View) :
  forall r,
    (forall x, lo <= x -> x <= r ->
               viewFields <$> objs s' !! x = viewFields <$> objs s !! x) ->
    (forall a, la <= a -> a < length (arrs s) -> arrs s' !! a = arrs s !! a) ->
    lo <= r ->
    snapshot lo la s r v -> snapshot lo la s' r v.
Proof.
  induction v as [p m vs IH] using View_induction.
  intros r Hobj Harr Hlo (o & cs & Ho & Hcs & Hla & Hb & Hvs & -> & ->)%snapshot_inv.
  pose proof (Hobj r Hlo (Nat.le_refl r)) as Hr. rewrite Ho in Hr.
  destruct (objs s' !! r) as [o'|] eqn:Ho'; [|done].
  injection Hr as Hp Hm Hc. rewrite <- Hp, <- Hm.
  apply (snapshot_node lo la s' r o' cs vs); try done.
  - rewrite Hc, Harr; [done|done|]. by eapply lookup_lt_Some.
  - by rewrite Hc.
  - clear Hcs. induction Hvs as [|c v cs vs Hcv _ IHvs]; [constructor|].
    apply Forall_cons in IH as [IHv IH]. apply Forall_cons in Hb as [[Hc1 Hc2] Hb].
    constructor; [|by apply IHvs].
    apply IHv; [|done..]. intros x Hx1 Hx2. apply Hobj; [done|lia].
Qed.

Lemma snapshot_mono (lo lo' la la' : nat) (s : store) (v : View) :
  lo' <= lo -> la' <= la ->
  forall r, snapshot lo la s r v -> snapshot lo' la' s r v.
Proof.
  intros Hlo Hla. induction v as [p m vs IH] using View_induction.
  intros r (o & cs & Ho & Hcs & Hb1 & Hb & Hvs & -> & ->)%snapshot_inv.
  apply (snapshot_node lo' la' s r o cs vs); try done; [lia| |].
  - eapply Forall_impl; [exact Hb|]. intros c [? ?]. split; [lia|done].
  - clear Hcs Hb. induction Hvs as [|c v cs vs Hcv _ IHvs]; [constructor|].
    apply Forall_cons in IH as [IHv IH]. constructor; [by apply IHv|by apply IHvs].
Qed.

Lemma snapshot_ext_all (lo la : nat) (s s' : store) (cs : list ref)
  (vs : list View) (bound : nat) :
  (forall x, lo <= x -> x < bound ->
             viewFields <$> objs s' !! x = viewFields <$> objs s !! x) ->
  (forall a, la <= a -> a < length (arrs s) -> arrs s' !! a = arrs s !! a) ->
  Forall (fun c => lo <= c /\ c < bound) cs ->
  Forall2 (snapshot lo la s) cs vs -> Forall2 (snapshot lo la s') cs vs.
Proof.
  intros Hobj Harr Hb Hvs.
  induction Hvs as [|c v cs vs Hcv _ IHvs]; [constructor|].
  apply Forall_cons in Hb as [[Hc1 Hc2] Hb].
  constructor; [|by apply IHvs].
  apply (snapshot_ext lo la s s'); try done.
  intros x Hx1 Hx2. apply Hobj; [done|lia].
Qed.

Lemma foldlM_app {A B : Type} (f : A -> B -> option A) (a : A) (l1 l2 : list B) :
  foldlM f a (l1 ++ l2) = foldlM f a l1 ≫= fun a' => foldlM f a' l2.
Proof.
  revert a. induction l1 as [|b l1 IH]; intros a; [done|].
  simpl. destruct (f a b) as [a'|]; [|done]. simpl. apply IH.
Qed.

Lemma setParents_length (this : ref) (cs : list ref) (s : store) :
  length (objs (LayoutNode.setParents this cs s)) = length (objs s).
Proof.
  revert s. induction cs as [|c cs IH]; intros s; [done|].
  unfold LayoutNode.setParents in *. simpl. by rewrite IH, updObj_length.
Qed.

Lemma setParents_viewFields (this : ref) (cs : list ref) (s : store) (x : ref) :
  viewFields <$> objs (LayoutNode.setParents this cs s) !! x
  = viewFields <$> objs s !! x.
Proof.
  rewrite setParents_lookup. destruct (objs s !! x); [|done].
  by case_bool_decide.
Qed.

Lemma cloneChildren_spec (fuel L0 A0 : nat) (vs : list View) :
  Forall clones vs -> Forall (fun v => vheight v <= fuel) vs ->
  forall (s : store) (cs acc : list ref) (avs : list View),
    Forall2 (hasView 0 s) cs vs ->
    L0 <= length (objs s) -> A0 <= length (arrs s) ->
    Forall (fun c => L0 <= c /\ c < length (objs s)) acc ->
    NoDup acc -> lastIsNewest s acc ->
    Forall2 (snapshot L0 A0 s) acc avs ->
    exists s' cl,
      foldlM (fun '(s, acc) child =>
                '(s, c) ← LayoutNode.clone_ fuel child s;
                Some (s, acc ++ [c])) (s, acc) cs = Some (s', cl)
      /\ Forall (fun c => L0 <= c /\ c < length (objs s')) cl
      /\ NoDup cl /\ (cs <> [] -> lastIsNewest s' cl)
      /\ Forall2 (snapshot L0 A0 s') cl (avs ++ (cloneView <$> vs))
      /\ length (objs s) <= length (objs s')
      /\ length (arrs s) <= length (arrs s')
      /\ (forall x, x < length (objs s) -> objs s' !! x = objs s !! x)
      /\ (forall a, a < length (arrs s) -> arrs s' !! a = arrs s !! a).
Proof.
  induction vs as [|v vs IHvs]; intros IH Hfuel s cs acc avs Hcs HL HA Hacc Hnd Hnew Hsnap.
  { apply Forall2_nil_inv_r in Hcs as ->. exists s, acc.
    rewrite app_nil_r. by repeat split. }
  apply Forall2_cons_inv_r in Hcs as (child & cs' & Hchild & Hcs & ->).
  apply Forall_cons in IH as [IHv IH]. apply Forall_cons in Hfuel as [Hfv Hfuel].
  cbn [foldlM].
  destruct (IHv fuel s child Hchild Hfv)
    as (s1 & c & o & o' & Hrun & Ho & Ho' & Hc1 & Hc2 & Ha1 & Hobj1 & Harr1 & Hsn & _).
  rewrite Hrun. cbn [mbind option_bind].
  destruct (IHvs IH Hfuel s1 cs' (acc ++ [c]) (avs ++ [cloneView v]))
    as (s' & cl & Hfold & Hcl & Hndcl & Hnewcl & Hsnapcl & Hl' & Hla' & Hobj' & Harr').
  { apply (hasView_frame_all 0 s s1); try done.
    - intros x _ Hx. by apply Hobj1.
    - apply Forall_forall. intros; lia. }
  { lia. }
  { lia. }
  { apply Forall_app. split.
    - eapply Forall_impl; [exact Hacc|]. intros x [? ?]. simpl. lia.
    - apply Forall_singleton. lia. }
  { apply NoDup_app. split; [done|]. split; [|apply NoDup_singleton].
    intros x Hx ->%list_elem_of_singleton.
    rewrite Forall_forall in Hacc. apply Hacc in Hx. lia. }
  { intros x. rewrite last_snoc. intros [= <-]. done. }
  { apply Forall2_app.
    - apply (snapshot_ext_all L0 A0 s s1 acc avs (length (objs s))); try done.
      + intros x _ Hx. by rewrite Hobj1.
      + intros a _ Ha. by apply Harr1.
    - constructor; [|constructor].
      apply (snapshot_mono (length (objs s)) L0 (length (arrs s)) A0); done. }
  exists s', cl. split; [exact Hfold|]. split; [exact Hcl|].
  split; [exact Hndcl|]. split.
  { intros _. destruct cs' as [|c' cs'']; [|by apply Hnewcl].
    apply Forall2_nil_inv_l in Hcs as ->. simpl in Hfold.
    injection Hfold as <- <-. intros x. rewrite last_snoc. by intros [= <-]. }
  split.
  { rewrite fmap_cons. by rewrite <- app_assoc in Hsnapcl. }
  split; [lia|]. split; [lia|]. split.
  - intros x Hx. rewrite Hobj' by lia. by apply Hobj1.
  - intros a Ha. rewrite Harr' by lia. by apply Harr1.
Qed.

Lemma alter_last {A : Type} (f : A -> A) (l : list A) (a : A) :
  alter f (length (l ++ [a]) - 1) (l ++ [a]) = l ++ [f a].
Proof.
  rewrite length_app. simpl. replace (length l + 1 - 1) with (length l + 0) by lia.
  by rewrite alter_app_r.
Qed.

Lemma snapshot_filler (lo la : nat) (s : store) (init : list ref) (cl : ref)
  (vsi : list View) (vl : View) (q : jsval) :
  Forall2 (snapshot lo la s) (init ++ [cl]) (vsi ++ [vl]) ->
  Forall (fun c => lo <= c /\ c < cl) init -> lo <= cl ->
  Forall2 (snapshot lo la (updObj (set_percentage q) cl s))
          (init ++ [cl]) (vsi ++ [setViewPercentage q vl]).
Proof.
  intros H Hinit Hlo.
  apply Forall2_app_inv in H as [Hi Hl].
  2:{ apply Forall2_length in H. rewrite !length_app in H. simpl in H. lia. }
  apply Forall2_app.
  - apply (snapshot_ext_all lo la s _ init vsi cl); try done.
    intros x _ Hx. by rewrite updObj_lookup_ne by lia.
  - apply Forall2_cons_1 in Hl as [Hl _]. constructor; [|constructor].
    destruct vl as [p m vs].
    apply snapshot_inv in Hl as (o & cs & Ho & Hcs & Hla & Hb & Hvs & -> & ->).
    cbn [setViewPercentage].
    apply (snapshot_node lo la _ cl (set_percentage q o) cs vs); try done.
    + by rewrite updObj_lookup_eq, Ho.
    + apply (snapshot_ext_all lo la s _ cs vs cl); try done.
      intros x _ Hx. by rewrite updObj_lookup_ne by lia.
Qed.

Lemma last_app_singleton_inv {A : Type} (l : list A) (a : A) :
  last l = Some a -> exists l0, l = l0 ++ [a].
Proof.
  destruct l as [|b l] using rev_ind; [done|].
  rewrite last_snoc. intros [= ->]. by exists l.
Qed.

Lemma clone_spec (v : View) : clones v.
Proof.
  induction v as [p m vs IH] using View_induction.
  intros [|fuel] s r Hview Hfuel; [simpl in Hfuel; lia|].
  apply hasView_inv in Hview as (o & cs & Ho & Hcs & _ & Hvs & -> & ->).
  simpl in Hfuel. apply le_S_n in Hfuel.
  cbn [LayoutNode.clone_]. rewrite Ho. cbn [mbind option_bind].
  rewrite Hcs. cbn [mbind option_bind].
  set (L0 := length (objs s)). set (A0 := length (arrs s)).
  destruct (cloneChildren_spec fuel L0 A0 vs IH) with (s := s) (cs := cs)
    (acc := @nil ref) (avs := @nil View)
    as (s1 & cl & Hfold & Hcl & Hndcl & Hnewcl & Hsnap & Hl1 & Ha1 & Hobj1 & Harr1);
    try done.
  { apply Forall_forall. intros w Hw.
    pose proof (max_list_elem_of_le (vheight w) (vheight <$> vs)
                  (list_elem_of_fmap_2 _ _ _ Hw)). lia. }
  { constructor. }
  rewrite Hfold. cbn [mbind option_bind app] in *.
  cbn [allocArr]. unfold LayoutNode.new. cbn [allocObj].
  cbn [arrs objs mbind option_bind].
  rewrite list_lookup_middle by done. cbn [mbind option_bind].
  set (arr := length (arrs s1)). set (c := length (objs s1)).
  set (s2 := LayoutNode.setParents c cl
               {| objs := objs s1 ++ [LayoutNode.fresh (percentage o) arr];
                  arrs := arrs s1 ++ [cl] |}).
  assert (Hlen2 : length (objs s2) = S c).
  { unfold s2. rewrite setParents_length. cbn [objs]. rewrite length_app.
    simpl. unfold c. lia. }
  assert (Harrs2 : arrs s2 = arrs s1 ++ [cl]).
  { unfold s2. by rewrite setParents_arrs. }
  assert (Hvf2 : forall x, x < c ->
                   viewFields <$> objs s2 !! x = viewFields <$> objs s1 !! x).
  { intros x Hx. unfold s2. rewrite setParents_viewFields. cbn [objs].
    by rewrite lookup_app_l. }
  assert (Hc2 : objs s2 !! c = Some (LayoutNode.fresh (percentage o) arr)).
  { unfold s2. rewrite setParents_lookup. cbn [objs].
    rewrite list_lookup_middle by done.
    rewrite bool_decide_eq_false_2; [done|].
    intros Hin. rewrite Forall_forall in Hcl. apply Hcl in Hin. unfold c in Hin. lia. }
  assert (Hold2 : forall x, x < L0 -> objs s2 !! x = objs s !! x).
  { intros x Hx. unfold s2. rewrite setParents_lookup. cbn [objs].
    rewrite lookup_app_l by (unfold L0 in *; lia).
    rewrite bool_decide_eq_false_2; [|].
    - rewrite Hobj1 by done. by destruct (objs s !! x).
    - intros Hin. rewrite Forall_forall in Hcl. apply Hcl in Hin. lia. }
  assert (Hsnap2 : Forall2 (snapshot L0 A0 s2) cl (cloneView <$> vs)).
  { apply (snapshot_ext_all L0 A0 s1 s2 cl _ c); try done.
    - intros x _ Hx. by apply Hvf2.
    - intros a _ Ha. rewrite Harrs2. by rewrite lookup_app_l. }
  (* the store after the constructor, and the structures of the children *)
  assert (Hctor : exists s3,
             (if 2 <=? length cl
              then first ← head cl;
                   fo ← objs s2 !! first;
                   lastChild ← last cl;
                   Some (updObj (set_percentage
                                   (JNum (if LayoutNode.isAxisX (LayoutNode.axis fo)
                                          then LastNodeXPercentage
                                          else LastNodeYPercentage)))
                                lastChild s2, c)
              else Some (s2, c)) = Some (s3, c)
             /\ length (objs s3) = S c /\ arrs s3 = arrs s2
             /\ objs s3 !! c = objs s2 !! c
             /\ (forall x, x < L0 -> objs s3 !! x = objs s2 !! x)
             /\ Forall2 (snapshot L0 A0 s3) cl (withFiller (cloneView <$> vs))).
  { pose proof (Forall2_length _ _ _ Hsnap2) as Hlen. rewrite length_fmap in Hlen.
    unfold withFiller. rewrite length_fmap, <- Hlen.
    destruct (2 <=? length cl) eqn:E2.
    2:{ exists s2. destruct (head (cloneView <$> vs)); by repeat split. }
    apply Nat.leb_le in E2.
    destruct cl as [|c0 cl0]; [simpl in E2; lia|].
    destruct vs as [|v0 vs0]; [discriminate Hlen|].
    cbn [head fmap list_fmap mbind option_bind].
    pose proof Hsnap2 as Hsnap2'.
    rewrite fmap_cons in Hsnap2'.
    apply Forall2_cons_1 in Hsnap2' as [H0 _].
    destruct (cloneView v0) as [p0 m0 ws0] eqn:Ev0.
    apply snapshot_inv in H0 as (fo & fcs & Hfo & _ & _ & _ & _ & -> & _).
    rewrite Hfo. cbn [mbind option_bind].
    destruct (last (c0 :: cl0)) as [lc|] eqn:Hlast;
      [|apply last_None in Hlast; discriminate Hlast].
    cbn [mbind option_bind].
    eexists. split; [reflexivity|].
    assert (Hlc : S lc = length (objs s1)) by (apply Hnewcl; [by destruct cs|done]).
    destruct (last_app_singleton_inv _ _ Hlast) as [init Hinit].
    assert (Hlcb : L0 <= lc).
    { rewrite Forall_forall in Hcl. apply (Hcl lc).
      rewrite Hinit. apply elem_of_app. right. by apply list_elem_of_singleton. }
    split; [by rewrite updObj_length|]. split; [done|].
    split; [apply updObj_lookup_ne; unfold c; lia|].
    split.
    { intros x Hx. apply updObj_lookup_ne. lia. }
    cbn [viewPercentage].
    replace (JNum (if LayoutNode.isAxisX (LayoutNode.axis fo)
                   then LastNodeXPercentage else LastNodeYPercentage))
      with (JNum (LastNodePercentages (axisOf (percentage fo)))).
    2:{ rewrite axis_axisOf. by destruct (axisOf (percentage fo)). }
    assert (Hvl : exists vsi vl, cloneView <$> v0 :: vs0 = vsi ++ [vl]).
    { destruct (cloneView <$> v0 :: vs0) as [|w ws] eqn:E using rev_ind;
        [discriminate E|]. by exists ws, w. }
    destruct Hvl as (vsi & vl & Hvl).
    rewrite <- Ev0. change (cloneView v0 :: (cloneView <$> vs0))
      with (cloneView <$> v0 :: vs0).
    replace (length (c0 :: cl0) - 1) with (length (cloneView <$> v0 :: vs0) - 1)
      by (rewrite length_fmap; lia).
    rewrite Hvl, alter_last. rewrite Hinit.
    apply snapshot_filler.
    - rewrite <- Hinit, <- Hvl. exact Hsnap2.
    - rewrite Hinit in Hcl, Hndcl.
      apply Forall_app in Hcl as [Hcl _].
      apply NoDup_app in Hndcl as (_ & Hdis & _).
      apply Forall_forall. intros x Hx.
      rewrite Forall_forall in Hcl. pose proof (Hcl x Hx) as [? ?].
      split; [done|].
      assert (x <> lc).
      { intros ->. apply (Hdis lc Hx). by apply list_elem_of_singleton. }
      lia.
    - exact Hlcb. }
  destruct Hctor as (s3 & -> & Hlen3 & Harrs3 & Hc3 & Hold3 & Hsnap3).
  cbn [mbind option_bind].
  assert (Hr : r < L0) by by eapply lookup_lt_Some.
  rewrite Hold3, Hold2, Ho by done. cbn [mbind option_bind].
  set (f := fun c0 : obj => _).
  eexists _, c, o, (f (LayoutNode.fresh (percentage o) arr)).
  split; [reflexivity|]. split; [done|].
  split; [by rewrite updObj_lookup_eq, Hc3, Hc2|].
  split; [unfold c, L0; lia|].
  split; [by rewrite updObj_length|].
  split; [rewrite updObj_arrs, Harrs3, Harrs2, length_app; simpl; lia|].
  split.
  { intros x Hx. rewrite updObj_lookup_ne by (unfold c; lia).
    by rewrite Hold3, Hold2. }
  split.
  { intros a Ha. rewrite updObj_arrs, Harrs3, Harrs2.
    rewrite lookup_app_l by lia. by apply Harr1. }
  split; [|done].
  cbn [cloneView].
  apply (snapshot_node L0 A0 _ c (f (LayoutNode.fresh (percentage o) arr)) cl).
  - by rewrite updObj_lookup_eq, Hc3, Hc2.
  - rewrite updObj_arrs, Harrs3, Harrs2. cbn. by rewrite list_lookup_middle.
  - cbn. unfold arr. lia.
  - eapply Forall_impl; [exact Hcl|]. intros x [? ?]. done.
  - apply (snapshot_ext_all L0 A0 s3 _ cl _ c); try done.
    intros x _ Hx. by rewrite updObj_lookup_ne by lia.
Qed.

Lemma withFiller_cases (vs : list View) :
  withFiller vs = vs
  \/ exists init vl first,
       vs = init ++ [vl] /\ 2 <= length vs /\ head vs = Some first
       /\ withFiller vs
          = init ++ [setViewPercentage
                       (JNum (LastNodePercentages (axisOf (viewPercentage first))))
                       vl].
Proof.
  unfold withFiller. destruct (head vs) as [first|] eqn:Hhead; [|by left].
  destruct (2 <=? length vs) eqn:E; [|by left].
  apply Nat.leb_le in E. right.
  destruct vs as [|vl init _] using rev_ind; [done|].
  exists init, vl, first. by rewrite alter_last.
Qed.

Lemma vheight_setViewPercentage (q : jsval) (v : View) :
  vheight (setViewPercentage q v) = vheight v.
Proof. by destruct v. Qed.

Lemma vheight_withFiller (vs : list View) :
  vheight <$> withFiller vs = vheight <$> vs.
Proof.
  destruct (withFiller_cases vs) as [->|(init & vl & first & -> & _ & _ & ->)];
    [done|].
  by rewrite !fmap_app, !fmap_cons, vheight_setViewPercentage.
Qed.

Lemma vheight_cloneView (v : View) : vheight (cloneView v) = vheight v.
Proof.
  induction v as [p m vs IH] using View_induction.
  cbn [cloneView vheight]. rewrite vheight_withFiller. f_equal. f_equal.
  rewrite <- list_fmap_compose. apply Forall_fmap_ext_1.
  eapply Forall_impl; [exact IH|]. intros v Hv. exact Hv.
Qed.

Lemma fillersMatch_inv (p : jsval) (m : num) (vs : list View) :
  fillersMatch (V p m vs) ->
  (forall first lastChild,
      2 <= length vs -> head vs = Some first -> last vs = Some lastChild ->
      viewPercentage lastChild
      = JNum (LastNodePercentages (axisOf (viewPercentage first))))
  /\ Forall fillersMatch vs.
Proof. by inversion 1. Qed.

(** The clone of a structure whose fillers match is the structure. *)
Lemma cloneView_fillersMatch (v : View) : fillersMatch v -> cloneView v = v.
Proof.
  induction v as [p m vs IH] using View_induction.
  intros [Hlast Hall]%fillersMatch_inv. cbn [cloneView]. f_equal.
  assert (Hvs : cloneView <$> vs = vs).
  { rewrite <- (list_fmap_id vs) at 2. apply Forall_fmap_ext_1.
    rewrite Forall_forall in IH, Hall |- *. intros v Hv. by apply IH, Hall. }
  rewrite Hvs.
  destruct (withFiller_cases vs) as [->|(init & vl & first & E & Hlen & Hhead & ->)];
    [done|].
  rewrite E. do 2 f_equal.
  rewrite <- (Hlast first vl Hlen Hhead) by (rewrite E; apply last_snoc).
  by destruct vl.
Qed.

(** * The structure of a tree *)

Lemma hasView_fun (lo lo' : nat) (s : store) (v : View) :
  forall r v', hasView lo s r v -> hasView lo' s r v' -> v = v'.
Proof.
  induction v as [p m vs IH] using View_induction.
  intros r [p' m' vs'] (o & cs & Ho & Hcs & _ & Hvs & -> & ->)%hasView_inv
    (o' & cs' & Ho' & Hcs' & _ & Hvs' & -> & ->)%hasView_inv.
  rewrite Ho in Ho'. injection Ho' as <-. rewrite Hcs in Hcs'. injection Hcs' as <-.
  f_equal. clear Hcs Ho. revert vs' Hvs'.
  induction Hvs as [|c v cs vs Hc _ IHvs]; intros vs' Hvs'.
  { by apply Forall2_nil_inv_l in Hvs' as ->. }
  apply Forall2_cons_inv_l in Hvs' as (v' & vs'' & Hc' & Hvs' & ->).
  apply Forall_cons in IH as [IHv IH].
  f_equal; [by apply (IHv c)|by apply IHvs].
Qed.

Lemma hasView_budget (s : store) (t : Shape) (v : View) :
  shaped s t -> NoDup (nodes t) -> hasView 0 s (root t) v ->
  vheight v <= budget s.
Proof.
  intros Hs Hnd Hv. destruct (shaped_hasView s t Hs) as (v' & Hv' & Hh).
  rewrite (hasView_fun 0 0 s v (root t) v' Hv Hv'), Hh.
  by apply height_budget.
Qed.

Lemma indexOf_split (node : ref) (cs : list ref) (i : nat) :
  indexOf node cs = Some i ->
  exists l1 l2,
    cs = l1 ++ (node :: l2) /\ (node ∉ l1) /\ spliceOut i cs = l1 ++ l2.
Proof.
  intros (a & Ha & Heq & Hbefore)%findIndex_Some.
  apply Nat.eqb_eq in Heq as <-.
  exists (take i cs), (drop (S i) cs). split; [|split; [|done]].
  - by rewrite take_drop_middle.
  - intros (j & Hj)%list_elem_of_lookup.
    pose proof (lookup_lt_Some _ _ _ Hj) as Hlt. rewrite length_take in Hlt.
    rewrite lookup_take_lt in Hj by lia.
    specialize (Hbefore j node ltac:(lia) Hj). by rewrite Nat.eqb_refl in Hbefore.
Qed.

Lemma detach_spec (s : store) (p node : ref) (cs : list ref) :
  kids s p = Some cs -> node ∈ cs ->
  exists s' l1 l2,
    detach p node s = Some s'
    /\ cs = l1 ++ (node :: l2) /\ (node ∉ l1)
    /\ kids s' p = Some (if length cs =? 2 then [] else l1 ++ l2)
    /\ (forall r, r <> p -> objs s' !! r = objs s !! r)
    /\ (forall r, percentage <$> objs s' !! r = percentage <$> objs s !! r)
    /\ (forall r, parent <$> objs s' !! r = parent <$> objs s !! r)
    /\ (forall a, a < length (arrs s) -> length cs = 2 ->
                  arrs s' !! a = arrs s !! a).
Proof.
  intros (o & Ho & Hcs)%kids_Some Hin.
  destruct (indexOf node cs) as [i|] eqn:Hi.
  2:{ by apply indexOf_elem_of in Hin. }
  destruct (indexOf_split _ _ _ Hi) as (l1 & l2 & Hsplit & Hl1 & Hout).
  unfold detach. rewrite Ho. cbn [mbind option_bind]. rewrite Hcs.
  cbn [mbind option_bind]. rewrite Hi. cbn [mbind option_bind].
  destruct (length cs =? 2) eqn:E.
  - cbn [allocArr]. eexists _, l1, l2. split; [reflexivity|].
    split; [done|]. split; [done|]. split.
    { unfold kids. rewrite updObj_lookup_eq. cbn [objs]. rewrite Ho.
      cbn. by rewrite list_lookup_middle. }
    split; [intros r Hr; by rewrite updObj_lookup_ne|].
    split; [|split].
    + intros r. rewrite updObj_lookup. cbn [objs]. case_decide; [subst r|done].
      by rewrite Ho.
    + intros r. rewrite updObj_lookup. cbn [objs]. case_decide; [subst r|done].
      by rewrite Ho.
    + intros a Ha _. rewrite updObj_arrs. cbn [arrs]. by rewrite lookup_app_l.
  - eexists _, l1, l2. split; [reflexivity|].
    split; [done|]. split; [done|]. split.
    { unfold kids. rewrite setArr_objs, Ho. cbn.
      rewrite list_lookup_insert_eq; [by rewrite Hout|by eapply lookup_lt_Some]. }
    split; [done|]. split; [done|]. split; [done|].
    intros a _ Hlen. apply Nat.eqb_neq in E. done.
Qed.

(** * insertChild where [findIndex] finds nothing *)

Lemma findIndex_None {A : Type} (p : A -> bool) (l : list A) :
  Forall (fun a => p a = false) l -> findIndex p l = None.
Proof.
  induction 1 as [|a l Ha _ IH]; [done|]. simpl. by rewrite Ha, IH.
Qed.

Lemma strictEq_sentinel (v : jsval) :
  strictEqNum v LastNodeXPercentage || strictEqNum v LastNodeYPercentage
  = LayoutNode.isLastNodePercentage v.
Proof. by destruct v as [| |[]]. Qed.

(** * Operations *)

Lemma find_unique {A : Type} (p : A -> bool) (l : list A) (a : A) :
  a ∈ l -> p a = true -> (forall b, b ∈ l -> p b = true -> b = a) ->
  find p l = Some a.
Proof.
  intros Hin Hp Huniq. destruct (find p l) as [b|] eqn:E.
  - apply find_some in E as [Hb%list_elem_of_In Hpb]. f_equal. by apply Huniq.
  - apply list_elem_of_In in Hin. by rewrite (find_none _ _ E _ Hin) in Hp.
Qed.

Lemma shaped_applied (func : obj -> obj) (ns : list ref) (s s' : store) (t : Shape) :
  keepsChildren func -> applied func ns s s' -> shaped s t -> shaped s' t.
Proof.
  intros Hk Hap. apply shaped_kids_ext. intros r _. by eapply applied_kids.
Qed.

Lemma shaped_updObj (f : obj -> obj) (r : ref) (s : store) (t : Shape) :
  keepsChildren f -> shaped s t -> shaped (updObj f r s) t.
Proof. intros Hk. apply (shaped_applied f [r]); [done|apply applied_one]. Qed.


(** * The rectangles of two laid out stores *)


(** [laidOut] reads the rectangles and the percentages only. *)
Lemma laidOut_ext (s s' : store) (D : Rect.t) (t : Shape) :
  (forall n, n ∈ nodes t ->
     exists o o', objs s !! n = Some o /\ objs s' !! n = Some o'
                  /\ rect o' = rect o /\ percentage o' = percentage o) ->
  laidOut s D t -> laidOut s' D t.
Proof.
  induction t as [r l IH] using Shape_induction.
  intros Hsame (o & os & Ho & Hos & Hr & Hl)%laidOut_inv.
  destruct (Hsame r (list_elem_of_here _ _)) as (o0 & o' & Ho0 & Ho' & Hrect & _).
  rewrite Ho in Ho0. injection Ho0 as <-.
  assert (Hos' : exists os', objects s' (root <$> l) = Some os'
                             /\ rect <$> os' = rect <$> os
                             /\ percentage <$> os' = percentage <$> os).
  { assert (Hsub : forall c, c ∈ root <$> l ->
               exists o o', objs s !! c = Some o /\ objs s' !! c = Some o'
                            /\ rect o' = rect o /\ percentage o' = percentage o).
    { intros c (t & -> & Ht)%list_elem_of_fmap. apply Hsame.
      eapply nodes_sub; [done|apply nodes_root]. }
    clear -Hos Hsub. revert os Hos.
    induction (root <$> l) as [|c cs IHcs]; intros os Hos%objects_Forall2.
    { inversion Hos. by exists []. }
    inversion Hos as [|? oc ? os0 Hc Hcs]; subst.
    destruct (Hsub c (list_elem_of_here _ _)) as (oc0 & oc' & H0 & H1 & H2 & H3).
    rewrite Hc in H0. injection H0 as <-.
    destruct (IHcs) with (os := os0) as (os' & Hos' & Hr' & Hp').
    { intros c' Hc'. apply Hsub. by apply list_elem_of_further. }
    { by apply objects_Forall2. }
    exists (oc' :: os'). split; [by apply objects_cons|].
    rewrite !fmap_cons. by rewrite H2, H3, Hr', Hp'. }
  destruct Hos' as (os' & Hos' & Hrs & Hps).
  apply (laidOut_node s' D r l o' os'); try done.
  - by rewrite Hrs, Hps, Hrect.
  - rewrite Forall_forall in IH, Hl |- *. intros t Ht.
    apply IH; [done| |by apply Hl].
    intros n Hn. apply Hsame. by eapply nodes_sub.
Qed.

(** * ResizeOperation *)




(** * Sorted children under changes that keep the percentages *)

Lemma objects_percentages_ext (s s' : store) (cs : list ref) :
  (forall c, percentage <$> objs s' !! c = percentage <$> objs s !! c) ->
  forall os, objects s cs = Some os ->
  exists os', objects s' cs = Some os'
              /\ percentage <$> os' = percentage <$> os.
Proof.
  intros Hp. induction cs as [|c cs IH]; intros os Hos%objects_Forall2.
  { inversion Hos. by exists []. }
  inversion Hos as [|? o ? os0 Hc Hcs]; subst.
  destruct (IH os0) as (os' & Hos' & Hps); [by apply objects_Forall2|].
  pose proof (Hp c) as Hpc. rewrite Hc in Hpc.
  destruct (objs s' !! c) as [o'|] eqn:Ho'; [|done]. injection Hpc as Hpc.
  exists (o' :: os'). split; [by apply objects_cons|].
  by rewrite !fmap_cons, Hpc, Hps.
Qed.

Lemma sortedChildren_ext (s s' : store) (this : ref) :
  kids s' this = kids s this ->
  (forall c, percentage <$> objs s' !! c = percentage <$> objs s !! c) ->
  sortedChildren s this -> sortedChildren s' this.
Proof.
  intros Hk Hp (cs & os & lc & Hkids & Hos & Hasc & Hlast & Hsent).
  destruct (objects_percentages_ext s s' cs Hp os Hos) as (os' & Hos' & Hps).
  assert (Hl : exists lc', last os' = Some lc' /\ percentage lc' = percentage lc).
  { assert (H := f_equal last Hps). rewrite !fmap_last, Hlast in H.
    destruct (last os') as [lc'|]; [|done]. injection H as H. by exists lc'. }
  destruct Hl as (lc' & Hlast' & Hpl).
  exists cs, os', lc'. split; [by rewrite Hk|]. split; [done|].
  split; [by rewrite absPercentage_fmap, Hps, <- absPercentage_fmap|].
  split; [done|]. by rewrite Hpl.
Qed.

Lemma objects_lt (s : store) (cs : list ref) (os : list obj) :
  objects s cs = Some os -> Forall (fun c => c < length (objs s)) cs.
Proof.
  intros H%objects_Forall2. induction H as [|c o cs os Hc _ IH]; constructor.
  - by eapply lookup_lt_Some.
  - done.
Qed.

(** * The small tree used in the examples *)

Lemma smallTree_shaped : shaped smallStore smallTree.
Proof. repeat constructor. Qed.

Lemma smallTree_NoDup : NoDup (nodes smallTree).
Proof. apply (bool_decide_unpack _). vm_compute. exact I. Qed.

Lemma smallTree_view : hasView 0 smallStore 2 smallView.
Proof.
  apply (hasView_node 0 smallStore 2 (LayoutNode.fresh (JNum (Fin (1 # 2))) 2)
           [0; 1]); try done.
  - repeat constructor.
  - constructor; [|constructor; [|constructor]].
    + by apply (hasView_node 0 smallStore 0
                  (LayoutNode.fresh (JNum (Fin (-1 # 2))) 0) [] []).
    + by apply (hasView_node 0 smallStore 1
                  (LayoutNode.fresh (JNum NegInf) 1) [] []).
Qed.

(** * getIntegrityError *)

(** X1: on a tree of the store [getIntegrityError] returns, and its
    answer is a function of the shape and the percentages alone: the
    first violation in pre-order, and [null] exactly when no node has a
    single child, every child but the last has a percentage that is not
    [null], not below -1 and not above 1 ([undefined] and [NaN] pass), and
    every last child has [+Infinity] or [-Infinity]. *)
Theorem getIntegrityError_accepts (s : store) (t : Shape) (v : View)
  (Hshaped : shaped s t) (Hnodup : NoDup (nodes t))
  (Hview : hasView 0 s (root t) v) :
  LayoutNode.getIntegrityError (root t) s = Some (viewError v)
  /\ (viewError v = None <-> accepted v)
  /\ (forall p, badPct p = false <->
                p = JUndefined \/ p = JNum NaN
                \/ exists q, p = JNum (Fin q) /\ (-1 <= q)%Q /\ (q <= 1)%Q).
Proof.
  split; [|split; [apply viewError_accepted|apply badPct_cases]].
  apply (getIntegrityError_view 0); [done|].
  by apply (hasView_budget s t).
Qed.

Lemma getIntegrityError_accepts_witness :
  LayoutNode.getIntegrityError 2 smallStore = Some (viewError smallView)
  /\ (viewError smallView = None <-> accepted smallView).
Proof.
  destruct (getIntegrityError_accepts smallStore smallTree smallView
              smallTree_shaped smallTree_NoDup smallTree_view) as (H1 & H2 & _).
  exact (conj H1 H2).
Defined.

(** * validateRects *)

(** X2: on a tree of the store [validateRects] returns [true] exactly
    when every node of the tree, internal nodes and the root included,
    has a rectangle for which neither [width <= 100] nor [height <= 100]
    holds. *)
Theorem validateRects_all_nodes (s : store) (t : Shape)
  (Hshaped : shaped s t) (Hnodup : NoDup (nodes t)) :
  exists b,
    LayoutNode.validateRects (root t) s = Some b
    /\ (b = true <->
        forall n o, n ∈ nodes t -> objs s !! n = Some o ->
          Num.leb (Rect.width (rect o)) (Num.ofZ 100) = false
          /\ Num.leb (Rect.height (rect o)) (Num.ofZ 100) = false).
Proof.
  exists (forallb (holds s bigEnough) (nodes t)). split.
  { apply validateRects_spec; [done|by apply height_budget]. }
  rewrite forallb_forall. split.
  - intros H n o Hn Ho. apply list_elem_of_In, H in Hn.
    unfold holds in Hn. rewrite Ho in Hn. unfold bigEnough in Hn.
    by apply negb_true_iff, orb_false_iff in Hn.
  - intros H n Hn%list_elem_of_In.
    pose proof (shaped_valid s t n Hshaped Hn) as Hlt.
    apply lookup_lt_is_Some_2 in Hlt as [o Ho].
    unfold holds. rewrite Ho. unfold bigEnough.
    destruct (H n o Hn Ho) as [-> ->]. done.
Qed.

Lemma validateRects_all_nodes_witness :
  exists b,
    LayoutNode.validateRects 2 smallStore = Some b
    /\ (b = true <->
        forall n o, n ∈ nodes smallTree -> objs smallStore !! n = Some o ->
          Num.leb (Rect.width (rect o)) (Num.ofZ 100) = false
          /\ Num.leb (Rect.height (rect o)) (Num.ofZ 100) = false).
Proof.
  exact (validateRects_all_nodes smallStore smallTree
           smallTree_shaped smallTree_NoDup).
Defined.

(** * forSelfAndDescendants and forDescendants *)

(** X3: for a callback that does not assign [children],
    [forSelfAndDescendants] on a tree of the store applies the callback
    once to every node of the tree and [forDescendants] once to every
    node but the root; no other object and no array is changed. *)
Theorem forSelfAndDescendants_each_node (func : obj -> obj) (s : store)
  (r : ref) (l : list Shape)
  (Hfunc : keepsChildren func)
  (Hshaped : shaped s (Sh r l)) (Hnodup : NoDup (nodes (Sh r l))) :
  (exists s',
      LayoutNode.forSelfAndDescendants func r s = Some s'
      /\ arrs s' = arrs s
      /\ forall n, objs s' !! n =
                   if bool_decide (n ∈ nodes (Sh r l)) then func <$> objs s !! n
                   else objs s !! n)
  /\ (exists s',
        LayoutNode.forDescendants func r s = Some s'
        /\ arrs s' = arrs s
        /\ forall n, objs s' !! n =
                     if bool_decide (n ∈ l ≫= nodes) then func <$> objs s !! n
                     else objs s !! n).
Proof.
  split.
  - destruct (forSelfAndDescendants_applies func (Sh r l) Hfunc (budget s) s
                Hshaped Hnodup (height_budget s _ Hshaped Hnodup))
      as (s' & Hrun & Ha & Ho).
    by exists s'.
  - destruct (forDescendants_applies func s r l Hfunc Hshaped Hnodup)
      as (s' & Hrun & Ha & Ho).
    by exists s'.
Qed.

Lemma forSelfAndDescendants_each_node_witness :
  (exists s',
      LayoutNode.forSelfAndDescendants (set_isHighlighted true) 2 smallStore
      = Some s'
      /\ arrs s' = arrs smallStore
      /\ forall n, objs s' !! n =
                   if bool_decide (n ∈ nodes smallTree)
                   then set_isHighlighted true <$> objs smallStore !! n
                   else objs smallStore !! n)
  /\ (exists s',
        LayoutNode.forDescendants (set_isHighlighted true) 2 smallStore = Some s'
        /\ arrs s' = arrs smallStore
        /\ forall n, objs s' !! n =
                     if bool_decide (n ∈ [Sh 0 []; Sh 1 []] ≫= nodes)
                     then set_isHighlighted true <$> objs smallStore !! n
                     else objs smallStore !! n).
Proof.
  apply (forSelfAndDescendants_each_node (set_isHighlighted true) smallStore 2
           [Sh 0 []; Sh 1 []]).
  - intros o. reflexivity.
  - exact smallTree_shaped.
  - exact smallTree_NoDup.
Defined.

(** * findNode and findNodeAtPosition *)

(** X4: on a tree of the store [findNode] returns the first node in
    pre-order (a node before its children, the children in their order)
    that satisfies the predicate, and [null] when no node of the tree
    does. *)
Theorem findNode_first_in_preorder (s : store) (t : Shape) (p : obj -> bool)
  (Hshaped : shaped s t) (Hnodup : NoDup (nodes t)) :
  LayoutNode.findNode p (root t) s = Some (find (holds s p) (nodes t))
  /\ (find (holds s p) (nodes t) = None <->
      forall n o, n ∈ nodes t -> objs s !! n = Some o -> p o = false).
Proof.
  split; [|apply find_holds_None].
  apply findNode_shaped; [done|by apply height_budget].
Qed.

Lemma findNode_first_in_preorder_witness :
  LayoutNode.findNode LayoutNode.isRow 2 smallStore = Some (Some 0)
  /\ (find (holds smallStore LayoutNode.isRow) (nodes smallTree) = None <->
      forall n o, n ∈ nodes smallTree -> objs smallStore !! n = Some o ->
                  LayoutNode.isRow o = false).
Proof.
  exact (findNode_first_in_preorder smallStore smallTree LayoutNode.isRow
           smallTree_shaped smallTree_NoDup).
Defined.

(** X5: on a tree of the store [findNodeAtPosition] returns the first
    leaf in pre-order whose rectangle, edges included, holds the point,
    and [null] when no leaf does; a point on the edge shared by two
    leaves belongs to the first of them. *)
Theorem findNodeAtPosition_first_leaf (s : store) (t : Shape) (x y : num)
  (Hshaped : shaped s t) (Hnodup : NoDup (nodes t)) :
  LayoutNode.findNodeAtPosition x y (root t) s
  = Some (find (leafAt s x y) (nodes t))
  /\ (forall n, find (leafAt s x y) (nodes t) = Some n ->
        exists o, objs s !! n = Some o /\ arrs s !! children o = Some []
                  /\ LayoutNode.inRect x y (rect o) = true)
  /\ (find (leafAt s x y) (nodes t) = None <->
      forall n, n ∈ nodes t -> leafAt s x y n = false).
Proof.
  split; [|split].
  - apply findNodeAtPosition_spec; [done|by apply height_budget].
  - intros n [_ Hn]%find_some. unfold leafAt in Hn.
    destruct (objs s !! n) as [o|]; [|done].
    destruct (arrs s !! children o) as [cs|] eqn:Hcs; [|done].
    apply andb_true_iff in Hn as [Hin Hlen]. exists o.
    destruct cs; [done|discriminate Hlen].
  - split.
    + intros H n Hn%list_elem_of_In. by apply (find_none _ _ H).
    + intros H. destruct (find _ _) as [n|] eqn:E; [|done].
      apply find_some in E as [Hn%list_elem_of_In E]. by rewrite H in E.
Qed.

Lemma findNodeAtPosition_first_leaf_witness :
  LayoutNode.findNodeAtPosition (Num.ofZ 0) (Num.ofZ 0) 2 smallStore
  = Some (Some 0).
Proof.
  exact (proj1 (findNodeAtPosition_first_leaf smallStore smallTree
                  (Num.ofZ 0) (Num.ofZ 0) smallTree_shaped smallTree_NoDup)).
Defined.

(** * delete *)

(** X6: on a tree of the store [delete(node)] detaches [node] from the
    first node in pre-order that has it among its children and returns
    [true]: a parent with exactly two children becomes a leaf with a new
    empty array (its old array is left as it was), any other parent has
    [node] spliced out of its array in place, the order of the rest
    kept.  No percentage is assigned, so the node that becomes the last
    child keeps its percentage, and no [parent] field is cleared.  When
    no node of the tree has [node] as a child, the root itself included,
    it returns [false] and changes nothing. *)
Theorem delete_detaches_from_parent (s : store) (t : Shape) (node : ref)
  (Hshaped : shaped s t) (Hnodup : NoDup (nodes t)) :
  match find (hasChild s node) (nodes t) with
  | None => LayoutNode.delete (root t) node s = Some (false, s)
  | Some p =>
      exists s' cs l1 l2,
        LayoutNode.delete (root t) node s = Some (true, s')
        /\ kids s p = Some cs
        /\ cs = l1 ++ (node :: l2) /\ (node ∉ l1)
        /\ kids s' p = Some (if length cs =? 2 then [] else l1 ++ l2)
        /\ (forall r, r <> p -> objs s' !! r = objs s !! r)
        /\ (forall r, percentage <$> objs s' !! r = percentage <$> objs s !! r)
        /\ (forall r, parent <$> objs s' !! r = parent <$> objs s !! r)
        /\ (forall a, a < length (arrs s) -> length cs = 2 ->
                      arrs s' !! a = arrs s !! a)
  end.
Proof.
  unfold LayoutNode.delete.
  rewrite (delete_spec s node t Hshaped _ (height_budget s t Hshaped Hnodup)).
  destruct (find (hasChild s node) (nodes t)) as [p|] eqn:Hfind; [|done].
  apply find_some in Hfind as [_ Hp]. unfold hasChild in Hp.
  destruct (kids s p) as [cs|] eqn:Hkids; [|done].
  apply bool_decide_eq_true in Hp.
  destruct (detach_spec s p node cs Hkids Hp)
    as (s' & l1 & l2 & -> & H1 & H2 & H3 & H4 & H5 & H6 & H7).
  by exists s', cs, l1, l2.
Qed.

Lemma delete_detaches_from_parent_witness :
  exists s',
    LayoutNode.delete 2 1 smallStore = Some (true, s')
    /\ kids s' 2 = Some [].
Proof.
  destruct (delete_detaches_from_parent smallStore smallTree 1
              smallTree_shaped smallTree_NoDup)
    as (s' & cs & l1 & l2 & Hrun & Hk & _ & _ & Hk' & _).
  injection Hk as <-. by exists s'.
Defined.

(** * clone *)

(** X7: [clone] on a tree of the store returns a new object and leaves
    every object and array that existed as it was.  The clone has the
    percentage, rect, isResizing, isPreview and margin of the original,
    no parent, and isHighlighted, originalRect and isSnappingDestination
    as the class initialises them.  Below it lie new objects in the shape
    of the original, with its margins and its percentages, except that
    the constructor gives the last of two or more children the sentinel
    of the first child's axis; so the clone serialises as the original
    when the original's last children carry those sentinels. *)
Theorem clone_is_fresh_copy (s : store) (t : Shape) (v : View)
  (Hshaped : shaped s t) (Hnodup : NoDup (nodes t))
  (Hview : hasView 0 s (root t) v) :
  exists s' c o o',
    LayoutNode.clone (root t) s = Some (s', c)
    /\ objs s !! root t = Some o /\ objs s' !! c = Some o'
    /\ length (objs s) <= c
    /\ (forall x, x < length (objs s) -> objs s' !! x = objs s !! x)
    /\ (forall a, a < length (arrs s) -> arrs s' !! a = arrs s !! a)
    /\ o' = mkObj (percentage o) None (children o') (rect o) (isResizing o)
                  (isPreview o) false None false (margin o)
    /\ hasView (length (objs s)) s' c (cloneView v)
    /\ LayoutNode.toJSON c s' = Some (encode (cloneView v))
    /\ (fillersMatch v ->
        LayoutNode.toJSON c s' = LayoutNode.toJSON (root t) s).
Proof.
  pose proof (hasView_budget s t v Hshaped Hnodup Hview) as Hb.
  destruct (clone_spec v (budget s) s (root t) Hview Hb)
    as (s' & c & o & o' & Hrun & Ho & Ho' & Hc1 & Hc2 & Ha & Hobj & Harr & Hsnap & Heq).
  exists s', c, o, o'. repeat (split; [done|]).
  pose proof (snapshot_hasView _ _ _ _ _ Hsnap) as Hv'.
  assert (Hjson : LayoutNode.toJSON c s' = Some (encode (cloneView v))).
  { apply (toJSON_view _ _ _ _ Hv'). rewrite vheight_cloneView.
    unfold budget in *. lia. }
  split; [done|]. split; [done|].
  intros Hm. rewrite Hjson, (cloneView_fillersMatch v Hm).
  symmetry. by apply (toJSON_view 0).
Qed.

Lemma smallView_fillersMatch : fillersMatch smallView.
Proof.
  constructor.
  - intros first lastChild _ [= <-] [= <-]. reflexivity.
  - repeat constructor; by intros ? ? ?.
Qed.

Lemma clone_is_fresh_copy_witness :
  exists s' c,
    LayoutNode.clone 2 smallStore = Some (s', c)
    /\ 4 <= c
    /\ LayoutNode.toJSON c s' = LayoutNode.toJSON 2 smallStore.
Proof.
  destruct (clone_is_fresh_copy smallStore smallTree smallView
              smallTree_shaped smallTree_NoDup smallTree_view)
    as (s' & c & o & o' & Hrun & _ & _ & Hc & _ & _ & _ & _ & _ & Hjson).
  exists s', c. split; [exact Hrun|]. split; [exact Hc|].
  exact (Hjson smallView_fillersMatch).
Defined.

(** * revert to a clone *)

(** X8: the rollback of a speculative edit.  After [snapshot =
    tree.clone()], whatever is done to the store that leaves the objects
    and arrays of the snapshot as they are (the live tree may be edited,
    its arrays spliced, objects added), [tree.revert(snapshot)] gives the
    tree the structure of the snapshot again: it serialises as the clone
    did, and as the tree did before the edit when the tree's last
    children carried the sentinels of their first siblings' axes. *)
Theorem revert_to_clone_restores (s : store) (t : Shape) (v : View)
  (Hshaped : shaped s t) (Hnodup : NoDup (nodes t))
  (Hview : hasView 0 s (root t) v) :
  exists s1 c,
    LayoutNode.clone (root t) s = Some (s1, c)
    /\ forall s2,
         length (objs s1) <= length (objs s2) ->
         (forall x, length (objs s) <= x -> x < length (objs s1) ->
                    objs s2 !! x = objs s1 !! x) ->
         (forall a, length (arrs s) <= a -> a < length (arrs s1) ->
                    arrs s2 !! a = arrs s1 !! a) ->
         exists s3,
           LayoutNode.revert (root t) c s2 = Some s3
           /\ hasView 0 s3 (root t) (cloneView v)
           /\ LayoutNode.toJSON (root t) s3 = Some (encode (cloneView v))
           /\ (fillersMatch v ->
               LayoutNode.toJSON (root t) s3 = LayoutNode.toJSON (root t) s).
Proof.
  pose proof (hasView_budget s t v Hshaped Hnodup Hview) as Hb.
  destruct (clone_spec v (budget s) s (root t) Hview Hb)
    as (s1 & c & o & o' & Hrun & Ho & Ho' & Hc1 & Hc2 & Ha & Hobj & Harr & Hsnap & Heq).
  exists s1, c. split; [exact Hrun|].
  intros s2 Hlen Hobj2 Harr2.
  assert (Hr : root t < length (objs s)) by by eapply lookup_lt_Some.
  destruct (lookup_lt_is_Some_2 (objs s2) (root t)) as [o2 Ho2]; [lia|].
  assert (Hc : objs s2 !! c = Some o') by (rewrite Hobj2 by lia; done).
  unfold LayoutNode.revert. rewrite Ho2, Hc. cbn [mbind option_bind].
  eexists. split; [reflexivity|].
  set (f := fun t0 : obj => _). set (s3 := updObj f (root t) s2).
  destruct (cloneView v) as [p m ws] eqn:Ev.
  apply snapshot_inv in Hsnap as (oc & cl & Hoc & Hcl & Hla & Hb1 & Hws & -> & ->).
  rewrite Ho' in Hoc. injection Hoc as <-.
  assert (Hview3 : hasView 0 s3 (root t) (V (percentage o') (margin o') ws)).
  { apply (hasView_node 0 s3 (root t) (f o2) cl ws).
    - unfold s3. by rewrite updObj_lookup_eq, Ho2.
    - unfold s3. rewrite updObj_arrs. cbn. rewrite Harr2; [done|done|].
      by eapply lookup_lt_Some.
    - apply Forall_forall. intros; lia.
    - assert (Hws3 : Forall2 (snapshot (length (objs s)) (length (arrs s)) s3)
                             cl ws).
      { apply (snapshot_ext_all _ _ s1 s3 cl ws c); try done.
        intros x Hx1 Hx2. unfold s3. rewrite updObj_lookup_ne by lia.
        by rewrite Hobj2 by lia. }
      clear -Hws3. induction Hws3 as [|x w xs ws Hx _ IH]; constructor; [|done].
      apply (hasView_mono (length (objs s))); [lia|].
      by eapply snapshot_hasView. }
  split; [exact Hview3|].
  assert (Hjson : LayoutNode.toJSON (root t) s3
                  = Some (encode (V (percentage o') (margin o') ws))).
  { apply (toJSON_view 0); [done|]. rewrite <- Ev, vheight_cloneView.
    unfold budget in *. unfold s3. rewrite updObj_length. lia. }
  split; [exact Hjson|].
  intros Hm. rewrite Hjson, <- Ev, (cloneView_fillersMatch v Hm).
  symmetry. by apply (toJSON_view 0).
Qed.

Lemma revert_to_clone_restores_witness :
  exists s1 c s3,
    LayoutNode.clone 2 smallStore = Some (s1, c)
    /\ LayoutNode.revert 2 c (updObj (set_percentage (JNum (Fin 1))) 0 s1)
       = Some s3
    /\ LayoutNode.toJSON 2 s3 = LayoutNode.toJSON 2 smallStore.
Proof.
  destruct (revert_to_clone_restores smallStore smallTree smallView
              smallTree_shaped smallTree_NoDup smallTree_view)
    as (s1 & c & Hrun & Hrest).
  destruct (Hrest (updObj (set_percentage (JNum (Fin 1))) 0 s1))
    as (s3 & Hrev & _ & _ & Hjson).
  - by rewrite updObj_length.
  - intros x Hx _. apply updObj_lookup_ne. simpl in Hx. lia.
  - done.
  - exists s1, c, s3. split; [exact Hrun|]. split; [exact Hrev|].
    exact (Hjson smallView_fillersMatch).
Defined.

(** * calculateRects *)

(** X9: on a tree of the store [calculateRects(x, y, width, height)]
    returns and assigns nothing but the [rect] of nodes of the tree: no
    percentage, array, margin, flag or parent changes, and objects
    outside the tree are left as they are.  The rectangles are a function
    of the root's rectangle and the percentages: a second call without
    arguments changes nothing. *)
Theorem calculateRects_only_rects (s : store) (t : Shape) (R : Rect.t)
  (Hshaped : shaped s t) (Hnodup : NoDup (nodes t)) :
  exists s',
    LayoutNode.calculateRects (root t) (Some R) s = Some s'
    /\ arrs s' = arrs s
    /\ Forall2 (fun o o' => o' = set_rect (rect o') o) (objs s) (objs s')
    /\ (forall n, n ∉ nodes t -> objs s' !! n = objs s !! n)
    /\ rect <$> objs s' !! root t = Some R
    /\ LayoutNode.calculateRects (root t) None s' = Some s'.
Proof.
  destruct (calculateRects_laysOut t (budget s) s R None Hshaped Hnodup
              (height_budget s t Hshaped Hnodup))
    as (s' & Hrun & Hro & Hrect & Hlaid).
  exists s'. split; [exact Hrun|].
  pose proof Hro as (Ha & Hsame & Hout).
  repeat (split; [done|]).
  pose proof (shaped_rectsOnly _ _ _ _ Hro Hshaped) as Hshaped'.
  destruct (objs s' !! root t) as [o'|] eqn:Ho'; [|done].
  injection Hrect as HR.
  destruct (calculateRects_again s' t o' Hshaped' Hnodup Ho')
    as (s'' & Hrun2 & Hro2 & Ho'' & Hlaid2).
  rewrite Hrun2. f_equal. symmetry.
  apply (laidOut_determined s' s' s'' t R); try done.
  - apply rectsOnly_refl.
  - by rewrite <- HR.
  - by rewrite Ho', Ho''.
Qed.

Lemma calculateRects_only_rects_witness :
  exists s',
    LayoutNode.calculateRects 2 (Some workArea) smallStore = Some s'
    /\ arrs s' = arrs smallStore
    /\ LayoutNode.calculateRects 2 None s' = Some s'.
Proof.
  destruct (calculateRects_only_rects smallStore smallTree workArea
              smallTree_shaped smallTree_NoDup)
    as (s' & Hrun & Ha & _ & _ & _ & Hagain).
  by exists s'.
Defined.

(** * Loading and saving a layout file *)

Lemma nesting_elements (v : JsonValue) (l : list JsonValue) :
  v ∈ l -> nesting v <= foldr (fun v n => Nat.max (nesting v) n) 0 l.
Proof.
  induction 1 as [v l|v w l _ IH]; cbn [foldr]; lia.
Qed.

Lemma nesting_valueOf_child (jc : list Json) (jp : jsval) (jm : option num)
  (j : Json) :
  j ∈ jc -> S (nesting (valueOf j)) < nesting (valueOf (JObj (Some jc) jp jm)).
Proof.
  intros Hj. cbn [valueOf nesting app foldr snd].
  pose proof (nesting_elements (valueOf j) (valueOf <$> jc)) as H.
  specialize (H ltac:(by apply list_elem_of_fmap_2)).
  lia.
Qed.

(** On a file of the layout's form the two readings of [fromJSON] agree. *)
Lemma loadChildren_any_valueOf (fuel : nat) (this : nat) (l : list Json) :
  Forall (fun j => forall this s,
             LayoutNode.fromJSON_any_ fuel (valueOf j) this s
             = Normal <$> LayoutNode.fromJSON j this s) l ->
  forall st,
    foldlM (LayoutNode.loadChild_any (LayoutNode.fromJSON_any_ fuel) this)
      (Normal st) (valueOf <$> l)
    = Normal <$> foldlM (LayoutNode.loadChild LayoutNode.fromJSON this) st l.
Proof.
  induction 1 as [|j l Hj _ IH]; intros [s acc]; [done|].
  rewrite fmap_cons. cbn [foldlM].
  unfold LayoutNode.loadChild_any at 2, LayoutNode.loadChild at 2.
  destruct (LayoutNode.new JUndefined None s) as [[s1 child]|]; [|done].
  cbn [mbind option_bind]. rewrite Hj.
  destruct (LayoutNode.fromJSON j child _) as [s2|]; [|done].
  cbn [fmap option_fmap option_map mbind option_bind]. apply IH.
Qed.

Lemma fromJSON_any_valueOf (j : Json) :
  forall (fuel : nat) (this : nat) (s : store),
    nesting (valueOf j) < fuel ->
    LayoutNode.fromJSON_any_ fuel (valueOf j) this s
    = Normal <$> LayoutNode.fromJSON j this s.
Proof.
  induction j as [jc jp jm IH] using Json_induction.
  intros [|fuel] this s Hfuel; [lia|].
  assert (Hkids : match jc with
                  | Some l =>
                      Forall (fun j => forall this s,
                        LayoutNode.fromJSON_any_ fuel (valueOf j) this s
                        = Normal <$> LayoutNode.fromJSON j this s) l
                  | None => True
                  end).
  { destruct jc as [l|]; [|done].
    apply Forall_forall. intros j Hj this' s'.
    apply (proj1 (Forall_forall _ _) IH j Hj).
    pose proof (nesting_valueOf_child l jp jm j Hj). lia. }
  clear IH Hfuel.
  destruct jc as [[|j1 l]|], jp as [| |n], jm as [m|];
    cbn -[LayoutNode.fromJSON_any_ foldlM];
    cbn [LayoutNode.fromJSON_any_]; try reflexivity.
  all: cbn -[foldlM LayoutNode.fromJSON_any_ valueOf].
  all: try reflexivity.
  all: change (valueOf j1 :: (valueOf <$> l)) with (valueOf <$> (j1 :: l));
    rewrite (loadChildren_any_valueOf _ _ _ Hkids);
    by destruct (foldlM _ _ _) as [[s0 cs]|].
Qed.

Lemma loadLayoutFromFile_any_valueOf (j : Json) (s : store) :
  LayoutIO.loadLayoutFromFile_any (Some (valueOf j)) s
  = LayoutIO.loadLayoutFromFile (Some j) s.
Proof.
  unfold LayoutIO.loadLayoutFromFile_any, LayoutIO.loadLayoutFromFile.
  destruct (LayoutNode.new JUndefined None s) as [[s1 layout]|]; [|done].
  cbn [mbind option_bind]. unfold LayoutNode.fromJSON_any.
  rewrite fromJSON_any_valueOf by lia.
  by destruct (LayoutNode.fromJSON j layout s1).
Qed.

(** The text written for finite numbers is read back as it was. *)
Lemma written_exact (j : Json) : textExact j = true -> written j = valueOf j.
Proof.
  induction j as [jc jp jm IH] using Json_induction.
  cbn [textExact written valueOf]. intros H.
  apply andb_prop in H as [H Hm]. apply andb_prop in H as [Hc Hp].
  f_equal. f_equal; [|f_equal].
  - destruct jc as [l|]; [|done]. do 3 f_equal.
    apply list_fmap_ext. intros i j Hj. 
    apply list_elem_of_lookup_2 in Hj.
    apply (proj1 (Forall_forall _ _) IH j Hj).
    apply (proj1 (forallb_forall _ _) Hc). by apply list_elem_of_In.
  - destruct jp as [| |n]; try done. unfold writtenNumber. by rewrite Hp.
  - destruct jm as [m|]; [|done]. unfold writtenNumber. by rewrite Hm.
Qed.


(** X11: what is saved can be loaded.  [saveLayoutForDisplay] and
    [saveLayoutForPreset] write a tree of the store exactly when its
    structure passes the integrity check, and the file holds what
    [JSON.stringify] writes for its [toJSON].  When no percentage of the
    tree is [NaN] and every margin is finite, the numbers are read back
    as they were written and the file is not refused by the loader.
    (A [NaN] is written as [null]: see
    [nan_percentage_is_saved_and_refused].) *)
Theorem saved_layout_is_loadable (s : store) (t : Shape) (v : View)
  (Hshaped : shaped s t) (Hnodup : NoDup (nodes t))
  (Hview : hasView 0 s (root t) v) :
  (~ accepted v -> LayoutIO.saveLayoutForDisplay (root t) s = Some None)
  /\ (accepted v ->
      LayoutIO.saveLayoutForDisplay (root t) s
      = Some (Some (written (encode v)))
      /\ (textExact (encode v) = true ->
          forall s0, exists s1,
            LayoutIO.loadLayoutFromFile_any (Some (written (encode v))) s0
            = Some (s1, Some (length (objs s0))))).
Proof.
  pose proof (hasView_budget s t v Hshaped Hnodup Hview) as Hb.
  unfold LayoutIO.saveLayoutForDisplay, LayoutIO.saveToFile,
    LayoutNode.getIntegrityError.
  rewrite (getIntegrityError_view 0 s v _ Hview _ Hb). cbn [mbind option_bind].
  pose proof (viewError_accepted v) as Hacc.
  split.
  - intros Hn. destruct (viewError v); [done|]. destruct Hn. by apply Hacc.
  - intros Ha. pose proof Ha as Ha'. apply Hacc in Ha' as ->.
    unfold LayoutNode.toJSON. rewrite (toJSON_view 0 s v _ Hview _ Hb).
    split; [done|]. intros Hexact s0.
    rewrite (written_exact _ Hexact), loadLayoutFromFile_any_valueOf.
    destruct (loadLayoutFromFile_spec (encode v) s0) as (s1 & Hrun & _).
    exists s1. rewrite Hrun.
    apply accepted_decode_encode, viewError_accepted in Ha. by rewrite Ha.
Qed.

Lemma smallView_accepted : accepted smallView.
Proof. apply viewError_accepted. reflexivity. Qed.

Lemma saved_layout_is_loadable_witness :
  LayoutIO.saveLayoutForDisplay 2 smallStore
  = Some (Some (written (encode smallView)))
  /\ exists s1,
       LayoutIO.loadLayoutFromFile_any (Some (written (encode smallView)))
         emptyStore
       = Some (s1, Some 0).
Proof.
  destruct (saved_layout_is_loadable smallStore smallTree smallView
              smallTree_shaped smallTree_NoDup smallTree_view) as [_ H].
  destruct (H smallView_accepted) as [Hsave Hload].
  split; [exact Hsave|]. exact (Hload eq_refl emptyStore).
Defined.

(** A tree whose first child has the percentage [NaN] passes the integrity
    check and is written, with [null] for the [NaN]; the loader refuses the
    file. *)
Lemma nan_percentage_is_saved_and_refused :
  exists file s1,
    LayoutIO.saveLayoutForDisplay 2 nanStore = Some (Some file)
    /\ file = VObject
         [("children"%string,
           VArray [VObject [("percentage"%string, VNull)];
                   VObject [("percentage"%string, VNumber (Num.ofZ 99999))]]);
          ("percentage"%string, VNumber (Num.ofZ 0))]
    /\ LayoutIO.loadLayoutFromFile_any (Some file) emptyStore
       = Some (s1, None).
Proof.
  eexists _, _. split; [vm_compute; reflexivity|].
  split; [reflexivity|]. vm_compute. reflexivity.
Qed.

(** X12: a saved file is stable.  When a file is accepted by the loader
    and the layout is saved again, the file written is one that loads and
    saves to itself. *)
Theorem resave_is_stable (j : Json) (s : store)
  (Haccepted : accepted (decode j)) :
  exists s1 j1,
    LayoutIO.loadLayoutFromFile (Some j) s = Some (s1, Some (length (objs s)))
    /\ LayoutIO.saveLayout (length (objs s)) s1 = Some (Some j1)
    /\ forall s0, exists s2,
         LayoutIO.loadLayoutFromFile (Some j1) s0
         = Some (s2, Some (length (objs s0)))
         /\ LayoutIO.saveLayout (length (objs s0)) s2 = Some (Some j1).
Proof.
  assert (Hsave : forall j' s0,
             accepted (decode j') ->
             exists s2,
               LayoutIO.loadLayoutFromFile (Some j') s0
               = Some (s2, Some (length (objs s0)))
               /\ LayoutIO.saveLayout (length (objs s0)) s2
                  = Some (Some (encode (decode j')))).
  { intros j' s0 Ha.
    destruct (loadLayoutFromFile_spec j' s0) as (s2 & Hrun & Hview & _ & _ & Hb).
    exists s2. pose proof Ha as Ha'. apply viewError_accepted in Ha'.
    rewrite Ha' in Hrun. split; [exact Hrun|].
    unfold LayoutIO.saveLayout, LayoutNode.getIntegrityError.
    rewrite (getIntegrityError_view _ _ _ _ Hview _ Hb), Ha'.
    cbn [mbind option_bind]. unfold LayoutNode.toJSON.
    by rewrite (toJSON_view _ _ _ _ Hview _ Hb). }
  destruct (Hsave j s Haccepted) as (s1 & Hload & Hs1).
  exists s1, (encode (decode j)). split; [exact Hload|]. split; [exact Hs1|].
  intros s0.
  destruct (Hsave (encode (decode j)) s0) as (s2 & Hload2 & Hs2).
  { by apply accepted_decode_encode. }
  exists s2. split; [exact Hload2|]. by rewrite Hs2, encode_decode_stable.
Qed.

Lemma resave_is_stable_witness :
  exists s1 j1,
    LayoutIO.loadLayoutFromFile (Some mixedAxesJson) emptyStore
    = Some (s1, Some 0)
    /\ LayoutIO.saveLayout 0 s1 = Some (Some j1)
    /\ forall s0, exists s2,
         LayoutIO.loadLayoutFromFile (Some j1) s0
         = Some (s2, Some (length (objs s0)))
         /\ LayoutIO.saveLayout (length (objs s0)) s2 = Some (Some j1).
Proof.
  apply (resave_is_stable mixedAxesJson emptyStore).
  apply viewError_accepted. reflexivity.
Defined.

(** * insertChild *)

(** X13: [insertChild] never puts the child last.  When no child of the
    receiver has a percentage of larger magnitude than the new child's,
    [findIndex] answers -1 and [splice(-1, 0, child)] puts the child
    before the last element.  On a leaf the child becomes the only child,
    and [getIntegrityError] then reports
    ['broken invariant: children has 1 element']. *)
Theorem insertChild_without_larger_sibling (s : store) (this child : ref)
  (cs : list ref) (co : obj) (os : list obj)
  (Hkids : kids s this = Some cs)
  (Hchild : objs s !! child = Some co)
  (Hnew : child ∉ cs)
  (Hpct : LayoutNode.isLastNodePercentage (percentage co) = false)
  (Hos : objects s cs = Some os)
  (Hnone : Forall (fun c => Num.gtb (absPercentage c) (absPercentage co) = false)
                  os) :
  exists s',
    LayoutNode.insertChild this child s = Some s'
    /\ kids s' this
       = Some (take (length cs - 1) cs ++ child :: drop (length cs - 1) cs)
    /\ parent <$> objs s' !! child = Some (Some this)
    /\ (cs = [] ->
        LayoutNode.getIntegrityError this s'
        = Some (Some "broken invariant: children has 1 element"%string)).
Proof.
  pose proof Hkids as (o & Ho & Hcs)%kids_Some.
  set (s1 := updObj (set_parent (Some this)) child s).
  destruct (objects_set_parent s (Some this) child cs os Hos)
    as (os1 & Hos1 & Hp1).
  fold s1 in Hos1.
  assert (Hidx : findIndex
                   (fun c' => Num.gtb (Num.abs (toNumber (percentage c')))
                                      (Num.abs (toNumber (percentage co)))) os1
                 = None).
  { etransitivity;
      [apply (findIndex_fmap percentage
                (fun p => Num.gtb (Num.abs (toNumber p))
                            (Num.abs (toNumber (percentage co)))))|].
    rewrite Hp1, <- findIndex_fmap. by apply findIndex_None. }
  assert (Hrun : LayoutNode.insertChild this child s
                 = Some (setArr (children o) (spliceIn None child cs) s1)).
  { unfold LayoutNode.insertChild. rewrite Ho. cbn [mbind option_bind].
    rewrite Hcs. cbn [mbind option_bind]. rewrite Hchild.
    cbn [mbind option_bind].
    rewrite bool_decide_eq_false_2
      by (intros H; by apply indexOf_elem_of in H).
    rewrite strictEq_sentinel, Hpct. fold s1.
    change (mapM _ cs) with (objects s1 cs). rewrite Hos1.
    cbn [mbind option_bind]. by rewrite Hidx. }
  assert (Hk' : kids (setArr (children o) (spliceIn None child cs) s1) this
                = Some (spliceIn None child cs)).
  { unfold kids. rewrite setArr_objs. unfold s1. rewrite updObj_lookup.
    assert (children <$> (if decide (child = this)
                          then set_parent (Some this) <$> objs s !! this
                          else objs s !! this) = Some (children o)) as Hc.
    { rewrite Ho. by case_decide. }
    destruct (if decide (child = this) then _ else _) as [o'|]; [|done].
    injection Hc as Hc. cbn [mbind option_bind]. rewrite Hc.
    apply list_lookup_insert_eq. by eapply lookup_lt_Some. }
  eexists. split; [exact Hrun|]. split; [exact Hk'|]. split.
  { rewrite setArr_objs. unfold s1. by rewrite updObj_lookup_eq, Hchild. }
  intros ->. unfold LayoutNode.getIntegrityError, budget.
  cbn [LayoutNode.getIntegrityError_]. rewrite Hk'.
  cbn [mbind option_bind]. unfold spliceIn.
  change (take (length (@nil nat) - 1) [] ++ child :: drop (length (@nil nat) - 1) [])
    with [child].
  rewrite setArr_objs. unfold s1. cbn [mapM].
  rewrite updObj_lookup_eq, Hchild. reflexivity.
Qed.

Lemma insertChild_without_larger_sibling_witness :
  exists s',
    LayoutNode.insertChild 0 3 smallStore = Some s'
    /\ kids s' 0 = Some [3]
    /\ LayoutNode.getIntegrityError 0 s'
       = Some (Some "broken invariant: children has 1 element"%string).
Proof.
  destruct (insertChild_without_larger_sibling smallStore 0 3 [] _ []
              eq_refl eq_refl) as (s' & Hrun & Hk & _ & Herr).
  - apply not_elem_of_nil.
  - reflexivity.
  - reflexivity.
  - constructor.
  - exists s'. split; [exact Hrun|]. split; [exact Hk|]. by apply Herr.
Defined.

(** * SnappingOperation *)

(** The bits of [ToInt32]: the low 31 bits are kept and bit 31 is the
    sign. *)
Lemma toInt32_testbit (z n : Z) :
  (0 <= n)%Z -> Z.testbit (toInt32 z) n = Z.testbit z (Z.min n 31).
Proof.
  intros Hn. unfold toInt32.
  set (u := (z mod 2 ^ 32)%Z).
  assert (Hu : (0 <= u < 2 ^ 32)%Z) by (apply Z.mod_pos_bound; lia).
  assert (Hlow : forall m, (0 <= m < 32)%Z -> Z.testbit u m = Z.testbit z m).
  { intros m Hm. unfold u. apply Z.mod_pow2_bits_low. lia. }
  assert (Hsign : Z.testbit z 31 = negb (u <? 2 ^ 31)%Z).
  { rewrite <- Hlow by lia. destruct (u <? 2 ^ 31)%Z eqn:E.
    - apply Z.ltb_lt in E. rewrite <- (Z.mod_small u (2 ^ 31)) by lia.
      apply Z.mod_pow2_bits_high. lia.
    - apply Z.ltb_ge in E. apply Z.testbit_true; [lia|].
      replace (u / 2 ^ 31)%Z with 1%Z; [done|].
      apply (Z.div_unique u (2 ^ 31) 1 (u - 2 ^ 31)); lia. }
  destruct (Z.lt_ge_cases n 32) as [Hlt|Hge].
  - replace (Z.min n 31) with (if (n <? 31)%Z then n else 31%Z).
    2:{ destruct (n <? 31)%Z eqn:E; [apply Z.ltb_lt in E|apply Z.ltb_ge in E]; lia. }
    assert (Hn' : Z.testbit z (if (n <? 31)%Z then n else 31%Z) = Z.testbit z n).
    { destruct (n <? 31)%Z eqn:E; [done|]. apply Z.ltb_ge in E.
      by replace n with 31%Z by lia. }
    rewrite Hn', <- Hlow by lia.
    destruct (u <? 2 ^ 31)%Z; [done|].
    rewrite <- (Z.mod_pow2_bits_low (u - 2 ^ 32) 32 n) by lia.
    f_equal. rewrite <- (Z.mod_small u (2 ^ 32)) at 2 by lia.
    replace (u - 2 ^ 32)%Z with (u + (-1) * 2 ^ 32)%Z by lia.
    apply Z.mod_add. lia.
  - rewrite Z.min_r by lia. rewrite Hsign.
    destruct (u <? 2 ^ 31)%Z eqn:E; cbn [negb].
    + unfold u. apply Z.mod_pow2_bits_high. lia.
    + apply Z.ltb_ge in E. apply Z.bits_above_log2_neg; [lia|].
      destruct (Z.eq_dec (Z.pred (- (u - 2 ^ 32))) 0%Z) as [->|Hne]; [simpl; lia|].
      apply Z.lt_le_trans with 31%Z; [|lia].
      apply Z.log2_lt_pow2; lia.
Qed.

(** Operands without a common bit have no common bit in 32 bits. *)
Lemma bitAnd_zero (a b : Z) : Z.land a b = 0%Z -> bitAnd a b = 0%Z.
Proof.
  intros H. unfold bitAnd. apply Z.bits_inj'. intros n Hn.
  rewrite Z.land_spec, !toInt32_testbit, Z.bits_0 by done.
  by rewrite <- Z.land_spec, H, Z.bits_0.
Qed.

(** A mask below 2^31 selects the same bits of the 32-bit operand. *)
Lemma bitAnd_mask (state mask : Z) :
  (0 <= mask < 2 ^ 31)%Z -> bitAnd state mask = Z.land state mask.
Proof.
  intros Hm. unfold bitAnd. apply Z.bits_inj'. intros n Hn.
  rewrite !Z.land_spec, !toInt32_testbit by done.
  assert (Hhigh : forall k, (31 <= k)%Z -> Z.testbit mask k = false).
  { intros k Hk. destruct (Z.eq_dec mask 0%Z) as [->|Hne]; [apply Z.bits_0|].
    apply Z.bits_above_log2; [lia|].
    apply Z.lt_le_trans with 31%Z; [|lia]. apply Z.log2_lt_pow2; lia. }
  destruct (Z.lt_ge_cases n 31) as [Hlt|Hge].
  - by rewrite Z.min_l by lia.
  - by rewrite Z.min_r, !Hhigh, !andb_false_r by lia.
Qed.

(** The modifier tests of the preview operations read the same bits of
    [state] taken as a 32-bit integer. *)
Lemma pressed_int32 (state : Z) :
  PreviewSplitOperation.ctrlPressed state
  = negb (bitAnd state Clutter.CONTROL_MASK =? 0)%Z
  /\ PreviewSplitOperation.shiftPressed state
     = negb (bitAnd state Clutter.SHIFT_MASK =? 0)%Z.
Proof.
  unfold PreviewSplitOperation.ctrlPressed, PreviewSplitOperation.shiftPressed.
  by rewrite !bitAnd_mask by (unfold Clutter.CONTROL_MASK, Clutter.SHIFT_MASK; lia).
Qed.

(** X14: a motion over a leaf with snapping enabled (no modifier
    configured, or [state & e] not 0 for one of the configured modifiers
    [e], the operands taken as 32-bit integers) is handled with a redraw
    and shows the regions; afterwards the leaf under the pointer
    is the only node of the tree marked as snapping destination and as
    highlighted, nothing else is changed, and [currentSnapToRect()] is
    that leaf's rectangle shrunk by its margin on all four sides. *)
Theorem snapping_motion_selects_leaf (s : store) (t : Shape)
  (mods : list Z) (showRegions : bool) (x y : num) (state : Z) (n : ref) (o : obj)
  (Hshaped : shaped s t) (Hnodup : NoDup (nodes t))
  (Henabled : mods = [] \/ exists e, e ∈ mods /\ bitAnd state e <> 0%Z)
  (Hleaf : find (leafAt s x y) (nodes t) = Some n)
  (Hn : objs s !! n = Some o) :
  let op := SnappingOperation.mk (root t) showRegions mods in
  let op' := SnappingOperation.mk (root t) true mods in
  exists s',
    SnappingOperation.onMotion op x y state s
    = Some (OperationResult.handledAndRedraw, op', s')
    /\ arrs s' = arrs s
    /\ (forall r, objs s' !! r =
                  if bool_decide (r ∈ nodes t)
                  then (fun q => set_isHighlighted (bool_decide (r = n))
                                   (set_isSnappingDestination (bool_decide (r = n)) q))
                       <$> objs s !! r
                  else objs s !! r)
    /\ SnappingOperation.currentSnapToRect op' s'
       = Some (Some (LayoutNode.snapRect o)).
Proof.
  intros op op'. subst op op'.
  pose proof (height_budget s t Hshaped Hnodup) as Hb.
  assert (Hin : n ∈ nodes t).
  { apply find_some in Hleaf as [H _]. by apply list_elem_of_In. }
  assert (Hen : (length mods =? 0)
                || existsb (fun e => negb (bitAnd state e =? 0)%Z) mods = true).
  { destruct Henabled as [->|(e & He & Hne)]; [done|].
    apply orb_true_iff. right. apply existsb_exists. exists e.
    split; [by apply list_elem_of_In|]. apply negb_true_iff. by apply Z.eqb_neq. }
  destruct (forSelfAndDescendants_applies SnappingOperation.clearDestination t
              ltac:(by intros ?) (budget s) s Hshaped Hnodup Hb)
    as (s1 & Hrun1 & Ha1 & Ho1).
  set (mark := fun q => set_isHighlighted true (set_isSnappingDestination true q)).
  set (s2 := updObj mark n s1).
  assert (Hobjs : forall r, objs s2 !! r =
                    if bool_decide (r ∈ nodes t)
                    then (fun q => set_isHighlighted (bool_decide (r = n))
                                     (set_isSnappingDestination (bool_decide (r = n)) q))
                         <$> objs s !! r
                    else objs s !! r).
  { intros r. unfold s2. rewrite updObj_lookup, Ho1.
    destruct (decide (n = r)) as [<-|Hne].
    - rewrite (bool_decide_eq_true_2 _ Hin), Hn.
      by rewrite (bool_decide_eq_true_2 (n = n)).
    - case_bool_decide; [|done].
      rewrite (bool_decide_eq_false_2 (r = n)) by done.
      by destruct (objs s !! r). }
  exists s2. split.
  { unfold SnappingOperation.onMotion. cbn [SnappingOperation.enableSnappingModifiers].
    rewrite Hen. cbn [negb]. unfold LayoutNode.findNodeAtPosition.
    cbn [SnappingOperation.tree].
    rewrite (findNodeAtPosition_spec s x y t Hshaped _ Hb), Hleaf.
    cbn [mbind option_bind]. unfold LayoutNode.forSelfAndDescendants.
    by rewrite Hrun1. }
  split; [done|]. split; [exact Hobjs|].
  assert (Hshaped2 : shaped s2 t).
  { apply shaped_updObj; [done|]. eapply shaped_applied; [|split; done|done].
    by intros ?. }
  unfold SnappingOperation.currentSnapToRect, LayoutNode.findNode.
  cbn [SnappingOperation.tree].
  rewrite (findNode_shaped s2 _ t Hshaped2 _ (height_budget s2 t Hshaped2 Hnodup)).
  rewrite (find_unique _ _ n Hin).
  - cbn [mbind option_bind]. rewrite Hobjs, (bool_decide_eq_true_2 _ Hin), Hn.
    reflexivity.
  - unfold holds. rewrite Hobjs, (bool_decide_eq_true_2 _ Hin), Hn. cbn.
    by rewrite bool_decide_eq_true_2.
  - intros b Hb' Hp. unfold holds in Hp.
    rewrite Hobjs, (bool_decide_eq_true_2 _ Hb') in Hp.
    destruct (objs s !! b); [|done]. cbn in Hp. by apply bool_decide_eq_true in Hp.
Qed.

Lemma snapping_motion_selects_leaf_witness :
  exists s',
    SnappingOperation.onMotion (SnappingOperation.new 2 [Clutter.CONTROL_MASK])
      (Num.ofZ 0) (Num.ofZ 0) (Clutter.CONTROL_MASK + Clutter.SHIFT_MASK) smallStore
    = Some (OperationResult.handledAndRedraw,
            SnappingOperation.mk 2 true [Clutter.CONTROL_MASK], s')
    /\ SnappingOperation.currentSnapToRect
         (SnappingOperation.mk 2 true [Clutter.CONTROL_MASK]) s'
       = Some (Some LayoutNode.zeroRect).
Proof.
  assert (Henabled : [Clutter.CONTROL_MASK] = []
                     \/ exists e, e ∈ [Clutter.CONTROL_MASK]
                                  /\ bitAnd (Clutter.CONTROL_MASK + Clutter.SHIFT_MASK) e
                                     <> 0%Z).
  { right. exists Clutter.CONTROL_MASK. split; [apply list_elem_of_here|].
    vm_compute. discriminate. }
  destruct (snapping_motion_selects_leaf smallStore smallTree
              [Clutter.CONTROL_MASK] false
              (Num.ofZ 0) (Num.ofZ 0) (Clutter.CONTROL_MASK + Clutter.SHIFT_MASK)
              0 _ smallTree_shaped smallTree_NoDup
              Henabled eq_refl eq_refl)
    as (s' & Hrun & _ & _ & Hsnap).
  exists s'. split; [exact Hrun|exact Hsnap].
Defined.

(** X15: [cancel()] while the regions are shown clears the snapping
    destination and the highlight of every node of the tree, hides the
    regions and is handled with a redraw; afterwards
    [currentSnapToRect()] is [null] and a second [cancel()] is not
    handled.  A motion with none of the configured modifiers held, or
    over no leaf, is that [cancel()]. *)
Theorem snapping_cancel_clears (s : store) (t : Shape) (mods : list Z)
  (Hshaped : shaped s t) (Hnodup : NoDup (nodes t)) :
  let op := SnappingOperation.mk (root t) true mods in
  let op' := SnappingOperation.mk (root t) false mods in
  (exists s',
      SnappingOperation.cancel op s
      = Some (OperationResult.handledAndRedraw, op', s')
      /\ arrs s' = arrs s
      /\ (forall r, objs s' !! r =
                    if bool_decide (r ∈ nodes t)
                    then SnappingOperation.clearDestination <$> objs s !! r
                    else objs s !! r)
      /\ SnappingOperation.currentSnapToRect op' s' = Some None
      /\ SnappingOperation.cancel op' s'
         = Some (OperationResult.notHandled, op', s'))
  /\ (forall (x y : num) (state : Z) (shown : bool),
        (mods <> [] /\ forall e, e ∈ mods -> Z.land state e = 0%Z)
        \/ find (leafAt s x y) (nodes t) = None ->
        SnappingOperation.onMotion (SnappingOperation.mk (root t) shown mods)
          x y state s
        = SnappingOperation.cancel (SnappingOperation.mk (root t) shown mods) s).
Proof.
  intros op op'. subst op op'.
  pose proof (height_budget s t Hshaped Hnodup) as Hb.
  split.
  - destruct (forSelfAndDescendants_applies SnappingOperation.clearDestination t
                ltac:(by intros ?) (budget s) s Hshaped Hnodup Hb)
      as (s1 & Hrun1 & Ha1 & Ho1).
    exists s1. split.
    { unfold SnappingOperation.cancel. cbn [SnappingOperation.showRegions].
      unfold LayoutNode.forSelfAndDescendants. cbn [SnappingOperation.tree].
      by rewrite Hrun1. }
    split; [done|]. split; [done|]. split; [|done].
    assert (Hshaped1 : shaped s1 t).
    { eapply shaped_applied; [|split; done|done]. by intros ?. }
    unfold SnappingOperation.currentSnapToRect, LayoutNode.findNode.
    cbn [SnappingOperation.tree].
    rewrite (findNode_shaped s1 _ t Hshaped1 _ (height_budget s1 t Hshaped1 Hnodup)).
    replace (find _ _) with (@None nat); [done|].
    symmetry. apply find_holds_None. intros n o Hn Ho.
    rewrite Ho1, (bool_decide_eq_true_2 _ Hn) in Ho.
    destruct (objs s !! n); [|done]. by injection Ho as <-.
  - intros x y state shown [[Hne Hoff]|Hnone].
    + unfold SnappingOperation.onMotion.
      cbn [SnappingOperation.enableSnappingModifiers].
      replace ((length mods =? 0)
               || existsb (fun e => negb (bitAnd state e =? 0)%Z) mods)
        with false; [done|].
      symmetry. apply orb_false_iff. split.
      * destruct mods; [done|reflexivity].
      * apply existsb_false, Forall_forall. intros e He.
        by rewrite (bitAnd_zero _ _ (Hoff e He)).
    + unfold SnappingOperation.onMotion.
      destruct (negb _); [done|].
      unfold LayoutNode.findNodeAtPosition. cbn [SnappingOperation.tree].
      by rewrite (findNodeAtPosition_spec s x y t Hshaped _ Hb), Hnone.
Qed.

Lemma snapping_cancel_clears_witness :
  exists s',
    SnappingOperation.cancel (SnappingOperation.mk 2 true []) smallStore
    = Some (OperationResult.handledAndRedraw, SnappingOperation.mk 2 false [], s')
    /\ SnappingOperation.currentSnapToRect (SnappingOperation.mk 2 false []) s'
       = Some None.
Proof.
  destruct (snapping_cancel_clears smallStore smallTree []
              smallTree_shaped smallTree_NoDup)
    as [(s' & Hrun & _ & _ & Hsnap & _) _].
  exists s'. split; [exact Hrun|exact Hsnap].
Defined.

(** * MarginsOperation *)



(** * ResizeOperation *)


Lemma resizingStore_shaped : shaped resizingStore smallTree.
Proof. repeat constructor. Qed.


(** X18: releasing the primary button while a node of the tree is being
    resized is handled with a redraw and clears [isResizing],
    [originalRect] and [isHighlighted] on every node of the tree, leaving
    everything else as it was; a motion after it is not handled by the
    operation.  A release of another button, or with no node being
    resized, is not handled. *)
Theorem resize_release_stops (s : store) (t : Shape)
  (x y dividerWidth : num) (state button : Z)
  (Hshaped : shaped s t) (Hnodup : NoDup (nodes t)) :
  let op := ResizeOperation.mk (root t) dividerWidth in
  (button = Clutter.BUTTON_PRIMARY ->
   find (holds s isResizing) (nodes t) <> None ->
   exists s',
     ResizeOperation.onButtonRelease op x y state button s
     = Some (OperationResult.handledAndRedraw, s')
     /\ arrs s' = arrs s
     /\ (forall r, objs s' !! r =
                   if bool_decide (r ∈ nodes t) then stopped <$> objs s !! r
                   else objs s !! r)
     /\ forall x' y' state',
          ResizeOperation.onMotion op x' y' state' s'
          = Some (OperationResult.notHandled, s'))
  /\ (button <> Clutter.BUTTON_PRIMARY
      \/ find (holds s isResizing) (nodes t) = None ->
      ResizeOperation.onButtonRelease op x y state button s
      = Some (OperationResult.notHandled, s)).
Proof.
  intros op. subst op.
  pose proof (height_budget s t Hshaped Hnodup) as Hb.
  split.
  - intros -> Hsome.
    destruct (forSelfAndDescendants_applies stopped t ltac:(by intros ?)
                (budget s) s Hshaped Hnodup Hb) as (s1 & Hrun1 & Ha1 & Ho1).
    exists s1. split.
    { unfold ResizeOperation.onButtonRelease. cbn [ResizeOperation.tree Z.eqb].
      unfold LayoutNode.findNode.
      rewrite (findNode_shaped s _ t Hshaped _ Hb).
      destruct (find (holds s isResizing) (nodes t)); [|done].
      cbn [mbind option_bind]. unfold ResizeOperation._stopResizing.
      cbn [ResizeOperation.tree]. unfold LayoutNode.forSelfAndDescendants.
      fold stopped. by rewrite Hrun1. }
    split; [done|]. split; [done|].
    intros x' y' state'.
    assert (Hshaped1 : shaped s1 t).
    { eapply shaped_applied; [|split; done|done]. by intros ?. }
    unfold ResizeOperation.onMotion, ResizeOperation._handleResizing.
    cbn [ResizeOperation.tree]. unfold LayoutNode.findNode.
    rewrite (findNode_shaped s1 _ t Hshaped1 _ (height_budget s1 t Hshaped1 Hnodup)).
    replace (find _ _) with (@None nat); [done|].
    symmetry. apply find_holds_None. intros n o Hn Ho.
    rewrite Ho1, (bool_decide_eq_true_2 _ Hn) in Ho.
    destruct (objs s !! n); [|done]. by injection Ho as <-.
  - intros [Hbtn|Hnone].
    + unfold ResizeOperation.onButtonRelease. apply Z.eqb_neq in Hbtn.
      by rewrite Hbtn.
    + unfold ResizeOperation.onButtonRelease.
      destruct (button =? Clutter.BUTTON_PRIMARY)%Z; [|done].
      cbn [ResizeOperation.tree]. unfold LayoutNode.findNode.
      by rewrite (findNode_shaped s _ t Hshaped _ Hb), Hnone.
Qed.

Lemma resize_release_stops_witness :
  exists s',
    ResizeOperation.onButtonRelease (ResizeOperation.mk 2 (Num.ofZ 20))
      (Num.ofZ 0) (Num.ofZ 0) 0 Clutter.BUTTON_PRIMARY resizingStore
    = Some (OperationResult.handledAndRedraw, s')
    /\ ResizeOperation.onMotion (ResizeOperation.mk 2 (Num.ofZ 20))
         (Num.ofZ 0) (Num.ofZ 0) 0 s'
       = Some (OperationResult.notHandled, s').
Proof.
  destruct (resize_release_stops resizingStore smallTree (Num.ofZ 0) (Num.ofZ 0)
              (Num.ofZ 20) 0 Clutter.BUTTON_PRIMARY
              resizingStore_shaped smallTree_NoDup) as [H _].
  destruct (H eq_refl) as (s' & Hrun & _ & _ & Hmotion); [discriminate|].
  exists s'. split; [exact Hrun|apply Hmotion].
Defined.




(** * PreviewSplitOperation *)

(** X20: [_startPreview] on a node without a parent, or whose axis
    differs from the axis of the preview percentage, makes the node an
    internal node with a new array of two new children: the preview node
    with the percentage given, marked as preview and highlighted, and a
    highlighted filler with the sentinel of the preview's axis
    ([+Infinity] for a column split, [-Infinity] for a row split); both
    have the node as parent and the node's margin.  The node's old array
    and every other object are left as they were. *)
Theorem startPreview_splits_node (s : store) (splittingNode : ref) (sn : obj)
  (p : num)
  (Hsn : objs s !! splittingNode = Some sn)
  (Hcross : parent sn = None \/ axisOf (JNum p) <> LayoutNode.axis sn) :
  let pn := length (objs s) in
  let lc := S (length (objs s)) in
  exists s',
    PreviewSplitOperation._startPreview splittingNode p s = Some (s', pn)
    /\ kids s' splittingNode = Some [pn; lc]
    /\ objs s' !! pn
       = Some (mkObj (JNum p) (Some splittingNode) (length (arrs s))
                     LayoutNode.zeroRect false true true None false (margin sn))
    /\ objs s' !! lc
       = Some (mkObj (JNum (LastNodePercentages (axisOf (JNum p))))
                     (Some splittingNode) (S (length (arrs s)))
                     LayoutNode.zeroRect false false true None false (margin sn))
    /\ kids s' pn = Some [] /\ kids s' lc = Some []
    /\ objs s' !! splittingNode
       = Some (set_children (S (S (length (arrs s)))) sn)
    /\ (forall r, r < length (objs s) -> r <> splittingNode ->
                  objs s' !! r = objs s !! r)
    /\ (forall a, a < length (arrs s) -> arrs s' !! a = arrs s !! a).
Proof.
  intros pn lc.
  assert (Hlt : splittingNode < length (objs s)) by by eapply lookup_lt_Some.
  unfold PreviewSplitOperation._startPreview. rewrite new_leaf.
  cbn [mbind option_bind objs]. rewrite lookup_app_l, Hsn by done.
  cbn [mbind option_bind]. rewrite updObj_lookup_eq. cbn [objs].
  rewrite list_lookup_middle by done.
  cbn [mbind option_bind fmap option_fmap option_map].
  set (po := set_margin _ _).
  assert (Hax : LayoutNode.axis po = axisOf (JNum p)) by apply axis_axisOf.
  assert (Hbranch :
    match LayoutNode.axis po, LayoutNode.axis sn, parent sn with
    | AxisX, AxisX, Some _ | AxisY, AxisY, Some _ => False
    | _, _, _ => True
    end).
  { rewrite Hax. destruct Hcross as [->|Hne];
      [by destruct (axisOf _), (LayoutNode.axis sn)|].
    destruct (axisOf (JNum p)), (LayoutNode.axis sn), (parent sn); done. }
  rewrite <- Hax.
  set (s1 := updObj _ (length (objs s)) _).
  assert (Hlen1 : length (objs s1) = S (length (objs s))).
  { unfold s1. rewrite updObj_length. cbn [objs]. rewrite length_app. simpl. lia. }
  assert (Harrs1 : arrs s1 = arrs s ++ [[]]) by done.
  assert (Hpn1 : objs s1 !! pn = Some po).
  { unfold s1, pn. rewrite updObj_lookup_eq. cbn [objs].
    by rewrite list_lookup_middle. }
  assert (Hold1 : forall r, r < length (objs s) -> objs s1 !! r = objs s !! r).
  { intros r Hr. unfold s1. rewrite updObj_lookup_ne by lia. cbn [objs].
    by rewrite lookup_app_l. }
  set (s3 := mkStore (objs s1
                      ++ [LayoutNode.fresh
                            (JNum (LastNodePercentages (LayoutNode.axis po)))
                            (S (length (arrs s)))])
                     ((arrs s ++ [[]]) ++ [[]])).
  set (s5 := updObj (set_parent (Some splittingNode)) pn
               (updObj (fun n => set_margin (margin sn)
                                   (set_parent (Some splittingNode)
                                      (set_isHighlighted true n))) lc s3)).
  set (s' := updObj (set_children (S (S (length (arrs s))))) splittingNode
               (mkStore (objs s5) (arrs s5 ++ [[pn; lc]]))).
  exists s'. split.
  { destruct (LayoutNode.axis po), (LayoutNode.axis sn), (parent sn);
      try done; rewrite new_leaf; cbn [mbind option_bind allocArr];
      rewrite ?updObj_length, ?updObj_arrs, Hlen1, Harrs1; cbn [objs arrs];
      rewrite !length_app; cbn [length];
      replace (length (arrs s) + 1) with (S (length (arrs s))) by lia;
      replace (S (length (arrs s)) + 1) with (S (S (length (arrs s)))) by lia;
      reflexivity. }
  assert (Hobj : forall r, objs s' !! r =
            if decide (splittingNode = r)
            then set_children (S (S (length (arrs s)))) <$> objs s5 !! r
            else objs s5 !! r).
  { intros r. unfold s'. by rewrite updObj_lookup. }
  assert (Hobj5 : forall r, objs s5 !! r =
            if decide (pn = r)
            then set_parent (Some splittingNode)
                 <$> (if decide (lc = r)
                      then (fun n => set_margin (margin sn)
                                       (set_parent (Some splittingNode)
                                          (set_isHighlighted true n)))
                           <$> objs s3 !! r
                      else objs s3 !! r)
            else if decide (lc = r)
                 then (fun n => set_margin (margin sn)
                                  (set_parent (Some splittingNode)
                                     (set_isHighlighted true n)))
                      <$> objs s3 !! r
                 else objs s3 !! r).
  { intros r. unfold s5. by rewrite !updObj_lookup. }
  assert (Ha : arrs s' = ((arrs s ++ [[]]) ++ [[]]) ++ [[pn; lc]]) by done.
  assert (Hne1 : splittingNode <> pn) by (unfold pn; lia).
  assert (Hne2 : splittingNode <> lc) by (unfold lc; lia).
  assert (Hne3 : pn <> lc) by (unfold pn, lc; lia).
  assert (Hpn : objs s' !! pn
                = Some (mkObj (JNum p) (Some splittingNode) (length (arrs s))
                              LayoutNode.zeroRect false true true None false
                              (margin sn))).
  { rewrite Hobj, decide_False by done. rewrite Hobj5, decide_True by done.
    rewrite decide_False by done. unfold s3. cbn [objs].
    rewrite lookup_app_l by (unfold pn; lia). by rewrite Hpn1. }
  assert (Hlc : objs s' !! lc
                = Some (mkObj (JNum (LastNodePercentages (axisOf (JNum p))))
                              (Some splittingNode) (S (length (arrs s)))
                              LayoutNode.zeroRect false false true None false
                              (margin sn))).
  { rewrite Hobj, decide_False by done. rewrite Hobj5, decide_False by done.
    rewrite decide_True by done. unfold s3. cbn [objs].
    unfold lc. rewrite <- Hlen1. rewrite list_lookup_middle by done.
    by rewrite Hax. }
  assert (Hspl : objs s' !! splittingNode
                 = Some (set_children (S (S (length (arrs s)))) sn)).
  { rewrite Hobj, decide_True by done. rewrite Hobj5, !decide_False by done.
    unfold s3. cbn [objs]. rewrite lookup_app_l by lia.
    by rewrite Hold1, Hsn. }
  split.
  { unfold kids. rewrite Hspl, Ha. cbn.
    rewrite lookup_app_r; rewrite !length_app; cbn [length]; [|lia].
    by replace (S (S (length (arrs s))) - (length (arrs s) + 1 + 1)) with 0 by lia. }
  split; [exact Hpn|]. split; [exact Hlc|]. split.
  { unfold kids. rewrite Hpn, Ha. cbn. rewrite <- !app_assoc.
    rewrite lookup_app_r by lia. by rewrite Nat.sub_diag. }
  split.
  { unfold kids. rewrite Hlc, Ha. cbn. rewrite <- app_assoc.
    rewrite lookup_app_r; rewrite !length_app; cbn [length]; [|lia].
    by replace (S (length (arrs s)) - (length (arrs s) + 1)) with 0 by lia. }
  split; [exact Hspl|]. split.
  - intros r Hr Hne. rewrite Hobj, decide_False by done.
    rewrite Hobj5, !decide_False by (unfold pn, lc; lia).
    unfold s3. cbn [objs]. rewrite lookup_app_l by lia. by apply Hold1.
  - intros a Hlta. rewrite Ha, <- !app_assoc. by rewrite lookup_app_l.
Qed.

Lemma startPreview_splits_node_witness :
  exists s',
    PreviewSplitOperation._startPreview 2 (Fin (7 # 10)) smallStore = Some (s', 4)
    /\ kids s' 2 = Some [4; 5].
Proof.
  destruct (startPreview_splits_node smallStore 2 _ (Fin (7 # 10)) eq_refl
              (or_introl eq_refl)) as (s' & Hrun & Hk & _).
  by exists s'.
Defined.

(** X21: [_startPreview] on a node whose parent's children are in
    order, with a finite preview percentage on the node's own axis, asks
    the parent to insert the preview node: the new node becomes a child
    of the parent at the position that keeps the children ascending by
    [abs(percentage)], before the sentinel child, with the parent as its
    [parent]; the split node is highlighted and keeps its children. *)
Theorem startPreview_inserts_into_parent (s : store)
  (splittingNode par : ref) (sn : obj) (q : Q) (cs : list ref)
  (Hsn : objs s !! splittingNode = Some sn)
  (Hparent : parent sn = Some par)
  (Hsame : axisOf (JNum (Fin q)) = LayoutNode.axis sn)
  (Hsorted : sortedChildren s par)
  (Hkids : kids s par = Some cs) :
  let pn := length (objs s) in
  exists s' i,
    PreviewSplitOperation._startPreview splittingNode (Fin q) s = Some (s', pn)
    /\ kids s' par = Some (spliceIn (Some i) pn cs)
    /\ sortedChildren s' par
    /\ objs s' !! pn
       = Some (mkObj (JNum (Fin q)) (Some par) (length (arrs s))
                     LayoutNode.zeroRect false true true None false (margin sn))
    /\ (forall r, r < length (objs s) ->
          objs s' !! r = (if decide (splittingNode = r)
                          then set_isHighlighted true else id) <$> objs s !! r).
Proof.
  intros pn.
  assert (Hlt : splittingNode < length (objs s)) by by eapply lookup_lt_Some.
  unfold PreviewSplitOperation._startPreview. rewrite new_leaf.
  cbn [mbind option_bind objs]. rewrite lookup_app_l, Hsn by done.
  cbn [mbind option_bind]. rewrite updObj_lookup_eq. cbn [objs].
  rewrite list_lookup_middle by done.
  cbn [mbind option_bind fmap option_fmap option_map].
  set (po := set_margin _ _).
  assert (Hax : LayoutNode.axis po = axisOf (JNum (Fin q))) by apply axis_axisOf.
  set (s1 := updObj _ (length (objs s)) _).
  assert (Hpn1 : objs s1 !! pn = Some po).
  { unfold s1, pn. rewrite updObj_lookup_eq. cbn [objs].
    by rewrite list_lookup_middle. }
  assert (Hold1 : forall r, r < length (objs s) -> objs s1 !! r = objs s !! r).
  { intros r Hr. unfold s1. rewrite updObj_lookup_ne by lia. cbn [objs].
    by rewrite lookup_app_l. }
  assert (Harr1 : forall a, a < length (arrs s) -> arrs s1 !! a = arrs s !! a).
  { intros a Ha. unfold s1. rewrite updObj_arrs. cbn [arrs].
    by rewrite lookup_app_l. }
  pose proof Hkids as (paro & Hparo & Hpcs)%kids_Some.
  assert (Hk1 : kids s1 par = Some cs).
  { unfold kids. rewrite Hold1 by (by eapply lookup_lt_Some). rewrite Hparo.
    cbn. rewrite Harr1; [done|by eapply lookup_lt_Some]. }
  destruct Hsorted as (cs0 & os & lc & Hk0 & Hos & Hasc & Hlast & Hsent).
  rewrite Hkids in Hk0. injection Hk0 as <-.
  pose proof (objects_lt s cs os Hos) as Hcslt.
  assert (Hsorted1 : sortedChildren s1 par).
  { exists cs, os, lc. repeat (split; [done|]). split; [|done].
    rewrite <- Hos. apply objects_ext. intros c Hc.
    rewrite Forall_forall in Hcslt. by apply Hold1, Hcslt. }
  assert (Hnin : pn ∉ cs).
  { intros Hin. rewrite Forall_forall in Hcslt. apply Hcslt in Hin.
    unfold pn in Hin. lia. }
  destruct (insertChild_inserts s1 par pn cs po q Hsorted1 Hk1 Hpn1 eq_refl Hnin)
    as (s2 & i & Hrun & Hk2 & Hsorted2 & Hobj2).
  exists (updObj (set_isHighlighted true) splittingNode s2), i.
  split.
  { rewrite Hax, Hsame, Hparent.
    destruct (LayoutNode.axis sn); fold pn; rewrite Hrun; reflexivity. }
  assert (Hne : pn <> splittingNode) by (unfold pn; lia).
  split.
  { unfold kids in *. rewrite updObj_lookup, updObj_arrs.
    destruct (decide (splittingNode = par)) as [->|]; [|done].
    destruct (objs s2 !! par); [|done]. exact Hk2. }
  split.
  { apply (sortedChildren_ext s2); [| |done].
    - unfold kids. rewrite updObj_lookup, updObj_arrs.
      case_decide; [subst|done]. by destruct (objs s2 !! par).
    - intros c. rewrite updObj_lookup. case_decide; [subst|done].
      by destruct (objs s2 !! c). }
  split.
  { rewrite updObj_lookup_ne by done. rewrite Hobj2, decide_True by done.
    reflexivity. }
  intros r Hr. rewrite updObj_lookup, Hobj2.
  destruct (decide (pn = r)) as [E|_]; [unfold pn in E; lia|].
  rewrite Hold1 by done.
  case_decide; by destruct (objs s !! r).
Qed.

Lemma startPreview_inserts_into_parent_witness :
  exists s' i,
    PreviewSplitOperation._startPreview 0 (Fin (-1 # 4)) linkedStore = Some (s', 4)
    /\ kids s' 2 = Some (spliceIn (Some i) 4 [0; 1])
    /\ sortedChildren s' 2.
Proof.
  assert (Hsorted : sortedChildren linkedStore 2).
  { eexists [0; 1], _, _. split; [reflexivity|]. split; [reflexivity|].
    repeat split. }
  destruct (startPreview_inserts_into_parent linkedStore 0 2 _ (-1 # 4) [0; 1]
              eq_refl eq_refl eq_refl Hsorted eq_refl)
    as (s' & i & Hrun & Hk & Hs & _).
  by exists s', i.
Defined.

(** X22: a primary-button press while a node of the tree is a preview
    is always handled with a redraw.  When [validateRects] accepts the
    layout the preview is made permanent: [isPreview] and [originalRect]
    are cleared on every node of the tree, nothing else changes, and the
    snapshot is dropped, so that a later [_cancel] has nothing to revert
    to.  When it does not, the press changes nothing and the snapshot is
    kept. *)
Theorem preview_click_finalizes (s : store) (t : Shape)
  (snap : option ref) (x y : num) (state : Z)
  (Hshaped : shaped s t) (Hnodup : NoDup (nodes t))
  (Hpreview : find (holds s isPreview) (nodes t) <> None) :
  let op := PreviewSplitOperation.mk (root t) snap in
  exists (valid : bool) s' op',
    PreviewSplitOperation.onButtonPress op x y state Clutter.BUTTON_PRIMARY s
    = Some (OperationResult.handledAndRedraw, op', s')
    /\ LayoutNode.validateRects (root t) s = Some valid
    /\ if valid
       then op' = PreviewSplitOperation.mk (root t) None
            /\ arrs s' = arrs s
            /\ (forall r, objs s' !! r =
                          if bool_decide (r ∈ nodes t)
                          then finalized <$> objs s !! r
                          else objs s !! r)
            /\ find (holds s' isPreview) (nodes t) = None
            /\ PreviewSplitOperation._cancel op' s' = Some (op', s')
       else op' = op /\ s' = s.
Proof.
  intros op. subst op.
  pose proof (height_budget s t Hshaped Hnodup) as Hb.
  pose proof (validateRects_spec s t Hshaped _ Hb) as Hvalid.
  assert (Hrun0 : PreviewSplitOperation.onButtonPress
                    (PreviewSplitOperation.mk (root t) snap) x y state
                    Clutter.BUTTON_PRIMARY s
                  = ('(this, s) ← PreviewSplitOperation._finalizePreview
                                    (PreviewSplitOperation.mk (root t) snap) s;
                     Some (OperationResult.handledAndRedraw, this, s))).
  { unfold PreviewSplitOperation.onButtonPress. cbn [PreviewSplitOperation.tree].
    unfold LayoutNode.findNode.
    rewrite (findNode_shaped s _ t Hshaped _ Hb).
    by destruct (find (holds s isPreview) (nodes t)). }
  unfold PreviewSplitOperation._finalizePreview in Hrun0.
  cbn [PreviewSplitOperation.tree] in Hrun0.
  unfold LayoutNode.validateRects in *. rewrite Hvalid in Hrun0.
  cbn [mbind option_bind] in Hrun0.
  destruct (forallb (holds s bigEnough) (nodes t)) eqn:Ev.
  - destruct (forSelfAndDescendants_applies finalized t ltac:(by intros ?)
                (budget s) s Hshaped Hnodup Hb) as (s1 & Hrun1 & Ha1 & Ho1).
    unfold LayoutNode.forSelfAndDescendants in Hrun0. fold finalized in Hrun0.
    rewrite Hrun1 in Hrun0. cbn [mbind option_bind] in Hrun0.
    exists true, s1, (PreviewSplitOperation.mk (root t) None).
    split; [exact Hrun0|]. split; [by rewrite Hvalid|].
    repeat (split; [done|]). split; [|done].
    apply find_holds_None. intros n o Hn Ho.
    rewrite Ho1, (bool_decide_eq_true_2 _ Hn) in Ho.
    destruct (objs s !! n); [|done]. by injection Ho as <-.
  - cbn [mbind option_bind] in Hrun0.
    exists false, s, (PreviewSplitOperation.mk (root t) snap).
    split; [exact Hrun0|]. split; [by rewrite Hvalid|]. done.
Qed.

Lemma preview_click_finalizes_witness :
  exists (valid : bool) s' op',
    PreviewSplitOperation.onButtonPress (PreviewSplitOperation.mk 2 None)
      (Num.ofZ 0) (Num.ofZ 0) 0 Clutter.BUTTON_PRIMARY previewStore
    = Some (OperationResult.handledAndRedraw, op', s')
    /\ LayoutNode.validateRects 2 previewStore = Some valid.
Proof.
  assert (Hs : shaped previewStore smallTree) by repeat constructor.
  destruct (preview_click_finalizes previewStore smallTree None
              (Num.ofZ 0) (Num.ofZ 0) 0 Hs smallTree_NoDup)
    as (valid & s' & op' & Hrun & Hv & _); [discriminate|].
  by exists valid, s', op'.
Defined.

(** * The shape of a clone *)

Lemma kids_frame (s s' : store) (n : ref) (cs : list ref) :
  (forall x, x < length (objs s) -> objs s' !! x = objs s !! x) ->
  (forall a, a < length (arrs s) -> arrs s' !! a = arrs s !! a) ->
  kids s n = Some cs -> kids s' n = Some cs.
Proof.
  intros Hobj Harr. rewrite !kids_Some. intros (o & Ho & Hcs).
  exists o. split.
  - rewrite Hobj; [done|]. by eapply lookup_lt_Some.
  - rewrite Harr; [done|]. by eapply lookup_lt_Some.
Qed.

Lemma shaped_frame (s s' : store) (t : Shape) :
  (forall x, x < length (objs s) -> objs s' !! x = objs s !! x) ->
  (forall a, a < length (arrs s) -> arrs s' !! a = arrs s !! a) ->
  shaped s t -> shaped s' t.
Proof.
  intros Hobj Harr.
  induction t as [r l IH] using Shape_induction.
  intros [Hk Hl]%shaped_inv. constructor.
  - by apply (kids_frame s).
  - rewrite Forall_forall in IH, Hl. apply Forall_forall. intros t Ht.
    apply IH; [done|]. by apply Hl.
Qed.

Lemma setParents_kids (this : ref) (cs : list ref) (s : store) (n : ref) :
  kids (LayoutNode.setParents this cs s) n = kids s n.
Proof.
  unfold kids. rewrite setParents_arrs, setParents_lookup.
  destruct (objs s !! n) as [o|]; [|done]. cbn [fmap option_fmap option_map].
  by case_bool_decide.
Qed.

Lemma updObj_kids (f : obj -> obj) (r : ref) (s : store) (n : ref) :
  keepsChildren f -> kids (updObj f r s) n = kids s n.
Proof.
  intros Hf. unfold kids. rewrite updObj_arrs, updObj_lookup.
  destruct (decide (r = n)) as [->|]; [|done].
  destruct (objs s !! n) as [o|]; [|done]. cbn. by rewrite Hf.
Qed.

Lemma shaped_kids_Some (s : store) (t : Shape) (n : ref) :
  shaped s t -> n ∈ nodes t -> exists cs, kids s n = Some cs.
Proof.
  induction t as [r l IH] using Shape_induction.
  intros [Hk Hl]%shaped_inv. cbn [nodes].
  intros [->|Hn]%elem_of_cons; [by eexists|].
  apply list_elem_of_bind in Hn as (u & Hn & Hu).
  rewrite Forall_forall in IH, Hl. by apply (IH u Hu); [apply Hl|].
Qed.

Lemma shaped_kids_keep (s s' : store) (t : Shape) :
  (forall n cs, kids s n = Some cs -> kids s' n = Some cs) ->
  shaped s t -> shaped s' t.
Proof.
  intros Hk Hs. apply (shaped_kids_ext s); [|done].
  intros r Hr. destruct (shaped_kids_Some s t r Hs Hr) as [cs Hcs].
  by rewrite Hcs, (Hk r cs Hcs).
Qed.

Lemma cloneChildren_shape (fuel L0 : nat) (l : list Shape) :
  Forall clonesShape l -> Forall (fun t => height t <= fuel) l ->
  forall (s : store) (ats : list Shape),
    Forall (shaped s) l ->
    L0 <= length (objs s) ->
    Forall (shaped s) ats -> NoDup (ats ≫= nodes) ->
    Forall (fun n => L0 <= n /\ n < length (objs s)) (ats ≫= nodes) ->
    exists s' ts,
      foldlM (fun '(s, acc) child =>
                '(s, c) ← LayoutNode.clone_ fuel child s;
                Some (s, acc ++ [c])) (s, root <$> ats) (root <$> l)
      = Some (s', root <$> ts)
      /\ length ts = length ats + length l
      /\ Forall (shaped s') ts /\ NoDup (ts ≫= nodes)
      /\ Forall (fun n => L0 <= n /\ n < length (objs s')) (ts ≫= nodes)
      /\ length (objs s) <= length (objs s')
      /\ length (arrs s) <= length (arrs s')
      /\ (forall x, x < length (objs s) -> objs s' !! x = objs s !! x)
      /\ (forall a, a < length (arrs s) -> arrs s' !! a = arrs s !! a).
Proof.
  induction l as [|t l IHl]; intros IH Hfuel s ats Hl HL Hats Hnd Hrange.
  { exists s, ats. simpl. repeat split; try done; lia. }
  apply Forall_cons in IH as [IHt IH]. apply Forall_cons in Hfuel as [Hft Hfuel].
  apply Forall_cons in Hl as [Ht Hl].
  rewrite fmap_cons. cbn [foldlM].
  destruct (IHt fuel s Ht Hft)
    as (s1 & c & tc & Hrun & Hroot & Hsh & Hndc & Hrc & Ha1 & Hobj1 & Harr1).
  rewrite Hrun. cbn [mbind option_bind].
  assert (Hl1 : length (objs s) <= length (objs s1)).
  { pose proof (proj1 (Forall_forall _ _) Hrc _ (nodes_root tc)). simpl in *. lia. }
  destruct (IHl IH Hfuel s1 (ats ++ [tc]))
    as (s' & ts & Hfold & Hlen & Hts & Hndts & Hrts & Hl' & Hla' & Hobj' & Harr').
  { eapply Forall_impl; [exact Hl|]. intros u. by apply shaped_frame. }
  { lia. }
  { apply Forall_app. split.
    - eapply Forall_impl; [exact Hats|]. intros u. by apply shaped_frame.
    - by apply Forall_singleton. }
  { rewrite bind_app. simpl. rewrite app_nil_r.
    apply NoDup_app. split; [done|]. split; [|done].
    intros x Hx Hx'. rewrite Forall_forall in Hrange, Hrc.
    apply Hrange in Hx. apply Hrc in Hx'. lia. }
  { rewrite bind_app. simpl. rewrite app_nil_r. apply Forall_app. split.
    - eapply Forall_impl; [exact Hrange|]. intros x [? ?]. simpl. lia.
    - eapply Forall_impl; [exact Hrc|]. intros x [? ?]. simpl. lia. }
  exists s', ts. rewrite fmap_app in Hfold. simpl in Hfold. rewrite Hroot in Hfold.
  split; [exact Hfold|].
  split; [rewrite Hlen, length_app; simpl; lia|].
  split; [done|]. split; [done|]. split; [done|].
  split; [lia|]. split; [lia|]. split.
  - intros x Hx. rewrite Hobj' by lia. by apply Hobj1.
  - intros a Ha. rewrite Harr' by lia. by apply Harr1.
Qed.

Lemma clone_shape (t : Shape) : clonesShape t.
Proof.
  induction t as [r l IH] using Shape_induction.
  intros [|fuel] s Hshaped Hfuel; [simpl in Hfuel; lia|].
  apply shaped_inv in Hshaped as [Hk Hl].
  apply kids_Some in Hk as (o & Ho & Hcs).
  simpl in Hfuel. apply le_S_n in Hfuel.
  cbn [LayoutNode.clone_ root]. rewrite Ho. cbn [mbind option_bind].
  rewrite Hcs. cbn [mbind option_bind].
  set (L0 := length (objs s)).
  destruct (cloneChildren_shape fuel L0 l IH (Forall_height _ _ Hfuel) s []
              Hl (le_n _) (Forall_nil_2 _) (NoDup_nil_2) (Forall_nil_2 _))
    as (s1 & ts & Hfold & Hlen & Hts & Hndts & Hrts & Hl1 & Ha1 & Hobj1 & Harr1).
  change (root <$> []) with (@nil ref) in Hfold.
  rewrite Hfold. cbn [mbind option_bind].
  cbn [allocArr]. unfold LayoutNode.new. cbn [allocObj].
  cbn [arrs objs mbind option_bind].
  rewrite list_lookup_middle by done. cbn [mbind option_bind].
  set (arr := length (arrs s1)). set (c := length (objs s1)).
  set (cl := root <$> ts).
  set (s2 := LayoutNode.setParents c cl
               {| objs := objs s1 ++ [LayoutNode.fresh (percentage o) arr];
                  arrs := arrs s1 ++ [cl] |}).
  assert (Hlen2 : length (objs s2) = S c).
  { unfold s2. rewrite setParents_length. cbn [objs]. rewrite length_app.
    simpl. unfold c. lia. }
  assert (Harrs2 : arrs s2 = arrs s1 ++ [cl]).
  { unfold s2. by rewrite setParents_arrs. }
  assert (Hclb : Forall (fun x => L0 <= x /\ x < c) cl).
  { apply Forall_forall. intros x [u [-> Hu]]%list_elem_of_fmap.
    rewrite Forall_forall in Hrts. apply Hrts.
    apply list_elem_of_bind. exists u. split; [apply nodes_root|done]. }
  assert (Hk2 : forall n cs, kids s1 n = Some cs -> kids s2 n = Some cs).
  { intros n cs Hn. unfold s2. rewrite setParents_kids.
    apply (kids_frame s1); [| |done].
    - intros x Hx. cbn [objs]. by rewrite lookup_app_l.
    - intros a Ha. cbn [arrs]. by rewrite lookup_app_l. }
  assert (Hold2 : forall x, x < L0 -> objs s2 !! x = objs s !! x).
  { intros x Hx. unfold s2. rewrite setParents_lookup. cbn [objs].
    rewrite lookup_app_l by (unfold L0 in *; lia).
    rewrite bool_decide_eq_false_2.
    - rewrite Hobj1 by done. by destruct (objs s !! x).
    - intros Hin. rewrite Forall_forall in Hclb. apply Hclb in Hin. lia. }
  assert (Hc2 : kids s2 c = Some cl).
  { unfold s2. rewrite setParents_kids. unfold kids. cbn [objs arrs].
    rewrite list_lookup_middle by done. cbn.
    by rewrite list_lookup_middle. }
  assert (Hctor : exists s3,
             (if 2 <=? length cl
              then first ← head cl;
                   fo ← objs s2 !! first;
                   lastChild ← last cl;
                   Some (updObj (set_percentage
                                   (JNum (if LayoutNode.isAxisX (LayoutNode.axis fo)
                                          then LastNodeXPercentage
                                          else LastNodeYPercentage)))
                                lastChild s2, c)
              else Some (s2, c)) = Some (s3, c)
             /\ length (objs s3) = S c /\ arrs s3 = arrs s2
             /\ (forall n, kids s3 n = kids s2 n)
             /\ (forall x, x < L0 -> objs s3 !! x = objs s2 !! x)).
  { destruct (2 <=? length cl) eqn:E2; [|by exists s2].
    apply Nat.leb_le in E2.
    destruct cl as [|c0 cl0] eqn:Ecl; [simpl in E2; lia|].
    cbn [head mbind option_bind].
    apply Forall_cons in Hclb as [[Hc0 Hc0'] Hclb].
    destruct (objs s2 !! c0) as [fo|] eqn:Hfo.
    2:{ apply lookup_ge_None in Hfo. lia. }
    cbn [mbind option_bind].
    destruct (last (c0 :: cl0)) as [lc|] eqn:Hlast;
      [|apply last_None in Hlast; discriminate Hlast].
    cbn [mbind option_bind].
    assert (Hlc : L0 <= lc /\ lc < c).
    { apply last_Some_elem_of in Hlast.
      apply elem_of_cons in Hlast as [->|Hin]; [done|].
      rewrite Forall_forall in Hclb. by apply Hclb. }
    eexists. split; [reflexivity|].
    split; [by rewrite updObj_length|]. split; [done|]. split.
    - intros n. by apply updObj_kids.
    - intros x Hx. apply updObj_lookup_ne. lia. }
  destruct Hctor as (s3 & -> & Hlen3 & Harrs3 & Hk3 & Hold3).
  cbn [mbind option_bind].
  assert (Hr : r < L0) by by eapply lookup_lt_Some.
  rewrite Hold3, Hold2, Ho by done. cbn [mbind option_bind].
  set (f := fun c0 : obj => _).
  assert (Hf : keepsChildren f) by done.
  eexists _, c, (Sh c ts).
  split; [reflexivity|]. split; [done|].
  split.
  { constructor.
    - by rewrite updObj_kids, Hk3.
    - eapply Forall_impl; [exact Hts|]. intros u Hu.
      apply (shaped_kids_keep s1); [|done].
      intros n cs Hn. rewrite updObj_kids, Hk3 by done. by apply Hk2. }
  split.
  { cbn [nodes]. apply NoDup_cons. split; [|done].
    intros Hin. rewrite Forall_forall in Hrts. apply Hrts in Hin. unfold c in Hin. lia. }
  split.
  { rewrite updObj_length, Hlen3. cbn [nodes]. apply Forall_cons. split.
    - unfold c, L0 in *. lia.
    - eapply Forall_impl; [exact Hrts|]. intros x [? ?]. simpl. unfold c. lia. }
  split; [rewrite updObj_arrs, Harrs3, Harrs2, length_app; simpl; lia|].
  split.
  - intros x Hx. rewrite updObj_lookup_ne by (unfold c; lia).
    by rewrite Hold3, Hold2.
  - intros a Ha. rewrite updObj_arrs, Harrs3, Harrs2.
    rewrite lookup_app_l by lia. by apply Harr1.
Qed.

(** * A tree takes over the clone of another tree *)

Lemma hasView_withMargin (lo : nat) (s s' : store) (m : num) (t : Shape) :
  arrs s' = arrs s ->
  (forall n, n ∈ nodes t -> objs s' !! n = set_margin m <$> objs s !! n) ->
  shaped s t ->
  forall v, hasView lo s (root t) v -> hasView lo s' (root t) (withMargin m v).
Proof.
  intros Harr.
  induction t as [r l IH] using Shape_induction.
  intros Hobj [Hk Hl]%shaped_inv [p m0 vs] Hv. cbn [root] in Hv.
  apply hasView_inv in Hv as (o & cs & Ho & Hcs & Hlo & Hvs & -> & _).
  assert (cs = root <$> l) as ->.
  { apply kids_Some in Hk as (o' & Ho' & Hcs'). congruence. }
  cbn [root withMargin].
  change (V (percentage o) m (withMargin m <$> vs))
    with (V (percentage (set_margin m o)) (margin (set_margin m o))
            (withMargin m <$> vs)).
  apply (hasView_node lo s' r (set_margin m o) (root <$> l)).
  - rewrite Hobj by apply (nodes_root (Sh r l)). by rewrite Ho.
  - by rewrite Harr.
  - done.
  - clear Hk Ho Hcs Hlo.
    revert vs Hvs. induction l as [|u l IHl]; intros vs Hvs.
    { apply Forall2_nil_inv_l in Hvs as ->. constructor. }
    rewrite fmap_cons in Hvs.
    apply Forall2_cons_inv_l in Hvs as (v & vs' & Hv & Hvs & ->).
    apply Forall_cons in IH as [IHu IH]. apply Forall_cons in Hl as [Hu Hl].
    rewrite !fmap_cons. constructor.
    + apply IHu; [|done|done].
      intros n Hn. apply Hobj. cbn [nodes]. rewrite bind_cons_nodes.
      apply elem_of_cons. right. apply elem_of_app. by left.
    + apply IHl; [done| |done|done].
      intros n Hn. apply Hobj. cbn [nodes] in *. rewrite bind_cons_nodes.
      apply elem_of_cons in Hn as [->|Hn]; [by left|].
      apply elem_of_cons. right. apply elem_of_app. by right.
Qed.

Lemma hasView_rectsOnly (lo : nat) (ns : list ref) (s s' : store) (v : View) :
  rectsOnly ns s s' ->
  forall r, hasView lo s r v -> hasView lo s' r v.
Proof.
  intros Hro.
  induction v as [p m vs IH] using View_induction.
  intros r Hv.
  apply hasView_inv in Hv as (o & cs & Ho & Hcs & Hlo & Hvs & -> & ->).
  destruct (rectsOnly_lookup _ _ _ _ _ Hro Ho) as (o' & Ho' & Hsame).
  apply sameButRect_fields in Hsame as (Hp & Hc & Hm & _).
  rewrite <- Hp, <- Hm.
  apply (hasView_node lo s' r o' cs); [done| |done|].
  - destruct Hro as [-> _]. by rewrite Hc.
  - clear Hcs Hlo. revert cs Hvs.
    induction vs as [|v vs IHvs]; intros cs Hvs.
    { apply Forall2_nil_inv_r in Hvs as ->. constructor. }
    apply Forall2_cons_inv_r in Hvs as (c & cs' & Hc' & Hvs & ->).
    apply Forall_cons in IH as [IHv IH].
    constructor; [by apply IHv|by apply IHvs].
Qed.

Lemma adopt_clone (s : store) (src : Shape) (v : View) (r : ref) (ro : obj)
  (m : num) (R : Rect.t) :
  shaped s src -> NoDup (nodes src) -> hasView 0 s (root src) v ->
  objs s !! r = Some ro ->
  exists s1 c s2 s3 s4 tr so ch,
    LayoutNode.clone (root src) s = Some (s1, c)
    /\ LayoutNode.revert r c s1 = Some s2
    /\ LayoutNode.forSelfAndDescendants (set_margin m) r s2 = Some s3
    /\ LayoutNode.calculateRects r (Some R) s3 = Some s4
    /\ objs s !! root src = Some so
    /\ root tr = r /\ shaped s4 tr /\ NoDup (nodes tr)
    /\ (forall n, n ∈ nodes tr -> n = r \/ length (objs s) <= n)
    /\ hasView 0 s4 r (withMargin m (cloneView v))
    /\ LayoutNode.toJSON r s4 = Some (encode (withMargin m (cloneView v)))
    /\ laidOut s4 R tr
    /\ objs s4 !! r
       = Some (mkObj (percentage so) (parent ro) ch R (isResizing so)
                     (isPreview so) (isHighlighted ro) (originalRect ro)
                     (isSnappingDestination ro) m)
    /\ length (arrs s) <= ch
    /\ (forall x, x < length (objs s) -> x <> r -> objs s4 !! x = objs s !! x)
    /\ (forall a, a < length (arrs s) -> arrs s4 !! a = arrs s !! a).
Proof.
  intros Hshaped Hnodup Hview Hro.
  pose proof (hasView_budget s src v Hshaped Hnodup Hview) as Hb.
  pose proof (height_budget s src Hshaped Hnodup) as Hh.
  destruct (clone_spec v (budget s) s (root src) Hview Hb)
    as (s1 & c & so & co & Hrun & Hso & Hco & Hc1 & Hc2 & Ha1 & Hobj1 & Harr1
        & Hsnap & Hcof).
  destruct (clone_shape src (budget s) s Hshaped Hh)
    as (s1' & c' & tc & Hrun' & Hroot & Hsh & Hndc & Hrc & _).
  rewrite Hrun in Hrun'. injection Hrun' as <- <-.
  set (L0 := length (objs s)) in *.
  assert (Hr : r < L0) by by eapply lookup_lt_Some.
  (* revert *)
  set (f := fun t : obj =>
              set_children (children co)
                (set_margin (margin co)
                  (set_isPreview (isPreview co)
                    (set_isResizing (isResizing co)
                      (set_rect (rect co)
                        (set_percentage (percentage co) t)))))).
  set (s2 := updObj f r s1).
  assert (Hrev : LayoutNode.revert r c s1 = Some s2).
  { unfold LayoutNode.revert. by rewrite (Hobj1 r Hr), Hro, Hco. }
  destruct tc as [c0 l]. cbn [root] in Hroot. subst c0.
  apply shaped_inv in Hsh as [Hkc Hl].
  cbn [nodes] in Hndc, Hrc.
  apply NoDup_cons in Hndc as [Hcl Hndl].
  apply Forall_cons in Hrc as [_ Hrl].
  assert (Hge : forall n, n ∈ l ≫= nodes -> L0 <= n).
  { intros n Hn. rewrite Forall_forall in Hrl. by apply Hrl. }
  set (tr := Sh r l).
  assert (Hkco : arrs s1 !! children co = Some (root <$> l)).
  { apply kids_Some in Hkc as (co' & Hco' & Hk). congruence. }
  assert (Hs2 : shaped s2 tr).
  { constructor.
    - unfold kids, s2. rewrite updObj_lookup_eq, updObj_arrs, (Hobj1 r Hr), Hro.
      cbn. exact Hkco.
    - rewrite Forall_forall in Hl. apply Forall_forall. intros u Hu.
      apply (shaped_kids_ext s1); [|by apply Hl].
      intros n Hn. unfold kids, s2. rewrite updObj_arrs, updObj_lookup_ne; [done|].
      intros ->. assert (L0 <= n); [|lia].
      apply Hge. apply list_elem_of_bind. by exists u. }
  assert (Hnd : NoDup (nodes tr)).
  { cbn [nodes]. apply NoDup_cons. split; [|done].
    intros Hin. apply Hge in Hin. lia. }
  assert (Hv2 : hasView 0 s2 r (cloneView v)).
  { apply snapshot_hasView in Hsnap.
    destruct (cloneView v) as [p mv vs] eqn:Ev.
    apply hasView_inv in Hsnap as (co' & cs & Hco' & Hcs & Hlo & Hvs & -> & ->).
    rewrite Hco in Hco'. injection Hco' as <-.
    apply (hasView_mono L0 0); [lia|].
    change (V (percentage co) (margin co) vs)
      with (V (percentage (f ro)) (margin (f ro)) vs).
    apply (hasView_node L0 s2 r (f ro) cs); [| |done|].
    - unfold s2. by rewrite updObj_lookup_eq, (Hobj1 r Hr), Hro.
    - unfold s2. by rewrite updObj_arrs.
    - apply (hasView_frame_all L0 s1 s2); [| |done|done].
      + intros x Hx _. unfold s2. apply updObj_lookup_ne. lia.
      + intros a _. unfold s2. by rewrite updObj_arrs. }
  (* forSelfAndDescendants *)
  destruct (forSelfAndDescendants_applies (set_margin m) tr) with (fuel := budget s2)
    (s := s2) as (s3 & Hrun3 & Happ); [done|done|done|by apply height_budget|].
  change (root tr) with r in Hrun3.
  fold (LayoutNode.forSelfAndDescendants (set_margin m) r s2) in Hrun3.
  assert (Hs3 : shaped s3 tr) by (by apply (shaped_applied (set_margin m) (nodes tr) s2)).
  destruct Happ as [Harr3 Hobj3].
  assert (Hv3 : hasView 0 s3 r (withMargin m (cloneView v))).
  { apply (hasView_withMargin 0 s2 s3 m tr); [done| |done|done].
    intros n Hn. rewrite Hobj3. by rewrite bool_decide_eq_true_2. }
  (* calculateRects *)
  destruct (calculateRects_laysOut tr (budget s3) s3 R None Hs3 Hnd)
    as (s4 & Hrun4 & Hro4 & Hrect4 & Hlaid4); [by apply height_budget|].
  change (root tr) with r in Hrun4, Hrect4. cbn [default] in Hlaid4.
  fold (LayoutNode.calculateRects r (Some R) s3) in Hrun4.
  assert (Hs4 : shaped s4 tr) by (by apply (shaped_rectsOnly (nodes tr) s3)).
  assert (Hv4 : hasView 0 s4 r (withMargin m (cloneView v)))
    by (by apply (hasView_rectsOnly 0 (nodes tr) s3)).
  exists s1, c, s2, s3, s4, tr, so, (children co).
  split; [exact Hrun|]. split; [exact Hrev|]. split; [exact Hrun3|].
  split; [exact Hrun4|]. split; [exact Hso|]. split; [done|].
  split; [exact Hs4|]. split; [exact Hnd|].
  split.
  { intros n [->|Hn]%elem_of_cons; [by left|right; by apply Hge]. }
  split; [exact Hv4|].
  split.
  { unfold LayoutNode.toJSON. apply (toJSON_view 0); [done|].
    by apply (hasView_budget s4 tr). }
  split; [exact Hlaid4|].
  assert (Ho3 : objs s3 !! r = Some (set_margin m (f ro))).
  { rewrite Hobj3, bool_decide_eq_true_2 by apply (nodes_root tr).
    unfold s2. by rewrite updObj_lookup_eq, (Hobj1 r Hr), Hro. }
  split.
  { destruct (rectsOnly_lookup _ _ _ _ _ Hro4 Ho3) as (o4 & Ho4 & Hsame).
    rewrite Ho4 in Hrect4. injection Hrect4 as Hrect4.
    rewrite Ho4. f_equal. unfold sameButRect in Hsame. rewrite Hsame, Hrect4.
    unfold f. rewrite Hcof. reflexivity. }
  split.
  { destruct (cloneView v) as [p mv vs].
    apply snapshot_inv in Hsnap as (co' & cs & Hco' & _ & Hla & _).
    rewrite Hco in Hco'. by injection Hco' as <-. }
  split.
  - intros x Hx Hne.
    assert (Hnin : x ∉ nodes tr).
    { intros [->|Hin]%elem_of_cons; [done|]. apply Hge in Hin. lia. }
    destruct Hro4 as (_ & _ & Hout). rewrite (Hout x Hnin).
    rewrite Hobj3, bool_decide_eq_false_2 by done.
    unfold s2. rewrite updObj_lookup_ne by done. by apply Hobj1.
  - intros a Ha. destruct Hro4 as (-> & _). rewrite Harr3.
    unfold s2. rewrite updObj_arrs. by apply Harr1.
Qed.

(** * The preview operation without a preview *)

Lemma find_Some_elem {A : Type} (p : A -> bool) (l : list A) (a : A) :
  find p l = Some a -> a ∈ l /\ p a = true.
Proof.
  induction l as [|b l IH]; [done|]. simpl.
  destruct (p b) eqn:E.
  - intros [= ->]. split; [by left|done].
  - intros H. destruct (IH H). split; [by right|done].
Qed.

Lemma handlePreview_idle (op : PreviewSplitOperation.t) (s : store) (t : Shape)
  (x y : num) (state : Z) :
  shaped s t -> NoDup (nodes t) ->
  root t = PreviewSplitOperation.tree op ->
  PreviewSplitOperation.ctrlPressed state = false ->
  PreviewSplitOperation.shiftPressed state = false ->
  find (holds s isPreview) (nodes t) = None ->
  PreviewSplitOperation._handlePreview op x y state s
  = Some (OperationResult.notHandled, op, s).
Proof.
  intros Hshaped Hnodup Hroot Hctrl Hshift Hidle.
  pose proof (height_budget s t Hshaped Hnodup) as Hh.
  unfold PreviewSplitOperation._handlePreview.
  unfold LayoutNode.findNodeAtPosition, LayoutNode.findNode.
  rewrite <- Hroot.
  rewrite (findNodeAtPosition_spec s x y t Hshaped _ Hh).
  cbn [mbind option_bind].
  rewrite (findNode_shaped s isPreview t Hshaped _ Hh), Hidle.
  cbn [mbind option_bind PreviewSplitOperation.cancelOutOfBounds].
  unfold PreviewSplitOperation.startNewPreview.
  rewrite Hctrl, Hshift.
  destruct (find (leafAt s x y) (nodes t)) as [n|] eqn:Hn; [|done].
  apply find_Some_elem in Hn as [_ Hn]. unfold leafAt in Hn.
  destruct (objs s !! n) as [o|]; [|done].
  cbn [mbind option_bind]. unfold LayoutNode.isLeaf.
  destruct (arrs s !! children o) as [cs|]; [|done].
  cbn [mbind option_bind]. by rewrite andb_false_r.
Qed.

(** * The usable screen area *)

Lemma addPanels_spec (panels : list Panel.t) :
  Forall solidPanel panels ->
  forall t b l r : Q,
    exists t' b' l' r' : Q,
      foldl WindowUtils.addPanel (Fin t, Fin b, Fin l, Fin r) panels
      = (Fin t', Fin b', Fin l', Fin r')
      /\ (t' == t + thickness Panel.top panels)%Q
      /\ (b' == b - thickness Panel.bottom panels)%Q
      /\ (l' == l + thickness Panel.left panels)%Q
      /\ (r' == r - thickness Panel.right panels)%Q.
Proof.
  induction panels as [|p panels IH]; intros Hsolid t b l r.
  { exists t, b, l, r. cbn. repeat split; ring. }
  apply Forall_cons in Hsolid as [(h & Hh & _) Hsolid].
  cbn [foldl]. unfold WindowUtils.addPanel at 2.
  destruct p as [hideable loc ph]. cbn [Panel.height Panel.isHideable
    Panel.panelPosition] in *. subst ph.
  unfold thickness. cbn [foldr Panel.height Panel.isHideable Panel.panelPosition].
  fold (thickness Panel.top panels). fold (thickness Panel.bottom panels).
  fold (thickness Panel.left panels). fold (thickness Panel.right panels).
  destruct hideable; cbn [negb andb].
  { apply (IH Hsolid). }
  destruct loc; cbn [sameLoc Num.add Num.sub Num.neg].
  - destruct (IH Hsolid (t + h)%Q b l r) as (t' & b' & l' & r' & -> & Ht & Hb & Hl & Hr).
    exists t', b', l', r'. split; [done|]. rewrite Ht, Hb, Hl, Hr.
    repeat split; ring.
  - destruct (IH Hsolid t (b + - h)%Q l r) as (t' & b' & l' & r' & -> & Ht & Hb & Hl & Hr).
    exists t', b', l', r'. split; [done|]. rewrite Ht, Hb, Hl, Hr.
    repeat split; ring.
  - destruct (IH Hsolid t b (l + h)%Q r) as (t' & b' & l' & r' & -> & Ht & Hb & Hl & Hr).
    exists t', b', l', r'. split; [done|]. rewrite Ht, Hb, Hl, Hr.
    repeat split; ring.
  - destruct (IH Hsolid t b l (r + - h)%Q) as (t' & b' & l' & r' & -> & Ht & Hb & Hl & Hr).
    exists t', b', l', r'. split; [done|]. rewrite Ht, Hb, Hl, Hr.
    repeat split; ring.
Qed.

Lemma thickness_nonneg (loc : Panel.PanelLoc) (panels : list Panel.t) :
  Forall solidPanel panels -> (0 <= thickness loc panels)%Q.
Proof.
  induction panels as [|p panels IH]; intros Hsolid; [cbn; lra|].
  apply Forall_cons in Hsolid as [(h & Hh & Hpos) Hsolid].
  specialize (IH Hsolid). unfold thickness in *. cbn [foldr].
  destruct (negb (Panel.isHideable p) && sameLoc (Panel.panelPosition p) loc);
    [|done].
  rewrite Hh. lra.
Qed.

(** * drawLayout *)

Lemma drawRoundedRect_app (cr : list Drawing.Cairo) (rect : Rect.t)
  (radius : num) (fillColor strokeColor : Drawing.Color) :
  Drawing.drawRoundedRect cr rect radius fillColor strokeColor
  = cr ++ Drawing.drawRoundedRect [] rect radius fillColor strokeColor.
Proof. unfold Drawing.drawRoundedRect. cbn [app]. by rewrite <- !app_assoc. Qed.

Lemma drawLayout_spec (displayRect : Rect.t) (colors : Drawing.Colors)
  (cornerRadius : num) (s : store) (t : Shape) :
  shaped s t ->
  forall fuel cr, height t <= fuel ->
    Drawing.drawLayout_ fuel cr (Some (root t)) displayRect (Some colors)
                        (Some cornerRadius) s
    = Some (cr ++ (List.filter (leafNode s) (nodes t)
                   ≫= paintLeaf displayRect colors cornerRadius s)).
Proof.
  induction t as [r l IH] using Shape_induction.
  intros [Hk Hl]%shaped_inv [|fuel] cr Hfuel; [simpl in Hfuel; lia|].
  simpl in Hfuel. apply le_S_n in Hfuel.
  pose proof Hk as (o & Ho & Hcs)%kids_Some.
  cbn [Drawing.drawLayout_ root default]. rewrite Ho. cbn [mbind option_bind].
  unfold LayoutNode.isLeaf. rewrite Hcs. cbn [mbind option_bind].
  cbn [nodes List.filter]. unfold leafNode at 1. rewrite Hk.
  assert (Hkids : forall cr0,
             foldlM (fun cr1 child =>
                       Drawing.drawLayout_ fuel cr1 (Some child) displayRect
                         (Some colors) (Some cornerRadius) s) cr0 (root <$> l)
             = Some (cr0 ++ (List.filter (leafNode s) (l ≫= nodes)
                             ≫= paintLeaf displayRect colors cornerRadius s))).
  { apply Forall_height in Hfuel. clear Hk Hcs.
    induction l as [|u l IHl]; intros cr0.
    { cbn. by rewrite app_nil_r. }
    apply Forall_cons in IH as [IHu IH]. apply Forall_cons in Hl as [Hu Hl].
    apply Forall_cons in Hfuel as [Hfu Hfuel].
    rewrite fmap_cons. cbn [foldlM]. rewrite (IHu Hu fuel cr0 Hfu).
    cbn [mbind option_bind]. rewrite (IHl IH Hl Hfuel).
    rewrite bind_cons_nodes, List.filter_app, bind_app. by rewrite app_assoc. }
  destruct l as [|u l].
  - cbn [fmap list_fmap length Nat.eqb foldlM mbind mjoin list_bind list_join app].
    cbn. rewrite app_nil_r. unfold paintLeaf. rewrite Ho.
    rewrite drawRoundedRect_app. by rewrite <- app_assoc.
  - rewrite fmap_cons. cbn [length Nat.eqb]. rewrite <- fmap_cons.
    by rewrite Hkids.
Qed.

(** * The grid of the dividers *)

Lemma posOnAxis_grid (D : Rect.t) (a : Axis) (q : Q) :
  finiteRect D = true ->
  exists (v : Q) (k : Z),
    LayoutNode.posOnAxis D a (JNum (Fin q)) = Fin v
    /\ (0 <= k)%Z
    /\ Num.eqb (Fin v) (Num.add (lo a D) (Num.ofZ (10 * k))) = true.
Proof.
  intros (x & y & w & h & ->)%finiteRect_inv.
  unfold LayoutNode.posOnAxis.
  cbn [Rect.x Rect.y Rect.width Rect.height toNumber].
  set (len := match a with AxisX => Fin w | AxisY => Fin h end).
  set (org := match a with AxisX => Fin x | AxisY => Fin y end).
  assert (Hlen : exists n, len = Fin n) by (destruct a; by eexists).
  assert (Horg : exists d, org = Fin d /\ lo a (Rect.mk (Fin x) (Fin y) (Fin w) (Fin h)) = Fin d)
    by (destruct a; by eexists).
  destruct Hlen as [n ->]. destruct Horg as (d & -> & ->).
  cbn [Num.mul Num.abs Num.div Num.ofZ Num.round Num.add].
  change (Qeq_bool (inject_Z 10) 0) with false. cbv iota.
  cbn [Num.round Num.mul Num.add].
  set (k := Qfloor (Qabs (n * q) / inject_Z 10 + (1 # 2))).
  exists (d + inject_Z k * inject_Z 10)%Q, k.
  split; [done|]. split.
  - change 0%Z with (Qfloor 0). apply Qfloor_resp_le.
    pose proof (Qabs_nonneg (n * q)) as Hp.
    assert (0 <= Qabs (n * q) / inject_Z 10)%Q.
    { apply Qle_shift_div_l; [done|]. by rewrite Qmult_0_l. }
    lra.
  - apply eqb_Fin. rewrite inject_Z_mult. ring.
Qed.

Lemma placeAll_edges (D R : Rect.t) (ps : list jsval) :
  forall pX pY rs pX' pY',
    placeAll D R pX pY ps = (rs, pX', pY') ->
    forall i p rc, ps !! i = Some p -> rs !! i = Some rc ->
      extent (axisOf p) rc
      = Num.sub (LayoutNode.posOnAxis D (axisOf p) p) (lo (axisOf p) rc).
Proof.
  induction ps as [|p0 ps IH]; intros pX pY rs pX' pY' Hrun i p rc Hp Hrc;
    [done|].
  cbn [placeAll] in Hrun.
  destruct (axisOf p0) eqn:Ea.
  - destruct (placeAll D R _ pY ps) as [[rs0 x0] y0] eqn:E.
    injection Hrun as <- <- <-.
    destruct i as [|i].
    + injection Hp as <-. injection Hrc as <-. by rewrite Ea.
    + by apply (IH _ _ _ _ _ E i).
  - destruct (placeAll D R pX _ ps) as [[rs0 x0] y0] eqn:E.
    injection Hrun as <- <- <-.
    destruct i as [|i].
    + injection Hp as <-. injection Hrc as <-. by rewrite Ea.
    + by apply (IH _ _ _ _ _ E i).
Qed.

Lemma placeAll_length (D R : Rect.t) (ps : list jsval) :
  forall pX pY rs pX' pY',
    placeAll D R pX pY ps = (rs, pX', pY') -> length rs = length ps.
Proof.
  induction ps as [|p0 ps IH]; intros pX pY rs pX' pY' Hrun.
  { by injection Hrun as <- <- <-. }
  cbn [placeAll] in Hrun.
  destruct (axisOf p0).
  - destruct (placeAll D R _ pY ps) as [[rs0 x0] y0] eqn:E.
    injection Hrun as <- <- <-. simpl. f_equal. by eapply IH.
  - destruct (placeAll D R pX _ ps) as [[rs0 x0] y0] eqn:E.
    injection Hrun as <- <- <-. simpl. f_equal. by eapply IH.
Qed.

Lemma layoutChildren_edges (D R : Rect.t) (ps : list jsval) (i : nat)
  (p : jsval) (rc : Rect.t) :
  S i < length ps -> ps !! i = Some p ->
  layoutChildren D R ps !! i = Some rc ->
  extent (axisOf p) rc
  = Num.sub (LayoutNode.posOnAxis D (axisOf p) p) (lo (axisOf p) rc).
Proof.
  intros Hi Hp. unfold layoutChildren.
  destruct (last ps) as [pl|] eqn:Hlast.
  2:{ apply last_None in Hlast. subst ps. simpl in Hi. lia. }
  destruct (placeAll D R (Rect.x R) (Rect.y R) (take (length ps - 1) ps))
    as [[rs pX] pY] eqn:E.
  pose proof (placeAll_length _ _ _ _ _ _ _ _ E) as Hlen.
  rewrite length_take in Hlen.
  rewrite lookup_app_l by lia. intros Hrc.
  apply (placeAll_edges _ _ _ _ _ _ _ _ E i); [|done].
  rewrite lookup_take_lt by lia. done.
Qed.

Lemma laidOut_subtree (s : store) (D : Rect.t) (t u : Shape) :
  laidOut s D t -> u ∈ subtrees t -> laidOut s D u.
Proof.
  induction t as [r l IH] using Shape_induction.
  intros Hlaid Hin. cbn [subtrees] in Hin.
  apply elem_of_cons in Hin as [->|Hin]; [done|].
  apply laidOut_inv in Hlaid as (_ & _ & _ & _ & _ & Hl).
  apply list_elem_of_bind in Hin as (t' & Hin & Ht').
  rewrite Forall_forall in IH, Hl. by apply (IH t' Ht'); [apply Hl|].
Qed.

(** * revert to a snapshot that is a tree of the store *)



(** * GridEditor: presets *)

(** X23: [#usePreset(layout)] gives the layout tree the structure of a
    new copy of the preset and keeps the root object: afterwards the
    layout serialises as the preset's clone with one margin on every
    node, the margin its first child had before (0 when it was a leaf),
    and it is laid out in the work area.  The preset itself is not
    touched: no other object that existed and no array that existed is
    changed, and a repaint is queued.  With [undefined] as the preset the
    call throws. *)
Theorem usePreset_copies_preset (ed : GridEditor.t) (s : store)
  (cs0 : list ref) (m : num) (tp : Shape) (vp : View)
  (Hkids : kids s (GridEditor.layoutTree ed) = Some cs0)
  (Hm : match head cs0 with
        | Some first => margin <$> objs s !! first = Some m
        | None => m = Num.ofZ 0
        end)
  (Hshaped : shaped s tp) (Hnodup : NoDup (nodes tp))
  (Hview : hasView 0 s (root tp) vp) :
  let r := GridEditor.layoutTree ed in
  (exists s' tr,
      GridEditor.usePreset ed (Some (root tp)) s
      = Some (GridEditor.queue_repaint ed, s')
      /\ hasView 0 s' r (withMargin m (cloneView vp))
      /\ LayoutNode.toJSON r s' = Some (encode (withMargin m (cloneView vp)))
      /\ root tr = r /\ shaped s' tr /\ NoDup (nodes tr)
      /\ rect <$> objs s' !! r = Some (GridEditor.workArea ed)
      /\ laidOut s' (GridEditor.workArea ed) tr
      /\ (forall x, x < length (objs s) -> x <> r -> objs s' !! x = objs s !! x)
      /\ (forall a, a < length (arrs s) -> arrs s' !! a = arrs s !! a))
  /\ GridEditor.usePreset ed None s = None.
Proof.
  intros r.
  apply kids_Some in Hkids as (ro & Hro & Hcs0). fold r in Hro.
  assert (Hmargin :
            (if length cs0 =? 0 then Some (Num.ofZ 0)
             else first ← head cs0;
                  fo ← objs s !! first;
                  Some (margin fo)) = Some m).
  { destruct cs0 as [|c0 cs0]; [by rewrite Hm|].
    cbn [head length Nat.eqb mbind option_bind] in *.
    destruct (objs s !! c0) as [fo|]; [|done]. simpl in *. congruence. }
  split.
  2:{ unfold GridEditor.usePreset. fold r. rewrite Hro. cbn [mbind option_bind].
      unfold LayoutNode.isLeaf. rewrite Hcs0. cbn [mbind option_bind].
      by rewrite Hmargin. }
  destruct (adopt_clone s tp vp r ro m (GridEditor.workArea ed)
              Hshaped Hnodup Hview Hro)
    as (s1 & c & s2 & s3 & s4 & tr & so & ch & Hclone & Hrevert & Hfor & Hcalc
        & _ & Hroot & Hs4 & Hnd & _ & Hv4 & Hjson & Hlaid & Ho4 & _ & Hobj & Harr).
  exists s4, tr.
  split.
  { unfold GridEditor.usePreset. fold r. rewrite Hro. cbn [mbind option_bind].
    unfold LayoutNode.isLeaf. rewrite Hcs0. cbn [mbind option_bind].
    rewrite Hmargin. cbn [mbind option_bind].
    rewrite Hclone. cbn [mbind option_bind].
    rewrite Hrevert. cbn [mbind option_bind].
    rewrite Hfor. cbn [mbind option_bind].
    by rewrite Hcalc. }
  split; [exact Hv4|]. split; [exact Hjson|]. split; [exact Hroot|].
  split; [exact Hs4|]. split; [exact Hnd|].
  split; [by rewrite Ho4|]. split; [exact Hlaid|].
  split; [exact Hobj|exact Harr].
Qed.

Lemma usePreset_copies_preset_witness :
  exists s',
    GridEditor.usePreset smallEditor (Some 2) smallStore
    = Some (GridEditor.queue_repaint smallEditor, s')
    /\ LayoutNode.toJSON 3 s'
       = Some (encode (withMargin (Num.ofZ 0) (cloneView smallView))).
Proof.
  destruct (usePreset_copies_preset smallEditor smallStore [0; 1] (Num.ofZ 0)
              smallTree smallView)
    as [(s' & tr & Hrun & _ & Hjson & _) _].
  - reflexivity.
  - reflexivity.
  - exact smallTree_shaped.
  - exact smallTree_NoDup.
  - exact smallTree_view.
  - exists s'. split; [exact Hrun|exact Hjson].
Defined.

(** X24: a press on a preset area of the save dialog gives the area's
    tree the structure of a new copy of the layout, with margin 0 on
    every node, laid out in the rectangle the area's tree had, and queues
    a repaint of that area only.  The layout itself is not touched: no
    other object that existed and no array that existed is changed. *)
Theorem savePreset_copies_layout (ed : GridEditor.t) (s : store) (i : nat)
  (tree : ref) (n : nat) (ao : obj) (t : Shape) (v : View)
  (Harea : GridEditor.presetAreas ed !! i = Some (tree, n))
  (Hao : objs s !! tree = Some ao)
  (Hlayout : root t = GridEditor.layoutTree ed)
  (Hshaped : shaped s t) (Hnodup : NoDup (nodes t))
  (Hview : hasView 0 s (root t) v) :
  exists s' tr,
    GridEditor.onSavePresetPress ed i s
    = Some (GridEditor.set_presetAreas
              (<[i := (tree, S n)]> (GridEditor.presetAreas ed)) ed, s')
    /\ hasView 0 s' tree (withMargin (Num.ofZ 0) (cloneView v))
    /\ LayoutNode.toJSON tree s'
       = Some (encode (withMargin (Num.ofZ 0) (cloneView v)))
    /\ root tr = tree /\ shaped s' tr /\ NoDup (nodes tr)
    /\ rect <$> objs s' !! tree = Some (rect ao)
    /\ laidOut s' (rect ao) tr
    /\ (forall x, x < length (objs s) -> x <> tree -> objs s' !! x = objs s !! x)
    /\ (forall a, a < length (arrs s) -> arrs s' !! a = arrs s !! a).
Proof.
  destruct (adopt_clone s t v tree ao (Num.ofZ 0) (rect ao)
              Hshaped Hnodup Hview Hao)
    as (s1 & c & s2 & s3 & s4 & tr & so & ch & Hclone & Hrevert & Hfor & Hcalc
        & _ & Hroot & Hs4 & Hnd & _ & Hv4 & Hjson & Hlaid & Ho4 & _ & Hobj & Harr).
  exists s4, tr.
  split.
  { unfold GridEditor.onSavePresetPress. rewrite Harea. cbn [mbind option_bind].
    rewrite Hao. cbn [mbind option_bind].
    rewrite <- Hlayout, Hclone. cbn [mbind option_bind].
    rewrite Hrevert. cbn [mbind option_bind].
    rewrite Hfor. cbn [mbind option_bind].
    by rewrite Hcalc. }
  split; [exact Hv4|]. split; [exact Hjson|]. split; [exact Hroot|].
  split; [exact Hs4|]. split; [exact Hnd|].
  split; [by rewrite Ho4|]. split; [exact Hlaid|].
  split; [exact Hobj|exact Harr].
Qed.

Lemma savePreset_copies_layout_witness :
  exists s',
    GridEditor.onSavePresetPress
      (GridEditor.mk workArea 2 [3] (PreviewSplitOperation.new 2) false true 0
                     [(3, 0)]) 0 smallStore
    = Some (GridEditor.mk workArea 2 [3] (PreviewSplitOperation.new 2) false
                          true 0 [(3, 1)], s')
    /\ LayoutNode.toJSON 3 s'
       = Some (encode (withMargin (Num.ofZ 0) (cloneView smallView))).
Proof.
  destruct (savePreset_copies_layout
              (GridEditor.mk workArea 2 [3] (PreviewSplitOperation.new 2) false
                             true 0 [(3, 0)])
              smallStore 0 3 0
              (set_margin (Num.ofZ 5) (LayoutNode.fresh (JNum (Fin 0)) 2))
              smallTree smallView)
    as (s' & tr & Hrun & _ & Hjson & _).
  - reflexivity.
  - reflexivity.
  - reflexivity.
  - exact smallTree_shaped.
  - exact smallTree_NoDup.
  - exact smallTree_view.
  - exists s'. split; [exact Hrun|exact Hjson].
Defined.

(** * GridEditor: the event handlers *)

(** X25: an event the editor lets propagate has changed nothing.  When
    [#onMotion], [#onButtonPress] or [#onButtonRelease] returns
    [EVENT_PROPAGATE], the store, the preview operation's snapshot and
    the editor are as before and no repaint was queued; for
    [#onKeyRelease] and [#onKeyPress] the same holds but for the dialogs,
    which [space] and [Alt] hide or show (with a repaint of the preset
    areas) before the operations are asked. *)
Theorem editor_propagate_changes_nothing (ed ed' : GridEditor.t)
  (x y : num) (state button key : Z) (s s' : store) :
  (GridEditor.onMotion ed x y state s
   = Some (GridEditor.EVENT_PROPAGATE, ed', s') -> ed' = ed /\ s' = s)
  /\ (GridEditor.onButtonPress ed x y state button s
      = Some (GridEditor.EVENT_PROPAGATE, ed', s') -> ed' = ed /\ s' = s)
  /\ (GridEditor.onButtonRelease ed x y state button s
      = Some (GridEditor.EVENT_PROPAGATE, ed', s') -> ed' = ed /\ s' = s)
  /\ (GridEditor.onKeyRelease ed x y state key s
      = Some (GridEditor.EVENT_PROPAGATE, ed', s') ->
      s' = s
      /\ ed' = if (key =? GridEditor.KEY_space)%Z
                  || (key =? GridEditor.KEY_Alt_L)%Z
                  || (key =? GridEditor.KEY_Alt_R)%Z
               then GridEditor.set_dialogs false false ed else ed)
  /\ (GridEditor.onKeyPress ed x y state key s
      = Some (GridEditor.EVENT_PROPAGATE, ed', s') ->
      s' = s
      /\ ed' = if (key =? GridEditor.KEY_space)%Z
               then GridEditor.repaintPresetAreas
                      (GridEditor.set_dialogs true false ed)
               else if (key =? GridEditor.KEY_Alt_L)%Z
                       || (key =? GridEditor.KEY_Alt_R)%Z
               then GridEditor.repaintPresetAreas
                      (GridEditor.set_dialogs false true ed)
               else ed).
Proof.
  assert (Hset : forall e : GridEditor.t,
             GridEditor.set_previewOperation (GridEditor.previewOperation e) e = e)
    by (by intros []).
  split; [|split; [|split; [|split]]].
  - unfold GridEditor.onMotion. intros H.
    destruct (PreviewSplitOperation.onMotion _ x y state s)
      as [[[[r|] op] s1]|] eqn:Hp; try discriminate H.
    apply (preview_not_handled _ _ (Motion x y state)) in Hp as [-> ->].
    cbn [mbind option_bind] in H.
    destruct (ResizeOperation.onMotion _ x y state s) as [[[r|] s2]|] eqn:Hr;
      try discriminate H.
    apply (resize_not_handled _ (Motion x y state)) in Hr as ->.
    cbn in H. injection H as <- <-. by rewrite Hset.
  - unfold GridEditor.onButtonPress. intros H.
    destruct (PreviewSplitOperation.onButtonPress _ x y state button s)
      as [[[[r|] op] s1]|] eqn:Hp; try discriminate H.
    apply (preview_not_handled _ _ (ButtonPress x y state button)) in Hp as [-> ->].
    cbn [mbind option_bind] in H.
    destruct (ResizeOperation.onButtonPress _ x y state button s)
      as [[[r|] s2]|] eqn:Hr; try discriminate H.
    apply (resize_not_handled _ (ButtonPress x y state button)) in Hr as ->.
    cbn in H. injection H as <- <-. by rewrite Hset.
  - unfold GridEditor.onButtonRelease. intros H.
    destruct (PreviewSplitOperation.onButtonRelease _ x y state button s)
      as [[[[r|] op] s1]|] eqn:Hp; try discriminate H.
    apply (preview_not_handled _ _ (ButtonRelease x y state button)) in Hp as [-> ->].
    cbn [mbind option_bind] in H.
    destruct (ResizeOperation.onButtonRelease _ x y state button s)
      as [[[r|] s2]|] eqn:Hr; try discriminate H.
    apply (resize_not_handled _ (ButtonRelease x y state button)) in Hr as ->.
    cbn in H. injection H as <- <-. by rewrite Hset.
  - unfold GridEditor.onKeyRelease. intros H.
    destruct (PreviewSplitOperation.onKeyRelease _ x y state s)
      as [[[[r|] op] s1]|] eqn:Hp; try discriminate H.
    apply (preview_not_handled _ _ (KeyRelease x y state)) in Hp as [-> ->].
    cbn in H. injection H as <- <-. by rewrite Hset.
  - unfold GridEditor.onKeyPress. intros H.
    destruct (PreviewSplitOperation.onKeyPress _ x y state key s)
      as [[[[r|] op] s1]|] eqn:Hp; try discriminate H.
    apply (preview_not_handled _ _ (KeyPress x y state key)) in Hp as [-> ->].
    cbn [mbind option_bind ResizeOperation.onKeyPress] in H.
    destruct (MarginsOperation.onKeyPress _ x y state key s)
      as [[[r|] s2]|] eqn:Hm; try discriminate H.
    apply (margins_not_handled _ (KeyPress x y state key)) in Hm as ->.
    cbn [mbind option_bind] in H.
    destruct (PresetShortcutOperation.onKeyPress _ x y state key _)
      as [[r|] w] eqn:Hk; [destruct w as [[? ?]|]; discriminate H|].
    apply (preset_not_handled _ (KeyPress x y state key)) in Hk as ->.
    cbn in H. injection H as <- <-. split; [done|].
    rewrite Hset.
    destruct (key =? GridEditor.KEY_space)%Z eqn:E; [|done].
    apply Z.eqb_eq in E. by subst key.
Qed.

Lemma editor_propagate_changes_nothing_witness :
  exists ed' s',
    GridEditor.onMotion smallEditor (Num.ofZ 0) (Num.ofZ 0) 0 smallStore
    = Some (GridEditor.EVENT_PROPAGATE, ed', s')
    /\ ed' = smallEditor /\ s' = smallStore.
Proof.
  eexists _, _. split; [reflexivity|].
  apply (editor_propagate_changes_nothing smallEditor _ (Num.ofZ 0) (Num.ofZ 0)
           0 0 0 smallStore _).
  reflexivity.
Defined.

(** X26: where a key press goes when no preview is under way (no node
    of the layout is a preview, neither [CTRL] nor [SHIFT] is held).
    [Page_Up] and [Page_Down] reach the margins operation: the event is
    stopped, the store is the one [MarginsOperation.onKeyPress] leaves
    and one repaint is queued.  The keys [1] to [8] reach [#usePreset]
    with the preset of the key's index; the event is stopped and a second
    repaint is queued after the one of [#usePreset].  Any other key but
    [space] and [Alt] propagates and changes nothing. *)
Theorem editor_key_routing (ed : GridEditor.t) (s : store) (t : Shape)
  (x y : num) (state key : Z)
  (Hshaped : shaped s t) (Hnodup : NoDup (nodes t))
  (Hroot : root t = GridEditor.layoutTree ed)
  (Hop : PreviewSplitOperation.tree (GridEditor.previewOperation ed)
         = GridEditor.layoutTree ed)
  (Hctrl : PreviewSplitOperation.ctrlPressed state = false)
  (Hshift : PreviewSplitOperation.shiftPressed state = false)
  (Hidle : find (holds s isPreview) (nodes t) = None) :
  (key = Clutter.KEY_Page_Up \/ key = Clutter.KEY_Page_Down ->
   exists s',
     MarginsOperation.onKeyPress (MarginsOperation.new (GridEditor.layoutTree ed))
       x y state key s
     = Some (OperationResult.handledAndRedraw, s')
     /\ GridEditor.onKeyPress ed x y state key s
        = Some (GridEditor.EVENT_STOP, GridEditor.queue_repaint ed, s'))
  /\ (forall i, presetIndex key = Some i ->
        GridEditor.onKeyPress ed x y state key s
        = '(ed', s') ← GridEditor.usePreset ed (GridEditor.presets ed !! i) s;
          Some (GridEditor.EVENT_STOP, GridEditor.queue_repaint ed', s'))
  /\ (key <> Clutter.KEY_Page_Up -> key <> Clutter.KEY_Page_Down ->
      presetIndex key = None ->
      key <> GridEditor.KEY_space -> key <> GridEditor.KEY_Alt_L ->
      key <> GridEditor.KEY_Alt_R ->
      GridEditor.onKeyPress ed x y state key s
      = Some (GridEditor.EVENT_PROPAGATE, ed, s)).
Proof.
  assert (Hset : GridEditor.set_previewOperation (GridEditor.previewOperation ed) ed
                 = ed) by (by destruct ed).
  assert (Hpreview :
            PreviewSplitOperation.onKeyPress (GridEditor.previewOperation ed)
              x y state key s
            = Some (OperationResult.notHandled, GridEditor.previewOperation ed, s)).
  { apply (handlePreview_idle _ s t); try done. by rewrite Hop. }
  assert (Hrun : (key =? GridEditor.KEY_space)%Z = false ->
                 (key =? GridEditor.KEY_Alt_L)%Z = false ->
                 (key =? GridEditor.KEY_Alt_R)%Z = false ->
                 GridEditor.onKeyPress ed x y state key s
                 = '(result, s1) ←
                     MarginsOperation.onKeyPress (GridEditor.marginsOperation ed)
                       x y state key s;
                   match result with
                   | Some _ => Some (GridEditor.handleOperationResult ed result, s1)
                   | None =>
                       let '(result, w) :=
                         PresetShortcutOperation.onKeyPress
                           (GridEditor.presetShortcutOperation ed)
                           x y state key (Some (ed, s1)) in
                       '(this, s2) ← w;
                       Some (GridEditor.handleOperationResult this result, s2)
                   end).
  { intros E1 E2 E3. unfold GridEditor.onKeyPress.
    rewrite E1, E2, E3. cbn [orb]. rewrite Hpreview.
    cbn [mbind option_bind ResizeOperation.onKeyPress]. by rewrite Hset. }
  split; [|split].
  - intros Hkey.
    destruct t as [r l]. cbn [root] in Hroot. subst r.
    set (op := MarginsOperation.new (GridEditor.layoutTree ed)).
    assert (Hstep : forall d,
               exists s',
                 (s1 ← LayoutNode.forDescendants (MarginsOperation.step op d)
                        (GridEditor.layoutTree ed) s;
                  s2 ← LayoutNode.calculateRects (GridEditor.layoutTree ed) None s1;
                  Some (OperationResult.handledAndRedraw, s2))
                 = Some (OperationResult.handledAndRedraw, s')).
    { intros d.
      destruct (forDescendants_applies (MarginsOperation.step op d) s
                  (GridEditor.layoutTree ed) l)
        as (s1 & Hrun1 & Happ); [done|done|done|].
      rewrite Hrun1. cbn [mbind option_bind].
      assert (Hs1 : shaped s1 (Sh (GridEditor.layoutTree ed) l))
        by (by apply (shaped_applied (MarginsOperation.step op d) (l ≫= nodes) s s1)).
      destruct (shaped_root _ _ Hs1) as [o1 Ho1].
      destruct (calculateRects_again s1 _ o1 Hs1 Hnodup Ho1) as (s2 & Hrun2 & _).
      cbn [root] in Hrun2. rewrite Hrun2. by exists s2. }
    assert (Hm : exists s',
               MarginsOperation.onKeyPress op x y state key s
               = Some (OperationResult.handledAndRedraw, s')).
    { unfold MarginsOperation.onKeyPress. cbn [MarginsOperation.tree op].
      destruct Hkey as [-> | ->]; cbn [Z.eqb Pos.eqb Clutter.KEY_Page_Up
        Clutter.KEY_Page_Down]; apply Hstep. }
    destruct Hm as [s' Hm]. exists s'. split; [exact Hm|].
    rewrite Hrun by (by destruct Hkey as [-> | ->]).
    unfold GridEditor.marginsOperation. fold op. rewrite Hm. reflexivity.
  - intros i Hi.
    assert (Hk : (key =? GridEditor.KEY_space)%Z = false
                 /\ (key =? GridEditor.KEY_Alt_L)%Z = false
                 /\ (key =? GridEditor.KEY_Alt_R)%Z = false
                 /\ (key =? Clutter.KEY_Page_Up)%Z = false
                 /\ (key =? Clutter.KEY_Page_Down)%Z = false).
    { unfold presetIndex in Hi.
      repeat (destruct (key =? _)%Z eqn:E in Hi;
              [apply Z.eqb_eq in E; subst key; by repeat split|clear E]).
      discriminate Hi. }
    destruct Hk as (E1 & E2 & E3 & E4 & E5).
    rewrite Hrun by done.
    unfold MarginsOperation.onKeyPress. rewrite E4, E5.
    cbn [mbind option_bind].
    unfold PresetShortcutOperation.onKeyPress, presetIndex in *.
    cbn [GridEditor.presetShortcutOperation PresetShortcutOperation.presets
         PresetShortcutOperation.onUsePreset].
    revert Hi.
    repeat match goal with
           | |- (if (key =? ?k)%Z then _ else _) = _ -> _ =>
               destruct (key =? k)%Z;
               [intros [= <-]; cbn [mbind option_bind];
                by destruct (GridEditor.usePreset ed _ s) as [[? ?]|]|]
           end.
    intros Hi. discriminate Hi.
  - intros Hup Hdown Hnone Hspace HaltL HaltR.
    rewrite Hrun by (by apply Z.eqb_neq).
    unfold MarginsOperation.onKeyPress.
    rewrite (proj2 (Z.eqb_neq _ _) Hup), (proj2 (Z.eqb_neq _ _) Hdown).
    cbn [mbind option_bind].
    unfold PresetShortcutOperation.onKeyPress, presetIndex in *.
    revert Hnone.
    repeat match goal with
           | |- (if (key =? ?k)%Z then _ else _) = _ -> _ =>
               destruct (key =? k)%Z; [intros Hnone; discriminate Hnone|]
           end.
    reflexivity.
Qed.

Lemma editor_key_routing_witness :
  exists s',
    GridEditor.onKeyPress smallEditor (Num.ofZ 0) (Num.ofZ 0) 0
      Clutter.KEY_Page_Up smallStore
    = Some (GridEditor.EVENT_STOP, GridEditor.queue_repaint smallEditor, s').
Proof.
  destruct (editor_key_routing smallEditor smallStore (Sh 3 [Sh 0 []; Sh 1 []])
              (Num.ofZ 0) (Num.ofZ 0) 0 Clutter.KEY_Page_Up)
    as [H _].
  - repeat constructor.
  - apply (bool_decide_unpack _). vm_compute. exact I.
  - reflexivity.
  - reflexivity.
  - reflexivity.
  - reflexivity.
  - reflexivity.
  - destruct (H (or_introl eq_refl)) as (s' & _ & Hrun). by exists s'.
Defined.

(** * The usable screen area *)

(** X27: for a display index that is a number, a display geometry of
    finite numbers and panels with heights that are numbers and not
    negative, [getUsableScreenArea] returns the display rectangle less
    the panels that cannot hide: [x] and [y] are moved in by the total
    height of the left and of the top panels, [width] is the display
    width less the total height of the left and right panels, [height]
    the display height less that of the top and bottom panels, each
    floored at 0; panels that can hide count for nothing.  For
    [undefined] or [null] it returns [null]. *)
Theorem usable_area_excludes_panels (get_monitor_geometry : num -> Rect.t)
  (getPanelsInMonitor : num -> list Panel.t) (idx : num) (dx dy dw dh : Q)
  (Hgeometry : get_monitor_geometry idx
               = Rect.mk (Fin dx) (Fin dy) (Fin dw) (Fin dh))
  (Hsolid : Forall solidPanel (getPanelsInMonitor idx)) :
  let T := fun loc => thickness loc (getPanelsInMonitor idx) in
  (exists x y w h : Q,
      WindowUtils.getUsableScreenArea get_monitor_geometry getPanelsInMonitor
        (JNum idx)
      = Some (Rect.mk (Fin x) (Fin y) (Fin w) (Fin h))
      /\ (x == dx + T Panel.left)%Q
      /\ (y == dy + T Panel.top)%Q
      /\ (w == Qmax 0 (dw - T Panel.left - T Panel.right))%Q
      /\ (h == Qmax 0 (dh - T Panel.top - T Panel.bottom))%Q
      /\ (0 <= w)%Q /\ (0 <= h)%Q /\ (dx <= x)%Q /\ (dy <= y)%Q)
  /\ WindowUtils.getUsableScreenArea get_monitor_geometry getPanelsInMonitor
       JUndefined = None
  /\ WindowUtils.getUsableScreenArea get_monitor_geometry getPanelsInMonitor
       JNull = None.
Proof.
  intros T. split; [|done].
  unfold WindowUtils.getUsableScreenArea. rewrite Hgeometry.
  cbn [Rect.x Rect.y Rect.width Rect.height Num.add].
  destruct (addPanels_spec _ Hsolid dy (dy + dh)%Q dx (dx + dw)%Q)
    as (t' & b' & l' & r' & -> & Ht & Hb & Hl & Hr).
  fold (T Panel.top) in Ht. fold (T Panel.bottom) in Hb.
  fold (T Panel.left) in Hl. fold (T Panel.right) in Hr.
  cbn [Num.sub Num.neg Num.add].
  destruct (max_Fin (inject_Z 0) (r' + - l')) as (w & Hw & Hwmax).
  destruct (max_Fin (inject_Z 0) (b' + - t')) as (h & Hh & Hhmax).
  unfold Num.ofZ. rewrite Hw, Hh.
  pose proof (thickness_nonneg Panel.left _ Hsolid) as HL.
  pose proof (thickness_nonneg Panel.top _ Hsolid) as HT.
  fold (T Panel.left) in HL. fold (T Panel.top) in HT.
  change (inject_Z 0) with 0%Q in *.
  exists l', t', w, h. split; [done|]. split; [exact Hl|]. split; [exact Ht|].
  assert (Hwq : (w == Qmax 0 (dw - T Panel.left - T Panel.right))%Q).
  { rewrite Hwmax.
    destruct (Q.max_spec 0 (r' + - l')) as [[? ->]|[? ->]];
      destruct (Q.max_spec 0 (dw - T Panel.left - T Panel.right))
        as [[? ->]|[? ->]]; lra. }
  assert (Hhq : (h == Qmax 0 (dh - T Panel.top - T Panel.bottom))%Q).
  { rewrite Hhmax.
    destruct (Q.max_spec 0 (b' + - t')) as [[? ->]|[? ->]];
      destruct (Q.max_spec 0 (dh - T Panel.top - T Panel.bottom))
        as [[? ->]|[? ->]]; lra. }
  split; [exact Hwq|]. split; [exact Hhq|].
  split; [rewrite Hwq; apply Q.le_max_l|].
  split; [rewrite Hhq; apply Q.le_max_l|].
  split; lra.
Qed.

Lemma usable_area_excludes_panels_witness :
  exists x y w h : Q,
    WindowUtils.getUsableScreenArea
      (fun _ => Rect.mk (Fin 0) (Fin 0) (Fin 1920) (Fin 1080))
      (fun _ => [Panel.mk false Panel.bottom (Fin 40);
                 Panel.mk true Panel.left (Fin 60)])
      (JNum (Fin 0))
    = Some (Rect.mk (Fin x) (Fin y) (Fin w) (Fin h))
    /\ (w == 1920)%Q /\ (h == 1040)%Q.
Proof.
  destruct (usable_area_excludes_panels
              (fun _ => Rect.mk (Fin 0) (Fin 0) (Fin 1920) (Fin 1080))
              (fun _ => [Panel.mk false Panel.bottom (Fin 40);
                         Panel.mk true Panel.left (Fin 60)])
              (Fin 0) 0 0 1920 1080 eq_refl)
    as [(x & y & w & h & Hrun & _ & _ & Hw & Hh & _) _].
  - repeat constructor; eexists; (split; [reflexivity|]); done.
  - exists x, y, w, h. split; [exact Hrun|].
    split; [by rewrite Hw|by rewrite Hh].
Defined.

(** * drawLayout *)

(** X28: [drawLayout] on a tree of the store draws the leaves and
    nothing else, in pre-order: for each leaf one rounded rectangle at
    the leaf's rectangle, moved by the origin of [displayRect] and shrunk
    by the leaf's margin on all four sides, filled with the highlight
    colour when the leaf is highlighted and with the background colour
    otherwise, and stroked with the border colour.  Internal nodes are
    not drawn; what was on the context before is kept; for [null] nothing
    is drawn.  Colours and corner radius left out are the default colours
    and 10. *)
Theorem drawLayout_draws_leaves (s : store) (t : Shape)
  (cr : list Drawing.Cairo) (displayRect : Rect.t)
  (colors : option Drawing.Colors) (cornerRadius : option num)
  (Hshaped : shaped s t) (Hnodup : NoDup (nodes t)) :
  Drawing.drawLayout cr (Some (root t)) displayRect colors cornerRadius s
  = Some (cr ++ (List.filter (leafNode s) (nodes t)
                 ≫= paintLeaf displayRect (default Drawing.DefaultColors colors)
                      (default (Num.ofZ 10) cornerRadius) s))
  /\ Drawing.drawLayout cr None displayRect colors cornerRadius s = Some cr.
Proof.
  split; [|done].
  unfold Drawing.drawLayout.
  rewrite <- (drawLayout_spec displayRect _ _ s t Hshaped (budget s) cr
                (height_budget s t Hshaped Hnodup)).
  unfold budget. by destruct colors, cornerRadius.
Qed.

Lemma drawLayout_draws_leaves_witness :
  Drawing.drawLayout [] (Some 2) LayoutNode.zeroRect None None smallStore
  = Some (paintLeaf LayoutNode.zeroRect Drawing.DefaultColors (Num.ofZ 10)
            smallStore 0
          ++ paintLeaf LayoutNode.zeroRect Drawing.DefaultColors (Num.ofZ 10)
               smallStore 1).
Proof.
  destruct (drawLayout_draws_leaves smallStore smallTree [] LayoutNode.zeroRect
              None None smallTree_shaped smallTree_NoDup) as [H _].
  exact H.
Defined.

(** * The grid of the dividers *)

(** X29: the dividers lie on a grid of 10 pixels.  After
    [calculateRects(x, y, width, height)] with finite numbers, every
    child that is not the last child of its parent and whose percentage
    is a finite number has, along its axis, the extent [pos - start],
    where [start] is its own position and [pos] is the origin of the
    rectangle given to the root plus a multiple of 10 that is not
    negative: the percentage is rounded to that grid. *)
Theorem dividers_on_grid (s : store) (t : Shape) (R : Rect.t)
  (Hshaped : shaped s t) (Hnodup : NoDup (nodes t))
  (Hfinite : finiteRect R = true) :
  exists s',
    LayoutNode.calculateRects (root t) (Some R) s = Some s'
    /\ forall r l i u c q,
         Sh r l ∈ subtrees t -> l !! i = Some u -> S i < length l ->
         objs s' !! root u = Some c -> percentage c = JNum (Fin q) ->
         exists (pos : num) (k : Z),
           extent (LayoutNode.axis c) (rect c)
           = Num.sub pos (lo (LayoutNode.axis c) (rect c))
           /\ (0 <= k)%Z
           /\ Num.eqb pos (Num.add (lo (LayoutNode.axis c) R) (Num.ofZ (10 * k)))
              = true.
Proof.
  destruct (calculateRects_laysOut t (budget s) s R None Hshaped Hnodup
              (height_budget s t Hshaped Hnodup))
    as (s' & Hrun & _ & _ & Hlaid).
  exists s'. split; [exact Hrun|]. cbn [default] in Hlaid.
  intros r l i u c q Hin Hu Hi Hc Hq.
  apply (laidOut_subtree s' R t (Sh r l)) in Hlaid; [|done].
  apply laidOut_inv in Hlaid as (o & os & Ho & Hos & Hrs & _).
  apply objects_Forall2 in Hos.
  assert (Hri : (root <$> l) !! i = Some (root u))
    by by rewrite list_lookup_fmap, Hu.
  destruct (Forall2_lookup_l _ _ _ _ _ Hos Hri) as (c' & Hc' & Hoc).
  rewrite Hc in Hoc. injection Hoc as <-.
  pose proof (Forall2_length _ _ _ Hos) as Hlen. rewrite length_fmap in Hlen.
  destruct (posOnAxis_grid R (LayoutNode.axis c) q Hfinite)
    as (v & k & Hpos & Hk & Hgrid).
  exists (Fin v), k. split; [|done].
  rewrite <- Hpos, <- Hq, axis_axisOf.
  apply (layoutChildren_edges R (rect o) (percentage <$> os) i).
  - rewrite length_fmap. lia.
  - by rewrite list_lookup_fmap, Hc'.
  - by rewrite <- Hrs, list_lookup_fmap, Hc'.
Qed.

Lemma dividers_on_grid_witness :
  exists s',
    LayoutNode.calculateRects 2 (Some workArea) smallStore = Some s'
    /\ forall c,
         objs s' !! 0 = Some c -> percentage c = JNum (Fin (-1 # 2)) ->
         exists (pos : num) (k : Z),
           Rect.height (rect c) = Num.sub pos (Rect.y (rect c))
           /\ (0 <= k)%Z
           /\ Num.eqb pos (Num.add (Rect.y workArea) (Num.ofZ (10 * k))) = true.
Proof.
  destruct (dividers_on_grid smallStore smallTree workArea
              smallTree_shaped smallTree_NoDup eq_refl)
    as (s' & Hrun & Hgrid).
  exists s'. split; [exact Hrun|].
  intros c Hc Hq.
  destruct (Hgrid 2 [Sh 0 []; Sh 1 []] 0 (Sh 0 []) c (-1 # 2))
    as (pos & k & He & Hk & Hpos); [by left|done|simpl; lia|done|done|].
  unfold LayoutNode.axis, LayoutNode.isColumn in He, Hpos.
  rewrite Hq in He, Hpos.
  by exists pos, k.
Defined.

(** * Cancelling a preview *)


